(* ===== verification/_CoqProject ===== *)
-Q . S2P
Prelude.v
Memory.v
Config.v
Addr.v
FrameIface.v
Frame.v
FreeList.v
BuddyInv.v
BuddyAlloc.v
BuddyFree.v
BuddyInit.v
FrameProps.v
PageTable.v
PageTableInv.v
PageTableWalk.v
PageTableOps.v
PageTableProps.v
Space.v
SpaceInv.v
SpaceMap.v
SpaceOps.v
SpaceFork.v
SpaceUser.v
SpaceWrite.v
SpaceProps.v
KernelMap.v
KernelSpace.v
KernelSpaceProps.v
Entry.v
EntryProps.v
Loader.v
LoaderProps.v
Heap.v
HeapInv.v
HeapOps.v
HeapProps.v
Device.v
Uart.v
UartProps.v
Asm.v
AsmProps.v
Trap.v
Task.v
Sched.v
SchedProps.v
SchedFair.v
SchedLive.v
Kernel.v
Process.v
Syscall.v
ArgsProps.v
User.v
UserProps.v
ShellProps.v
ImageProps.v
ProcessProps.v
LifeProps.v
SyscallProps.v
KernelDemo.v
FrameTypes.v
Holdings.v
Isolation.v
CallIsolation.v
TrapIsolation.v
ProcessIsolation.v
Spin.v
SpinProps.v
Blocking.v
BlockingProps.v
Abi.v
Programs.v
ProgramProps.v
Boot.v
KernelBoot.v
Format.v
Console.v
Health.v
Survive.v
SurviveTraps.v
KernelSurvives.v
