(* ===== verification/Prelude.v ===== *)
(** * AlexOS, verified

    AlexOS is a small RISC-V kernel in Rust with a handful of user programs.
    This library models its code as Rocq functions and proves what makes the
    parts correct and what they promise each other.  Source paths below are
    relative to src/; kernel files are under kernel/src/.

    ** The program

    Firmware enters entry.S, which turns paging on and calls kmain (main.rs).
    A buddy allocator hands out physical frames (mm/frame.rs).  The kernel heap
    (mm/heap.rs), page tables (mm/page_table.rs), address spaces (mm/space.rs)
    and kernel stacks (task/context.rs) are built from frames.  The loader
    (loader.rs) turns an ELF image into an address space; task/process.rs makes
    processes out of that: creation, fork, exec, program break, exit.  The
    scheduler (task/scheduler.rs) is a three-level feedback queue, with wait
    queues (sync/wait.rs) for sleeping.  Traps (trap/) enter through assembly,
    are decoded and dispatched to the timer (timer.rs), the interrupt controller
    and console drivers (drivers/), or the system calls (syscall/mod.rs).  User
    programs (user/src) reach the kernel only through system calls.

    ** How code is modelled

    - A Rust computation is an [outcome]: a value or [Panic].  Code that changes
      state is in the state monad [ST]; [wp] is total correctness, so a theorem
      stated with [wp], or as [= Ret _], says that the code returns and does not
      panic.  Errors are values of [option] or [result].
      [wlp] is partial correctness; it is used where a panic is a possible and
      safe end, in the invariants of FrameTypes and ProcessIsolation.  That the
      same steps do not panic is the subject of KernelSurvives.
    - Integers are [Z] at their width.  Both build profiles check overflow, so
      [+!], [-!], [*!] and [<<!] panic outside 64 bits; the wrapping operations of
      the source wrap.  debug assertions are off, as in the release profile.
    - Memory is a total map from kernel virtual addresses to bytes (Memory); page
      tables, free lists and bitmaps are bytes in it, not abstract data.  Rust
      objects that own frames are values, dropped where the source drops them.
    - An [Arc<Task>] is the task's pid in a shared store (Task), so every holder
      sees the same object.  A trap frame in a [Box] is an address.
    - What lies outside the repository is a parameter with its laws: the device
      bus ([Device.Bus], with the console chip's laws in UartProps), the firmware
      ([Kernel.Firmware]), the embedded program images.  Each is instantiated by a
      concrete one in the witnesses.
    - One hart runs the kernel: entry.S parks the others.  Spin locks, whose
      purpose is several harts, are modelled with any number of them (Spin).
    - The operations of Kernel, Process and Syscall run from start to end, or to
      the point where they switch away, without an interrupt in between, although
      the source runs system calls with interrupts on.  This holds for the steps of
      ProcessIsolation and KernelSurvives too.  The interleavings with interrupts
      and preemption are the subject of SchedProps, Spin, Blocking and KernelDemo.
    - Kernel objects ([Box], [Vec], [Arc]) are always to be had: that the kernel
      heap runs out is not modelled outside Heap.

    ** The files

    - Prelude: the vocabulary above, proof rules for [wp], tactics, generic
      lemmas.  Memory, Config (config.rs), Addr (mm/addr.rs).
    - FrameIface: the class [FrameAllocator], what clients of the frame allocator
      may rely on.  Everything above frames is proved against it.
    - Frame (mm/frame.rs), with FreeList and BuddyInv (representation and
      invariant), BuddyAlloc, BuddyFree, BuddyInit, and FrameProps: the allocator
      implements the interface; in every history of calls blocks are disjoint,
      nothing is lost, and allocation fails only if no aligned run is free; [init]
      establishes the invariant on any range.
    - PageTable (mm/page_table.rs), with PageTableInv, PageTableWalk, PageTableOps
      and PageTableProps: each operation against the partial map from virtual
      pages to entries that the tables in memory denote.
    - Space (mm/space.rs), with SpaceInv, SpaceMap, SpaceOps, SpaceFork, SpaceUser,
      SpaceWrite and SpaceProps: user memory is a flat byte map; copying in and
      out, duplication for fork and destruction are proved against it, errors and
      release of frames included.  How many frames an operation may take is part
      of these statements, so that running out of memory has a stated cause.
    - KernelMap, KernelSpace and KernelSpaceProps: the page walk of the hardware
      ([hw_addr]), superpages included, and init_kernel_space (mm/space.rs) against
      it, for any image laid out as linker.ld does: the MMU maps exactly the listed
      regions, linearly, and nothing writable is executable or open to user mode.
    - Entry and EntryProps (entry.S): the instructions from the firmware to kmain,
      fetched through that walk once paging is on.
    - Loader (loader.rs) and LoaderProps: for every byte string the loader returns,
      with exactly the segments in memory or with every frame given back; it
      succeeds on a well-formed image ([loadable]) when enough frames are left.
    - Heap (mm/heap.rs), with HeapInv, HeapOps and HeapProps: the allocation
      contract under every history of calls.
    - Device, Uart (drivers/uart.rs) and UartProps: the receive ring is a bounded
      queue, the interrupt handler returns and loses at most one byte, only when
      the ring is full.
    - Asm (task/switch.S, trap/trap.S, trap/user.S) and AsmProps: the instructions
      and what they preserve, with what [sret] does to the status register.  Trap
      (trap/context.rs, the decoder of trap/mod.rs).
    - Task (task/mod.rs, task/context.rs), Sched (task/scheduler.rs), SchedProps,
      SchedFair, SchedLive: each task is in exactly one place in every reachable
      state, no wake-up is lost between a task's decision to block and its switch,
      tasks of one level take turns, and no compute-bound task starves.
    - Kernel: the whole state, wait queues, the idle loop, timer.rs, drivers/plic.rs.
      Process (task/process.rs), Syscall (syscall/mod.rs, the handlers of
      trap/mod.rs, programs.rs).  ArgsProps, ImageProps, ProcessProps, LifeProps,
      SyscallProps: exec, fork, the program break, exit, waitpid, read and write,
      each as a whole, from the call down to frames.  KernelDemo is a concrete
      kernel on which these theorems are instantiated, and one on which a parent
      waits for ever.
    - FrameTypes: every handler, through every sleep on the way, keeps each trap
      frame 38 machine words; a lemma library of KernelSurvives.
    - Holdings, Isolation, CallIsolation, TrapIsolation, ProcessIsolation: who holds
      which page and which trap frame.  Holdings states it, with the operations that
      pass resources on; the next three go through the system calls, the handlers,
      the idle loop and process creation; the last composes them with user programs
      that store through the MMU.  From boot on, in every sequence of these steps,
      no two tasks share a page or a frame, a running program reaches only
      pages of its own, and a step for one process leaves the others alone.
    - User (user/src/lib.rs, the splitter of user/src/bin/sh.rs), UserProps,
      ShellProps: arguments arrive as they were given; line editing; splitting.
    - Spin and SpinProps (sync/spin.rs, [Once] of sync/mod.rs): mutual exclusion
      and no deadlock of a hart with itself.  Blocking and BlockingProps ([Mutex]
      and [Semaphore] of sync/wait.rs): exclusion and permit counting under every
      interleaving.
    - Abi (the wrappers of user/src/lib.rs): both sides of the system call
      interface agree.
    - Programs (user/src/bin) and ProgramProps: the programs as interaction trees,
      run against an abstract system: the shell's answer to every line, init's
      rounds, forktest ends, echo prints its arguments.  The abstract
      system states what the programs rely on; that the kernel provides it is what
      the theorems about fork, exec and waitpid are for, and is not derived from
      them formally.
    - Boot (sbi.rs, console.rs, backtrace.rs, test_device.rs, main.rs): timer
      deadlines do not drift, backtraces are bounded.
    - KernelBoot (mm/mod.rs, drivers/mod.rs, main.rs): [kmain] on the state the
      firmware hands over brings every layer up, tells the devices exactly what it
      should, and leaves init as the only process, provided it is well formed and
      memory suffices; it ends in a state the theorems above start from.
    - Format ([Debug] and [Display] implementations, [ps], the banner): the texts,
      over a model of the format directives the kernel uses; numbers read back,
      permission letters are the bits, a register dump determines the registers.
    - Console (console.rs, lang_items.rs, ktest.rs, [fatal] of trap/mod.rs): printing
      reaches the line whole and in order; what a panic does until the machine
      stops; a test run ends in success when every test passes.
    - Health, Survive, SurviveTraps, KernelSurvives: programs do not bring the
      kernel down, within the limits listed under bounds.  Health states what the code relies on
      beyond holdings (the scheduler's invariant, wait queues whose entries exist,
      a frame for every task, an intact ring), and that the operations return then;
      Survive does the same for each system call, through every sleep; SurviveTraps
      does the handlers, a successful [exec] included, and the idle loop;
      KernelSurvives composes them into a machine that takes one event after another and proves
      that every event its [possible] allows is handled without a panic.

    ** Defects the model shows

    Theorems that state a defect of the code, next to what they are about:
    [push_failure_dangles] (SpaceProps; a region that runs out of memory leaves
    entries to freed frames), [copy_from_user_correct] (SpaceProps; no permission is
    checked), [sys_read_correct] (SyscallProps; input is lost when the buffer cannot
    be written), [kernel_trap_preserves] (AsmProps; a trap
    in the kernel changes [t0]), [wake_window_queues_twice] (SchedFair; only with a
    second hart), [exec_return_uses_freed_frame] (SyscallProps; the store hits a free
    heap block and, by [heap_ok_free_store] of HeapProps, harms nothing as long as
    nobody allocates in between), [mutex_wakeup_lost]
    (BlockingProps), [unordered_drop_deadlocks] (SpinProps; guards dropped out of
    order), [exit_wakes_too_early] (KernelDemo), [leading_space_runs_nothing] and
    [full_line_not_terminated] (ProgramProps), [panic_correct] (Console; a panic
    while the console is locked).

    ** Bounds and fuel

    Loops that are not structural take fuel, and running out of it is [Panic], so
    that a theorem of total correctness also shows that the fuel suffices.  It is
    computed from the data: the number of orders in the frame allocator, of pages
    or bytes in the loops of Space, of headers in Loader, of tasks in [drop_arc],
    the ring's capacity in the console's [drain], the line's length in [split].
    Five loops depend on the outside world and take their bound as an argument:
    waiting for the transmitter ([poll]; [thr_max] rounds are enough by the law of
    the device), sleeping again after a wake-up ([wakes]), claiming interrupts
    ([irqs]), searching a NUL ([cstr_at]) and reading the clock in a busy wait
    ([spin_until]).  The addresses of physical memory are
    below 2^38, as Sv39's direct map requires.

    Hypotheses with a number in them: the kernel space needs 74 frames, and the
    boot theorem 6 MiB of memory after the image, which is what the tables and the
    smallest buddy metadata take; an [init] that may take [n] frames becomes a
    process when 7 MiB and 36 KiB for each of them lie above the image, which leaves
    an aligned block of 8 frames for its kernel stack; the clock of the machine
    starts below 2^63, so that the first deadline does not overflow.  Process
    isolation assumes that pids do not run out after 2^64 processes, that the
    embedded programs end below the stack ([fits], decidable by [fits_check]), and
    that a refused [sbrk] changed nothing ([sbrk_clean]), because of the first defect
    above.  KernelSurvives assumes the same, and what [possible] and [Environment]
    list: the clock stays below 2^54, a timer interrupt comes after its deadline,
    and the interrupts that arrive while others are serviced come to an end; its
    interrupts in kernel mode are those of the idle loop.

    Some helpers model one loop or statement of a function (an update of a field, a
    label of entry.S).  Not all of these have an entry of their own in PROJECT.json:
    those that have none lie within the lines of a definition that has one.

    ** Not modelled

    - Fences and the TLB; [wfi].
    - How core::fmt cuts a text into the pieces it writes (any way will do), and
      its quoted strings, which only [Debug] of tasks uses.
    - [heap::self_test], and the log lines: those of the initialisation, of killed
      processes, unknown system calls and a failed exec, and the table [ps] prints
      (its text is in Format), leave no trace in the state of Kernel.
    - The bodies of kernel tasks ([spawn] is modelled; only the test build calls it).
    - The bodies of the tests (tests.rs) and the build scripts.
    - Relaxed memory: atomics are sequentially consistent steps. *)
From stdpp Require Import base numbers list.
From Stdlib Require Import Lia.

#[global] Open Scope Z_scope.

(** ** Outcomes: a Rust computation returns a value or panics *)

Inductive outcome (A : Type) : Type :=
| Ret (a : A)
| Panic.
Arguments Ret {A} _.
Arguments Panic {A}.

#[export] Instance outcome_ret : MRet outcome := @Ret.
#[export] Instance outcome_bind : MBind outcome := λ A B f m,
  match m with Ret a => f a | Panic => Panic end.
#[export] Instance outcome_fmap : FMap outcome := λ A B f m,
  match m with Ret a => Ret (f a) | Panic => Panic end.

(** Rust's [assert!] and [expect]. *)
Definition assert (b : bool) : outcome unit := if b then Ret tt else Panic.
Definition expect {A} (o : option A) : outcome A :=
  match o with Some a => Ret a | None => Panic end.

(** Rust's [Result]. *)
Inductive result (E A : Type) : Type :=
| Ok (a : A)
| Err (e : E).
Arguments Ok {E A} _.
Arguments Err {E A} _.

(** ** State and panics: the effect of code that owns mutable kernel state *)

Definition ST (S A : Type) : Type := S → outcome (A * S).

#[export] Instance ST_ret S : MRet (ST S) := λ A a s, Ret (a, s).
#[export] Instance ST_bind S : MBind (ST S) := λ A B f m s,
  match m s with Ret (a, s') => f a s' | Panic => Panic end.

Definition get {S} : ST S S := λ s, Ret (s, s).
Definition put {S} (s' : S) : ST S unit := λ _, Ret (tt, s').
Definition lift {S A} (o : outcome A) : ST S A := λ s,
  match o with Ret a => Ret (a, s) | Panic => Panic end.

(** Total correctness: [m] started in [s] does not panic and ends in a value
    and state satisfying [Q]. *)
Definition wp {S A} (m : ST S A) (Q : A → S → Prop) (s : S) : Prop :=
  match m s with Ret (a, s') => Q a s' | Panic => False end.

(** ** Machine-width arithmetic

    [usize] and [u64] are [Z] in [0, 2^64).  The kernel is built with
    [overflow-checks = true] in both profiles, so plain [+], [-], [*] and [<<]
    panic when they leave the range. *)
Definition U64 : Z := 2 ^ 64.
Definition usize_max : Z := 2 ^ 64 - 1.

Definition u64_add (x y : Z) : outcome Z := if x + y <? U64 then Ret (x + y) else Panic.
Definition u64_sub (x y : Z) : outcome Z := if y <=? x then Ret (x - y) else Panic.
Definition u64_mul (x y : Z) : outcome Z := if x * y <? U64 then Ret (x * y) else Panic.
(** [x << k] panics when [k >= 64]; bits shifted out are lost silently. *)
Definition u64_shl (x k : Z) : outcome Z :=
  if k <? 64 then Ret (Z.shiftl x k `mod` U64) else Panic.
Definition u64_shr (x k : Z) : outcome Z :=
  if k <? 64 then Ret (Z.shiftr x k) else Panic.
(** [!x] on an unsigned 64-bit word. *)
Definition u64_not (x : Z) : Z := usize_max - x.
Definition wrapping_add (x y : Z) : Z := (x + y) `mod` U64.
Definition checked_add (x y : Z) : option Z := if x + y <? U64 then Some (x + y) else None.
Definition checked_sub (x y : Z) : option Z := if y <=? x then Some (x - y) else None.
Definition saturating_sub (x y : Z) : Z := Z.max 0 (x - y).
Definition div_ceil (x y : Z) : Z := (x + y - 1) `div` y.
(** [usize::next_multiple_of]: the smallest multiple of [y] not below [x]. *)
Definition next_multiple_of (x y : Z) : outcome Z :=
  match x `mod` y with
  | 0 => Ret x
  | r => u64_add x (y - r)
  end.
Definition is_multiple_of (x y : Z) : bool := x `mod` y =? 0.

Declare Scope u64_scope.
Delimit Scope u64_scope with u64.
Notation "x +! y" := (u64_add x y) (at level 50, left associativity) : u64_scope.
Notation "x -! y" := (u64_sub x y) (at level 50, left associativity) : u64_scope.
Notation "x *! y" := (u64_mul x y) (at level 40, left associativity) : u64_scope.
Notation "x <<! k" := (u64_shl x k) (at level 40, left associativity) : u64_scope.
Notation "x >>! k" := (u64_shr x k) (at level 40, left associativity) : u64_scope.
#[global] Open Scope u64_scope.

(** ** Fixed-size arrays: indexing past the end panics *)

Definition arr_get {A} (l : list A) (i : Z) : outcome A :=
  if i <? 0 then Panic else expect (l !! Z.to_nat i).
Definition arr_set {A} (l : list A) (i : Z) (x : A) : outcome (list A) :=
  if (0 <=? i) && (i <? Z.of_nat (length l)) then Ret (<[Z.to_nat i := x]> l) else Panic.

(** ** Proof support *)

(** Rewriting with permutations under [++] and [::]. *)
#[export] Instance app_perm {A} : Proper ((≡ₚ) ==> (≡ₚ) ==> (≡ₚ)) (@app A).
Proof. intros l1 l1' H1 l2 l2' H2. by apply Permutation_app. Qed.

#[export] Instance cons_perm {A} (x : A) : Proper ((≡ₚ) ==> (≡ₚ)) (cons x).
Proof. intros l l' HP. by apply perm_skip. Qed.

Create HintDb alexos.
Create HintDb alexos_wp.

Lemma Ret_inj {A S} (a a' : A) (s s' : S) : Ret (a, s) = Ret (a', s') → a = a' ∧ s = s'.
Proof. by intros [= -> ->]. Qed.

Section wp_rules.
Context {S : Type}.

Lemma wp_ret {A} (a : A) (Q : A → S → Prop) s : Q a s → wp (mret a) Q s.
Proof. done. Qed.

Lemma wp_bind {A B} (m : ST S A) (k : A → ST S B) (Q : B → S → Prop) s :
  wp m (λ a, wp (k a) Q) s → wp (m ≫= k) Q s.
Proof. unfold wp, mbind, ST_bind. by destruct (m s) as [[a s']|]. Qed.

Lemma wp_bind_inv {A B} (m : ST S A) (k : A → ST S B) (Q : B → S → Prop) s :
  wp (m ≫= k) Q s → wp m (λ a, wp (k a) Q) s.
Proof. unfold wp, mbind, ST_bind. by destruct (m s) as [[a s']|]. Qed.

Lemma wp_mono {A} (m : ST S A) (Q Q' : A → S → Prop) s :
  (∀ a s', Q a s' → Q' a s') → wp m Q s → wp m Q' s.
Proof. unfold wp. intros HQ. destruct (m s) as [[a s']|]; auto. Qed.

Lemma wp_conj {A} (m : ST S A) (Q Q' : A → S → Prop) s :
  wp m Q s → wp m Q' s → wp m (λ a s', Q a s' ∧ Q' a s') s.
Proof. unfold wp. by destruct (m s) as [[a s']|]. Qed.

Lemma wp_get (Q : S → S → Prop) s : Q s s → wp get Q s.
Proof. done. Qed.

Lemma wp_put s' (Q : unit → S → Prop) s : Q tt s' → wp (put s') Q s.
Proof. done. Qed.

Lemma wp_lift {A} (o : outcome A) a (Q : A → S → Prop) s :
  o = Ret a → Q a s → wp (lift o) Q s.
Proof. by intros ->. Qed.

(** A terminating run read off as an equation. *)
Lemma wp_run {A} (m : ST S A) (Q : A → S → Prop) s :
  wp m Q s → ∃ a s', m s = Ret (a, s') ∧ Q a s'.
Proof. unfold wp. destruct (m s) as [[a s']|]; naive_solver. Qed.

Lemma wp_of_run {A} (m : ST S A) (Q : A → S → Prop) s a s' :
  m s = Ret (a, s') → Q a s' → wp m Q s.
Proof. unfold wp. by intros ->. Qed.
End wp_rules.

#[export] Hint Resolve wp_ret wp_get wp_put : alexos_wp.

(** Partial correctness, for properties of the runs that return. *)
Definition wlp {S A} (m : ST S A) (Q : A → S → Prop) (s : S) : Prop := ∀ a s', m s = Ret (a, s') → Q a s'.

Section wlp_rules.
Context {S : Type}.

Lemma wlp_ret {A} (a : A) (Q : A → S → Prop) s : Q a s → wlp (mret a) Q s.
Proof. by intros HQ ? ? [<- <-]%Ret_inj. Qed.
Lemma wlp_get (Q : S → S → Prop) s : Q s s → wlp get Q s.
Proof. by intros HQ ? ? [<- <-]%Ret_inj. Qed.
Lemma wlp_put s' (Q : unit → S → Prop) s : Q tt s' → wlp (put s') Q s.
Proof. by intros HQ ? ? [<- <-]%Ret_inj. Qed.
Lemma wlp_bind {A B} (m : ST S A) (k : A → ST S B) (Q : B → S → Prop) s :
  wlp m (λ a, wlp (k a) Q) s → wlp (m ≫= k) Q s.
Proof.
  intros Hm b s2. unfold mbind, ST_bind. destruct (m s) as [[a s1]|] eqn:E; [|done]. by apply (Hm a s1 E).
Qed.
Lemma wlp_lift {A} (o : outcome A) (Q : A → S → Prop) s : (∀ a, o = Ret a → Q a s) → wlp (lift o) Q s.
Proof. intros HQ a s'. unfold lift. destruct o as [x|]; [|done]. intros [<- <-]%Ret_inj. by apply HQ. Qed.
Lemma wlp_mono {A} (m : ST S A) (Q Q' : A → S → Prop) s :
  (∀ a s', Q a s' → Q' a s') → wlp m Q s → wlp m Q' s.
Proof. intros HQ Hm a s' Hr. by apply HQ, Hm. Qed.
Lemma wp_wlp_conj {A} (m : ST S A) (Q R : A → S → Prop) s : wp m Q s → wlp m R s → wp m (λ a s', Q a s' ∧ R a s') s.
Proof. unfold wp, wlp. intros Hm Hr. destruct (m s) as [[a s']|]; [|done]. split; [done|by apply Hr]. Qed.
Lemma wp_wlp {A} (m : ST S A) Q s : wp m Q s → wlp m Q s.
Proof. unfold wp, wlp. by intros Hw a s' E; rewrite E in Hw. Qed.
Lemma wp_true {A} (m : ST S A) (Q : A → S → Prop) s : wp m Q s → wp m (λ _ _, True) s.
Proof. unfold wp. by destruct (m s) as [[]|]. Qed.
End wlp_rules.

Ltac wlp_step :=
  lazymatch goal with
  | |- wlp (_ ≫= _) _ _ => apply wlp_bind
  | |- wlp (mret _) _ _ => apply wlp_ret
  | |- wlp get _ _ => apply wlp_get
  | |- wlp (put _) _ _ => apply wlp_put
  | |- wlp (lift _) _ _ => apply wlp_lift; intros ? ?
  end; cbv beta.
Ltac wlp_steps := repeat wlp_step.

(** One symbolic execution step of a monadic program. *)
Ltac wp_step :=
  lazymatch goal with
  | |- wp (_ ≫= _) _ _ => apply wp_bind
  | |- wp (mret _) _ _ => apply wp_ret
  | |- wp get _ _ => apply wp_get
  | |- wp (put _) _ _ => apply wp_put
  end; cbv beta.
Ltac wp_steps := repeat wp_step.

(** A decidable fact about closed lists, by evaluation. *)
Ltac list_side := refine (bool_decide_unpack _ _); vm_compute; exact I.

(** Split every boolean comparison of the goal into its arithmetic cases. *)
Ltac case_bool :=
  repeat match goal with
  | |- context [ (?x <? ?y) ] => destruct (Z.ltb_spec x y)
  | |- context [ (?x <=? ?y) ] => destruct (Z.leb_spec x y)
  | |- context [ (?x =? ?y) ] => destruct (Z.eqb_spec x y)
  end.

(** Turn boolean hypotheses into propositions. *)
Ltac bool_hyps :=
  repeat match goal with
  | H : (_ && _)%bool = true |- _ => apply andb_prop in H as [? ?]
  | H : (_ <? _) = true |- _ => apply Z.ltb_lt in H
  | H : (_ <? _) = false |- _ => apply Z.ltb_ge in H
  | H : (_ <=? _) = true |- _ => apply Z.leb_le in H
  | H : (_ <=? _) = false |- _ => apply Z.leb_gt in H
  | H : (_ =? _) = true |- _ => apply Z.eqb_eq in H
  | H : (_ =? _) = false |- _ => apply Z.eqb_neq in H
  end.

(** ** Machine arithmetic *)

Lemma u64_add_ok x y : x + y < U64 → x +! y = Ret (x + y).
Proof. unfold u64_add. intros. case_bool; [done|lia]. Qed.
Lemma u64_sub_ok x y : y ≤ x → x -! y = Ret (x - y).
Proof. unfold u64_sub. intros. case_bool; [done|lia]. Qed.
Lemma u64_mul_ok x y : x * y < U64 → x *! y = Ret (x * y).
Proof. unfold u64_mul. intros. case_bool; [done|lia]. Qed.
Lemma u64_shl_ok x k : 0 ≤ x → 0 ≤ k < 64 → x * 2 ^ k < U64 → x <<! k = Ret (x * 2 ^ k).
Proof.
  intros. unfold u64_shl. case_bool; [|lia].
  rewrite Z.shiftl_mul_pow2 by lia. rewrite Z.mod_small; [done|nia].
Qed.
Lemma u64_shr_ok x k : 0 ≤ k < 64 → x >>! k = Ret (x `div` 2 ^ k).
Proof. intros. unfold u64_shr. case_bool; [|lia]. by rewrite Z.shiftr_div_pow2 by lia. Qed.

Lemma u64_add_inv x y z : x +! y = Ret z → z = x + y ∧ x + y < U64.
Proof. unfold u64_add. case_bool; naive_solver. Qed.
Lemma u64_sub_inv x y z : x -! y = Ret z → z = x - y ∧ y ≤ x.
Proof. unfold u64_sub. case_bool; naive_solver. Qed.

Lemma div_ceil_spec x y : 0 < y → x ≤ div_ceil x y * y < x + y.
Proof.
  intros. unfold div_ceil.
  pose proof (Z.div_mod (x + y - 1) y). pose proof (Z.mod_pos_bound (x + y - 1) y). lia.
Qed.

Lemma div_ceil_le x y z : 0 < y → x ≤ z * y → div_ceil x y ≤ z.
Proof. intros Hy Hx. pose proof (div_ceil_spec x y Hy). nia. Qed.

Lemma next_multiple_of_spec x y :
  0 < y → x + y ≤ U64 →
  ∃ z, next_multiple_of x y = Ret z ∧ (y | z) ∧ x ≤ z < x + y.
Proof.
  intros Hy Hx. unfold next_multiple_of.
  pose proof (Z.mod_pos_bound x y Hy) as Hb. pose proof (Z.div_mod x y) as Hd.
  destruct (x `mod` y) as [|r|r] eqn:Hr; [|..].
  - exists x. split; [done|]. split; [|lia]. exists (x `div` y). lia.
  - exists (x + (y - Z.pos r)). rewrite u64_add_ok by lia.
    split; [done|]. split; [|lia]. exists (x `div` y + 1). lia.
  - lia.
Qed.

Lemma u64_not_mask k x : 0 ≤ k ≤ 64 → 0 ≤ x < U64 →
  Z.land x (u64_not (2 ^ k - 1)) = x - x `mod` 2 ^ k.
Proof.
  intros Hk Hx.
  assert (Hm : x `mod` 2 ^ k = Z.land x (Z.ones k)) by (rewrite Z.land_ones; lia).
  assert (Hsplit : Z.land x (u64_not (2 ^ k - 1)) = Z.ldiff x (Z.ones k)).
  { apply Z.bits_inj'. intros i Hi. rewrite Z.land_spec, Z.ldiff_spec.
    unfold u64_not, usize_max.
    replace (2 ^ 64 - 1 - (2 ^ k - 1)) with (Z.ldiff (Z.ones 64) (Z.ones k)).
    - rewrite Z.ldiff_spec, !Z.testbit_ones_nonneg by lia.
      destruct (Z.ltb_spec i 64); [by destruct (Z.testbit x i), (i <? k)|].
      rewrite (Z.bits_above_log2 x i); [done|lia|].
      destruct (decide (x = 0)) as [->|]; [simpl; lia|].
      apply Z.log2_lt_pow2; [lia|]. unfold U64 in Hx.
      eapply Z.lt_le_trans; [apply Hx|]. apply Z.pow_le_mono_r; lia.
    - rewrite <- (Z.sub_nocarry_ldiff (Z.ones 64) (Z.ones k)).
      + rewrite !Z.ones_equiv. lia.
      + apply Z.bits_inj'. intros j Hj. rewrite Z.ldiff_spec, Z.bits_0, !Z.testbit_ones_nonneg by lia.
        destruct (Z.ltb_spec j k), (Z.ltb_spec j 64); simpl; try done. lia. }
  rewrite Hsplit, Hm.
  pose proof (Z.lor_ldiff_and x (Z.ones k)) as Hl.
  assert (Hd : Z.land (Z.ldiff x (Z.ones k)) (Z.land x (Z.ones k)) = 0).
  { apply Z.bits_inj'. intros i Hi. rewrite !Z.land_spec, Z.ldiff_spec, Z.bits_0.
    by destruct (Z.testbit x i), (Z.testbit (Z.ones k) i). }
  pose proof (Z.add_lor_land (Z.ldiff x (Z.ones k)) (Z.land x (Z.ones k))) as Ha.
  lia.
Qed.
