(* ===== verification/Memory.v ===== *)
(** * Physical memory through the direct map

    The kernel reaches every physical frame at [p + VIRT_OFFSET].  Memory is a
    total map from kernel virtual addresses to bytes; raw-pointer reads and
    writes, [write_bytes] and [copy_nonoverlapping] are the operations below.
    Multi-byte integers are little-endian, as on RISC-V. *)
From stdpp Require Import base numbers list.
From coqutil Require Import Byte Word.LittleEndianList.
From Stdlib Require Import Lia.
From Stdlib Require Strings.Byte.
From S2P Require Import Prelude.

Abbreviation x00 := Corelib.Init.Byte.x00.

#[export] Instance byte_eq_dec : EqDecision byte := Stdlib.Strings.Byte.byte_eq_dec.

Definition mem : Type := Z → byte.

Definition load_bytes (m : mem) (a : Z) (n : nat) : list byte :=
  map (λ i : nat, m (a + Z.of_nat i)) (seq 0 n).
Definition load64 (m : mem) (a : Z) : Z := le_combine (load_bytes m a 8).

Definition store_bytes (m : mem) (a : Z) (bs : list byte) : mem := λ x,
  if (a <=? x) && (x <? a + Z.of_nat (length bs))
  then nth (Z.to_nat (x - a)) bs x00 else m x.
Definition store64 (m : mem) (a v : Z) : mem := store_bytes m a (le_split 8 v).

(** [core::ptr::write_bytes] *)
Definition fill (m : mem) (a n : Z) (b : byte) : mem := λ x,
  if (a <=? x) && (x <? a + n) then b else m x.

(** [core::ptr::copy_nonoverlapping] within memory *)
Definition copy (m : mem) (src dst n : Z) : mem := λ x,
  if (dst <=? x) && (x <? dst + n) then m (src + (x - dst)) else m x.

(** Agreement of two memories on a set of addresses. *)
Definition agree (P : Z → Prop) (m m' : mem) : Prop := ∀ a, P a → m' a = m a.

(** The bytes of [[a, a+n)]. *)
Definition span (a n : Z) : Z → Prop := λ x, a ≤ x < a + n.

#[export] Instance agree_refl P : Reflexive (agree P).
Proof. by intros m a. Qed.
#[export] Instance agree_trans P : Transitive (agree P).
Proof. intros m1 m2 m3 H1 H2 a Ha. by rewrite H2, H1. Qed.

Lemma agree_weaken (P P' : Z → Prop) m m' :
  (∀ a, P' a → P a) → agree P m m' → agree P' m m'.
Proof. intros HP Hm a Ha. auto. Qed.

Lemma load_bytes_length m a n : length (load_bytes m a n) = n.
Proof. unfold load_bytes. by rewrite length_map, length_seq. Qed.

Lemma load_bytes_ext m m' a n :
  agree (span a (Z.of_nat n)) m m' → load_bytes m' a n = load_bytes m a n.
Proof.
  intros Hm. unfold load_bytes. apply map_ext_in. intros i Hi%in_seq.
  apply Hm. unfold span. lia.
Qed.

Lemma load64_ext m m' a : agree (span a 8) m m' → load64 m' a = load64 m a.
Proof. intros Hm. unfold load64. by rewrite (load_bytes_ext m m'). Qed.

Lemma load64_range m a : 0 ≤ load64 m a < U64.
Proof. unfold load64. pose proof (le_combine_bound (load_bytes m a 8)) as H. by rewrite load_bytes_length in H. Qed.

Lemma store_bytes_out m a bs x :
  ¬ span a (Z.of_nat (length bs)) x → store_bytes m a bs x = m x.
Proof. unfold span, store_bytes. intros. case_bool; simpl; try done; lia. Qed.

Lemma store_bytes_in m a bs i b :
  bs !! i = Some b → store_bytes m a bs (a + Z.of_nat i) = b.
Proof.
  intros Hi. pose proof (lookup_lt_Some _ _ _ Hi). unfold store_bytes.
  case_bool; simpl; try lia.
  replace (Z.to_nat (a + Z.of_nat i - a)) with i by lia.
  by apply nth_lookup_Some.
Qed.

Lemma load_store_bytes m a bs : load_bytes (store_bytes m a bs) a (length bs) = bs.
Proof.
  apply list_eq. intros i. unfold load_bytes. rewrite list_lookup_fmap.
  destruct (decide (i < length bs)%nat) as [Hi|Hi].
  - rewrite lookup_seq_lt by done. simpl.
    destruct (lookup_lt_is_Some_2 bs i Hi) as [b Hb].
    by rewrite (store_bytes_in _ _ _ _ _ Hb), Hb.
  - rewrite lookup_seq_ge by lia. simpl. symmetry. apply lookup_ge_None. lia.
Qed.

Lemma store64_out m a v x : ¬ span a 8 x → store64 m a v x = m x.
Proof. intros. apply store_bytes_out. by rewrite length_le_split. Qed.

Lemma store64_agree (P : Z → Prop) m a v :
  (∀ x, span a 8 x → ¬ P x) → agree P m (store64 m a v).
Proof. intros HP x Hx. apply store64_out. intros Hs. by apply (HP x). Qed.

Lemma load_store64 m a v : 0 ≤ v < U64 → load64 (store64 m a v) a = v.
Proof.
  intros Hv. unfold load64, store64.
  pose proof (load_store_bytes m a (le_split 8 v)) as H. rewrite length_le_split in H.
  rewrite H, le_combine_split. apply Z.mod_small. done.
Qed.

Lemma load_store64_ne m a v a' :
  a + 8 ≤ a' ∨ a' + 8 ≤ a → load64 (store64 m a v) a' = load64 m a'.
Proof. intros. apply load64_ext, store64_agree. unfold span. lia. Qed.

Lemma fill_in m a n b x : span a n x → fill m a n b x = b.
Proof. unfold span, fill. intros. case_bool; simpl; try done; lia. Qed.

Lemma fill_out m a n b x : ¬ span a n x → fill m a n b x = m x.
Proof. unfold span, fill. intros. case_bool; simpl; try done; lia. Qed.

Lemma fill_agree (P : Z → Prop) m a n b :
  (∀ x, span a n x → ¬ P x) → agree P m (fill m a n b).
Proof. intros HP x Hx. apply fill_out. intros Hs. by apply (HP x). Qed.

Lemma load64_zero m a : (∀ x, span a 8 x → m x = x00) → load64 m a = 0.
Proof.
  intros Hz. unfold load64.
  assert (Hl : load_bytes m a 8 = repeat x00 8).
  { unfold load_bytes. simpl. rewrite !Hz; [done|unfold span; lia..]. }
  rewrite Hl. apply le_combine_0.
Qed.

#[export] Hint Resolve load64_range : alexos.
