(* ===== verification/Config.v ===== *)
(** * Compile-time layout (kernel/src/config.rs)

    The constants of the machine and of the address space, in the source's
    order.  Values are evaluated literals so that witnesses compute. *)
From stdpp Require Import base numbers.
From S2P Require Import Prelude.

Definition PAGE_SIZE : Z := 4096.
Definition PAGE_SHIFT : Z := 12.
Definition SV39_LEVELS : Z := 3.
Definition PTE_PER_TABLE : Z := 512.
Definition VIRT_OFFSET : Z := 0xffffffc000000000.
Definition KERNEL_PHYS_BASE : Z := 0x80200000.
Definition DRAM_BASE : Z := 0x80000000.
Definition DRAM_SIZE : Z := 128 * 1024 * 1024.
Definition KERNEL_HEAP_SIZE : Z := 8 * 1024 * 1024.
Definition BOOT_STACK_SIZE : Z := 64 * 1024.
Definition KERNEL_STACK_SIZE : Z := 32 * 1024.
Definition MAX_HARTS : Z := 4.
Definition TICK_MS : Z := 10.
Definition TIMER_FREQ : Z := 10000000.
Definition USER_IMAGE_BASE : Z := 0x10000.
Definition USER_STACK_TOP : Z := 0x3ffffff000.
Definition USER_STACK_SIZE : Z := 256 * 1024.
Definition USER_HEAP_BASE : Z := 0x10000000.
Definition USER_MAX_ADDR : Z := 0x4000000000.
Definition CLINT_BASE : Z := 0x2000000.
Definition PLIC_BASE : Z := 0xc000000.
Definition UART_BASE : Z := 0x10000000.
Definition UART_IRQ : Z := 10.
Definition VIRTIO_MMIO_BASE : Z := 0x10001000.
Definition VIRTIO_MMIO_STRIDE : Z := 0x1000.
Definition VIRTIO_MMIO_SLOTS : Z := 8.
Definition VIRTIO_IRQ_BASE : Z := 1.
Definition TEST_DEVICE_BASE : Z := 0x100000.
Definition BLOCK_SIZE : Z := 4096.
Definition BLOCK_CACHE_CAPACITY : Z := 256.
