(* ===== verification/Addr.v ===== *)
(** * Typed addresses (kernel/src/mm/addr.rs)

    [PhysAddr], [VirtAddr], [PhysPageNum] and [VirtPageNum] are transparent
    newtypes over [usize]; here each is an alias of [Z].  The two address types
    share the methods of the [impl_addr_common!] macro. *)
From stdpp Require Import base numbers list.
From Stdlib Require Import Lia.
From S2P Require Import Prelude Config.

Definition PhysAddr := Z.
Definition VirtAddr := Z.
Definition PhysPageNum := Z.
Definition VirtPageNum := Z.

(** ** Methods shared by [PhysAddr] and [VirtAddr] *)
Definition page_offset (a : Z) : Z := Z.land a (PAGE_SIZE - 1).
Definition is_aligned (a : Z) : bool := page_offset a =? 0.
Definition align_down (a : Z) : Z := Z.land a (u64_not (PAGE_SIZE - 1)).
Definition align_up (a : Z) : outcome Z :=
  s ← a +! PAGE_SIZE;
  s ← s -! 1;
  mret (Z.land s (u64_not (PAGE_SIZE - 1))).

(** ** [PhysAddr] *)
Definition ppn (a : PhysAddr) : PhysPageNum := Z.shiftr a PAGE_SHIFT.
(** Debug assertions are off: the alignment is not checked. *)
Definition ppn_exact (a : PhysAddr) : PhysPageNum := Z.shiftr a PAGE_SHIFT.
Definition to_virt (a : PhysAddr) : outcome VirtAddr := a +! VIRT_OFFSET.

(** ** [VirtAddr] *)
Definition vpn (a : VirtAddr) : VirtPageNum := Z.shiftr a PAGE_SHIFT.
Definition vpn_exact (a : VirtAddr) : VirtPageNum := Z.shiftr a PAGE_SHIFT.
Definition to_phys (a : VirtAddr) : outcome PhysAddr := a -! VIRT_OFFSET.
Definition is_kernel (a : VirtAddr) : bool := VIRT_OFFSET <=? a.
(** Two's-complement reading of a 64-bit word, and the word of a value. *)
Definition as_i64 (x : Z) : Z := if x <? 2 ^ 63 then x else x - U64.
Definition as_usize (z : Z) : Z := z `mod` U64.
Definition is_canonical (a : VirtAddr) : bool :=
  let shifted := as_i64 (as_usize (Z.shiftl (as_i64 a) 25)) in
  let sign_extended := as_usize (Z.shiftr shifted 25) in
  sign_extended =? a.

(** ** [PhysPageNum] *)
Definition ppn_base_addr (p : PhysPageNum) : PhysAddr := as_usize (Z.shiftl p PAGE_SHIFT).
Definition as_ptr (p : PhysPageNum) : Z :=
  wrapping_add (as_usize (Z.shiftl p PAGE_SHIFT)) VIRT_OFFSET.
Definition PhysPageNum_next (p : PhysPageNum) : outcome PhysPageNum := p +! 1.

(** ** [VirtPageNum] *)
Definition vpn_base_addr (v : VirtPageNum) : VirtAddr := as_usize (Z.shiftl v PAGE_SHIFT).
Definition indices (v : VirtPageNum) : list Z :=
  [Z.land (Z.shiftr v 18) 0x1ff; Z.land (Z.shiftr v 9) 0x1ff; Z.land v 0x1ff].
Definition next (v : VirtPageNum) : outcome VirtPageNum := v +! 1.
Definition range_len (start stop : VirtAddr) : outcome Z :=
  e ← align_up stop;
  Z.shiftr e PAGE_SHIFT -! Z.shiftr (align_down start) PAGE_SHIFT.

(** ** Arithmetic reading of the bit operations *)

Lemma page_offset_mod a : page_offset a = a `mod` PAGE_SIZE.
Proof. unfold page_offset. change (PAGE_SIZE - 1) with (Z.ones 12). by rewrite Z.land_ones by lia. Qed.

Lemma ppn_div a : ppn a = a `div` PAGE_SIZE.
Proof. unfold ppn. by rewrite Z.shiftr_div_pow2 by (unfold PAGE_SHIFT; lia). Qed.

Lemma ppn_exact_roundtrip a : 0 ≤ a < U64 → is_aligned a = true → ppn_base_addr (ppn_exact a) = a.
Proof.
  intros Ha Hal. unfold is_aligned in Hal. rewrite page_offset_mod in Hal. apply Z.eqb_eq in Hal. change (ppn_exact a) with (ppn a). rewrite ppn_div.
  unfold ppn_base_addr, as_usize. rewrite Z.shiftl_mul_pow2 by (unfold PAGE_SHIFT; lia). change (2 ^ PAGE_SHIFT) with PAGE_SIZE.
  pose proof (Z.div_mod a PAGE_SIZE ltac:(done)). rewrite Z.mod_small; lia.
Qed.

Lemma vpn_div a : vpn a = a `div` PAGE_SIZE.
Proof. exact (ppn_div a). Qed.

Lemma align_down_sub a : 0 ≤ a < U64 → align_down a = a - a `mod` PAGE_SIZE.
Proof. intros. unfold align_down. exact (u64_not_mask 12 a ltac:(lia) H). Qed.

Lemma align_up_ret a :
  0 ≤ a → a + PAGE_SIZE < U64 →
  align_up a = Ret (div_ceil a PAGE_SIZE * PAGE_SIZE).
Proof.
  intros Ha Hb. unfold align_up.
  assert (Hp : PAGE_SIZE = 4096) by done.
  rewrite u64_add_ok by lia. simpl. rewrite u64_sub_ok by lia. simpl. f_equal.
  pose proof (u64_not_mask 12 (a + PAGE_SIZE - 1)) as Hm.
  change (2 ^ 12) with PAGE_SIZE in Hm. rewrite Hm by lia. unfold div_ceil.
  pose proof (Z.div_mod (a + PAGE_SIZE - 1) PAGE_SIZE). lia.
Qed.

Lemma align_down_aligned a : 0 ≤ a < U64 → (PAGE_SIZE | a) → align_down a = a.
Proof.
  intros Ha [q ->]. rewrite align_down_sub by done.
  rewrite Z.mod_mul by done. lia.
Qed.

Lemma as_ptr_eq p : 0 ≤ p < 2 ^ 26 → as_ptr p = p * PAGE_SIZE + VIRT_OFFSET.
Proof.
  intros Hp. unfold as_ptr, wrapping_add, as_usize.
  rewrite Z.shiftl_mul_pow2 by (unfold PAGE_SHIFT; lia).
  change (2 ^ PAGE_SHIFT) with PAGE_SIZE. unfold PAGE_SIZE, VIRT_OFFSET, U64 in *.
  rewrite (Z.mod_small (p * 4096)) by lia. apply Z.mod_small. lia.
Qed.

Lemma base_addr_eq p : 0 ≤ p < 2 ^ 52 → ppn_base_addr p = p * PAGE_SIZE.
Proof.
  intros Hp. unfold ppn_base_addr, as_usize.
  rewrite Z.shiftl_mul_pow2 by (unfold PAGE_SHIFT; lia).
  change (2 ^ PAGE_SHIFT) with PAGE_SIZE. unfold PAGE_SIZE, U64. apply Z.mod_small. lia.
Qed.

Lemma land_1ff x : Z.land x 0x1ff = x `mod` 512.
Proof. change 0x1ff with (Z.ones 9). by rewrite Z.land_ones by lia. Qed.

Lemma indices_eq v :
  indices v = [(v `div` 2 ^ 18) `mod` 512; (v `div` 2 ^ 9) `mod` 512; v `mod` 512].
Proof. unfold indices. by rewrite !land_1ff, !Z.shiftr_div_pow2 by lia. Qed.

(** A page number below 2^27 is determined by its three indices. *)
Lemma indices_inj v v' :
  0 ≤ v < 2 ^ 27 → 0 ≤ v' < 2 ^ 27 → indices v = indices v' → v = v'.
Proof. rewrite !indices_eq. intros Hv Hv' [= H0 H1 H2]. Z.div_mod_to_equations. lia. Qed.

(** ** Properties *)

(** [align_up] returns the least page-aligned address that is not below
    its argument, and an aligned address is its own rounding. *)
Theorem align_up_least a :
  0 ≤ a → a + PAGE_SIZE < U64 →
  ∃ b, align_up a = Ret b ∧ is_aligned b = true ∧ a ≤ b ∧
       (∀ c, is_aligned c = true → a ≤ c → b ≤ c) ∧
       (is_aligned a = true → b = a).
Proof.
  intros Ha Hb. exists (div_ceil a PAGE_SIZE * PAGE_SIZE).
  rewrite align_up_ret by done. split; [done|].
  pose proof (div_ceil_spec a PAGE_SIZE ltac:(done)) as Hs.
  assert (Hmult : ∀ c, is_aligned c = true → ∃ q, c = q * PAGE_SIZE).
  { intros c Hc. unfold is_aligned in Hc. rewrite page_offset_mod in Hc. bool_hyps.
    exists (c `div` PAGE_SIZE). pose proof (Z.div_mod c PAGE_SIZE ltac:(done)). lia. }
  assert (Hal : is_aligned (div_ceil a PAGE_SIZE * PAGE_SIZE) = true).
  { unfold is_aligned. by rewrite page_offset_mod, Z.mod_mul. }
  assert (Hleast : ∀ c, is_aligned c = true → a ≤ c → div_ceil a PAGE_SIZE * PAGE_SIZE ≤ c).
  { intros c [q ->]%Hmult Hc. pose proof (div_ceil_le a PAGE_SIZE q ltac:(done) Hc).
    unfold PAGE_SIZE in *. lia. }
  repeat split; [done|lia|done|]. intros Haa. specialize (Hleast a Haa). lia.
Qed.

Lemma align_up_least_witness :
  ∃ b, align_up 0x802c2001 = Ret b ∧ is_aligned b = true ∧ 0x802c2001 ≤ b ∧
       (∀ c, is_aligned c = true → 0x802c2001 ≤ c → b ≤ c) ∧
       (is_aligned 0x802c2001 = true → b = 0x802c2001).
Proof. apply (align_up_least 0x802c2001); unfold PAGE_SIZE, U64; lia. Defined.

(** the shift-based sign extension test accepts exactly the two Sv39 halves:
    addresses below [USER_MAX_ADDR] and kernel addresses. *)
Theorem is_canonical_spec a :
  0 ≤ a < U64 → is_canonical a = true ↔ a < USER_MAX_ADDR ∨ is_kernel a = true.
Proof.
  intros Ha. unfold is_canonical, is_kernel, as_i64, as_usize, USER_MAX_ADDR, VIRT_OFFSET.
  rewrite !Z.shiftl_mul_pow2, !Z.shiftr_div_pow2 by lia. unfold U64 in *.
  case_bool; Z.div_mod_to_equations; lia.
Qed.

Lemma is_canonical_spec_witness :
  is_canonical 0x4000000000 = true ↔ 0x4000000000 < USER_MAX_ADDR ∨ is_kernel 0x4000000000 = true.
Proof. apply (is_canonical_spec 0x4000000000). unfold U64. lia. Defined.
