(* ===== verification/FrameIface.v ===== *)
(** * What the frame allocator promises its clients

    Page tables, address spaces, kernel stacks and the heap take frames from
    [Frame::alloc] / [Frame::alloc_order] and return them by dropping the
    handle.  They are written against this interface: a state with memory and
    the two operations, and the laws their theorems use.  [FrameProps] shows
    that the buddy allocator satisfies it. *)
From stdpp Require Import base numbers list.
From Stdlib Require Import Lia.
From S2P Require Import Prelude Memory Config Addr.

(** The bytes of physical page [p], as the kernel addresses them. *)
Definition page_base (p : PhysPageNum) : Z := p * PAGE_SIZE + VIRT_OFFSET.
Definition page (p : PhysPageNum) : Z → Prop := span (page_base p) PAGE_SIZE.

(** The owning handle of a run of [2^f_order] frames. *)
Record Frame := mkFrame { f_ppn : PhysPageNum; f_order : Z }.

Class FrameAllocator (S : Type) := {
  fa_mem : S → mem;
  fa_set_mem : mem → S → S;
  (** A zeroed block of [2^order] frames. *)
  fa_alloc : Z → ST S (option PhysPageNum);
  fa_free : PhysPageNum → Z → ST S unit;
  fa_inv : S → Prop;
  (** The frame is handed out. *)
  fa_used : S → PhysPageNum → Prop;
  (** How many frames are left. *)
  fa_avail : S → Z;
}.

Class FrameAllocatorLaws (S : Type) `{FrameAllocator S} : Prop := {
  fa_mem_set m s : fa_mem (fa_set_mem m s) = m;
  (** The direct map does not end with memory: addresses past a block fit. *)
  fa_used_top s p : fa_inv s → fa_used s p → 0 ≤ p < 2 ^ 26 - 1;
  fa_alloc_ok s k : fa_inv s → 0 ≤ k →
    wp (fa_alloc k) (λ r s', match r with
      | None => s' = s
      | Some p =>
          fa_inv s' ∧ (2 ^ k | p) ∧ k ≤ 10 ∧
          (∀ q, fa_used s' q ↔ fa_used s q ∨ p ≤ q < p + 2 ^ k) ∧
          (∀ q, p ≤ q < p + 2 ^ k → ¬ fa_used s q) ∧
          (∀ q a, p ≤ q < p + 2 ^ k → page q a → fa_mem s' a = x00) ∧
          (∀ q, fa_used s q → agree (page q) (fa_mem s) (fa_mem s'))
      end) s;
  fa_free_ok s p k : fa_inv s → 0 ≤ k ≤ 10 → (2 ^ k | p) →
    (∀ q, p ≤ q < p + 2 ^ k → fa_used s q) →
    wp (fa_free p k) (λ _ s',
      fa_inv s' ∧
      (∀ q, fa_used s' q ↔ fa_used s q ∧ ¬ (p ≤ q < p + 2 ^ k)) ∧
      (∀ q, fa_used s' q → agree (page q) (fa_mem s) (fa_mem s'))) s;
  fa_write_ok s m : fa_inv s →
    (∀ a, m a ≠ fa_mem s a → ∃ q, fa_used s q ∧ page q a) →
    fa_inv (fa_set_mem m s) ∧ (∀ q, fa_used (fa_set_mem m s) q ↔ fa_used s q);
  (** A single frame is refused only when none is left. *)
  fa_avail_alloc s k : fa_inv s → 0 ≤ k →
    wp (fa_alloc k) (λ r s', match r with
      | None => k = 0 → fa_avail s = 0
      | Some _ => fa_avail s' = fa_avail s - 2 ^ k
      end) s;
  fa_avail_set m s : fa_avail (fa_set_mem m s) = fa_avail s;
}.

Lemma fa_used_range {S} `{FrameAllocatorLaws S} s p : fa_inv s → fa_used s p → 0 ≤ p < 2 ^ 26.
Proof. intros Hi Hu. pose proof (fa_used_top s p Hi Hu). lia. Qed.

(** ** Raw accesses through the direct map *)
Section access.
Context {S : Type} `{FrameAllocator S}.

Definition read64 (a : Z) : ST S Z := λ s, Ret (load64 (fa_mem s) a, s).
Definition update_mem (f : mem → mem) : ST S unit := λ s, Ret (tt, fa_set_mem (f (fa_mem s)) s).
Definition write64 (a v : Z) : ST S unit := update_mem (λ m, store64 m a v).
(** [Frame::alloc], [Frame::alloc_order] and [Drop for Frame]. *)
Definition frame_alloc (order : Z) : ST S (option Frame) :=
  r ← fa_alloc order; mret ((λ p, mkFrame p order) <$> r).
Definition frame_drop (f : Frame) : ST S unit := fa_free (f_ppn f) (f_order f).

Lemma wp_read64 a (Q : Z → S → Prop) s : Q (load64 (fa_mem s) a) s → wp (read64 a) Q s.
Proof. done. Qed.
Lemma wp_update_mem f (Q : unit → S → Prop) s :
  Q tt (fa_set_mem (f (fa_mem s)) s) → wp (update_mem f) Q s.
Proof. done. Qed.
End access.

Lemma page_disjoint p q a : page p a → page q a → p = q.
Proof. unfold page, page_base, span, PAGE_SIZE. lia. Qed.

(** A word at an 8-aligned offset of a page lies inside it. *)
Lemma page_word p i x : 0 ≤ i < 512 → span (page_base p + 8 * i) 8 x → page p x.
Proof. unfold page, span, PAGE_SIZE. lia. Qed.

#[export] Hint Resolve page_word : alexos.
