(* ===== verification/Frame.v ===== *)
(** * The physical frame allocator (kernel/src/mm/frame.rs)

    A binary buddy allocator.  Free blocks are threaded into one intrusive
    doubly-linked list per order, the nodes living inside the free frames
    themselves; a bitmap with one bit per block per order answers "is my buddy
    free at this order?".  Both live in memory, so every operation below is a
    program over [PhysMem]: the bytes of memory and the [FRAME_ALLOCATOR]
    static.  The spin lock around that static is the subject of the [sync]
    component; here each operation runs as one critical section. *)
From stdpp Require Import base numbers list.
From Stdlib Require Import Lia.
From S2P Require Import Prelude Memory Config Addr FrameIface.

Definition MAX_ORDER : Z := 10.
Definition NIL : Z := usize_max.

Record BuddyAllocator := mkBuddy {
  base : PhysPageNum;
  frames : Z;
  free_lists : list Z;
  bitmap : Z;
  order_bit_base : list Z;
  allocated : Z;
  peak : Z;
}.

Definition empty : BuddyAllocator :=
  mkBuddy 0 0 (replicate 11 NIL) 0 (replicate 11 0) 0 0.

(** Memory together with the allocator that manages it. *)
Record PhysMem := mkPM { pm_mem : mem; pm_buddy : BuddyAllocator }.

(** ** Access to the state *)
Definition load (p : Z) : ST PhysMem Z := λ s, Ret (load64 (pm_mem s) p, s).
Definition store (p v : Z) : ST PhysMem unit := λ s,
  Ret (tt, mkPM (store64 (pm_mem s) p v) (pm_buddy s)).
Definition write_bytes (p : Z) (b : Byte.byte) (n : Z) : ST PhysMem unit := λ s,
  Ret (tt, mkPM (fill (pm_mem s) p n b) (pm_buddy s)).
Definition self : ST PhysMem BuddyAllocator := λ s, Ret (pm_buddy s, s).
Definition modify (f : BuddyAllocator → BuddyAllocator) : ST PhysMem unit := λ s,
  Ret (tt, mkPM (pm_mem s) (f (pm_buddy s))).

Definition with_free_lists (l : list Z) (b : BuddyAllocator) : BuddyAllocator :=
  mkBuddy (base b) (frames b) l (bitmap b) (order_bit_base b) (allocated b) (peak b).
Definition with_allocated (n : Z) (b : BuddyAllocator) : BuddyAllocator :=
  mkBuddy (base b) (frames b) (free_lists b) (bitmap b) (order_bit_base b) n (peak b).
Definition with_peak (n : Z) (b : BuddyAllocator) : BuddyAllocator :=
  mkBuddy (base b) (frames b) (free_lists b) (bitmap b) (order_bit_base b) (allocated b) n.

(** [self.free_lists[order] = v] *)
Definition set_head (order v : Z) : ST PhysMem unit :=
  b ← self;
  l ← lift (arr_set (free_lists b) order v);
  modify (with_free_lists l).

(** ** Bitmap *)
Definition bit_index (b : BuddyAllocator) (order idx : Z) : outcome Z :=
  first ← arr_get (order_bit_base b) order;
  i ← idx >>! order;
  first +! i.

Definition is_free (order idx : Z) : ST PhysMem bool :=
  b ← self;
  bit ← lift (bit_index b order idx);
  w ← load (bitmap b + 8 * (bit `div` 64));
  mret (negb (Z.land (Z.shiftr w (bit `mod` 64)) 1 =? 0)).

Definition set_free (order idx : Z) (free : bool) : ST PhysMem unit :=
  b ← self;
  bit ← lift (bit_index b order idx);
  let word := bitmap b + 8 * (bit `div` 64) in
  w ← load word;
  let mask := Z.shiftl 1 (bit `mod` 64) in
  store word (if free then Z.lor w mask else Z.land w (u64_not mask)).

(** ** Intrusive list *)

(** Address of the [FreeNode] of block [idx]: [next] at offset 0, [prev] at 8. *)
Definition node (idx : Z) : ST PhysMem Z :=
  b ← self;
  p ← lift (base b +! idx);
  mret (as_ptr p).

Definition push (order idx : Z) : ST PhysMem unit :=
  b ← self;
  head ← lift (arr_get (free_lists b) order);
  n ← node idx;
  store n head;;
  store (n + 8) NIL;;
  (if head =? NIL then mret tt else h ← node head; store (h + 8) idx);;
  set_head order idx;;
  set_free order idx true.

Definition remove (order idx : Z) : ST PhysMem unit :=
  n ← node idx;
  nxt ← load n;
  prv ← load (n + 8);
  (if prv =? NIL then set_head order nxt else p ← node prv; store p nxt);;
  (if nxt =? NIL then mret tt else q ← node nxt; store (q + 8) prv);;
  set_free order idx false.

(** ** Allocation *)

(** [while donor <= MAX_ORDER && self.free_lists[donor] == NIL { donor += 1 }];
    the fuel is the number of orders left to try. *)
Fixpoint find_donor (fuel : nat) (lists : list Z) (donor : Z) : outcome Z :=
  match fuel with
  | O => Ret donor
  | S fuel =>
      if donor <=? MAX_ORDER then
        h ← arr_get lists donor;
        if h =? NIL then find_donor fuel lists (donor + 1) else Ret donor
      else Ret donor
  end.

(** [while level > order { level -= 1; push(level, idx + (1 << level)) }] *)
Fixpoint split_down (fuel : nat) (order level idx : Z) : ST PhysMem unit :=
  match fuel with
  | O => mret tt
  | S fuel =>
      if order <? level then
        let level := level - 1 in
        half ← lift (1 <<! level);
        buddy ← lift (idx +! half);
        push level buddy;;
        split_down fuel order level idx
      else mret tt
  end.

Definition alloc (order : Z) : ST PhysMem (option PhysPageNum) :=
  if MAX_ORDER <? order then mret None else
  b ← self;
  donor ← lift (find_donor (Z.to_nat (MAX_ORDER + 1 - order)) (free_lists b) order);
  if MAX_ORDER <? donor then mret None else
  idx ← lift (arr_get (free_lists b) donor);
  remove donor idx;;
  split_down (Z.to_nat (donor - order)) order donor idx;;
  b ← self;
  size ← lift (1 <<! order);
  n ← lift (allocated b +! size);
  modify (with_allocated n);;
  modify (with_peak (Z.max (peak b) n));;
  p ← lift (base b +! idx);
  mret (Some p).

(** The coalescing loop; returns the block to push, as [(idx, level)]. *)
Fixpoint merge_up (fuel : nat) (idx level : Z) : ST PhysMem (Z * Z) :=
  match fuel with
  | O => mret (idx, level)
  | S fuel =>
      if level <? MAX_ORDER then
        b ← self;
        size ← lift (1 <<! level);
        let buddy := Z.lxor idx size in
        top ← lift (buddy +! size);
        if frames b <? top then mret (idx, level) else
        f ← is_free level buddy;
        if (f : bool) then
          remove level buddy;;
          merge_up fuel (Z.min idx buddy) (level + 1)
        else mret (idx, level)
      else mret (idx, level)
  end.

Definition free (p : PhysPageNum) (order : Z) : ST PhysMem unit :=
  b ← self;
  idx ← lift (expect (checked_sub p (base b)));
  size ← lift (1 <<! order);
  top ← lift (idx +! size);
  lift (assert (top <=? frames b));;
  lift (assert (Z.land idx (size - 1) =? 0));;
  n ← lift (allocated b -! size);
  modify (with_allocated n);;
  '(idx, level) ← merge_up (Z.to_nat (MAX_ORDER - order)) idx order;
  push level idx.

Definition used_frames (b : BuddyAllocator) : Z := allocated b.
Definition free_frame_count (b : BuddyAllocator) : outcome Z := frames b -! allocated b.
Definition total_frames (b : BuddyAllocator) : Z := frames b.
Definition peak_frames (b : BuddyAllocator) : Z := peak b.

(** ** Bring-up *)

(** The largest order whose block is aligned at [idx] and fits below [frames]. *)
Fixpoint seed_order (fuel : nat) (frames idx order : Z) : outcome Z :=
  match fuel with
  | O => Ret order
  | S fuel =>
      if 0 <? order then
        size ← 1 <<! order;
        reject ← (if Z.land idx (size - 1) =? 0
                  then top ← idx +! size; mret (frames <? top)
                  else mret true);
        if (reject : bool) then seed_order fuel frames idx (order - 1) else Ret order
      else Ret order
  end.

Fixpoint seed (fuel : nat) (idx : Z) : ST PhysMem unit :=
  match fuel with
  | O => mret tt
  | S fuel =>
      b ← self;
      if idx <? frames b then
        order ← lift (seed_order (Z.to_nat MAX_ORDER) (frames b) idx MAX_ORDER);
        push order idx;;
        size ← lift (1 <<! order);
        idx ← lift (idx +! size);
        seed fuel idx
      else mret tt
  end.

(** [(0..=MAX_ORDER).map(|k| n.div_ceil(1 << k))] *)
Definition blocks_per_order (n : Z) : list Z :=
  map (λ k, div_ceil n (2 ^ k)) (seqZ 0 (MAX_ORDER + 1)).

Fixpoint checked_sum (l : list Z) (acc : Z) : outcome Z :=
  match l with
  | [] => Ret acc
  | x :: l => acc ← acc +! x; checked_sum l acc
  end.

(** The running totals stored in [order_bit_base]. *)
Fixpoint bit_bases (l : list Z) (bit : Z) : outcome (list Z) :=
  match l with
  | [] => Ret []
  | x :: l => bit' ← bit +! x; rest ← bit_bases l bit'; mret (bit :: rest)
  end.

Definition init (start stop : PhysAddr) : ST PhysMem unit :=
  up ← lift (align_up start);
  let first := ppn up in
  let last := ppn (align_down stop) in
  lift (assert (first <? last));;
  let total := last - first in
  bits ← lift (checked_sum (blocks_per_order total) 0);
  bitmap_bytes ← lift (next_multiple_of (div_ceil bits 8) 8);
  let bitmap_frames := div_ceil bitmap_bytes PAGE_SIZE in
  let bm := as_ptr first in
  len ← lift (bitmap_frames *! PAGE_SIZE);
  write_bytes bm x00 len;;
  unaligned ← lift (first +! bitmap_frames);
  aligned ← lift (next_multiple_of unaligned 1024);
  lost ← lift (aligned -! first);
  n ← lift (total -! lost);
  bases ← lift (bit_bases (blocks_per_order n) 0);
  modify (λ _, mkBuddy aligned n (replicate 11 NIL) bm bases 0 0);;
  seed (Z.to_nat n) 0.

(** ** Order arithmetic *)

(** [usize::BITS - x.leading_zeros()] is the bit length of [x]. *)
Definition bit_length (x : Z) : Z := if x =? 0 then 0 else Z.log2 x + 1.
Definition order_for (count : Z) : Z :=
  if count <=? 1 then 0 else bit_length (count - 1).

(** ** Zeroed allocation and the owning [Frame] handle *)
Definition alloc_frame : ST PhysMem (option PhysPageNum) :=
  r ← alloc 0;
  match r with
  | None => mret None
  | Some p => write_bytes (as_ptr p) x00 PAGE_SIZE;; mret (Some p)
  end.

Definition alloc_frames (order : Z) : ST PhysMem (option PhysPageNum) :=
  r ← alloc order;
  match r with
  | None => mret None
  | Some p =>
      len ← lift (PAGE_SIZE <<! order);
      write_bytes (as_ptr p) x00 len;; mret (Some p)
  end.

Definition free_frames (p : PhysPageNum) (order : Z) : ST PhysMem unit := free p order.

Definition Frame_alloc : ST PhysMem (option Frame) :=
  r ← alloc_frame; mret ((λ p, mkFrame p 0) <$> r).
Definition Frame_alloc_order (order : Z) : ST PhysMem (option Frame) :=
  r ← alloc_frames order; mret ((λ p, mkFrame p order) <$> r).
Definition Frame_count (f : Frame) : outcome Z := 1 <<! f_order f.
(** [Drop for Frame] *)
Definition Frame_drop (f : Frame) : ST PhysMem unit := free_frames (f_ppn f) (f_order f).
