(* ===== verification/FreeList.v ===== *)
(** * Intrusive lists and bitmaps, as data in memory

    The two representations the frame allocator keeps in memory, independent of
    the allocator: a doubly-linked list over [next]/[prev] fields, and a bitmap
    of 64-bit words.  Each comes with the lemmas that say what one link, unlink,
    set or clear does to the whole structure. *)
From stdpp Require Import base numbers list sets.
From Stdlib Require Import Lia.
From S2P Require Import Prelude Memory Frame.

(** ** Doubly-linked lists

    [dll nx pv p l h]: starting at [h], following [nx] visits exactly [l] and
    then [NIL]; [pv] points back, the first element's to [p]. *)
Fixpoint dll (nx pv : Z → Z) (p : Z) (l : list Z) (h : Z) : Prop :=
  match l with
  | [] => h = NIL
  | x :: l => h = x ∧ pv x = p ∧ dll nx pv x l (nx x)
  end.

Lemma dll_ext nx pv nx' pv' p l h :
  (∀ x, x ∈ l → nx' x = nx x ∧ pv' x = pv x) → dll nx pv p l h → dll nx' pv' p l h.
Proof.
  revert p h. induction l as [|x l IH]; intros p h Hext; simpl; [done|].
  intros (-> & Hp & Hl). destruct (Hext x) as [-> ->]; [set_solver|].
  split_and!; [done..|]. apply IH; set_solver.
Qed.

Lemma dll_head nx pv p l h : dll nx pv p l h → h = default NIL (head l).
Proof. destruct l; simpl; naive_solver. Qed.

(** Linking a fresh block [x] in front. *)
Lemma dll_push nx pv nx' pv' l h x :
  dll nx pv NIL l h → x ∉ l → NoDup l →
  nx' x = h → pv' x = NIL →
  (∀ y, y ∈ l → nx' y = nx y) →
  (∀ y, y ∈ l → pv' y = if decide (y = h) then x else pv y) →
  dll nx' pv' NIL (x :: l) x.
Proof.
  intros Hl Hx Hnd Hnx Hpv Hnx' Hpv'. simpl. split_and!; [done..|]. rewrite Hnx.
  destruct l as [|y l]; [done|]. destruct Hl as (-> & Hp & Hl). apply NoDup_cons in Hnd as [Hy Hnd].
  simpl. rewrite Hpv', decide_True by set_solver. split_and!; [done..|].
  rewrite Hnx' by set_solver. revert Hl. apply dll_ext. intros z Hz.
  rewrite Hnx', Hpv', decide_False by set_solver. done.
Qed.

(** The fields of an element are its neighbours in the list. *)
Lemma dll_next nx pv p l1 x l2 h :
  dll nx pv p (l1 ++ x :: l2) h → nx x = default NIL (head l2).
Proof.
  revert p h. induction l1 as [|z l1 IH]; simpl; intros p h (-> & _ & Hl).
  - eapply dll_head, Hl.
  - eapply IH, Hl.
Qed.

Lemma dll_prev nx pv p l1 x l2 h :
  dll nx pv p (l1 ++ x :: l2) h → pv x = default p (last l1).
Proof.
  revert p h. induction l1 as [|z l1 IH]; intros p h (-> & Hp & Hl); [done|].
  rewrite (IH _ _ Hl), last_cons. by destruct (last l1).
Qed.

Lemma default_last_elem (p x : Z) l : default p (last (x :: l)) ∈ x :: l.
Proof.
  rewrite last_cons. destruct (last l) as [y|] eqn:E; simpl; [|set_solver].
  apply last_Some_elem_of in E. set_solver.
Qed.

(** Unlinking [x] from anywhere in the list: its neighbours now point at each
    other, and the head moves only when [x] was the head. *)
Lemma dll_remove nx pv nx' pv' p l1 x l2 h :
  dll nx pv p (l1 ++ x :: l2) h →
  NoDup (l1 ++ x :: l2) → p ∉ l1 ++ x :: l2 → NIL ∉ l1 ++ x :: l2 →
  (∀ i, i ∈ l1 ++ x :: l2 → i ≠ pv x → nx' i = nx i) →
  (pv x ∈ l1 → nx' (pv x) = nx x) →
  (∀ i, i ∈ l1 ++ x :: l2 → i ≠ nx x → pv' i = pv i) →
  (nx x ∈ l2 → pv' (nx x) = pv x) →
  dll nx' pv' p (l1 ++ l2) (match l1 with [] => nx x | _ => h end).
Proof.
  revert p h. induction l1 as [|z l1 IH]; intros p h Hd Hnd Hpn HN Hnx Hq Hpv Hpvn.
  - pose proof (dll_next _ _ _ [] _ _ _ Hd) as Hn. destruct Hd as (-> & Hp & Hl).
    simpl in *. apply NoDup_cons in Hnd as [Hx Hnd].
    destruct l2 as [|y l2]; [done|]. simpl in Hn.
    destruct Hl as (_ & Hy & Hl). apply NoDup_cons in Hnd as [Hyl Hnd].
    rewrite Hn in *. simpl. split_and!; [done|rewrite Hpvn; set_solver|].
    rewrite Hnx by set_solver. revert Hl. apply dll_ext. intros w Hw.
    rewrite Hnx, Hpv by set_solver. done.
  - pose proof (dll_next _ _ _ (z :: l1) _ _ _ Hd) as Hn.
    pose proof (dll_prev _ _ _ (z :: l1) _ _ _ Hd) as Hx.
    destruct Hd as (-> & Hz & Hl). simpl in *. apply NoDup_cons in Hnd as [Hzl Hnd].
    assert (nx x ≠ z) as Hnz by (rewrite Hn; destruct l2; set_solver).
    split_and!; [done|rewrite Hpv; set_solver|].
    assert (nx' z = match l1 with [] => nx x | _ => nx z end) as ->.
    { destruct l1 as [|w l1]; simpl in *.
      - rewrite <- Hx. apply Hq. set_solver.
      - apply Hnx; [set_solver|]. rewrite Hx. intros ->.
        pose proof (default_last_elem p w l1). set_solver. }
    apply IH; try done; try set_solver.
Qed.

(** ** Bitmaps *)

(** Bit [p] of the bitmap of 64-bit words at [bm]. *)
Definition bitval (m : mem) (bm p : Z) : bool :=
  Z.testbit (load64 m (bm + 8 * (p `div` 64))) (p `mod` 64).

Lemma testbit_and_1 w j : 0 ≤ j → negb (Z.land (Z.shiftr w j) 1 =? 0) = Z.testbit w j.
Proof.
  intros Hj. change 1 with (Z.ones 1). rewrite Z.land_ones by lia.
  rewrite Z.testbit_eqb, Z.shiftr_div_pow2 by done. change (2 ^ 1) with 2.
  pose proof (Z.mod_pos_bound (w `div` 2 ^ j) 2). case_bool; simpl; try done; lia.
Qed.

Lemma range_bits w : (0 ≤ w ∧ ∀ i, 64 ≤ i → Z.testbit w i = false) → 0 ≤ w < U64.
Proof.
  intros [Hw Hb]. split; [done|]. destruct (decide (w = 0)) as [->|]; [done|].
  apply Z.log2_lt_pow2; [lia|]. destruct (Z.lt_ge_cases (Z.log2 w) 64) as [|Hl]; [done|].
  specialize (Hb _ Hl). rewrite Z.bit_log2 in Hb by lia. done.
Qed.

Lemma bits_of_range w i : 0 ≤ w < U64 → 64 ≤ i → Z.testbit w i = false.
Proof.
  intros [Hw Hl] Hi. destruct (decide (w = 0)) as [->|]; [apply Z.testbit_0_l|].
  apply Z.bits_above_log2; [done|].
  eapply Z.lt_le_trans; [|exact Hi]. apply Z.log2_lt_pow2; [lia|done].
Qed.

Lemma testbit_pow2 j i : 0 ≤ j → 0 ≤ i → Z.testbit (Z.shiftl 1 j) i = (i =? j).
Proof.
  intros. rewrite Z.shiftl_1_l, Z.pow2_bits_eqb by done. apply Z.eqb_sym.
Qed.

Lemma set_bit_spec w j : 0 ≤ w < U64 → 0 ≤ j < 64 →
  0 ≤ Z.lor w (Z.shiftl 1 j) < U64 ∧
  ∀ i, 0 ≤ i → Z.testbit (Z.lor w (Z.shiftl 1 j)) i = (i =? j) || Z.testbit w i.
Proof.
  intros Hw Hj. assert (Hs : ∀ i, 0 ≤ i →
    Z.testbit (Z.lor w (Z.shiftl 1 j)) i = (i =? j) || Z.testbit w i).
  { intros i Hi. rewrite Z.lor_spec, testbit_pow2 by lia. apply orb_comm. }
  split; [|done]. apply range_bits. split.
  - apply Z.lor_nonneg. rewrite Z.shiftl_1_l. lia.
  - intros i Hi. rewrite Hs, bits_of_range by (done || lia). case_bool; [lia|done].
Qed.

Lemma clear_bit_spec w j : 0 ≤ w < U64 → 0 ≤ j < 64 →
  0 ≤ Z.land w (u64_not (Z.shiftl 1 j)) < U64 ∧
  ∀ i, 0 ≤ i → Z.testbit (Z.land w (u64_not (Z.shiftl 1 j))) i = negb (i =? j) && Z.testbit w i.
Proof.
  intros Hw Hj.
  assert (Hn : u64_not (Z.shiftl 1 j) = Z.ldiff (Z.ones 64) (Z.shiftl 1 j)).
  { rewrite <- Z.sub_nocarry_ldiff; [unfold u64_not, usize_max; by rewrite Z.ones_equiv|].
    apply Z.bits_inj'. intros i Hi. rewrite Z.ldiff_spec, Z.bits_0, testbit_pow2 by lia.
    rewrite Z.testbit_ones_nonneg by lia. case_bool; simpl; try done; lia. }
  assert (Hs : ∀ i, 0 ≤ i →
    Z.testbit (Z.land w (u64_not (Z.shiftl 1 j))) i = negb (i =? j) && Z.testbit w i).
  { intros i Hi. rewrite Hn, Z.land_spec, Z.ldiff_spec, testbit_pow2, Z.testbit_ones_nonneg by lia.
    destruct (Z.ltb_spec i 64); [by destruct (Z.testbit w i), (i =? j)|].
    rewrite bits_of_range by done. simpl. by rewrite andb_false_r. }
  split; [|done]. apply range_bits. split.
  - apply Z.land_nonneg. lia.
  - intros i Hi. rewrite Hs, bits_of_range by (done || lia). apply andb_false_r.
Qed.

(** Rewriting one word of the bitmap. *)
Lemma bitval_store m bm p p' w :
  0 ≤ w < U64 →
  bitval (store64 m (bm + 8 * (p `div` 64)) w) bm p' =
    if p' `div` 64 =? p `div` 64 then Z.testbit w (p' `mod` 64) else bitval m bm p'.
Proof.
  intros Hw. unfold bitval. destruct (Z.eqb_spec (p' `div` 64) (p `div` 64)) as [->|Hne].
  - by rewrite load_store64.
  - rewrite load_store64_ne by lia. done.
Qed.

(** What [set_free] does to the bitmap as a whole: bit [p] becomes [v], every
    other bit keeps its value. *)
Lemma bitval_update m bm p p' (v : bool) :
  let w := load64 m (bm + 8 * (p `div` 64)) in
  let mask := Z.shiftl 1 (p `mod` 64) in
  bitval (store64 m (bm + 8 * (p `div` 64))
            (if v then Z.lor w mask else Z.land w (u64_not mask))) bm p' =
    if p' =? p then v else bitval m bm p'.
Proof.
  intros w mask. pose proof (load64_range m (bm + 8 * (p `div` 64))) as Hw.
  pose proof (Z.mod_pos_bound p 64) as Hp. pose proof (Z.mod_pos_bound p' 64) as Hp'.
  destruct (set_bit_spec w (p `mod` 64)) as [Hr1 Hs1]; [done|lia|].
  destruct (clear_bit_spec w (p `mod` 64)) as [Hr2 Hs2]; [done|lia|].
  rewrite bitval_store by (by destruct v).
  assert (Hmod : p' `div` 64 = p `div` 64 → p' `mod` 64 = p `mod` 64 ↔ p' = p).
  { intros Hd. pose proof (Z.div_mod p 64). pose proof (Z.div_mod p' 64). lia. }
  destruct (Z.eqb_spec (p' `div` 64) (p `div` 64)) as [Hd|Hd].
  - replace (bitval m bm p') with (Z.testbit w (p' `mod` 64)) by (unfold bitval, w; by rewrite Hd).
    fold mask in Hs1, Hs2. specialize (Hmod Hd).
    destruct v; rewrite ?Hs1, ?Hs2 by lia; case_bool; simpl; try done; lia.
  - destruct (Z.eqb_spec p' p); [subst; done|done].
Qed.
