(* ===== verification/BuddyInv.v ===== *)
(** * The buddy allocator's invariant

    What the free lists and the bitmap in memory mean, and that linking and
    unlinking one block keeps it.  [fl k] is the free list of order [k] as a
    list of relative block indices, head first. *)
From stdpp Require Import base numbers functions sets list.
From Stdlib Require Import Lia.
From S2P Require Import Prelude Memory Config Addr Frame FreeList.

Definition order_ok (k : Z) : Prop := 0 ≤ k ≤ MAX_ORDER.

(** ** Bitmap layout *)
Definition Zsum (l : list Z) : Z := foldr Z.add 0 l.
(** First bit of order [k]'s region when [n] frames are managed. *)
Definition obb (n k : Z) : Z := Zsum (take (Z.to_nat k) (blocks_per_order n)).
Definition bitpos (n k i : Z) : Z := obb n k + i `div` 2 ^ k.

Definition nodep (b : BuddyAllocator) (i : Z) : Z := (base b + i) * PAGE_SIZE + VIRT_OFFSET.
Definition bitmap_len (b : BuddyAllocator) : Z := 8 * div_ceil (obb (frames b) 11) 64.
Definition nx (b : BuddyAllocator) (m : mem) (i : Z) : Z := load64 m (nodep b i).
Definition pv (b : BuddyAllocator) (m : mem) (i : Z) : Z := load64 m (nodep b i + 8).

(** The managed frames are inside the direct-map window, the bitmap lies below
    them, and the per-order bit bases are the running totals. *)
Record geometry (b : BuddyAllocator) : Prop := {
  geo_base : 0 ≤ base b;
  geo_frames : 0 ≤ frames b;
  geo_top : base b + frames b < 2 ^ 26;
  geo_lists : length (free_lists b) = 11%nat;
  geo_bases : ∀ k, order_ok k → arr_get (order_bit_base b) k = Ret (obb (frames b) k);
  geo_bitmap : 0 ≤ bitmap b;
  geo_below : bitmap b + bitmap_len b ≤ nodep b 0;
}.

(** A free block of order [k] at [i]. *)
Definition fblock (fl : Z → list Z) (k i : Z) : Prop := order_ok k ∧ i ∈ fl k.

(** Block [(k, i)] and block [(k', i')] share no frame. *)
Definition apart (k i k' i' : Z) : Prop := i + 2 ^ k ≤ i' ∨ i' + 2 ^ k' ≤ i.

(** A legal block: aligned to its own size and inside the region. *)
Definition legal (b : BuddyAllocator) (k i : Z) : Prop :=
  order_ok k ∧ 0 ≤ i ∧ (2 ^ k | i) ∧ i + 2 ^ k ≤ frames b.

Record linked (fl : Z → list Z) (s : PhysMem) : Prop := {
  lk_geo : geometry (pm_buddy s);
  lk_list : ∀ k, order_ok k → ∃ h,
    arr_get (free_lists (pm_buddy s)) k = Ret h ∧
    dll (nx (pm_buddy s) (pm_mem s)) (pv (pm_buddy s) (pm_mem s)) NIL (fl k) h;
  lk_legal : ∀ k i, fblock fl k i → legal (pm_buddy s) k i;
  lk_nodup : ∀ k, order_ok k → NoDup (fl k);
  lk_apart : ∀ k i k' i', fblock fl k i → fblock fl k' i' →
    (k = k' ∧ i = i') ∨ apart k i k' i';
  lk_bits : ∀ k i, order_ok k → 0 ≤ i < frames (pm_buddy s) → (2 ^ k | i) →
    bitval (pm_mem s) (bitmap (pm_buddy s)) (bitpos (frames (pm_buddy s)) k i) =
      bool_decide (i ∈ fl k);
}.

(** Addresses that belong neither to the bitmap nor to a free block. *)
Definition outside (fl : Z → list Z) (b : BuddyAllocator) : Z → Prop := λ a,
  ¬ span (bitmap b) (bitmap_len b) a ∧
  ∀ k i, fblock fl k i → ¬ span (nodep b i) (2 ^ k * PAGE_SIZE) a.

(** ** Bitmap layout lemmas *)

Lemma Zsum_app l l' : Zsum (l ++ l') = Zsum l + Zsum l'.
Proof. unfold Zsum. induction l as [|x l IH]; simpl; lia. Qed.

Lemma obb_succ n k : order_ok k → obb n (k + 1) = obb n k + div_ceil n (2 ^ k).
Proof.
  unfold order_ok, MAX_ORDER. intros Hk. unfold obb.
  replace (Z.to_nat (k + 1)) with (S (Z.to_nat k)) by lia.
  rewrite (take_S_r _ _ (div_ceil n (2 ^ k))).
  - rewrite Zsum_app. simpl. lia.
  - unfold blocks_per_order. rewrite list_lookup_fmap, lookup_seqZ_lt; simpl; [|unfold MAX_ORDER; lia].
    by rewrite Z2Nat.id by lia.
Qed.

Lemma pow2_pos k : 0 ≤ k → 0 < 2 ^ k.
Proof. intros. by apply Z.pow_pos_nonneg. Qed.

Lemma div_ceil_nonneg x y : 0 ≤ x → 0 < y → 0 ≤ div_ceil x y.
Proof. intros. unfold div_ceil. apply Z.div_pos; lia. Qed.

Lemma obb_mono n k d : 0 ≤ n → 0 ≤ k → 0 ≤ d → k + d ≤ 11 → obb n k ≤ obb n (k + d).
Proof.
  intros Hn Hk Hd. revert d Hd. apply (natlike_ind (λ d, k + d ≤ 11 → obb n k ≤ obb n (k + d))).
  - intros. rewrite Z.add_0_r. lia.
  - intros d Hd IH Hle. rewrite <- Z.add_1_r, Z.add_assoc, obb_succ by (unfold order_ok, MAX_ORDER; lia).
    pose proof (div_ceil_nonneg n (2 ^ (k + d)) Hn (pow2_pos (k + d) ltac:(lia))). lia.
Qed.

Lemma obb_upper n k : 0 ≤ n → 0 ≤ k ≤ 11 → obb n k ≤ k * n.
Proof.
  intros Hn [Hk Hle]. revert k Hk Hle.
  apply (natlike_ind (λ k, k ≤ 11 → obb n k ≤ k * n)); [done|].
  intros k Hk IH Hle. rewrite <- Z.add_1_r, obb_succ by (unfold order_ok, MAX_ORDER; lia).
  pose proof (pow2_pos k Hk). pose proof (div_ceil_le n (2 ^ k) n ltac:(lia) ltac:(nia)). lia.
Qed.

Lemma bitpos_bound n k i : order_ok k → 0 ≤ i < n → obb n k ≤ bitpos n k i < obb n (k + 1).
Proof.
  intros Hk Hi. rewrite obb_succ by done. unfold bitpos. unfold order_ok in Hk.
  pose proof (pow2_pos k ltac:(lia)) as Hp.
  pose proof (div_ceil_spec n (2 ^ k) Hp). pose proof (Z.div_pos i (2 ^ k)).
  pose proof (Z.div_lt_upper_bound i (2 ^ k) (div_ceil n (2 ^ k)) Hp). lia.
Qed.

Lemma bitpos_total n k i : order_ok k → 0 ≤ i < n → 0 ≤ bitpos n k i < obb n 11.
Proof.
  intros Hk Hi. pose proof (bitpos_bound n k i Hk Hi). unfold order_ok, MAX_ORDER in Hk.
  pose proof (obb_mono n 0 k ltac:(lia) ltac:(lia) ltac:(lia) ltac:(lia)) as H0.
  pose proof (obb_mono n (k + 1) (10 - k) ltac:(lia) ltac:(lia) ltac:(lia) ltac:(lia)) as H1.
  replace (k + 1 + (10 - k)) with 11 in H1 by lia. change (obb n 0) with 0 in H0.
  rewrite Z.add_0_l in H0. lia.
Qed.

Lemma bitpos_inj n k i k' i' :
  order_ok k → order_ok k' → 0 ≤ i < n → 0 ≤ i' < n → (2 ^ k | i) → (2 ^ k' | i') →
  bitpos n k i = bitpos n k' i' → k = k' ∧ i = i'.
Proof.
  intros Hk Hk' Hi Hi' [q ->] [q' ->] Heq.
  pose proof (bitpos_bound n k _ Hk Hi) as B. pose proof (bitpos_bound n k' _ Hk' Hi') as B'.
  unfold order_ok, MAX_ORDER in *.
  assert (k = k') as <-.
  { destruct (Z.lt_trichotomy k k') as [|[|]]; [exfalso|done|exfalso].
    - pose proof (obb_mono n (k + 1) (k' - (k + 1))). replace (k + 1 + (k' - (k + 1))) with k' in * by lia. lia.
    - pose proof (obb_mono n (k' + 1) (k - (k' + 1))). replace (k' + 1 + (k - (k' + 1))) with k in * by lia. lia. }
  split; [done|]. unfold bitpos in Heq. pose proof (pow2_pos k).
  rewrite !Z.div_mul in Heq by lia. f_equal. lia.
Qed.

(** ** Nodes and bitmap words do not overlap *)

Lemma nodep_far b i j :
  i ≠ j → nodep b i + PAGE_SIZE ≤ nodep b j ∨ nodep b j + PAGE_SIZE ≤ nodep b i.
Proof. unfold nodep, PAGE_SIZE. lia. Qed.

Lemma wordp_bounds b p :
  geometry b → 0 ≤ p < obb (frames b) 11 →
  bitmap b ≤ bitmap b + 8 * (p `div` 64) ∧
  bitmap b + 8 * (p `div` 64) + 8 ≤ bitmap b + bitmap_len b.
Proof.
  intros Hg Hp. unfold bitmap_len.
  pose proof (div_ceil_spec (obb (frames b) 11) 64 ltac:(lia)).
  Z.div_mod_to_equations. lia.
Qed.

Section fields.
Context (b : BuddyAllocator).

Lemma nx_store_nx m j v i :
  0 ≤ v < U64 → nx b (store64 m (nodep b j) v) i = if decide (i = j) then v else nx b m i.
Proof.
  intros Hv. unfold nx. case_decide as Hij; [subst; by apply load_store64|].
  apply load_store64_ne. pose proof (nodep_far b i j Hij). unfold PAGE_SIZE in *. lia.
Qed.
Lemma pv_store_pv m j v i :
  0 ≤ v < U64 → pv b (store64 m (nodep b j + 8) v) i = if decide (i = j) then v else pv b m i.
Proof.
  intros Hv. unfold pv. case_decide as Hij; [subst; by apply load_store64|].
  apply load_store64_ne. pose proof (nodep_far b i j Hij). unfold PAGE_SIZE in *. lia.
Qed.
Lemma nx_store_pv m j v i : nx b (store64 m (nodep b j + 8) v) i = nx b m i.
Proof.
  unfold nx. apply load_store64_ne. destruct (decide (i = j)) as [->|Hij]; [lia|].
  pose proof (nodep_far b i j Hij). unfold PAGE_SIZE in *. lia.
Qed.
Lemma pv_store_nx m j v i : pv b (store64 m (nodep b j) v) i = pv b m i.
Proof.
  unfold pv. apply load_store64_ne. destruct (decide (i = j)) as [->|Hij]; [lia|].
  pose proof (nodep_far b i j Hij). unfold PAGE_SIZE in *. lia.
Qed.

Context (Hg : geometry b).

Lemma word_below_node p i : 0 ≤ p < obb (frames b) 11 → 0 ≤ i →
  bitmap b + 8 * (p `div` 64) + 8 ≤ nodep b i.
Proof.
  intros Hp Hi. pose proof (wordp_bounds b p Hg Hp). pose proof (geo_below b Hg).
  unfold nodep, PAGE_SIZE in *. lia.
Qed.
Lemma nx_store_word m p w i : 0 ≤ p < obb (frames b) 11 → 0 ≤ i →
  nx b (store64 m (bitmap b + 8 * (p `div` 64)) w) i = nx b m i.
Proof. intros Hp Hi. pose proof (word_below_node p i Hp Hi). apply load_store64_ne. lia. Qed.
Lemma pv_store_word m p w i : 0 ≤ p < obb (frames b) 11 → 0 ≤ i →
  pv b (store64 m (bitmap b + 8 * (p `div` 64)) w) i = pv b m i.
Proof. intros Hp Hi. pose proof (word_below_node p i Hp Hi). apply load_store64_ne. lia. Qed.
Lemma bit_store_nx m p j v : 0 ≤ p < obb (frames b) 11 → 0 ≤ j →
  bitval (store64 m (nodep b j) v) (bitmap b) p = bitval m (bitmap b) p.
Proof.
  intros Hp Hj. pose proof (word_below_node p j Hp Hj). unfold bitval.
  rewrite load_store64_ne by lia. done.
Qed.
Lemma bit_store_pv m p j v : 0 ≤ p < obb (frames b) 11 → 0 ≤ j →
  bitval (store64 m (nodep b j + 8) v) (bitmap b) p = bitval m (bitmap b) p.
Proof.
  intros Hp Hj. pose proof (word_below_node p j Hp Hj). unfold bitval.
  rewrite load_store64_ne by lia. done.
Qed.
End fields.

(** ** Primitive operations *)

Lemma wp_load p (Q : Z → PhysMem → Prop) s : Q (load64 (pm_mem s) p) s → wp (load p) Q s.
Proof. done. Qed.
Lemma wp_store p v (Q : unit → PhysMem → Prop) s :
  Q tt (mkPM (store64 (pm_mem s) p v) (pm_buddy s)) → wp (store p v) Q s.
Proof. done. Qed.
Lemma wp_self (Q : BuddyAllocator → PhysMem → Prop) s : Q (pm_buddy s) s → wp self Q s.
Proof. done. Qed.
Lemma wp_modify f (Q : unit → PhysMem → Prop) s :
  Q tt (mkPM (pm_mem s) (f (pm_buddy s))) → wp (modify f) Q s.
Proof. done. Qed.
Lemma wp_write_bytes p c n (Q : unit → PhysMem → Prop) s :
  Q tt (mkPM (fill (pm_mem s) p n c) (pm_buddy s)) → wp (write_bytes p c n) Q s.
Proof. done. Qed.

Lemma arr_set_ok {A} (l : list A) i x :
  0 ≤ i < Z.of_nat (length l) → arr_set l i x = Ret (<[Z.to_nat i := x]> l).
Proof. intros. unfold arr_set. case_bool; simpl; try done; lia. Qed.

Lemma arr_get_set {A} (l : list A) i j x :
  0 ≤ i < Z.of_nat (length l) → 0 ≤ j →
  arr_get (<[Z.to_nat i := x]> l) j = if decide (i = j) then Ret x else arr_get l j.
Proof.
  intros Hi Hj. unfold arr_get. destruct (Z.ltb_spec j 0); [lia|]. case_decide.
  - subst. rewrite list_lookup_insert_eq by lia. done.
  - rewrite list_lookup_insert_ne by lia. done.
Qed.

Lemma wp_node i (Q : Z → PhysMem → Prop) s :
  geometry (pm_buddy s) → 0 ≤ i < frames (pm_buddy s) →
  Q (nodep (pm_buddy s) i) s → wp (node i) Q s.
Proof.
  intros Hg Hi HQ. unfold node. wp_step. apply wp_self. wp_step.
  destruct Hg. eapply wp_lift; [apply u64_add_ok; unfold U64; lia|]. apply wp_ret.
  rewrite as_ptr_eq by lia. done.
Qed.

Lemma bit_index_ok b k i :
  geometry b → order_ok k → 0 ≤ i < frames b →
  bit_index b k i = Ret (bitpos (frames b) k i).
Proof.
  intros Hg Hk Hi. unfold bit_index. rewrite (geo_bases b Hg) by done. simpl.
  unfold order_ok, MAX_ORDER in Hk. rewrite u64_shr_ok by lia. simpl.
  rewrite u64_add_ok; [done|]. pose proof (bitpos_total (frames b) k i Hk Hi) as Hp.
  destruct Hg. pose proof (obb_upper (frames b) 11 ltac:(lia) ltac:(lia)).
  unfold bitpos, U64 in *. lia.
Qed.

Lemma wp_is_free k i (Q : bool → PhysMem → Prop) s :
  geometry (pm_buddy s) → order_ok k → 0 ≤ i < frames (pm_buddy s) →
  Q (bitval (pm_mem s) (bitmap (pm_buddy s)) (bitpos (frames (pm_buddy s)) k i)) s →
  wp (is_free k i) Q s.
Proof.
  intros Hg Hk Hi HQ. unfold is_free. wp_step. apply wp_self. wp_step.
  eapply wp_lift; [by apply bit_index_ok|]. wp_step. apply wp_load. apply wp_ret.
  rewrite testbit_and_1; [done|]. apply Z.mod_pos_bound. lia.
Qed.

(** The memory after [set_free]. *)
Definition set_bit_mem (bm : Z) (m : mem) (p : Z) (v : bool) : mem :=
  let w := load64 m (bm + 8 * (p `div` 64)) in
  let mask := Z.shiftl 1 (p `mod` 64) in
  store64 m (bm + 8 * (p `div` 64)) (if v then Z.lor w mask else Z.land w (u64_not mask)).

Lemma wp_set_free k i v (Q : unit → PhysMem → Prop) s :
  geometry (pm_buddy s) → order_ok k → 0 ≤ i < frames (pm_buddy s) →
  Q tt (mkPM (set_bit_mem (bitmap (pm_buddy s)) (pm_mem s) (bitpos (frames (pm_buddy s)) k i) v) (pm_buddy s)) →
  wp (set_free k i v) Q s.
Proof.
  intros Hg Hk Hi HQ. unfold set_free. wp_step. apply wp_self. wp_step.
  eapply wp_lift; [by apply bit_index_ok|]. wp_step. apply wp_load. by apply wp_store.
Qed.

Lemma wp_set_head k v (Q : unit → PhysMem → Prop) s :
  geometry (pm_buddy s) → order_ok k →
  Q tt (mkPM (pm_mem s)
         (with_free_lists (<[Z.to_nat k := v]> (free_lists (pm_buddy s))) (pm_buddy s))) →
  wp (set_head k v) Q s.
Proof.
  intros Hg Hk HQ. unfold set_head. wp_step. apply wp_self. wp_step.
  eapply wp_lift; [apply arr_set_ok; rewrite (geo_lists _ Hg); unfold order_ok, MAX_ORDER in Hk; lia|].
  by apply wp_modify.
Qed.

(** ** Linking and unlinking one block *)

Lemma geometry_lists b l : geometry b → length l = 11%nat → geometry (with_free_lists l b).
Proof. intros []. by constructor. Qed.

Lemma nx_with_lists l b : nx (with_free_lists l b) = nx b.
Proof. done. Qed.
Lemma pv_with_lists l b : pv (with_free_lists l b) = pv b.
Proof. done. Qed.

Lemma fblock_insert fl k l k' i :
  order_ok k → fblock (<[k := l]> fl) k' i ↔ (k' = k ∧ i ∈ l) ∨ (k' ≠ k ∧ fblock fl k' i).
Proof.
  intros Hk. unfold fblock. destruct (decide (k = k')) as [<-|Hne].
  - rewrite fn_lookup_insert. naive_solver.
  - rewrite fn_lookup_insert_ne by done. naive_solver.
Qed.

Lemma legal_range b k i : legal b k i → 0 ≤ i < frames b.
Proof. intros (Hk & Hi & _ & Ht). unfold order_ok in Hk. pose proof (pow2_pos k). lia. Qed.

Lemma fblock_range fl s k i : linked fl s → fblock fl k i → 0 ≤ i < frames (pm_buddy s).
Proof. intros Hl Hf. eapply legal_range, lk_legal; eauto. Qed.

Lemma frames_not_NIL b i : geometry b → 0 ≤ i < frames b → i ≠ NIL ∧ 0 ≤ i < U64.
Proof. intros [] Hi. unfold NIL, usize_max, U64. lia. Qed.

Lemma NIL_range : 0 ≤ NIL < U64.
Proof. done. Qed.

Lemma list_head_cases fl s k h :
  linked fl s → order_ok k → arr_get (free_lists (pm_buddy s)) k = Ret h →
  h = default NIL (head (fl k)) ∧ (h ≠ NIL → h ∈ fl k) ∧ 0 ≤ h < U64.
Proof.
  intros Hl Hk Hh. destruct (lk_list _ _ Hl k Hk) as (h' & Hh' & Hd).
  assert (h' = h) as -> by congruence. pose proof (dll_head _ _ _ _ _ Hd) as Hhd.
  destruct (fl k) as [|x l] eqn:Hfl; simpl in Hhd; subst h.
  - split_and!; [done..|apply NIL_range].
  - assert (fblock fl k x) by (split; [done|rewrite Hfl; set_solver]).
    assert (Hr : 0 ≤ x < frames (pm_buddy s)) by (by eapply fblock_range).
    pose proof (frames_not_NIL _ _ (lk_geo _ _ Hl) Hr). split_and!; [done|set_solver|lia..].
Qed.

Lemma linked_push fl k i s h m' :
  let b := pm_buddy s in let m := pm_mem s in
  linked fl s → legal b k i → (∀ k' i', fblock fl k' i' → apart k i k' i') →
  arr_get (free_lists b) k = Ret h →
  (∀ j, 0 ≤ j < frames b → nx b m' j = if decide (j = i) then h else nx b m j) →
  (∀ j, 0 ≤ j < frames b →
     pv b m' j = if decide (j = h) then i else if decide (j = i) then NIL else pv b m j) →
  (∀ p, 0 ≤ p < obb (frames b) 11 →
     bitval m' (bitmap b) p = if p =? bitpos (frames b) k i then true else bitval m (bitmap b) p) →
  linked (<[k := i :: fl k]> fl) (mkPM m' (with_free_lists (<[Z.to_nat k := i]> (free_lists b)) b)).
Proof.
  intros b m Hl Hleg Hap Hh Hnx Hpv Hbit. pose proof (legal_range _ _ _ Hleg) as Hi.
  pose proof (lk_geo _ _ Hl) as Hg. pose proof (geo_lists _ Hg) as Hlen. fold b in Hg, Hlen.
  assert (Hk : order_ok k) by apply Hleg.
  destruct (list_head_cases fl s k h Hl Hk Hh) as (Hhd & Hhin & _).
  assert (Hnin : ∀ k', order_ok k' → i ∉ fl k').
  { intros k' Hk' Hin. destruct (Hap k' i (conj Hk' Hin)); unfold order_ok in *;
      pose proof (pow2_pos k); pose proof (pow2_pos k'); lia. }
  assert (Hrange : ∀ k' j, order_ok k' → j ∈ fl k' → 0 ≤ j < frames b).
  { intros k' j Hk' Hj. eapply fblock_range; [done|]. by split. }
  constructor; simpl.
  - apply geometry_lists; [done|]. by rewrite length_insert.
  - intros k' Hk'. unfold order_ok, MAX_ORDER in Hk, Hk'.
    rewrite arr_get_set by (rewrite ?Hlen; lia).
    rewrite nx_with_lists, pv_with_lists.
    destruct (lk_list _ _ Hl k' Hk') as (h' & Hh' & Hd). fold b m in Hh', Hd.
    case_decide as Hkk.
    + subst k'. exists i. split; [done|]. rewrite fn_lookup_insert.
      assert (h' = h) as -> by congruence.
      eapply dll_push; [exact Hd|by apply Hnin|by apply (lk_nodup _ _ Hl)|..].
      * rewrite Hnx, decide_True by done. done.
      * rewrite Hpv by done. rewrite decide_False, decide_True; [done..|].
        intros <-. destruct (frames_not_NIL b i Hg Hi) as [Hn _]. by apply (Hnin k Hk), Hhin.
      * intros y Hy. rewrite Hnx by eauto. rewrite decide_False; [done|].
        intros ->. by apply (Hnin k Hk).
      * intros y Hy. rewrite Hpv by eauto. case_decide; [done|].
        rewrite decide_False; [done|]. intros ->. by apply (Hnin k Hk).
    + exists h'. split; [done|]. rewrite fn_lookup_insert_ne by done.
      revert Hd. apply dll_ext. intros y Hy. pose proof (Hrange k' y Hk' Hy) as Hyr.
      assert (y ≠ i) by (intros ->; by apply (Hnin k' Hk')).
      rewrite Hnx, Hpv by done. rewrite !(decide_False (P := y = i)) by done.
      rewrite decide_False; [done|]. intros ->.
      pose proof (frames_not_NIL b h Hg Hyr) as [Hnn _].
      destruct (lk_apart _ _ Hl k h k' h) as [[? _]|Ha]; [split; auto..|lia|].
      unfold apart in Ha. pose proof (pow2_pos k). pose proof (pow2_pos k'). lia.
  - intros k' i'. rewrite fblock_insert by done. intros [[-> [->|Hin]%elem_of_cons]|[_ Hf]].
    + done.
    + by apply (lk_legal _ _ Hl).
    + by apply (lk_legal _ _ Hl).
  - intros k' Hk'. destruct (decide (k = k')) as [<-|].
    + rewrite fn_lookup_insert. apply NoDup_cons_2; [auto|by apply (lk_nodup _ _ Hl)].
    + rewrite fn_lookup_insert_ne by done. by apply (lk_nodup _ _ Hl).
  - intros k1 i1 k2 i2. rewrite !fblock_insert by done.
    assert (Hsym : ∀ k' i', fblock fl k' i' → apart k' i' k i).
    { intros k' i' Hf. destruct (Hap k' i' Hf); [by right|by left]. }
    assert (Hold : ∀ j, j ∈ fl k → fblock fl k j) by (by split).
    intros [[-> [->|H1]%elem_of_cons]|[_ H1]] [[-> [->|H2]%elem_of_cons]|[_ H2]];
      first [by left | right; by eauto | apply (lk_apart _ _ Hl); by eauto].
  - intros k' i' Hk' Hi' Hdv. rewrite Hbit by (by apply bitpos_total).
    destruct (Z.eqb_spec (bitpos (frames b) k' i') (bitpos (frames b) k i)) as [Heq|Hne].
    + apply bitpos_inj in Heq as [-> ->]; try done; [|apply Hleg].
      rewrite fn_lookup_insert. symmetry. apply bool_decide_eq_true. set_solver.
    + rewrite (lk_bits _ _ Hl) by done. apply bool_decide_ext.
      destruct (decide (k = k')) as [<-|Hkk].
      * rewrite fn_lookup_insert, elem_of_cons. split; [by right|].
        intros [->|]; [done|done].
      * by rewrite fn_lookup_insert_ne.
Qed.

Lemma linked_remove fl k i l1 l2 s h m' L :
  let b := pm_buddy s in let m := pm_mem s in
  linked fl s → order_ok k → fl k = l1 ++ i :: l2 →
  arr_get (free_lists b) k = Ret h →
  length L = 11%nat →
  (∀ k', order_ok k' → arr_get L k' =
     if decide (k' = k) then Ret (match l1 with [] => nx b m i | _ => h end)
     else arr_get (free_lists b) k') →
  (∀ j, 0 ≤ j < frames b → nx b m' j = if decide (j = pv b m i) then nx b m i else nx b m j) →
  (∀ j, 0 ≤ j < frames b → pv b m' j = if decide (j = nx b m i) then pv b m i else pv b m j) →
  (∀ p, 0 ≤ p < obb (frames b) 11 →
     bitval m' (bitmap b) p = if p =? bitpos (frames b) k i then false else bitval m (bitmap b) p) →
  linked (<[k := l1 ++ l2]> fl) (mkPM m' (with_free_lists L b)).
Proof.
  intros b m Hl Hk Hfl Hh HL Hget Hnx Hpv Hbit.
  pose proof (lk_geo _ _ Hl) as Hg. fold b in Hg.
  assert (Hfi : fblock fl k i) by (split; [done|rewrite Hfl; set_solver]).
  pose proof (lk_legal _ _ Hl k i Hfi) as Hleg. pose proof (legal_range _ _ _ Hleg) as Hi. fold b in Hi.
  pose proof (lk_nodup _ _ Hl k Hk) as Hnd. rewrite Hfl in Hnd.
  assert (Hrange : ∀ k' j, order_ok k' → j ∈ fl k' → 0 ≤ j < frames b).
  { intros k' j Hk' Hj. eapply fblock_range; [done|]. by split. }
  assert (HNIL : ∀ j, j ∈ l1 ++ i :: l2 → j ≠ NIL).
  { intros j Hj. apply (frames_not_NIL b); [done|]. apply (Hrange k); [done|by rewrite Hfl]. }
  assert (Hsub : ∀ j, j ∈ l1 ++ l2 → j ∈ fl k) by (intros j; rewrite Hfl; set_solver).
  destruct (lk_list _ _ Hl k Hk) as (h' & Hh' & Hd). fold b m in Hh', Hd.
  assert (h' = h) as -> by congruence. rewrite Hfl in Hd.
  pose proof (dll_next _ _ _ _ _ _ _ Hd) as Hn. pose proof (dll_prev _ _ _ _ _ _ _ Hd) as Hp.
  (* the neighbours named in the fields are in the list of order k or NIL *)
  assert (Hnin : ∀ y k', order_ok k' → k' ≠ k → y ∈ fl k' → y ≠ nx b m i ∧ y ≠ pv b m i).
  { intros y k' Hk' Hkk Hy.
    assert (y ∉ l1 ++ i :: l2).
    { intros Hy2. destruct (lk_apart _ _ Hl k y k' y) as [[? _]|Ha]; [split; [done|by rewrite ?Hfl]..|done|].
      unfold apart, order_ok in *. pose proof (pow2_pos k). pose proof (pow2_pos k'). lia. }
    pose proof (frames_not_NIL b y Hg (Hrange k' y Hk' Hy)) as [HyN _].
    rewrite Hn, Hp. split.
    - destruct l2; simpl; set_solver.
    - destruct l1 as [|z l1]; simpl; [done|]. pose proof (default_last_elem NIL z l1). set_solver. }
  constructor; simpl.
  - by apply geometry_lists.
  - intros k' Hk'. rewrite Hget by done. rewrite nx_with_lists, pv_with_lists.
    case_decide as Hkk.
    + subst k'. eexists. split; [done|]. rewrite fn_lookup_insert.
      eapply dll_remove; [exact Hd|done|..].
      * intros Hin. by apply (HNIL NIL).
      * intros Hin. by apply (HNIL NIL).
      * intros j Hj Hne. rewrite Hnx by (apply (Hrange k); [done|by rewrite Hfl]).
        by rewrite decide_False.
      * intros Hin. rewrite Hnx by (apply (Hrange k); [done|rewrite Hfl; set_solver]).
        by rewrite decide_True.
      * intros j Hj Hne. rewrite Hpv by (apply (Hrange k); [done|by rewrite Hfl]).
        by rewrite decide_False.
      * intros Hin. rewrite Hpv by (apply (Hrange k); [done|rewrite Hfl; set_solver]).
        by rewrite decide_True.
    + destruct (lk_list _ _ Hl k' Hk') as (h2 & Hh2 & Hd2). exists h2. split; [done|].
      rewrite fn_lookup_insert_ne by done. revert Hd2. apply dll_ext. intros y Hy.
      destruct (Hnin y k' Hk' Hkk Hy). rewrite Hnx, Hpv by (by eapply Hrange).
      by rewrite !decide_False.
  - intros k' i'. rewrite fblock_insert by done. intros [[-> Hin]|[_ Hf]]; apply (lk_legal _ _ Hl); [|done].
    split; auto.
  - intros k' Hk'. destruct (decide (k = k')) as [<-|].
    + rewrite fn_lookup_insert. eapply sublist_NoDup; [exact Hnd|].
      apply sublist_app; [done|by constructor].
    + rewrite fn_lookup_insert_ne by done. by apply (lk_nodup _ _ Hl).
  - intros k1 i1 k2 i2. rewrite !fblock_insert by done.
    intros [[-> H1]|[_ H1]] [[-> H2]|[_ H2]]; apply (lk_apart _ _ Hl); unfold fblock in *; naive_solver.
  - intros k' i' Hk' Hi' Hdv. rewrite Hbit by (by apply bitpos_total).
    destruct (Z.eqb_spec (bitpos (frames b) k' i') (bitpos (frames b) k i)) as [Heq|Hne].
    + apply bitpos_inj in Heq as [-> ->]; try done; [|apply Hleg].
      rewrite fn_lookup_insert. symmetry. apply bool_decide_eq_false.
      apply NoDup_app in Hnd as (_ & Hx & Hc). apply NoDup_cons in Hc as [Hc _]. set_solver.
    + rewrite (lk_bits _ _ Hl) by done. apply bool_decide_ext.
      destruct (decide (k = k')) as [<-|Hkk].
      * rewrite fn_lookup_insert, Hfl. set_solver.
      * by rewrite fn_lookup_insert_ne.
Qed.

(** ** The memory operations stay inside the allocator's own bytes *)

Lemma outside_node fl b k i d x :
  fblock fl k i → 0 ≤ d ≤ 8 → span (nodep b i + d) 8 x → ¬ outside fl b x.
Proof.
  intros Hf Hd Hx [_ Ho]. apply (Ho k i Hf). unfold span in *.
  destruct Hf as [Hk _]. unfold order_ok in Hk. pose proof (pow2_pos k). unfold PAGE_SIZE. lia.
Qed.

Lemma outside_word fl b p x :
  geometry b → 0 ≤ p < obb (frames b) 11 →
  span (bitmap b + 8 * (p `div` 64)) 8 x → ¬ outside fl b x.
Proof.
  intros Hg Hp Hx [Ho _]. apply Ho. pose proof (wordp_bounds b p Hg Hp). unfold span in *. lia.
Qed.

(** What one list operation may change: the list heads, and memory only inside
    the bitmap and the blocks free in [fl]. *)
Definition list_step (fl : Z → list Z) (s s' : PhysMem) : Prop :=
  (∃ l, pm_buddy s' = with_free_lists l (pm_buddy s)) ∧
  agree (outside fl (pm_buddy s)) (pm_mem s) (pm_mem s').

Lemma push_spec fl k i s :
  linked fl s → legal (pm_buddy s) k i →
  (∀ k' i', fblock fl k' i' → apart k i k' i') →
  wp (push k i) (λ _ s', linked (<[k := i :: fl k]> fl) s' ∧
                         list_step (<[k := i :: fl k]> fl) s s') s.
Proof.
  intros Hl Hleg Hap. assert (Hk : order_ok k) by apply Hleg.
  pose proof (legal_range _ _ _ Hleg) as Hi. pose proof (lk_geo _ _ Hl) as Hg.
  destruct (lk_list _ _ Hl k Hk) as (h & Hh & _).
  destruct (list_head_cases _ _ _ _ Hl Hk Hh) as (_ & Hhin & Hhr).
  destruct (frames_not_NIL _ _ Hg Hi) as [HiN Hir]. pose proof NIL_range as HNr.
  set (fl' := <[k := i :: fl k]> fl).
  assert (Hfi : fblock fl' k i) by (apply fblock_insert; set_solver).
  assert (Hfh : h ≠ NIL → fblock fl' k h ∧ 0 ≤ h < frames (pm_buddy s)).
  { intros HhN. split; [apply fblock_insert; set_solver|]. eapply (fblock_range fl s k); [done|]. split; auto. }
  assert (Hpos := bitpos_total _ _ _ Hk Hi).
  unfold push. wp_step. apply wp_self. wp_step. eapply wp_lift; [exact Hh|].
  wp_step. apply wp_node; [done..|]. wp_step. apply wp_store. wp_step. apply wp_store. wp_step. simpl.
  set (b := pm_buddy s) in *. set (m := pm_mem s) in *.
  set (m2 := store64 (store64 m (nodep b i) h) (nodep b i + 8) NIL).
  set (m3 := if h =? NIL then m2 else store64 m2 (nodep b h + 8) i).
  assert (Hgoal : wp (_ ← set_head k i; set_free k i true)
    (λ _ s', linked fl' s' ∧ list_step fl' s s') (mkPM m3 b)).
  { wp_step. apply wp_set_head; [done..|]. apply wp_set_free; simpl; [|done..|].
    { apply geometry_lists; [done|]. rewrite length_insert. apply Hg. }
    split.
    - eapply (linked_push fl k i s h); [done..| | | ].
      + intros j Hj. unfold set_bit_mem. rewrite nx_store_word by (done || lia). unfold m3, m2.
        destruct (h =? NIL); rewrite ?nx_store_pv, nx_store_nx by done; done.
      + intros j Hj. unfold set_bit_mem. rewrite pv_store_word by (done || lia). unfold m3, m2.
        destruct (Z.eqb_spec h NIL) as [->|HhN]; rewrite !pv_store_pv, ?pv_store_nx by done; [|done].
        rewrite (decide_False (P := j = NIL)); [done|]. pose proof (frames_not_NIL b j Hg Hj). naive_solver.
      + intros p Hp. unfold set_bit_mem. rewrite (bitval_update _ _ _ _ true).
        destruct (p =? _); [done|]. unfold m3, m2. fold m.
        destruct (Z.eqb_spec h NIL) as [->|HhN]; [|destruct (Hfh HhN)];
          rewrite !bit_store_pv, bit_store_nx by (done || lia); done.
    - split; [by eexists|]. simpl. fold m b. unfold set_bit_mem.
      transitivity m3; [|apply store64_agree; intros; by eapply outside_word].
      transitivity m2.
      + transitivity (store64 m (nodep b i) h); apply store64_agree; intros x Hx.
        * eapply (outside_node _ _ k i 0); [done|lia|by rewrite Z.add_0_r].
        * eapply (outside_node _ _ k i 8); [done|lia|done].
      + unfold m3. destruct (Z.eqb_spec h NIL) as [->|HhN]; [done|].
        apply store64_agree. intros x Hx. eapply (outside_node _ _ k h 8); [by apply Hfh|lia|done]. }
  unfold m3 in Hgoal. destruct (Z.eqb_spec h NIL) as [->|HhN].
  - by apply wp_ret.
  - destruct (Hfh HhN). wp_step. apply wp_node; [done..|]. by apply wp_store.
Qed.

Lemma remove_spec fl k i l1 l2 s :
  linked fl s → order_ok k → fl k = l1 ++ i :: l2 →
  wp (remove k i) (λ _ s', linked (<[k := l1 ++ l2]> fl) s' ∧ list_step fl s s') s.
Proof.
  intros Hl Hk Hfl. pose proof (lk_geo _ _ Hl) as Hg.
  assert (Hin : ∀ j, j ∈ l1 ++ i :: l2 → fblock fl k j) by (intros j Hj; split; [done|by rewrite Hfl]).
  assert (Hr : ∀ j, j ∈ l1 ++ i :: l2 → 0 ≤ j < frames (pm_buddy s)).
  { intros j Hj. by eapply fblock_range, Hin. }
  assert (Hi : 0 ≤ i < frames (pm_buddy s)) by (apply Hr; set_solver).
  destruct (lk_list _ _ Hl k Hk) as (h & Hh & Hd). rewrite Hfl in Hd.
  pose proof (dll_next _ _ _ _ _ _ _ Hd) as Hn. pose proof (dll_prev _ _ _ _ _ _ _ Hd) as Hp.
  set (b := pm_buddy s) in *. set (m := pm_mem s) in *.
  set (n := nx b m i) in *. set (q := pv b m i) in *.
  assert (Hnr : 0 ≤ n < U64) by apply load64_range. assert (Hqr : 0 ≤ q < U64) by apply load64_range.
  assert (Hqin : q ≠ NIL → q ∈ l1 ++ i :: l2).
  { intros Hq. rewrite Hp in *. destruct l1 as [|z l1]; [done|].
    pose proof (default_last_elem NIL z l1). set_solver. }
  assert (Hnin : n ≠ NIL → n ∈ l1 ++ i :: l2).
  { intros Hq. rewrite Hn in *. destruct l2 as [|z l2]; simpl in *; [done|set_solver]. }
  assert (Hl1 : q = NIL ↔ l1 = []).
  { rewrite Hp. destruct l1 as [|z l1]; [done|]. split; [|done]. intros HN.
    pose proof (default_last_elem NIL z l1) as Hel. rewrite HN in Hel.
    destruct (frames_not_NIL b NIL Hg); [apply Hr; set_solver|done]. }
  assert (Hpos := bitpos_total _ _ _ Hk Hi).
  set (L := if q =? NIL then <[Z.to_nat k := n]> (free_lists b) else free_lists b).
  set (m1 := if q =? NIL then m else store64 m (nodep b q) n).
  set (m2 := if n =? NIL then m1 else store64 m1 (nodep b n + 8) q).
  assert (HL : length L = 11%nat).
  { unfold L. destruct (q =? NIL); rewrite ?length_insert; apply Hg. }
  assert (Hgoal : wp (set_free k i false)
    (λ _ s', linked (<[k := l1 ++ l2]> fl) s' ∧ list_step fl s s') (mkPM m2 (with_free_lists L b))).
  { apply wp_set_free; simpl; [by apply geometry_lists|done..|]. split.
    - eapply (linked_remove fl k i l1 l2 s h); [done..| | | | ].
      + intros k' Hk'. unfold L, order_ok, MAX_ORDER in *. fold b m n.
        destruct (Z.eqb_spec q NIL) as [HqN|HqN].
        * apply Hl1 in HqN as ->. rewrite arr_get_set by (rewrite ?(geo_lists _ Hg); lia).
          by repeat case_decide; subst.
        * case_decide; [subst k'|done]. destruct l1; [by destruct HqN, Hl1|done].
      + intros j Hj. unfold set_bit_mem. fold b m n q.
        rewrite nx_store_word by (done || lia). unfold m2, m1.
        destruct (frames_not_NIL b j Hg Hj).
        destruct (n =? NIL), (Z.eqb_spec q NIL) as [->|HqN];
          rewrite ?nx_store_pv, ?nx_store_nx by done; by rewrite ?(decide_False (P := j = NIL)) by done.
      + intros j Hj. unfold set_bit_mem. fold b m n q.
        rewrite pv_store_word by (done || lia). unfold m2, m1.
        destruct (frames_not_NIL b j Hg Hj).
        destruct (Z.eqb_spec n NIL) as [->|HnN], (q =? NIL);
          rewrite ?pv_store_pv, ?pv_store_nx by done; by rewrite ?(decide_False (P := j = NIL)) by done.
      + intros p Hpp. fold b m. unfold set_bit_mem.
        rewrite (bitval_update _ _ _ _ false). destruct (p =? _); [done|]. unfold m2, m1.
        assert (q ≠ NIL → 0 ≤ q) by (intros; apply Hr; auto).
        assert (n ≠ NIL → 0 ≤ n) by (intros; apply Hr; auto).
        destruct (Z.eqb_spec n NIL) as [HnN|HnN], (Z.eqb_spec q NIL) as [HqN|HqN];
          rewrite ?bit_store_pv, ?bit_store_nx by (done || auto); done.
    - split; [by eexists|]. simpl. fold m b. unfold set_bit_mem.
      transitivity m2; [|apply store64_agree; intros; by eapply outside_word].
      transitivity m1.
      + unfold m1. destruct (Z.eqb_spec q NIL) as [HqN|HqN]; [done|].
        apply store64_agree. intros x Hx.
        eapply (outside_node _ _ k q 0); [by apply Hin, Hqin|lia|by rewrite Z.add_0_r].
      + unfold m2. destruct (Z.eqb_spec n NIL) as [HnN|HnN]; [done|].
        apply store64_agree. intros x Hx.
        eapply (outside_node _ _ k n 8); [by apply Hin, Hnin|lia|done]. }
  unfold remove. wp_step. apply wp_node; [done..|]. wp_step. apply wp_load. wp_step. apply wp_load.
  fold b m. fold (nx b m i) (pv b m i). fold n q. wp_step.
  assert (Hsecond : wp (_ ← (if n =? NIL then mret tt else q0 ← node n; store (q0 + 8) q); set_free k i false)
    (λ _ s', linked (<[k := l1 ++ l2]> fl) s' ∧ list_step fl s s') (mkPM m1 (with_free_lists L b))).
  { wp_step. unfold m2 in Hgoal. destruct (Z.eqb_spec n NIL) as [HnN|HnN]; [by apply wp_ret|].
    wp_step. apply wp_node; simpl; [by apply geometry_lists|by apply Hr, Hnin|]. by apply wp_store. }
  unfold m1, L in Hsecond. destruct (Z.eqb_spec q NIL) as [HqN|HqN].
  - by apply wp_set_head.
  - wp_step. apply wp_node; [done|by apply Hr, Hqin|]. apply wp_store.
    replace (pm_buddy s) with (with_free_lists (free_lists b) b) by (by destruct s as [? []]). done.
Qed.
