(* ===== verification/BuddyAlloc.v ===== *)
(** * The buddy allocator's contract

    The abstract view of the allocator is the set of free frames, read off the
    bitmap by [frame_free].  This file proves that [alloc] takes an aligned run
    out of that set, that it fails only when no aligned run of the requested
    size is free, that [free] puts a run back, that both keep the invariant,
    and that neither touches a byte of a frame in use. *)
From stdpp Require Import base numbers functions sets list.
From Stdlib Require Import Lia.
From S2P Require Import Prelude Memory Config Addr Frame FreeList BuddyInv.

(** ** The abstract state *)

(** Is frame [f] (relative index) part of a free block of some order? *)
Definition frame_free (s : PhysMem) (f : Z) : bool :=
  existsb (λ k, bitval (pm_mem s) (bitmap (pm_buddy s))
                  (bitpos (frames (pm_buddy s)) k (f - f `mod` 2 ^ k)))
          (seqZ 0 11).

(** The same, on the ghost lists. *)
Definition free_frame (fl : Z → list Z) (f : Z) : Prop :=
  ∃ k i, fblock fl k i ∧ i ≤ f < i + 2 ^ k.

(** No two buddies of the same order are both free. *)
Definition coalesced (fl : Z → list Z) : Prop :=
  ∀ k i, fblock fl k i → k < MAX_ORDER → Z.lxor i (2 ^ k) ∉ fl k.

(** Number of frames in the free lists. *)
Definition free_total (fl : Z → list Z) : Z :=
  Zsum (map (λ k, 2 ^ k * Z.of_nat (length (fl k))) (seqZ 0 11)).

Record buddy_ok (fl : Z → list Z) (s : PhysMem) : Prop := {
  ok_linked : linked fl s;
  ok_coalesced : coalesced fl;
  ok_count : allocated (pm_buddy s) + free_total fl = frames (pm_buddy s);
  ok_alloc : 0 ≤ allocated (pm_buddy s) ≤ peak (pm_buddy s);
  ok_peak : peak (pm_buddy s) ≤ frames (pm_buddy s);
}.

Definition buddy_inv (s : PhysMem) : Prop := ∃ fl, buddy_ok fl s.

(** ** Blocks as sets of frames *)

Lemma pow2_divide k k' : 0 ≤ k ≤ k' → (2 ^ k | 2 ^ k').
Proof. intros. exists (2 ^ (k' - k)). rewrite <- Z.pow_add_r by lia. f_equal. lia. Qed.

(** Aligned blocks are nested or disjoint. *)
Lemma aligned_nested k i k' i' f :
  0 ≤ k ≤ k' → (2 ^ k | i) → (2 ^ k' | i') →
  i ≤ f < i + 2 ^ k → i' ≤ f < i' + 2 ^ k' → i' ≤ i ∧ i + 2 ^ k ≤ i' + 2 ^ k'.
Proof.
  intros Hk [q ->] [q' ->] Hf Hf'. pose proof (pow2_pos k ltac:(lia)).
  assert (Hkk : 2 ^ k' = 2 ^ (k' - k) * 2 ^ k) by (rewrite <- Z.pow_add_r by lia; f_equal; lia).
  rewrite Hkk in *. set (D := 2 ^ (k' - k)) in *. set (P := 2 ^ k) in *.
  assert (q' * D < q + 1) by (apply (Z.mul_lt_mono_pos_r P); lia).
  assert (q < q' * D + D) by (apply (Z.mul_lt_mono_pos_r P); lia).
  split; nia.
Qed.

Lemma block_of_frame k f : 0 ≤ k → 0 ≤ f →
  let i := f - f `mod` 2 ^ k in (2 ^ k | i) ∧ 0 ≤ i ≤ f ∧ f < i + 2 ^ k.
Proof.
  intros Hk Hf i. pose proof (pow2_pos k Hk) as Hp. pose proof (Z.mod_pos_bound f (2 ^ k) Hp).
  pose proof (Z.div_mod f (2 ^ k) ltac:(lia)). pose proof (Z.div_pos f (2 ^ k) Hf Hp).
  unfold i. split; [exists (f `div` 2 ^ k); lia|nia].
Qed.

Lemma block_of_frame_unique k i f :
  0 ≤ k → (2 ^ k | i) → i ≤ f < i + 2 ^ k → f - f `mod` 2 ^ k = i.
Proof.
  intros Hk [q ->] Hf. pose proof (pow2_pos k Hk).
  rewrite <- (Z.mod_unique_pos f (2 ^ k) q (f - q * 2 ^ k)); lia.
Qed.

Lemma frame_free_spec fl s f :
  linked fl s → 0 ≤ f < frames (pm_buddy s) → frame_free s f = true ↔ free_frame fl f.
Proof.
  intros Hl Hf. unfold frame_free, free_frame. rewrite existsb_exists. split.
  - intros (k & Hk%list_elem_of_In%elem_of_seqZ & Hb).
    assert (order_ok k) as Ho by (unfold order_ok, MAX_ORDER; lia).
    destruct (block_of_frame k f) as (Hd & Hi & Hlt); [lia..|].
    rewrite (lk_bits _ _ Hl) in Hb by (done || lia). apply bool_decide_eq_true in Hb.
    eexists k, _. split; [by split|]. lia.
  - intros (k & i & Hfb & Hi). pose proof (lk_legal _ _ Hl _ _ Hfb) as (Ho & Hi0 & Hd & Ht).
    exists k. unfold order_ok, MAX_ORDER in Ho. split.
    + apply list_elem_of_In, elem_of_seqZ. lia.
    + rewrite (block_of_frame_unique k i f) by (done || lia).
      rewrite (lk_bits _ _ Hl) by (done || lia). apply bool_decide_eq_true, Hfb.
Qed.

Lemma linked_ext fl fl' s :
  (∀ k, order_ok k → fl' k = fl k) → linked fl s → linked fl' s.
Proof.
  intros He Hl. assert (Hf : ∀ k i, fblock fl' k i → fblock fl k i).
  { intros k i [Hk Hi]. split; [done|by rewrite <- He]. }
  destruct Hl as [? Hli Hle Hn Ha Hb]. constructor; auto.
  - intros k Hk. rewrite He by done. auto.
  - intros k Hk. rewrite He by done. auto.
  - intros k i Hk. rewrite He by done. auto.
Qed.

Lemma outside_mono fl fl' b a :
  (∀ k i, fblock fl' k i → ∃ k0 i0, fblock fl k0 i0 ∧ i0 ≤ i ∧ i + 2 ^ k ≤ i0 + 2 ^ k0) →
  outside fl b a → outside fl' b a.
Proof.
  intros Hs [Hb Ho]. split; [done|]. intros k i Hf Ha.
  destruct (Hs k i Hf) as (k0 & i0 & Hf0 & Hle & Htop).
  apply (Ho k0 i0 Hf0). unfold span, nodep, PAGE_SIZE in *. nia.
Qed.

(** ** Counting *)

Lemma Zsum_map_insert (fl : Z → list Z) k l ks :
  k ∈ ks → NoDup ks →
  Zsum (map (λ j, 2 ^ j * Z.of_nat (length ((<[k := l]> fl) j))) ks) =
  Zsum (map (λ j, 2 ^ j * Z.of_nat (length (fl j))) ks) +
    2 ^ k * (Z.of_nat (length l) - Z.of_nat (length (fl k))).
Proof.
  assert (Hout : ∀ ks, k ∉ ks →
    Zsum (map (λ j, 2 ^ j * Z.of_nat (length ((<[k := l]> fl) j))) ks) =
    Zsum (map (λ j, 2 ^ j * Z.of_nat (length (fl j))) ks)).
  { induction ks0 as [|j ks0 IH]; intros Hk; [done|]. cbn [map Zsum foldr].
    fold (Zsum (map (λ j, 2 ^ j * Z.of_nat (length (fl j))) ks0)).
    rewrite fn_lookup_insert_ne by set_solver. f_equal. apply IH. set_solver. }
  induction ks as [|j ks IH]; intros Hk Hnd; [by apply elem_of_nil in Hk|].
  apply NoDup_cons in Hnd as [Hj Hnd]. cbn [map]. unfold Zsum in *. cbn [foldr].
  destruct (decide (k = j)) as [<-|Hne].
  - rewrite fn_lookup_insert, (Hout ks Hj). lia.
  - rewrite fn_lookup_insert_ne by done. rewrite IH by set_solver. lia.
Qed.

Lemma free_total_insert fl k l : order_ok k →
  free_total (<[k := l]> fl) =
    free_total fl + 2 ^ k * (Z.of_nat (length l) - Z.of_nat (length (fl k))).
Proof.
  intros Hk. unfold order_ok, MAX_ORDER in Hk. apply Zsum_map_insert; [|apply NoDup_seqZ].
  apply elem_of_seqZ. lia.
Qed.

Lemma free_total_ext fl fl' :
  (∀ k, order_ok k → fl' k = fl k) → free_total fl' = free_total fl.
Proof.
  intros He. unfold free_total. f_equal. apply map_ext_in.
  intros k Hk%list_elem_of_In%elem_of_seqZ. rewrite He; [done|]. unfold order_ok, MAX_ORDER. lia.
Qed.

(** Every free frame, listed block by block. *)
Definition all_blocks (fl : Z → list Z) : list (Z * Z) :=
  seqZ 0 11 ≫= λ k, pair k <$> fl k.
Definition covered (fl : Z → list Z) : list Z :=
  all_blocks fl ≫= λ '(k, i), seqZ i (2 ^ k).

Lemma elem_of_all_blocks fl k i : (k, i) ∈ all_blocks fl ↔ fblock fl k i.
Proof.
  unfold all_blocks, fblock, order_ok, MAX_ORDER. rewrite list_elem_of_bind. split.
  - intros (k' & Hin & Hk%elem_of_seqZ). apply list_elem_of_fmap in Hin as (i' & [= -> ->] & Hi).
    split; [lia|done].
  - intros [Hk Hi]. exists k. split; [|apply elem_of_seqZ; lia].
    apply list_elem_of_fmap. eauto.
Qed.

Lemma covered_length fl : Z.of_nat (length (covered fl)) = free_total fl.
Proof.
  unfold covered, all_blocks, free_total.
  assert (Hks : ∀ k, k ∈ seqZ 0 11 → 0 ≤ k) by (intros k ?%elem_of_seqZ; lia).
  revert Hks. generalize (seqZ 0 11). intros ks Hks. induction ks as [|k ks IH]; [done|].
  cbn [mbind list_bind map]. rewrite bind_app, length_app, Nat2Z.inj_add. unfold Zsum. cbn [foldr].
  rewrite IH by set_solver. f_equal. pose proof (Hks k ltac:(set_solver)) as Hk. clear -Hk.
  induction (fl k) as [|i l IH]; [simpl; lia|]. cbn.
  rewrite length_app, length_seqZ, Nat2Z.inj_add. pose proof (pow2_pos k Hk).
  rewrite IH. lia.
Qed.

(** Disjoint blocks cover each frame once. *)
Lemma covered_nodup fl : (∀ k, order_ok k → NoDup (fl k)) →
  (∀ k i k' i', fblock fl k i → fblock fl k' i' → (k = k' ∧ i = i') ∨ apart k i k' i') → NoDup (covered fl).
Proof.
  intros Hnd Hap. unfold covered. apply NoDup_bind.
  - intros [k i] [k' i'] f Hx Hx' Hf%elem_of_seqZ Hf'%elem_of_seqZ.
    apply elem_of_all_blocks in Hx. apply elem_of_all_blocks in Hx'.
    destruct (Hap _ _ _ _ Hx Hx') as [[-> ->]|Ha]; [done|]. unfold apart in Ha. lia.
  - intros [k i] _. apply NoDup_seqZ.
  - unfold all_blocks. apply NoDup_bind.
    + intros k k' [k0 i0] _ _ (? & [= -> _] & _)%list_elem_of_fmap (? & [= -> _] & _)%list_elem_of_fmap. done.
    + intros k Hk%elem_of_seqZ. apply NoDup_fmap_2; [by intros ?? [=]|].
      apply Hnd. unfold order_ok, MAX_ORDER. lia.
    + apply NoDup_seqZ.
Qed.

(** Disjoint legal blocks cannot cover more frames than there are. *)
Lemma packing fl n :
  (∀ k i, fblock fl k i → 0 ≤ i ∧ i + 2 ^ k ≤ n) →
  (∀ k, order_ok k → NoDup (fl k)) →
  (∀ k i k' i', fblock fl k i → fblock fl k' i' → (k = k' ∧ i = i') ∨ apart k i k' i') →
  0 ≤ n → free_total fl ≤ n.
Proof.
  intros Hleg Hnd Hap Hn. rewrite <- covered_length.
  enough (Hsub : covered fl ⊆+ seqZ 0 n).
  { apply submseteq_length in Hsub. rewrite length_seqZ in Hsub. lia. }
  apply NoDup_submseteq.
  - by apply covered_nodup.
  - intros f Hf. unfold covered in Hf. apply list_elem_of_bind in Hf as ([k i] & Hf%elem_of_seqZ & Hx).
    apply elem_of_all_blocks in Hx. pose proof (Hleg _ _ Hx). apply elem_of_seqZ. lia.
Qed.

(** A block disjoint from all free blocks is counted among the allocated ones. *)
Lemma unfree_block_counted fl s k i :
  linked fl s → legal (pm_buddy s) k i → (∀ k' i', fblock fl k' i' → apart k i k' i') →
  free_total fl + 2 ^ k ≤ frames (pm_buddy s).
Proof.
  intros Hl Hleg Hap. assert (Hk : order_ok k) by apply Hleg.
  assert (Hni : i ∉ fl k).
  { intros Hin. destruct (Hap k i (conj Hk Hin)); unfold order_ok in Hk; pose proof (pow2_pos k); lia. }
  pose proof (free_total_insert fl k (i :: fl k) Hk) as Ht. rewrite length_cons in Ht.
  enough (free_total (<[k := i :: fl k]> fl) ≤ frames (pm_buddy s)) by lia.
  assert (Hsym : ∀ k' i', fblock fl k' i' → apart k' i' k i).
  { intros k' i' Hf. destruct (Hap k' i' Hf); [by right|by left]. }
  assert (Hold : ∀ j, j ∈ fl k → fblock fl k j) by (by split).
  apply packing.
  - intros k' i'. rewrite fblock_insert by done. intros [[-> [->|Hin]%elem_of_cons]|[_ Hf]].
    + destruct Hleg as (_ & ? & _ & ?). lia.
    + pose proof (lk_legal _ _ Hl _ _ (Hold _ Hin)) as (_ & ? & _ & ?). lia.
    + pose proof (lk_legal _ _ Hl _ _ Hf) as (_ & ? & _ & ?). lia.
  - intros k' Hk'. destruct (decide (k = k')) as [<-|].
    + rewrite fn_lookup_insert. apply NoDup_cons. split; [done|by apply (lk_nodup _ _ Hl)].
    + rewrite fn_lookup_insert_ne by done. by apply (lk_nodup _ _ Hl).
  - intros k1 i1 k2 i2. rewrite !fblock_insert by done.
    intros [[-> [->|H1]%elem_of_cons]|[_ H1]] [[-> [->|H2]%elem_of_cons]|[_ H2]];
      first [by left | right; by eauto | apply (lk_apart _ _ Hl); by eauto].
  - apply (geo_frames _ (lk_geo _ _ Hl)).
Qed.

(** ** Allocation *)

Lemma find_donor_spec fl s n d :
  linked fl s → 0 ≤ d → n = Z.to_nat (11 - d) → d ≤ 11 →
  ∃ d', find_donor n (free_lists (pm_buddy s)) d = Ret d' ∧ d ≤ d' ≤ 11 ∧
    (∀ k, d ≤ k < d' → fl k = []) ∧ (d' ≤ MAX_ORDER → fl d' ≠ []).
Proof.
  intros Hl. revert d. induction n as [|n IH]; intros d Hd Hn Hle; simpl.
  - exists d. split_and!; [done|unfold MAX_ORDER; intros; lia..].
  - destruct (Z.leb_spec d MAX_ORDER) as [Hm|Hm]; [|unfold MAX_ORDER in *; lia].
    destruct (lk_list _ _ Hl d) as (h & Hh & Hdll); [by split|]. rewrite Hh. simpl.
    destruct (Z.eqb_spec h NIL) as [->|HhN].
    + destruct (IH (d + 1)) as (d' & -> & Hb & Hem & Hne); [lia..|unfold MAX_ORDER in Hm; lia|].
      exists d'. split_and!; [done|lia..| |done]. intros k Hk.
      destruct (decide (k = d)) as [->|]; [|apply Hem; lia].
      destruct (fl d) as [|x l] eqn:Hfl; [done|]. exfalso.
      destruct Hdll as (Hx & _ & _).
      destruct (frames_not_NIL (pm_buddy s) x (lk_geo _ _ Hl)) as [HxN _]; [|done].
      eapply (fblock_range fl s d); [done|]. split; [by split|]. rewrite Hfl. set_solver.
    + exists d. split_and!; [done|intros; lia..|]. intros _ Hfl. rewrite Hfl in Hdll. by destruct HhN.
Qed.

Lemma legal_halves b k i : legal b (k + 1) i → 0 ≤ k → legal b k i ∧ legal b k (i + 2 ^ k).
Proof.
  intros (Hk & Hi & [q ->] & Ht) Hk0. unfold order_ok in *.
  rewrite Z.pow_add_r in * by lia. change (2 ^ 1) with 2 in *. pose proof (pow2_pos k Hk0).
  split; (split_and!; [unfold order_ok; lia|lia| |nia]).
  - exists (q * 2). lia.
  - exists (q * 2 + 1). lia.
Qed.

Lemma split_down_spec n order level idx s fl :
  linked fl s → 0 ≤ order ≤ level → n = Z.to_nat (level - order) →
  legal (pm_buddy s) level idx → (∀ k i, fblock fl k i → apart level idx k i) →
  wp (split_down n order level idx) (λ _ s', ∃ fl',
    linked fl' s' ∧ (∃ l, pm_buddy s' = with_free_lists l (pm_buddy s)) ∧
    (∀ k, order_ok k → fl' k = if decide (order ≤ k < level) then idx + 2 ^ k :: fl k else fl k) ∧
    free_total fl' = free_total fl + 2 ^ level - 2 ^ order ∧
    agree (λ a, outside fl (pm_buddy s) a ∧ ¬ span (nodep (pm_buddy s) idx) (2 ^ level * PAGE_SIZE) a)
      (pm_mem s) (pm_mem s')) s.
Proof.
  revert level s fl. induction n as [|n IH]; intros level s fl Hl Ho Hn Hleg Hap.
  - simpl. apply wp_ret. exists fl. assert (level = order) as -> by lia.
    split_and!; [done|by destruct s as [? []]; eexists| |lia|done].
    intros k _. rewrite decide_False by lia. done.
  - simpl. destruct (Z.ltb_spec order level) as [Hlt|]; [|lia].
    assert (Hlev : order_ok (level - 1)) by (destruct Hleg as [Hl0 _]; unfold order_ok in *; lia).
    assert (Hlev' : 0 ≤ level - 1 ≤ 10) by apply Hlev.
    replace level with (level - 1 + 1) in Hleg by lia.
    destruct (legal_halves _ _ _ Hleg ltac:(lia)) as [HlegL HlegR].
    pose proof (legal_range _ _ _ HlegR) as HrR. pose proof (lk_geo _ _ Hl) as Hg.
    assert (Hpow : 2 ^ level = 2 * 2 ^ (level - 1)).
    { rewrite <- Z.pow_succ_r by lia. f_equal. lia. }
    pose proof (pow2_pos (level - 1) ltac:(lia)) as Hpp.
    assert (Hub : idx + 2 ^ (level - 1) < U64) by (destruct Hg; unfold U64; lia).
    destruct HlegL as (_ & Hidx & _ & _).
    wp_step. eapply wp_lift; [apply u64_shl_ok; unfold U64 in *; lia|]. rewrite Z.mul_1_l.
    wp_step. eapply wp_lift; [by apply u64_add_ok|]. wp_step.
    eapply wp_mono; [|apply (push_spec fl (level - 1)); [done|done|]].
    2: { intros k i Hf. specialize (Hap k i Hf). unfold apart in *. lia. }
    cbv beta. intros _ s1 (Hl1 & (l1 & Hb1) & Hm1).
    set (fl1 := <[level - 1 := idx + 2 ^ (level - 1) :: fl (level - 1)]> fl) in *.
    eapply wp_mono; [|apply (IH (level - 1) s1 fl1); [done|lia|lia| | ]].
    + cbv beta. intros _ s2 (fl2 & Hl2 & (l2 & Hb2) & Hfl2 & Ht & Hm2). exists fl2.
      split_and!; [done|exists l2; by rewrite Hb2, Hb1| | | ].
      * intros k Hk. rewrite Hfl2 by done. unfold fl1.
        destruct (decide (k = level - 1)) as [->|Hne].
        -- rewrite fn_lookup_insert, decide_False, decide_True by lia. done.
        -- rewrite fn_lookup_insert_ne by done. do 2 case_decide; done || lia.
      * rewrite Ht. unfold fl1. rewrite free_total_insert, length_cons by done. lia.
      * etransitivity; [eapply agree_weaken; [|exact Hm1]|eapply agree_weaken; [|exact Hm2]];
          intros a [[Hbm Ha] Hsp].
        -- split; [done|]. intros k i. unfold fl1. rewrite fblock_insert by done.
           intros [[-> [->|Hin]%elem_of_cons]|[_ Hf]]; [|by apply Ha..].
           intros Hs. apply Hsp. unfold span, nodep, PAGE_SIZE in *. lia.
        -- rewrite Hb1. split.
           ++ split; [done|]. intros k i. unfold fl1. rewrite fblock_insert by done.
              intros [[-> [->|Hin]%elem_of_cons]|[_ Hf]]; [|by apply Ha..].
              intros Hs. apply Hsp. unfold span, nodep, PAGE_SIZE in *. simpl in *. lia.
           ++ intros Hs. apply Hsp. unfold span, nodep, PAGE_SIZE in *. simpl in *. lia.
    + rewrite Hb1. destruct (legal_halves _ _ _ Hleg ltac:(lia)) as [HL _]. exact HL.
    + intros k i. unfold fl1. rewrite fblock_insert by done.
      intros [[-> [->|Hin]%elem_of_cons]|[_ Hf]].
      * unfold apart. lia.
      * specialize (Hap (level - 1) i (conj Hlev Hin)). unfold apart in *. lia.
      * specialize (Hap k i Hf). unfold apart in *. lia.
Qed.

Lemma lxor_pow2_ne x k : 0 ≤ k → Z.lxor x (2 ^ k) ≠ x.
Proof.
  intros Hk Hx. pose proof (pow2_pos k Hk).
  assert (2 ^ k = 0); [|lia]. rewrite <- (Z.lxor_0_l (2 ^ k)), <- (Z.lxor_nilpotent x), Z.lxor_assoc, Hx.
  done.
Qed.

(** Fields an allocation or release leaves alone. *)
Definition same_region (b b' : BuddyAllocator) : Prop :=
  base b' = base b ∧ frames b' = frames b ∧ bitmap b' = bitmap b ∧ order_bit_base b' = order_bit_base b.

Lemma linked_counters fl m b n p :
  linked fl (mkPM m b) → linked fl (mkPM m (with_peak p (with_allocated n b))).
Proof. intros [[] ? ? ? ? ?]. by constructor. Qed.

Lemma linked_allocated fl m b n : linked fl (mkPM m b) → linked fl (mkPM m (with_allocated n b)).
Proof. intros [[] ? ? ? ? ?]. by constructor. Qed.

(** The free blocks after carving an order-[order] block out of [(d, idx)]. *)
Lemma carve_fblock fl fl' order d idx rest :
  order_ok d → 0 ≤ order ≤ d → fl d = idx :: rest →
  (∀ k, order ≤ k < d → fl k = []) →
  (∀ k, order_ok k → fl' k = if decide (order ≤ k < d) then idx + 2 ^ k :: (<[d := rest]> fl) k
                             else (<[d := rest]> fl) k) →
  ∀ k j, fblock fl' k j ↔ (order ≤ k < d ∧ j = idx + 2 ^ k) ∨ (fblock fl k j ∧ ¬ (order ≤ k < d) ∧ (k = d → j ∈ rest)).
Proof.
  intros Hd Ho Hfd Hemp Hfl' k j. unfold fblock at 1. split.
  - intros [Hk Hj]. rewrite Hfl' in Hj by done. case_decide as Hc.
    + left. split; [done|]. rewrite fn_lookup_insert_ne, (Hemp k Hc) in Hj by lia. set_solver.
    + right. destruct (decide (d = k)) as [<-|Hne].
      * rewrite fn_lookup_insert in Hj. split_and!; [|done..]. split; [done|]. rewrite Hfd. set_solver.
      * rewrite fn_lookup_insert_ne in Hj by done. split_and!; [by split|done|congruence].
  - unfold order_ok in *. intros [[Hc ->]|([Hk Hj] & Hc & Hr)].
    + split; [lia|]. rewrite Hfl', decide_True by (unfold order_ok; lia). set_solver.
    + split; [done|]. rewrite Hfl', decide_False by done.
      destruct (decide (d = k)) as [<-|Hne]; [rewrite fn_lookup_insert; auto|].
      by rewrite fn_lookup_insert_ne.
Qed.

Lemma carve_free_frame fl fl' order d idx rest :
  0 ≤ order ≤ d → fblock fl d idx → fl d = idx :: rest →
  (∀ k j, fblock fl' k j ↔ (order ≤ k < d ∧ j = idx + 2 ^ k) ∨
     (fblock fl k j ∧ ¬ (order ≤ k < d) ∧ (k = d → j ∈ rest))) →
  (∀ k, order ≤ k < d → fl k = []) →
  ∀ f, free_frame fl f ↔ free_frame fl' f ∨ idx ≤ f < idx + 2 ^ order.
Proof.
  intros Ho Hd Hfd Hfb Hemp f. pose proof (pow2_pos order ltac:(lia)). split.
  - intros (k & j & Hf & Hj). destruct (decide (order ≤ k < d)) as [Hc|Hc].
    { destruct Hf as [_ Hin]. rewrite (Hemp k Hc) in Hin. by apply elem_of_nil in Hin. }
    destruct (decide (k = d ∧ j = idx)) as [[-> ->]|Hne].
    + destruct (Z.lt_ge_cases f (idx + 2 ^ order)) as [|Hge]; [right; lia|left].
      assert (Hpos : 0 < f - idx) by lia.
      pose proof (Z.log2_spec (f - idx) Hpos) as Hlog. pose proof (Z.log2_nonneg (f - idx)).
      rewrite Z.pow_succ_r in Hlog by lia.
      assert (order ≤ Z.log2 (f - idx)) by (apply Z.log2_le_pow2; lia).
      assert (Z.log2 (f - idx) < d) by (apply Z.log2_lt_pow2; lia).
      exists (Z.log2 (f - idx)), (idx + 2 ^ Z.log2 (f - idx)). split; [|lia]. apply Hfb. left. lia.
    + left. exists k, j. split; [|done]. apply Hfb. right. split_and!; [done..|].
      intros ->. destruct Hf as [_ Hin]. rewrite Hfd in Hin. set_solver.
  - intros [(k & j & [[Hc ->]|(Hf & _)]%Hfb & Hj)|Hf].
    + exists d, idx. split; [done|]. pose proof (Z.pow_le_mono_r 2 (k + 1) d).
      rewrite Z.pow_add_r in * by lia. pose proof (pow2_pos k). lia.
    + by exists k, j.
    + exists d, idx. split; [done|]. pose proof (Z.pow_le_mono_r 2 order d). lia.
Qed.

Lemma alloc_spec fl s order :
  buddy_ok fl s → 0 ≤ order →
  wp (alloc order) (λ r s',
    match r with
    | None => s' = s ∧ (∀ k, order ≤ k ≤ MAX_ORDER → fl k = [])
    | Some p => ∃ fl', let i := p - base (pm_buddy s) in
        buddy_ok fl' s' ∧ legal (pm_buddy s) order i ∧
        (∀ f, free_frame fl f ↔ free_frame fl' f ∨ i ≤ f < i + 2 ^ order) ∧
        (∀ k j, fblock fl' k j → apart order i k j) ∧
        same_region (pm_buddy s) (pm_buddy s') ∧
        allocated (pm_buddy s') = allocated (pm_buddy s) + 2 ^ order ∧
        agree (outside fl (pm_buddy s)) (pm_mem s) (pm_mem s')
    end) s.
Proof.
  intros [Hl Hco Hcnt Hal Hpk] Hord. unfold alloc.
  destruct (Z.ltb_spec MAX_ORDER order); [apply wp_ret; split; [done|intros; lia]|].
  wp_step. apply wp_self. wp_step.
  destruct (find_donor_spec fl s (Z.to_nat (MAX_ORDER + 1 - order)) order) as (d & Hd & Hdr & Hemp & Hne);
    [done|lia|by unfold MAX_ORDER|unfold MAX_ORDER in *; lia|].
  eapply wp_lift; [exact Hd|]. destruct (Z.ltb_spec MAX_ORDER d) as [Hgt|Hle].
  { apply wp_ret. split; [done|]. intros k Hk. apply Hemp. lia. }
  specialize (Hne Hle). assert (Hdo : order_ok d) by (unfold order_ok; lia).
  destruct (fl d) as [|idx rest] eqn:Hfd; [done|]. clear Hne.
  destruct (lk_list _ _ Hl d Hdo) as (h & Hh & Hdll). rewrite Hfd in Hdll.
  destruct Hdll as (-> & _). assert (Hfi : fblock fl d idx) by (split; [done|rewrite Hfd; set_solver]).
  pose proof (lk_legal _ _ Hl _ _ Hfi) as Hleg. pose proof (lk_geo _ _ Hl) as Hg.
  pose proof (legal_range _ _ _ Hleg) as Hir.
  wp_step. eapply wp_lift; [exact Hh|]. wp_step.
  eapply wp_mono; [|apply (remove_spec fl d idx [] rest); [done..]].
  cbv beta. intros _ s1 (Hl1 & (l1 & Hb1) & Hm1). simpl in Hl1. set (fl1 := <[d := rest]> fl) in *.
  assert (Hnd : (idx ∉ rest) ∧ NoDup rest).
  { pose proof (lk_nodup _ _ Hl d Hdo) as Hn. rewrite Hfd in Hn. by apply NoDup_cons in Hn. }
  assert (Hap1 : ∀ k i, fblock fl1 k i → apart d idx k i).
  { intros k i Hf. unfold fl1 in Hf. apply fblock_insert in Hf; [|done].
    assert (Hf' : fblock fl k i ∧ (k = d → i ∈ rest)).
    { destruct Hf as [[-> Hin]|[Hk Hf]]; [|done]. split; [|done]. split; [done|]. rewrite Hfd. set_solver. }
    destruct (lk_apart _ _ Hl _ _ _ _ Hfi (proj1 Hf')) as [[<- <-]|]; [|done].
    exfalso. apply (proj1 Hnd), Hf'. done. }
  wp_step. eapply wp_mono; [|apply (split_down_spec _ order d idx s1 fl1); [done|lia|done|by rewrite Hb1|done]].
  cbv beta. intros _ s2 (fl2 & Hl2 & (l2 & Hb2) & Hfl2 & Ht2 & Hm2).
  rewrite Hb1 in Hb2, Hm2. simpl in Hb2.
  assert (Hft1 : free_total fl1 = free_total fl - 2 ^ d).
  { unfold fl1. rewrite free_total_insert, Hfd, length_cons by done. lia. }
  pose proof (packing fl2 (frames (pm_buddy s))) as Hpk2.
  assert (Hfin : free_total fl2 = free_total fl - 2 ^ order) by lia.
  assert (Hft2 : 0 ≤ free_total fl2) by (rewrite <- covered_length; lia).
  pose proof (Z.pow_le_mono_r 2 order 10 ltac:(lia) ltac:(done)).
  wp_step. apply wp_self. rewrite Hb2. simpl.
  destruct Hg as [Hgb Hgf Hgt Hgl Hgbs Hgbm Hgbl].
  wp_step. eapply wp_lift; [apply u64_shl_ok; unfold U64, MAX_ORDER in *; lia|]. rewrite Z.mul_1_l.
  wp_step. eapply wp_lift; [apply u64_add_ok; unfold U64 in *; lia|].
  wp_step. apply wp_modify. wp_step. apply wp_modify. wp_step. simpl.
  eapply wp_lift; [apply u64_add_ok; unfold U64 in *; lia|]. apply wp_ret.
  pose proof (carve_fblock fl fl2 order d idx rest Hdo ltac:(lia) Hfd Hemp Hfl2) as Hfb.
  pose proof (carve_free_frame fl fl2 order d idx rest ltac:(lia) Hfi Hfd Hfb Hemp) as Hff.
  exists fl2. cbn zeta. replace (base (pm_buddy s) + idx - base (pm_buddy s)) with idx by lia.
  split_and!.
  - constructor; simpl; rewrite ?Hb2; simpl; try lia.
    + apply (linked_counters fl2). destruct s2 as [m2 b2]. simpl in *. by rewrite <- Hb2.
    + intros k i Hf Hk. apply Hfb in Hf as [[Hc ->]|(Hf & Hc & _)]; intros Hin.
      * assert (Hin' : fblock fl2 k (Z.lxor (idx + 2 ^ k) (2 ^ k))) by (split; [unfold order_ok; lia|done]).
        apply Hfb in Hin' as [[_ Heq]|(_ & Hc' & _)]; [|done].
        by apply (lxor_pow2_ne (idx + 2 ^ k) k); [lia|].
      * assert (Hin' : fblock fl2 k (Z.lxor i (2 ^ k))) by (split; [apply Hf|done]).
        apply Hfb in Hin' as [[Hc' _]|(Hf' & _)]; [done|]. by apply (Hco k i Hf Hk), Hf'.
  - destruct Hleg as (_ & Hi0 & Hdv & Htop). pose proof (Z.pow_le_mono_r 2 order d ltac:(lia) ltac:(lia)).
    split_and!; [unfold order_ok; lia|lia| |lia].
    etransitivity; [apply (pow2_divide order d); lia|done].
  - exact Hff.
  - intros k j Hf. apply Hfb in Hf as [[Hc ->]|(Hf & Hc & Hr)].
    + left. pose proof (Z.pow_le_mono_r 2 order k). lia.
    + destruct (lk_apart _ _ Hl _ _ _ _ Hfi Hf) as [[<- <-]|Ha].
      * exfalso. by apply (proj1 Hnd), Hr.
      * pose proof (Z.pow_le_mono_r 2 order d). unfold apart in *. lia.
  - by rewrite Hb2.
  - rewrite Hb2. simpl. lia.
  - simpl. etransitivity; [exact Hm1|]. eapply agree_weaken; [|exact Hm2].
    intros a [Hbm Ha]. split.
    + split; [done|]. intros k i Hf. apply (Ha k i). unfold fl1 in Hf.
      apply fblock_insert in Hf as [[-> Hin]|[_ Hf]]; [|done..]. split; [done|]. rewrite Hfd. set_solver.
    + exact (Ha d idx Hfi).
Qed.

(** ** Buddies *)

Lemma lxor_up k i : 0 ≤ k → (2 ^ (k + 1) | i) → Z.lxor i (2 ^ k) = i + 2 ^ k.
Proof.
  intros Hk [q ->]. symmetry. apply Z.add_nocarry_lxor, Z.bits_inj'. intros j Hj.
  rewrite Z.land_spec, Z.bits_0, Z.pow2_bits_eqb by done.
  destruct (Z.eqb_spec k j) as [<-|]; [|apply andb_false_r].
  rewrite Z.mul_pow2_bits_low by lia. done.
Qed.

Lemma buddy_cases k i : 0 ≤ k → (2 ^ k | i) →
  ((2 ^ (k + 1) | i) ∧ Z.lxor i (2 ^ k) = i + 2 ^ k) ∨
  ((2 ^ (k + 1) | i - 2 ^ k) ∧ Z.lxor i (2 ^ k) = i - 2 ^ k).
Proof.
  intros Hk [q ->]. pose proof (Z.div_mod q 2 ltac:(lia)) as Hq.
  pose proof (Z.mod_pos_bound q 2 ltac:(lia)) as Hm.
  assert (Hp : 2 ^ (k + 1) = 2 * 2 ^ k) by (rewrite Z.pow_add_r by lia; lia).
  destruct (decide (q `mod` 2 = 0)) as [He|He].
  - left. assert (Hd : (2 ^ (k + 1) | q * 2 ^ k)) by (exists (q `div` 2); lia).
    split; [done|by apply lxor_up].
  - right. assert (H1 : q `mod` 2 = 1) by lia.
    assert (Hd : (2 ^ (k + 1) | q * 2 ^ k - 2 ^ k)) by (exists (q `div` 2); nia).
    split; [done|]. pose proof (lxor_up k _ Hk Hd) as Hx.
    replace (q * 2 ^ k - 2 ^ k + 2 ^ k) with (q * 2 ^ k) in Hx by lia.
    rewrite <- Hx at 1. by rewrite Z.lxor_assoc, Z.lxor_nilpotent, Z.lxor_0_r.
Qed.

(** In a coalesced allocator an aligned run that is entirely free lies inside
    one free block. *)
Lemma coalesced_run fl s k i :
  linked fl s → coalesced fl → 0 ≤ k → legal (pm_buddy s) k i →
  (∀ f, i ≤ f < i + 2 ^ k → free_frame fl f) →
  ∃ k' i', k ≤ k' ∧ fblock fl k' i' ∧ i' ≤ i ∧ i + 2 ^ k ≤ i' + 2 ^ k'.
Proof.
  intros Hl Hco Hk. revert i. pattern k. revert k Hk. apply natlike_ind.
  - intros i Hleg Hf. destruct (Hf i) as (k' & i' & Hb & Hi); [simpl; lia|].
    exists k', i'. split_and!; [apply Hb|done|lia|change (2 ^ 0) with 1; lia].
  - intros k Hk IH i Hleg Hf. rewrite <- Z.add_1_r in *.
    assert (Hp : 2 ^ (k + 1) = 2 * 2 ^ k) by (rewrite Z.pow_add_r by lia; lia).
    pose proof (pow2_pos k Hk). destruct (legal_halves _ _ _ Hleg Hk) as [HL HR].
    destruct Hleg as (Hko & _ & Hdv & _). unfold order_ok in Hko.
    destruct (IH i HL) as (kL & iL & HkL & HbL & HL1 & HL2); [intros; apply Hf; lia|].
    destruct (IH (i + 2 ^ k) HR) as (kR & iR & HkR & HbR & HR1 & HR2); [intros; apply Hf; lia|].
    assert (Hbig : ∀ k' i' f, k + 1 ≤ k' → fblock fl k' i' → i ≤ f < i + 2 ^ (k + 1) →
      i' ≤ f < i' + 2 ^ k' → ∃ k' i', k + 1 ≤ k' ∧ fblock fl k' i' ∧ i' ≤ i ∧ i + 2 ^ (k + 1) ≤ i' + 2 ^ k').
    { intros k' i' f Hk' Hb Hfa Hfb. exists k', i'.
      destruct (aligned_nested (k + 1) i k' i' f) as [? ?]; [lia|done| |done..].
      by apply (lk_legal _ _ Hl _ _ Hb). }
    destruct (decide (k + 1 ≤ kL)) as [|HsL]; [eapply (Hbig kL iL i); done || lia|].
    destruct (decide (k + 1 ≤ kR)) as [|HsR]; [eapply (Hbig kR iR (i + 2 ^ k)); done || lia|].
    assert (kL = k) as -> by lia. assert (kR = k) as -> by lia.
    assert (iL = i) as -> by lia. assert (iR = i + 2 ^ k) as -> by lia.
    exfalso. apply (Hco k i HbL); [lia|]. rewrite lxor_up by done. apply HbR.
Qed.
