(* ===== verification/BuddyFree.v ===== *)
(** * Releasing blocks

    The coalescing loop of [free] and the release of a block: the buddy of a
    released block is merged in for as long as it is free, and the block that
    results goes back on the list of its order. *)
From stdpp Require Import base numbers functions sets list.
From Stdlib Require Import Lia.
From S2P Require Import Prelude Memory Config Addr Frame FreeList BuddyInv BuddyAlloc.

Lemma pow2_succ k : 0 ≤ k → 2 ^ (k + 1) = 2 * 2 ^ k.
Proof. intros. rewrite Z.pow_add_r by lia. lia. Qed.

(** A byte belongs to a block when its frame does. *)
Lemma span_frame b i k a :
  span (nodep b i) (2 ^ k * PAGE_SIZE) a ↔
  i ≤ (a - nodep b 0) `div` PAGE_SIZE < i + 2 ^ k.
Proof.
  unfold span, nodep, PAGE_SIZE.
  set (q := (a - _) `div` 4096).
  pose proof (Z.div_mod (a - ((base b + 0) * 4096 + VIRT_OFFSET)) 4096 ltac:(lia)) as Hd.
  pose proof (Z.mod_pos_bound (a - ((base b + 0) * 4096 + VIRT_OFFSET)) 4096 ltac:(lia)).
  fold q in Hd. lia.
Qed.

Lemma outside_frames fl b a :
  outside fl b a ↔
  ¬ span (bitmap b) (bitmap_len b) a ∧ ¬ free_frame fl ((a - nodep b 0) `div` PAGE_SIZE).
Proof.
  unfold outside, free_frame. setoid_rewrite span_frame. naive_solver.
Qed.

(** The buddy of a legal block, when it lies inside the region, is the other
    half of a legal block of the next order. *)
Lemma buddy_legal b k i :
  legal b k i → k < MAX_ORDER →
  let j := Z.lxor i (2 ^ k) in
  0 ≤ j ∧ (2 ^ k | j) ∧ Z.max i j = Z.min i j + 2 ^ k ∧
  (j + 2 ^ k ≤ frames b → legal b (k + 1) (Z.min i j) ∧
     (∀ f, Z.min i j ≤ f < Z.min i j + 2 ^ (k + 1) ↔ i ≤ f < i + 2 ^ k ∨ j ≤ f < j + 2 ^ k)).
Proof.
  intros (Hk & Hi & Hd & Ht) Hlt. unfold order_ok in Hk. pose proof (pow2_pos k ltac:(lia)).
  pose proof (pow2_succ k ltac:(lia)) as Hs. cbn zeta. unfold legal, apart, order_ok.
  destruct (buddy_cases k i ltac:(lia) Hd) as [[Hd' ->]|[Hd' ->]].
  - rewrite Z.min_l by lia. split_and!; [lia|by apply Z.divide_add_r|lia|].
    intros. split_and!; (done || lia).
  - rewrite Z.min_r by lia. assert (0 ≤ i - 2 ^ k) by (destruct Hd' as [q Hq]; rewrite Hs in Hq; assert (0 ≤ q) by nia; nia).
    split_and!; [lia|by apply Z.divide_sub_r|lia|].
    intros. split_and!; (done || lia).
Qed.

(** Free blocks left after unlinking [i] from list [k]. *)
Lemma unlink_fblock fl s k i l1 l2 :
  linked fl s → order_ok k → fl k = l1 ++ i :: l2 →
  ∀ k' i', fblock (<[k := l1 ++ l2]> fl) k' i' ↔ fblock fl k' i' ∧ (k', i') ≠ (k, i).
Proof.
  intros Hl Hk Hfl k' i'. rewrite fblock_insert by done.
  pose proof (lk_nodup _ _ Hl k Hk) as Hnd. rewrite Hfl in Hnd.
  apply NoDup_app in Hnd as (_ & Hn1 & [Hn2 _]%NoDup_cons).
  unfold fblock. destruct (decide (k' = k)) as [->|Hne].
  - rewrite Hfl. split.
    + intros [[_ Hin]|[? _]]; [|done]. split; [set_solver|]. intros [= ->]. set_solver.
    + intros [[_ Hin] Hne]. left. split; [done|]. assert (i' ≠ i) by congruence. set_solver.
  - split; [intros [[? _]|[_ ?]]|intros [? _]; right]; naive_solver.
Qed.

Lemma unlink_free_frame fl s k i l1 l2 f :
  linked fl s → order_ok k → fl k = l1 ++ i :: l2 →
  free_frame fl f ↔ free_frame (<[k := l1 ++ l2]> fl) f ∨ i ≤ f < i + 2 ^ k.
Proof.
  intros Hl Hk Hfl. unfold free_frame. setoid_rewrite (unlink_fblock fl s k i l1 l2 Hl Hk Hfl).
  split.
  - intros (k' & i' & Hf & Hin). destruct (decide ((k', i') = (k, i))) as [[= -> ->]|Hne]; [by right|].
    left. by exists k', i'.
  - intros [(k' & i' & [Hf _] & Hin)|Hin]; [by exists k', i'|]. exists k, i. split; [|done].
    split; [done|]. rewrite Hfl. set_solver.
Qed.

(** What one run of the coalescing loop leaves behind. *)
Record merged (fl : Z → list Z) (s : PhysMem) (k i : Z)
    (fl' : Z → list Z) (s' : PhysMem) (k' i' : Z) : Prop := {
  mg_linked : linked fl' s';
  mg_coalesced : coalesced fl';
  mg_state : ∃ l, pm_buddy s' = with_free_lists l (pm_buddy s);
  mg_legal : legal (pm_buddy s) k' i';
  mg_apart : ∀ k0 i0, fblock fl' k0 i0 → apart k' i' k0 i0;
  mg_frames : ∀ f, free_frame fl' f ∨ i' ≤ f < i' + 2 ^ k' ↔ free_frame fl f ∨ i ≤ f < i + 2 ^ k;
  mg_total : free_total fl' + 2 ^ k' = free_total fl + 2 ^ k;
  mg_alone : k' < MAX_ORDER → Z.lxor i' (2 ^ k') ∉ fl' k';
  mg_mem : agree (outside fl (pm_buddy s)) (pm_mem s) (pm_mem s');
}.

Lemma merged_refl fl s k i :
  linked fl s → coalesced fl → legal (pm_buddy s) k i →
  (∀ k0 i0, fblock fl k0 i0 → apart k i k0 i0) →
  (k < MAX_ORDER → Z.lxor i (2 ^ k) ∉ fl k) → merged fl s k i fl s k i.
Proof. intros. constructor; try done. destruct s as [? []]; by eexists. Qed.

Lemma merge_up_spec n k i s fl :
  linked fl s → coalesced fl → legal (pm_buddy s) k i →
  (∀ k0 i0, fblock fl k0 i0 → apart k i k0 i0) → n = Z.to_nat (MAX_ORDER - k) →
  wp (merge_up n i k) (λ '(i', k') s', ∃ fl', merged fl s k i fl' s' k' i') s.
Proof.
  revert k i s fl. induction n as [|n IH]; intros k i s fl Hl Hco Hleg Hap Hn.
  { simpl. apply wp_ret. exists fl. apply merged_refl; [done..|]. lia. }
  assert (Hk : order_ok k) by apply Hleg. pose proof Hk as [Hk0 Hk1].
  assert (Hkm : k < MAX_ORDER) by lia.
  cbn [merge_up]. destruct (Z.ltb_spec k MAX_ORDER); [|lia].
  pose proof (pow2_pos k Hk0) as Hp. pose proof (lk_geo _ _ Hl) as Hg.
  destruct (buddy_legal _ _ _ Hleg Hkm) as (Hj0 & Hjd & Hij & Hup). cbn zeta in Hup.
  set (j := Z.lxor i (2 ^ k)) in *.
  pose proof (legal_range _ _ _ Hleg) as Hir.
  assert (Hjt : j + 2 ^ k < U64).
  { unfold j. destruct (buddy_cases k i Hk0) as [[_ ->]|[_ ->]]; [apply Hleg|..];
    pose proof (Z.pow_le_mono_r 2 k 10 ltac:(lia) Hk1); destruct Hg; unfold U64; lia. }
  wp_step. apply wp_self. wp_step. eapply wp_lift; [apply u64_shl_ok; unfold U64, MAX_ORDER in *; lia|].
  rewrite Z.mul_1_l. fold j. wp_step. eapply wp_lift; [by apply u64_add_ok|].
  destruct (Z.ltb_spec (frames (pm_buddy s)) (j + 2 ^ k)) as [Hout|Hin].
  { apply wp_ret. exists fl. apply merged_refl; [done..|]. intros _ Hj.
    destruct (lk_legal _ _ Hl k j (conj Hk Hj)) as (_ & _ & _ & ?). lia. }
  destruct (Hup Hin) as [Hlegu Hfu]. wp_step. apply wp_is_free; [done..|lia|].
  rewrite (lk_bits _ _ Hl) by (done || lia).
  destruct (bool_decide_reflect (j ∈ fl k)) as [Hj|Hj].
  2: { apply wp_ret. exists fl. by apply merged_refl. }
  apply list_elem_of_split in Hj as (l1 & l2 & Hfl).
  pose proof (unlink_fblock fl s k j l1 l2 Hl Hk Hfl) as Hfb.
  wp_step. eapply wp_mono; [|by apply (remove_spec fl k j l1 l2)].
  cbv beta. intros _ s1 (Hl1 & (l & Hb1) & Hm1).
  set (fl1 := <[k := l1 ++ l2]> fl) in *.
  assert (Hjf : fblock fl k j) by (split; [done|]; rewrite Hfl; set_solver).
  eapply wp_mono; [|apply (IH (k + 1) (Z.min i j) s1 fl1); [done| | | |lia]].
  - cbv beta. intros [i' k'] s2 [fl2 [Hl2 Hc2 [l' Hb2] Hleg2 Hap2 Hfr2 Ht2 Hal2 Hm2]].
    rewrite Hb1 in *. exists fl2. constructor; try done.
    + exists l'. by rewrite Hb2.
    + intros f. rewrite Hfr2, Hfu. rewrite (unlink_free_frame fl s k j l1 l2 f Hl Hk Hfl). fold fl1. tauto.
    + rewrite Ht2. unfold fl1. rewrite free_total_insert, Hfl, !length_app, length_cons, pow2_succ by done. lia.
    + etransitivity; [exact Hm1|]. eapply agree_weaken; [|exact Hm2].
      intros a. rewrite !outside_frames. simpl. intros [Ha Hf]. split; [done|]. intros Hf'. apply Hf.
      apply (unlink_free_frame fl s k j l1 l2 _ Hl Hk Hfl). by left.
  - intros k0 i0 [Hf0 _]%Hfb Hk0' Hx. apply (Hco k0 i0 Hf0 Hk0').
    apply (proj1 (proj1 (Hfb _ _) (conj (proj1 Hf0) Hx))).
  - by rewrite Hb1.
  - intros k0 i0 [Hf0 Hne]%Hfb. specialize (Hap k0 i0 Hf0).
    destruct (lk_apart _ _ Hl _ _ _ _ Hjf Hf0) as [[<- <-]|Haj]; [done|].
    pose proof (pow2_pos k0 (proj1 (proj1 Hf0))). pose proof (pow2_succ k Hk0).
    unfold apart in *. lia.
Qed.

Lemma coalesced_push fl k i :
  coalesced fl → order_ok k → (2 ^ k | i) → (k < MAX_ORDER → Z.lxor i (2 ^ k) ∉ fl k) →
  coalesced (<[k := i :: fl k]> fl).
Proof.
  intros Hco Hk Hd Hal k' i' Hf Hlt. apply fblock_insert in Hf; [|done].
  destruct Hf as [[-> Hin]|[Hne Hf]].
  - rewrite fn_lookup_insert. destruct Hk as [Hk0 Hk1]. pose proof (lxor_pow2_ne i' k Hk0).
    apply elem_of_cons in Hin as [->|Hin].
    + apply not_elem_of_cons. auto.
    + apply not_elem_of_cons. split.
      * intros Heq. apply (Hal Hlt). rewrite <- Heq, Z.lxor_assoc, Z.lxor_nilpotent, Z.lxor_0_r. done.
      * apply (Hco k i'); [|done]. by split.
  - rewrite fn_lookup_insert_ne by done. by apply Hco.
Qed.

Lemma push_free_frame fl k i f : order_ok k →
  free_frame (<[k := i :: fl k]> fl) f ↔ free_frame fl f ∨ i ≤ f < i + 2 ^ k.
Proof.
  intros Hk. unfold free_frame. setoid_rewrite fblock_insert; [|done]. split.
  - intros (k' & i' & [[-> [->|Hin]%elem_of_cons]|[_ Hf]] & Hb); [by right|left..].
    + exists k, i'. by split.
    + by exists k', i'.
  - intros [(k' & i' & Hf & Hb)|Hb].
    + exists k', i'. split; [|done]. destruct (decide (k' = k)) as [->|]; [left|by right].
      split; [done|]. apply elem_of_cons. right. apply Hf.
    + exists k, i. split; [left; set_solver|done].
Qed.

Lemma aligned_mask k i : 0 ≤ k → Z.land i (2 ^ k - 1) = i `mod` 2 ^ k.
Proof.
  intros. rewrite <- Z.land_ones by done. by rewrite Z.ones_equiv, Z.sub_1_r.
Qed.

(** Releasing a block that is disjoint from every free block. *)
Lemma free_spec fl s order p :
  let i := p - base (pm_buddy s) in
  buddy_ok fl s → legal (pm_buddy s) order i →
  (∀ k j, fblock fl k j → apart order i k j) →
  wp (free p order) (λ _ s', ∃ fl',
    buddy_ok fl' s' ∧
    (∀ f, free_frame fl' f ↔ free_frame fl f ∨ i ≤ f < i + 2 ^ order) ∧
    same_region (pm_buddy s) (pm_buddy s') ∧
    allocated (pm_buddy s') = allocated (pm_buddy s) - 2 ^ order ∧
    peak (pm_buddy s') = peak (pm_buddy s) ∧
    agree (λ a, outside fl (pm_buddy s) a ∧ ¬ span (nodep (pm_buddy s) i) (2 ^ order * PAGE_SIZE) a)
      (pm_mem s) (pm_mem s')) s.
Proof.
  cbn zeta. intros [Hl Hco Hcnt Hal Hpk] Hleg Hap.
  pose proof (unfree_block_counted _ _ _ _ Hl Hleg Hap) as Hroom.
  pose proof Hleg as (Hk & Hi & Hd & Ht). pose proof Hk as [Hk0 Hk1].
  pose proof (lk_geo _ _ Hl) as Hg. pose proof (pow2_pos order Hk0) as Hp.
  set (i := p - base (pm_buddy s)) in *.
  unfold free. wp_step. apply wp_self. wp_step.
  eapply wp_lift; [unfold checked_sub; destruct (Z.leb_spec (base (pm_buddy s)) p); [done|lia]|].
  fold i. wp_step. eapply wp_lift; [apply u64_shl_ok; unfold U64, MAX_ORDER in *; [lia..|]|].
  { pose proof (Z.pow_le_mono_r 2 order 10 ltac:(lia) Hk1). lia. }
  rewrite Z.mul_1_l. wp_step. eapply wp_lift; [apply u64_add_ok; destruct Hg; unfold U64; lia|].
  wp_step. eapply wp_lift; [rewrite (proj2 (Z.leb_le _ _) Ht); done|].
  wp_step. eapply wp_lift.
  { rewrite aligned_mask by done. apply Z.mod_divide in Hd; [|lia]. by rewrite Hd. }
  wp_step. eapply wp_lift; [apply u64_sub_ok; lia|]. wp_step. apply wp_modify.
  set (s0 := mkPM _ _). assert (Hl0 : linked fl s0) by (destruct s as [m b]; by apply linked_allocated).
  wp_step. eapply wp_mono; [|by apply (merge_up_spec _ order i s0 fl)].
  cbv beta. intros [i' k'] s1 [fl1 [Hl1 Hc1 [l Hb1] Hleg1 Hap1 Hfr1 Ht1 Hal1 Hm1]].
  assert (Hk' : order_ok k') by apply Hleg1.
  eapply wp_mono; [|apply (push_spec fl1 k' i'); [done|by rewrite Hb1|done]].
  cbv beta. intros _ s2 (Hl2 & (l2 & Hb2) & Hm2). rewrite Hb1 in *. simpl in *.
  exists (<[k' := i' :: fl1 k']> fl1). split_and!; rewrite ?Hb2; simpl; try done.
  - constructor; [done|apply coalesced_push; [done..|apply Hleg1|done]|..]; rewrite ?Hb2; simpl; [|lia..].
    rewrite free_total_insert, length_cons by done. lia.
  - intros f. by rewrite push_free_frame, Hfr1.
  - etransitivity; [eapply agree_weaken; [|exact Hm1]|eapply agree_weaken; [|exact Hm2]].
    + intros a [Ha _]. done.
    + intros a. rewrite span_frame, !outside_frames. intros [[Ha Hf] Hb]. split; [done|].
      intros Hf'%push_free_frame; [|done]. apply Hfr1 in Hf'. tauto.
Qed.
