(* ===== verification/BuddyInit.v ===== *)
(** * Bring-up of the frame allocator

    [init] carves the bitmap off the front of the range, aligns what is left
    to the largest block size and seeds the free lists with the largest
    aligned blocks that fit. *)
From stdpp Require Import base numbers functions sets list.
From Stdlib Require Import Lia.
From S2P Require Import Prelude Memory Config Addr Frame FreeList BuddyInv BuddyAlloc BuddyFree.

(** ** Bitmap sizing *)

Lemma Zsum_nonneg l : Forall (λ x, 0 ≤ x) l → 0 ≤ Zsum l.
Proof. unfold Zsum. induction 1; simpl; lia. Qed.

Lemma blocks_nonneg n : 0 ≤ n → Forall (λ x, 0 ≤ x) (blocks_per_order n).
Proof.
  intros Hn. unfold blocks_per_order. apply Forall_fmap, Forall_forall.
  intros k [Hk _]%elem_of_seqZ. simpl. apply div_ceil_nonneg; [done|by apply pow2_pos].
Qed.

Lemma obb_all n : obb n 11 = Zsum (blocks_per_order n).
Proof. reflexivity. Qed.

Lemma checked_sum_ok l acc :
  Forall (λ x, 0 ≤ x) l → acc + Zsum l < U64 → checked_sum l acc = Ret (acc + Zsum l).
Proof.
  intros Hl. revert acc. induction Hl as [|x l Hx Hl IH]; intros acc Hb; cbn [checked_sum].
  - unfold Zsum. simpl. f_equal. lia.
  - pose proof (Zsum_nonneg l Hl). unfold Zsum in *. simpl in *.
    rewrite u64_add_ok by lia. simpl. rewrite IH by lia. f_equal. lia.
Qed.

Lemma bit_bases_ok l acc :
  Forall (λ x, 0 ≤ x) l → acc + Zsum l < U64 →
  ∃ bs, bit_bases l acc = Ret bs ∧
    ∀ j : nat, (j < length l)%nat → bs !! j = Some (acc + Zsum (take j l)).
Proof.
  intros Hl. revert acc. induction Hl as [|x l Hx Hl IH]; intros acc Hb; cbn [bit_bases].
  - exists []. split; [done|]. simpl. lia.
  - pose proof (Zsum_nonneg l Hl). unfold Zsum in *. simpl in Hb.
    rewrite u64_add_ok by lia. simpl. destruct (IH (acc + x)) as (bs & -> & Hbs); [lia|]. simpl.
    eexists. split; [done|]. intros [|j] Hj; simpl in *; [f_equal; lia|].
    rewrite Hbs by lia. f_equal. lia.
Qed.

Lemma div_ceil_mono x x' y : 0 < y → x ≤ x' → div_ceil x y ≤ div_ceil x' y.
Proof. intros Hy Hx. unfold div_ceil. apply Z.div_le_mono; lia. Qed.

Lemma obb_mono_frames n n' : n ≤ n' → obb n 11 ≤ obb n' 11.
Proof.
  intros Hn. rewrite !obb_all. unfold Zsum, blocks_per_order.
  assert (Hks : Forall (λ k, 0 ≤ k) (seqZ 0 (MAX_ORDER + 1))).
  { apply Forall_forall. intros k ?%elem_of_seqZ. lia. }
  induction Hks as [|k ks Hk Hks IH]; cbn [map foldr]; [lia|].
  pose proof (div_ceil_mono n n' (2 ^ k) (pow2_pos k Hk) Hn). lia.
Qed.

(** ** Seeding *)

(** The order chosen at [idx]: the largest that is aligned there and fits. *)
Definition seed_maximal (n k i : Z) : Prop :=
  k < MAX_ORDER → (2 ^ (k + 1) | i) → n < i + 2 ^ (k + 1).

Lemma seed_order_spec fuel n idx k :
  0 ≤ idx < n → n ≤ 2 ^ 26 → order_ok k → fuel = Z.to_nat k → seed_maximal n k idx →
  ∃ k', seed_order fuel n idx k = Ret k' ∧ order_ok k' ∧ (2 ^ k' | idx) ∧ idx + 2 ^ k' ≤ n ∧
    seed_maximal n k' idx.
Proof.
  intros Hi Hn. revert k. induction fuel as [|fuel IH]; intros k Hk Hf Hmax.
  - assert (k = 0) as -> by (unfold order_ok in Hk; lia). exists 0. cbn [seed_order].
    split_and!; [done| |apply Z.divide_1_l|simpl; lia|done]. done.
  - unfold order_ok in Hk. cbn [seed_order]. destruct (Z.ltb_spec 0 k); [|lia].
    pose proof (pow2_pos k ltac:(lia)) as Hp.
    pose proof (Z.pow_le_mono_r 2 k 10 ltac:(lia) ltac:(unfold MAX_ORDER in *; lia)).
    rewrite u64_shl_ok by (unfold U64, MAX_ORDER in *; lia). rewrite Z.mul_1_l. simpl.
    rewrite aligned_mask by lia.
    assert (Hrec : ¬ ((2 ^ k | idx) ∧ idx + 2 ^ k ≤ n) → ∃ k', seed_order fuel n idx (k - 1) = Ret k' ∧
      order_ok k' ∧ (2 ^ k' | idx) ∧ idx + 2 ^ k' ≤ n ∧ seed_maximal n k' idx).
    { intros Hno. apply IH; [unfold order_ok; lia|lia|]. intros _ Hd.
      replace (k - 1 + 1) with k in * by lia. apply Z.nle_gt. intros ?. by apply Hno. }
    destruct (Z.eqb_spec (idx `mod` 2 ^ k) 0) as [Hz|Hz].
    + apply Z.mod_divide in Hz; [|lia]. rewrite u64_add_ok by (unfold U64; lia). simpl.
      destruct (Z.ltb_spec n (idx + 2 ^ k)).
      * apply Hrec. lia.
      * exists k. by split_and!.
    + simpl. apply Hrec. intros [Hd _]. apply Hz. apply Z.mod_divide; [lia|done].
Qed.

(** The state of the seeding loop at [idx]. *)
Record seeded (fl : Z → list Z) (s : PhysMem) (idx : Z) : Prop := {
  sd_linked : linked fl s;
  sd_coalesced : coalesced fl;
  sd_frames : ∀ f, free_frame fl f ↔ 0 ≤ f < idx;
  sd_total : free_total fl = idx;
  sd_maximal : ∀ k i, fblock fl k i → seed_maximal (frames (pm_buddy s)) k i;
}.

Lemma seeded_apart fl s idx k : seeded fl s idx → order_ok k →
  ∀ k' i', fblock fl k' i' → i' + 2 ^ k' ≤ idx.
Proof.
  intros Hs Hk k' i' Hf. pose proof (pow2_pos k' (proj1 (proj1 Hf))).
  assert (Hin : free_frame fl (i' + 2 ^ k' - 1)) by (exists k', i'; split; [done|lia]).
  apply (sd_frames _ _ _ Hs) in Hin. lia.
Qed.

Lemma seeded_push fl s s' idx k l :
  seeded fl s idx → legal (pm_buddy s) k idx → seed_maximal (frames (pm_buddy s)) k idx →
  linked (<[k := idx :: fl k]> fl) s' → pm_buddy s' = with_free_lists l (pm_buddy s) →
  seeded (<[k := idx :: fl k]> fl) s' (idx + 2 ^ k).
Proof.
  intros Hs (Hk & Hi & Hd & Ht) Hmax Hl' Hb. pose proof (pow2_pos k (proj1 Hk)) as Hp.
  pose proof (seeded_apart _ _ _ _ Hs Hk) as Hbelow.
  constructor; [done| | | |].
  - apply coalesced_push; [apply Hs|done|done|]. intros Hlt Hin.
    assert (Hf : fblock fl k (Z.lxor idx (2 ^ k))) by (by split).
    destruct (buddy_cases k idx (proj1 Hk) Hd) as [[_ He]|[Hd' He]]; rewrite He in Hf.
    + apply Hbelow in Hf. lia.
    + pose proof (sd_maximal _ _ _ Hs _ _ Hf Hlt Hd') as Hf'. rewrite pow2_succ in Hf' by apply Hk. lia.
  - intros f. rewrite push_free_frame, (sd_frames _ _ _ Hs) by done. lia.
  - rewrite free_total_insert, length_cons by done. rewrite (sd_total _ _ _ Hs). lia.
  - intros k' i' Hf. rewrite Hb. apply fblock_insert in Hf; [|done].
    destruct Hf as [[-> [->|Hin]%elem_of_cons]|[_ Hf]]; [done|..]; by apply (sd_maximal _ _ _ Hs).
Qed.

(** Bytes of neither the bitmap nor a managed frame. *)
Definition unmanaged (b : BuddyAllocator) : Z → Prop := λ a,
  ¬ span (bitmap b) (bitmap_len b) a ∧ ¬ span (nodep b 0) (frames b * PAGE_SIZE) a.

Lemma unmanaged_outside fl s a : linked fl s → unmanaged (pm_buddy s) a → outside fl (pm_buddy s) a.
Proof.
  intros Hl [Hb Hn]. split; [done|]. intros k i Hf Ha. apply Hn.
  destruct (lk_legal _ _ Hl k i Hf) as (_ & ? & _ & ?).
  unfold span, nodep, PAGE_SIZE in *. lia.
Qed.

Lemma seed_spec fuel fl s idx :
  seeded fl s idx → 0 ≤ idx ≤ frames (pm_buddy s) → (Z.to_nat (frames (pm_buddy s) - idx) ≤ fuel)%nat →
  wp (seed fuel idx) (λ _ s', ∃ fl', seeded fl' s' (frames (pm_buddy s)) ∧
    (∃ l, pm_buddy s' = with_free_lists l (pm_buddy s)) ∧
    agree (unmanaged (pm_buddy s)) (pm_mem s) (pm_mem s')) s.
Proof.
  revert fl s idx. induction fuel as [|fuel IH]; intros fl s idx Hs Hi Hf.
  - assert (idx = frames (pm_buddy s)) as -> by lia. cbn [seed]. apply wp_ret. exists fl.
    split_and!; [done|by destruct s as [? []]; eexists|done].
  - cbn [seed]. wp_step. apply wp_self. destruct (Z.ltb_spec idx (frames (pm_buddy s))) as [Hlt|Hge].
    2: { assert (idx = frames (pm_buddy s)) as -> by lia. apply wp_ret. exists fl.
         split_and!; [done|by destruct s as [? []]; eexists|done]. }
    pose proof (lk_geo _ _ (sd_linked _ _ _ Hs)) as Hg.
    destruct (seed_order_spec (Z.to_nat MAX_ORDER) (frames (pm_buddy s)) idx MAX_ORDER)
      as (k & Hso & Hk & Hd & Ht & Hmax); [lia|destruct Hg; lia|done|done|intros ?; lia|].
    assert (Hleg : legal (pm_buddy s) k idx) by (split_and!; done || lia).
    pose proof (pow2_pos k (proj1 Hk)) as Hp.
    wp_step. eapply wp_lift; [exact Hso|]. wp_step.
    eapply wp_mono; [|apply (push_spec fl k idx); [apply Hs|done|]].
    2: { intros k' i' Hf'. right. by apply (seeded_apart _ _ _ _ Hs Hk). }
    cbv beta. intros _ s1 (Hl1 & (l & Hb1) & Hm1).
    pose proof (seeded_push _ _ _ _ _ _ Hs Hleg Hmax Hl1 Hb1) as Hs1.
    wp_step. eapply wp_lift; [apply u64_shl_ok; unfold U64; [lia|destruct Hk; unfold MAX_ORDER in *; lia|destruct Hg; lia]|].
    rewrite Z.mul_1_l. wp_step. eapply wp_lift; [apply u64_add_ok; destruct Hg; unfold U64; lia|].
    eapply wp_mono; [|apply (IH _ s1 _ Hs1); rewrite Hb1; simpl; lia].
    cbv beta. intros _ s2 (fl2 & Hs2 & (l2 & Hb2) & Hm2). rewrite Hb1 in *. simpl in *.
    exists fl2. split_and!; [done|by exists l2|]. etransitivity; [|exact Hm2].
    eapply agree_weaken; [|exact Hm1]. intros a Ha.
    pose proof (unmanaged_outside _ s1 a Hl1) as Hu. rewrite Hb1 in Hu. by apply Hu.
Qed.

(** ** The whole of [init] *)

Lemma linked_fresh m b :
  geometry b → free_lists b = replicate 11 NIL →
  (∀ a, span (bitmap b) (bitmap_len b) a → m a = x00) → seeded (λ _, []) (mkPM m b) 0.
Proof.
  intros Hg Hfl Hz.
  assert (Hno : ∀ k i, ¬ fblock (λ _, []) k i) by (intros k i [_ Hin]; by apply elem_of_nil in Hin).
  constructor.
  - constructor; simpl; try done.
    + intros k Hk. exists NIL. split; [|done]. unfold order_ok, MAX_ORDER in Hk.
      rewrite Hfl. unfold arr_get. destruct (Z.ltb_spec k 0); [lia|].
      rewrite lookup_replicate_2 by lia. done.
    + intros k i Hf. by apply Hno in Hf.
    + intros. constructor.
    + intros k i k' i' Hf. by apply Hno in Hf.
    + intros k i Hk Hi _. unfold bitval. pose proof (bitpos_total (frames b) k i Hk Hi) as Hb.
      pose proof (wordp_bounds b _ Hg Hb). rewrite load64_zero; [|unfold span in *; intros; apply Hz; lia].
      rewrite Z.bits_0. done.
  - intros k i Hf. by apply Hno in Hf.
  - intros f. split; [|lia]. intros (k & i & Hf & _). by apply Hno in Hf.
  - unfold free_total. simpl. lia.
  - intros k i Hf. by apply Hno in Hf.
Qed.

(** Where [init] puts things: [first .. last) are the whole frames of the range. *)
Record layout (start stop : Z) (b : BuddyAllocator) : Prop := {
  ly_aligned : (2 ^ MAX_ORDER | base b);
  ly_bitmap : start + VIRT_OFFSET ≤ bitmap b;
  ly_below : bitmap b + bitmap_len b ≤ nodep b 0;
  ly_top : (base b + frames b) * PAGE_SIZE ≤ stop < (base b + frames b) * PAGE_SIZE + PAGE_SIZE;
  (** 4 MiB for the alignment, a few pages and a 2048th for the bitmap. *)
  ly_lost : 2048 * (base b * PAGE_SIZE - start - 0x404000) ≤ stop - start;
}.

(** The sizes computed before anything is written; [0x500000] is 5 MiB. *)
Lemma init_sizes start stop :
  0 ≤ start → start + 0x500000 ≤ stop < 2 ^ 38 →
  let first := div_ceil start PAGE_SIZE in
  let last := stop `div` PAGE_SIZE in
  let total := last - first in
  let bits := obb total 11 in
  ∃ bytes aligned, let bframes := div_ceil bytes PAGE_SIZE in
    align_up start = Ret (first * PAGE_SIZE) ∧ ppn (first * PAGE_SIZE) = first ∧
    ppn (align_down stop) = last ∧ first < last ∧ last < 2 ^ 26 ∧ 0 ≤ first ∧
    start ≤ first * PAGE_SIZE ∧
    checked_sum (blocks_per_order total) 0 = Ret bits ∧
    next_multiple_of (div_ceil bits 8) 8 = Ret bytes ∧ 8 * div_ceil bits 64 ≤ bytes ∧
    bytes ≤ bframes * PAGE_SIZE ∧ 0 ≤ bframes ≤ 2 ^ 26 ∧
    next_multiple_of (first + bframes) 1024 = Ret aligned ∧ (1024 | aligned) ∧
    first + bframes ≤ aligned ≤ last ∧ 2048 * (aligned - first - 1026) ≤ total.
Proof.
  intros Hs Ht first last total bits.
  pose proof (div_ceil_spec start PAGE_SIZE ltac:(done)) as Hf. fold first in Hf.
  assert (Hstop : stop = PAGE_SIZE * last + stop `mod` PAGE_SIZE) by (apply Z.div_mod; done).
  pose proof (Z.mod_pos_bound stop PAGE_SIZE ltac:(done)) as Hm.
  assert (Hps : PAGE_SIZE = 4096) by done.
  assert (Hrange : 0 ≤ first ∧ last < 2 ^ 26 ∧ 1278 ≤ total) by (unfold total; lia).
  pose proof (obb_upper total 11 ltac:(lia) ltac:(lia)) as Hbu. fold bits in Hbu.
  assert (Hb0 : 0 ≤ bits) by (unfold bits; rewrite obb_all; apply Zsum_nonneg, blocks_nonneg; lia).
  pose proof (div_ceil_spec bits 8 ltac:(lia)) as Hd8. pose proof (div_ceil_spec bits 64 ltac:(lia)) as Hd64.
  destruct (next_multiple_of_spec (div_ceil bits 8) 8) as (bytes & Hby & [q ->] & Hbb); [lia|unfold U64; lia|].
  pose proof (div_ceil_spec (q * 8) PAGE_SIZE ltac:(done)) as Hbf.
  destruct (next_multiple_of_spec (first + div_ceil (q * 8) PAGE_SIZE) 1024)
    as (aligned & Hal & Hdv & Hab); [lia|unfold U64; lia|].
  exists (q * 8), aligned. cbn zeta. split_and!; try done; try lia.
  - apply align_up_ret; unfold U64; lia.
  - rewrite ppn_div. by apply Z.div_mul.
  - rewrite align_down_sub, ppn_div by (unfold U64; lia). rewrite Hstop at 1.
    replace (PAGE_SIZE * last + _ - _) with (last * PAGE_SIZE) by lia. by apply Z.div_mul.
  - rewrite checked_sum_ok, <- obb_all; [done|apply blocks_nonneg; lia|]. rewrite <- obb_all. unfold U64. lia.
Qed.

Lemma init_spec start stop s :
  0 ≤ start → start + 0x500000 ≤ stop < 2 ^ 38 →
  wp (init start stop) (λ _ s', ∃ fl, buddy_ok fl s' ∧
    (∀ f, free_frame fl f ↔ 0 ≤ f < frames (pm_buddy s')) ∧
    allocated (pm_buddy s') = 0 ∧ peak (pm_buddy s') = 0 ∧ layout start stop (pm_buddy s') ∧
    agree (λ a, ¬ span (start + VIRT_OFFSET) (stop - start) a) (pm_mem s) (pm_mem s')) s.
Proof.
  intros Hs Ht.
  destruct (init_sizes start stop Hs Ht) as (bytes & aligned & Hup & Hf & Hl & Hlt & Hl26 & Hf0 & Hsf &
    Hsum & Hby & Hroom & Hbf & Hbfr & Hal & Hdv & Hab & Hlost). cbn zeta in *.
  set (first := div_ceil start PAGE_SIZE) in *. set (last := stop `div` PAGE_SIZE) in *.
  set (bframes := div_ceil bytes PAGE_SIZE) in *.
  assert (Hps : PAGE_SIZE = 4096) by done.
  assert (Hstop : last * PAGE_SIZE ≤ stop < last * PAGE_SIZE + PAGE_SIZE).
  { pose proof (Z.div_mod stop PAGE_SIZE ltac:(done)). pose proof (Z.mod_pos_bound stop PAGE_SIZE ltac:(done)).
    unfold last. lia. }
  unfold init. wp_step. eapply wp_lift; [exact Hup|]. cbn zeta. rewrite Hf, Hl.
  wp_step. eapply wp_lift; [by rewrite (proj2 (Z.ltb_lt _ _) Hlt)|].
  wp_step. eapply wp_lift; [exact Hsum|]. wp_step. eapply wp_lift; [exact Hby|]. fold bframes.
  wp_step. eapply wp_lift; [apply u64_mul_ok; unfold U64; lia|].
  wp_step. apply wp_write_bytes. wp_step. eapply wp_lift; [apply u64_add_ok; unfold U64; lia|].
  wp_step. eapply wp_lift; [exact Hal|]. wp_step. eapply wp_lift; [apply u64_sub_ok; lia|].
  wp_step. eapply wp_lift; [apply u64_sub_ok; lia|].
  set (n := last - first - (aligned - first)). assert (Hn : n = last - aligned) by (unfold n; lia).
  clearbody n. subst n. pose proof (obb_mono_frames (last - aligned) (last - first) ltac:(lia)) as Hmono.
  pose proof (obb_upper (last - aligned) 11 ltac:(lia) ltac:(lia)) as Hup11.
  destruct (bit_bases_ok (blocks_per_order (last - aligned)) 0) as (bs & Hbs & Hlook);
    [apply blocks_nonneg; lia|rewrite <- obb_all; unfold U64; lia|].
  wp_step. eapply wp_lift; [exact Hbs|]. wp_step. apply wp_modify.
  rewrite as_ptr_eq by lia. set (b0 := mkBuddy _ _ _ _ _ _ _).
  pose proof (div_ceil_mono _ _ 64 ltac:(lia) Hmono) as Hm64.
  assert (Hg : geometry b0).
  { constructor; unfold b0, nodep, bitmap_len; simpl; try (unfold VIRT_OFFSET; lia).
    intros k Hk. unfold order_ok, MAX_ORDER in Hk. unfold arr_get. destruct (Z.ltb_spec k 0); [lia|].
    rewrite Hlook by (simpl; lia). done. }
  pose proof (geo_below _ Hg) as Hbel.
  eapply wp_mono; [|apply (seed_spec _ (λ _, []) (mkPM _ b0) 0); [apply linked_fresh| |]; simpl].
  - cbv beta. simpl. intros _ s' (fl & [Hli Hc Hfr Htot _] & (l & Hb) & Hm). exists fl.
    rewrite Hb. simpl. split_and!; try done.
    + constructor; rewrite ?Hb; simpl; try done; lia.
    + constructor; simpl; [done|lia|exact Hbel|lia|].
      pose proof (div_ceil_spec start PAGE_SIZE ltac:(done)) as Hds. fold first in Hds. lia.
    + etransitivity; [|eapply agree_weaken; [|exact Hm]].
      * apply fill_agree. unfold span. lia.
      * unfold unmanaged, span, nodep in *. unfold b0 in *; simpl in *. lia.
  - done.
  - done.
  - intros a Ha. apply fill_in. unfold span, bitmap_len in *. simpl in *. lia.
  - lia.
  - lia.
Qed.
