(* ===== verification/FrameProps.v ===== *)
(** * Theorems about the frame allocator

    The operations of frame.rs against their abstract contract: the set of free
    frames ([frame_free]), the frame counter, and the bytes of frames in use. *)
From stdpp Require Import base numbers functions sets relations list.
From Stdlib Require Import Lia.
From S2P Require Import Prelude Memory Config Addr FrameIface Frame FreeList BuddyInv BuddyAlloc BuddyFree BuddyInit.

(** Frame [f] lies in the run of [2^k] frames at [i]. *)
Definition in_run (i k f : Z) : bool := (i <=? f) && (f <? i + 2 ^ k).

Lemma in_run_spec i k f : in_run i k f = true ↔ i ≤ f < i + 2 ^ k.
Proof. unfold in_run. rewrite andb_true_iff, Z.leb_le, Z.ltb_lt. done. Qed.

(** The bytes of the frames that are in use, and those outside the allocator,
    are what they were. *)
Definition keeps_used (s s' : PhysMem) : Prop :=
  agree (unmanaged (pm_buddy s)) (pm_mem s) (pm_mem s') ∧
  ∀ f, 0 ≤ f < frames (pm_buddy s) → frame_free s f = false →
       agree (span (nodep (pm_buddy s) f) PAGE_SIZE) (pm_mem s) (pm_mem s').

(** ** From the ghost lists to the bitmap view *)

Lemma frame_free_false fl s f :
  linked fl s → 0 ≤ f < frames (pm_buddy s) → frame_free s f = false ↔ ¬ free_frame fl f.
Proof. intros Hl Hf. rewrite <- (frame_free_spec fl s f Hl Hf). by destruct (frame_free s f). Qed.

Lemma geometry_page b f a :
  geometry b → 0 ≤ f < frames b → span (nodep b f) PAGE_SIZE a →
  (a - nodep b 0) `div` PAGE_SIZE = f ∧ ¬ span (bitmap b) (bitmap_len b) a.
Proof.
  intros Hg Hf Ha. split.
  - pose proof (proj1 (span_frame b f 0 a)) as Hs. change (2 ^ 0) with 1 in Hs.
    rewrite Z.mul_1_l in Hs. specialize (Hs Ha). lia.
  - pose proof (geo_below _ Hg). unfold span, nodep, PAGE_SIZE in *. lia.
Qed.

Lemma keeps_used_outside fl s s' :
  linked fl s → agree (outside fl (pm_buddy s)) (pm_mem s) (pm_mem s') → keeps_used s s'.
Proof.
  intros Hl Hm. split.
  - eapply agree_weaken; [|exact Hm]. intros a. by apply unmanaged_outside.
  - intros f Hf Hfree a Ha. apply Hm, outside_frames.
    destruct (geometry_page _ f a (lk_geo _ _ Hl) Hf Ha) as [-> ?]. split; [done|].
    by apply (frame_free_false fl s f Hl Hf).
Qed.

(** A run none of whose frames is free is apart from every free block. *)
Lemma used_apart fl s k i :
  linked fl s → legal (pm_buddy s) k i →
  (∀ f, i ≤ f < i + 2 ^ k → frame_free s f = false) →
  ∀ k' i', fblock fl k' i' → apart k i k' i'.
Proof.
  intros Hl (Hk & Hi & Hd & Ht) Hu k' i' Hf. unfold apart.
  destruct (Z.le_gt_cases (i + 2 ^ k) i') as [|H1]; [by left|].
  destruct (Z.le_gt_cases (i' + 2 ^ k') i) as [|H2]; [by right|].
  pose proof (pow2_pos k (proj1 Hk)). pose proof (pow2_pos k' (proj1 (proj1 Hf))).
  assert (Hfr : 0 ≤ Z.max i i' < frames (pm_buddy s)) by lia.
  assert (Hin : free_frame fl (Z.max i i')) by (exists k', i'; split; [done|lia]).
  apply (frame_free_spec fl s _ Hl Hfr) in Hin. rewrite Hu in Hin by lia. done.
Qed.

Lemma apart_used fl s k i :
  linked fl s → legal (pm_buddy s) k i → (∀ k' i', fblock fl k' i' → apart k i k' i') →
  ∀ f, i ≤ f < i + 2 ^ k → frame_free s f = false.
Proof.
  intros Hl (Hk & Hi & Hd & Ht) Hap f Hf. apply (frame_free_false fl s f Hl); [lia|].
  intros (k' & i' & Hb & Hin). specialize (Hap k' i' Hb). unfold apart in Hap. lia.
Qed.

Lemma frame_free_update fl fl' s s' P (d : bool → bool → bool) f :
  linked fl s → linked fl' s' → frames (pm_buddy s') = frames (pm_buddy s) →
  0 ≤ f < frames (pm_buddy s) →
  (free_frame fl' f ↔ d (frame_free s f) P = true) → frame_free s' f = d (frame_free s f) P.
Proof.
  intros Hl Hl' Hfr Hf Hd. apply eq_true_iff_eq. rewrite <- Hd. apply frame_free_spec; [done|by rewrite Hfr].
Qed.

(** ** The operations in terms of the bitmap view *)

Record taken (s s' : PhysMem) (i k : Z) : Prop := {
  tk_inv : buddy_inv s';
  tk_region : same_region (pm_buddy s) (pm_buddy s');
  tk_legal : legal (pm_buddy s) k i;
  tk_was_free : ∀ f, i ≤ f < i + 2 ^ k → frame_free s f = true;
  tk_now : ∀ f, 0 ≤ f < frames (pm_buddy s) → frame_free s' f = frame_free s f && negb (in_run i k f);
  tk_count : allocated (pm_buddy s') = allocated (pm_buddy s) + 2 ^ k;
  tk_bytes : keeps_used s s';
}.

Record returned (s s' : PhysMem) (i k : Z) : Prop := {
  rt_inv : buddy_inv s';
  rt_region : same_region (pm_buddy s) (pm_buddy s');
  rt_now : ∀ f, 0 ≤ f < frames (pm_buddy s) → frame_free s' f = frame_free s f || in_run i k f;
  rt_count : allocated (pm_buddy s') = allocated (pm_buddy s) - 2 ^ k;
  rt_unmanaged : agree (unmanaged (pm_buddy s)) (pm_mem s) (pm_mem s');
  rt_bytes : ∀ f, 0 ≤ f < frames (pm_buddy s) → frame_free s' f = false →
    agree (span (nodep (pm_buddy s) f) PAGE_SIZE) (pm_mem s) (pm_mem s');
}.

Lemma alloc_taken s order :
  buddy_inv s → 0 ≤ order →
  wp (alloc order) (λ r s', match r with
    | Some p => taken s s' (p - base (pm_buddy s)) order
    | None => s' = s ∧
        ∀ i, legal (pm_buddy s) order i → ∃ f, i ≤ f < i + 2 ^ order ∧ frame_free s f = false
    end) s.
Proof.
  intros [fl Hok] Ho. pose proof (ok_linked _ _ Hok) as Hl.
  eapply wp_mono; [|by apply alloc_spec]. cbv beta. intros [p|] s'.
  - intros (fl' & Hok' & Hleg & Hff & Hap & Hreg & Hcnt & Hm). set (i := p - base (pm_buddy s)) in *.
    pose proof (ok_linked _ _ Hok') as Hl'. destruct Hleg as (Hk & Hi & Hd & Ht).
    assert (Hrun : ∀ f, i ≤ f < i + 2 ^ order → 0 ≤ f < frames (pm_buddy s)) by lia.
    constructor; try done.
    + by exists fl'.
    + intros f Hf. apply (frame_free_spec fl); [done|auto|]. apply Hff. by right.
    + intros f Hf. apply (frame_free_update fl fl' s s' _ (λ x y, x && negb y)); try done; [apply Hreg|].
      rewrite andb_true_iff, negb_true_iff, (frame_free_spec fl s f Hl Hf), Hff.
      rewrite <- not_true_iff_false, in_run_spec. split; [|tauto].
      intros Hfr. split; [by left|]. intros Hin. destruct Hfr as (k & j & Hb & Hj).
      specialize (Hap k j Hb). unfold apart in Hap. lia.
    + by apply (keeps_used_outside fl).
  - intros [-> Hnone]. split; [done|]. intros i Hleg.
    destruct (decide (Exists (λ f, frame_free s f = false) (seqZ i (2 ^ order))))
      as [(f & Hf%elem_of_seqZ & Hff)%Exists_exists|Hno].
    + exists f. split; [lia|done].
    + exfalso. destruct (coalesced_run fl s order i) as (k & j & Hk & Hb & _ & _); [done|apply Hok|done..| |].
      { intros f Hf. apply (frame_free_spec fl s f Hl); [destruct Hleg as (? & ? & ? & ?); lia|].
        destruct (frame_free s f) eqn:Hff; [done|]. exfalso. apply Hno, Exists_exists. exists f. split; [apply elem_of_seqZ; lia|done]. }
      destruct Hb as [[? Hk1] Hin]. rewrite Hnone in Hin by lia. by apply elem_of_nil in Hin.
Qed.

Lemma free_returned s order i :
  buddy_inv s → legal (pm_buddy s) order i →
  (∀ f, i ≤ f < i + 2 ^ order → frame_free s f = false) →
  wp (free (base (pm_buddy s) + i) order) (λ _ s', returned s s' i order) s.
Proof.
  intros [fl Hok] Hleg Hu. pose proof (ok_linked _ _ Hok) as Hl.
  pose proof (free_spec fl s order (base (pm_buddy s) + i)) as Hs. cbn zeta in Hs.
  replace (base (pm_buddy s) + i - base (pm_buddy s)) with i in Hs by lia.
  eapply wp_mono; [|apply Hs; [done..|by apply (used_apart fl s)]]. clear Hs.
  cbv beta. intros _ s' (fl' & Hok' & Hff & Hreg & Hcnt & _ & Hm).
  pose proof (ok_linked _ _ Hok') as Hl'. destruct Hleg as (Hk & Hi & Hd & Ht).
  assert (Hnow : ∀ f, 0 ≤ f < frames (pm_buddy s) → frame_free s' f = frame_free s f || in_run i order f).
  { intros f Hf. apply (frame_free_update fl fl' s s' _ orb); try done; [apply Hreg|].
    by rewrite orb_true_iff, in_run_spec, (frame_free_spec fl s f Hl Hf). }
  constructor; try done.
  - by exists fl'.
  - eapply agree_weaken; [|exact Hm]. intros a Ha. split; [by apply unmanaged_outside|].
    destruct Ha as [_ Ha]. intros Hs. apply Ha. unfold span, nodep, PAGE_SIZE in *. lia.
  - intros f Hf Hff' a Ha. apply Hm. rewrite span_frame, outside_frames.
    destruct (geometry_page _ f a (lk_geo _ _ Hl) Hf Ha) as [-> ?].
    rewrite Hnow in Hff' by done. apply orb_false_iff in Hff' as [H1 H2].
    rewrite (frame_free_false fl s f Hl Hf) in H1. rewrite <- not_true_iff_false, in_run_spec in H2. done.
Qed.

(** ** Histories of the allocator

    A history of calls by code that follows the ownership discipline of the
    [Frame] handle: it frees only blocks it holds and writes only to frames it
    holds.  The second component lists the blocks held, as [(ppn, order)]. *)
Definition held := list (PhysPageNum * Z).

Inductive call : PhysMem * held → PhysMem * held → Prop :=
| call_alloc s h k p s' : 0 ≤ k →
    alloc k s = Ret (Some p, s') → call (s, h) (s', (p, k) :: h)
| call_refused s h k s' : 0 ≤ k →
    alloc k s = Ret (None, s') → call (s, h) (s', h)
| call_free s h1 h2 p k s' :
    free p k s = Ret (tt, s') → call (s, h1 ++ (p, k) :: h2) (s', h1 ++ h2)
| call_write s h p k m : (p, k) ∈ h →
    agree (λ a, ¬ span (p * PAGE_SIZE + VIRT_OFFSET) (2 ^ k * PAGE_SIZE) a) (pm_mem s) m →
    call (s, h) (mkPM m (pm_buddy s), h).

Definition rel_block (b : BuddyAllocator) (x : PhysPageNum * Z) : Z * Z := (x.1 - base b, x.2).
Definition held_frames (h : held) : Z := Zsum (map (λ x, 2 ^ x.2) h).
(** The PPN ranges of two held blocks do not meet. *)
Definition disjoint_blocks (x y : PhysPageNum * Z) : Prop := apart x.2 x.1 y.2 y.1.
Definition holds (h : held) (q : PhysPageNum) : Prop :=
  ∃ p k, (p, k) ∈ h ∧ p ≤ q < p + 2 ^ k.

Record held_ok (s : PhysMem) (h : held) : Prop := {
  hd_inv : buddy_inv s;
  hd_legal : ∀ p k, (p, k) ∈ h → legal (pm_buddy s) k (p - base (pm_buddy s));
  hd_disjoint : ForallOrdPairs disjoint_blocks h;
  hd_frames : ∀ f, 0 ≤ f < frames (pm_buddy s) →
    frame_free s f = false ↔ holds h (base (pm_buddy s) + f);
  hd_count : allocated (pm_buddy s) = held_frames h;
}.

#[export] Instance disjoint_blocks_sym : Symmetric disjoint_blocks.
Proof. intros x y. unfold disjoint_blocks, apart. lia. Qed.

Lemma holds_app h1 x h2 q :
  holds (h1 ++ x :: h2) q ↔ holds (h1 ++ h2) q ∨ x.1 ≤ q < x.1 + 2 ^ x.2.
Proof.
  destruct x as [p k]. unfold holds. simpl. split.
  - intros (p' & k' & Hin & Hq). apply elem_of_app in Hin as [Hin|[[= -> ->]|Hin]%elem_of_cons];
      [left|by right|left]; exists p', k'; set_solver.
  - intros [(p' & k' & Hin & Hq)|Hq]; [exists p', k'|exists p, k]; set_solver.
Qed.

Lemma ordpairs_middle {A} (R : A → A → Prop) `{!Symmetric R} l1 x l2 :
  ForallOrdPairs R (l1 ++ x :: l2) ↔ ForallOrdPairs R (l1 ++ l2) ∧ Forall (R x) (l1 ++ l2).
Proof.
  induction l1 as [|y l1 IH]; simpl.
  - split; [inversion 1; by subst|intros []; by constructor].
  - split.
    + inversion 1 as [|? ? Hy Hr]; subst. apply IH in Hr as [Hr Hx].
      apply Forall_app in Hy as [Hy1 [Hyx Hy2]%Forall_cons].
      split; [constructor; [apply Forall_app; by split|done]|]. constructor; [by symmetry|done].
    + intros [Hr [Hxy Hx]%Forall_cons]. inversion Hr as [|? ? Hy Hr']; subst.
      apply Forall_app in Hy as [Hy1 Hy2].
      constructor; [|by apply IH]. apply Forall_app. split; [done|]. constructor; [by symmetry|done].
Qed.

Lemma held_frames_app h1 x h2 : held_frames (h1 ++ x :: h2) = held_frames (h1 ++ h2) + 2 ^ x.2.
Proof. unfold held_frames. rewrite !map_app, !Zsum_app. unfold Zsum. simpl. lia. Qed.

Lemma held_ok_alloc s h k p s' :
  held_ok s h → taken s s' (p - base (pm_buddy s)) k → held_ok s' ((p, k) :: h).
Proof.
  intros Hh [Hinv (Hb & Hf & _) Hleg Hwas Hnow Hcnt _].
  assert (Heq : ∀ k' i, legal (pm_buddy s') k' i ↔ legal (pm_buddy s) k' i) by (intros; unfold legal; by rewrite Hf).
  constructor; [done| | | |].
  - intros p' k' [[= -> ->]|Hin]%elem_of_cons; rewrite Hb, Heq; [done|by apply (hd_legal _ _ Hh)].
  - constructor; [|apply Hh]. apply Forall_forall. intros [p' k'] Hin.
    pose proof (hd_legal _ _ Hh _ _ Hin) as (Hk' & Hi' & _ & Ht'). destruct Hleg as (Hk & Hi & _ & Ht).
    unfold disjoint_blocks, apart. simpl.
    destruct (Z.le_gt_cases (p + 2 ^ k) p') as [|H1]; [by left|].
    destruct (Z.le_gt_cases (p' + 2 ^ k') p) as [|H2]; [by right|].
    pose proof (pow2_pos k (proj1 Hk)). pose proof (pow2_pos k' (proj1 Hk')).
    assert (Hu : frame_free s (Z.max p p' - base (pm_buddy s)) = false).
    { apply (hd_frames _ _ Hh); [lia|]. exists p', k'. split; [done|lia]. }
    rewrite Hwas in Hu by lia. done.
  - intros f Hfr. rewrite Hf in Hfr. rewrite Hnow, Hb by done.
    rewrite (holds_app [] (p, k) h), <- (hd_frames _ _ Hh f Hfr). simpl.
    rewrite andb_false_iff, negb_false_iff, in_run_spec.
    split; (intros [?|?]; [by left|right; lia]).
  - rewrite Hcnt, (hd_count _ _ Hh). symmetry. apply (held_frames_app [] (p, k) h).
Qed.

Lemma held_ok_used s h p k :
  held_ok s h → (p, k) ∈ h →
  ∀ f, p - base (pm_buddy s) ≤ f < p - base (pm_buddy s) + 2 ^ k → frame_free s f = false.
Proof.
  intros Hh Hin f Hf. pose proof (hd_legal _ _ Hh _ _ Hin) as (_ & ? & _ & ?).
  apply (hd_frames _ _ Hh); [lia|]. exists p, k. split; [done|lia].
Qed.

Lemma held_ok_free s h1 h2 p k s' :
  held_ok s (h1 ++ (p, k) :: h2) → returned s s' (p - base (pm_buddy s)) k → held_ok s' (h1 ++ h2).
Proof.
  intros Hh [Hinv (Hb & Hf & _) Hnow Hcnt _ _].
  pose proof (hd_disjoint _ _ Hh) as [Hdis Hx]%ordpairs_middle; [|apply _].
  constructor; [done| |done| |].
  - intros p' k' Hin. rewrite Hb. unfold legal. rewrite Hf.
    apply (hd_legal _ _ Hh). set_solver.
  - intros f Hfr. rewrite Hf in Hfr. rewrite Hnow, Hb by done.
    pose proof (hd_frames _ _ Hh f Hfr) as Hold. rewrite holds_app in Hold. simpl in Hold.
    rewrite orb_false_iff, <- (not_true_iff_false (in_run _ _ _)), in_run_spec, Hold.
    split; [intros [[?|?] ?]; [done|lia]|].
    intros Hq. split; [by left|]. destruct Hq as (p' & k' & Hin & Hq).
    rewrite Forall_forall in Hx. specialize (Hx _ Hin). unfold disjoint_blocks, apart in Hx. simpl in Hx. lia.
  - rewrite Hcnt, (hd_count _ _ Hh), held_frames_app. simpl. lia.
Qed.

(** Overwriting a block that is in use changes neither the bitmap nor a node. *)
Lemma linked_mem fl s m :
  linked fl s → agree (λ a, ¬ outside fl (pm_buddy s) a) (pm_mem s) m → linked fl (mkPM m (pm_buddy s)).
Proof.
  intros Hl Hm. pose proof (lk_geo _ _ Hl) as Hg. constructor; simpl; try apply Hl.
  - intros k Hk. destruct (lk_list _ _ Hl k Hk) as (h & Hh & Hd). exists h. split; [done|].
    eapply dll_ext; [|exact Hd]. intros x Hx.
    assert (Hnode : agree (span (nodep (pm_buddy s) x) 16) (pm_mem s) m).
    { eapply agree_weaken; [|exact Hm]. intros a Ha [_ Ho]. apply (Ho k x); [by split|].
      pose proof (pow2_pos k (proj1 Hk)). unfold span, PAGE_SIZE in *. lia. }
    unfold nx, pv. split; apply load64_ext; (eapply agree_weaken; [|exact Hnode]); unfold span; lia.
  - intros k i Hk Hi Hd. rewrite <- (lk_bits _ _ Hl k i Hk Hi Hd). unfold bitval.
    pose proof (wordp_bounds _ _ Hg (bitpos_total _ k i Hk Hi)). f_equal. apply load64_ext.
    eapply agree_weaken; [|exact Hm]. intros a Ha [Ho _]. apply Ho. unfold span in *. lia.
Qed.

Lemma buddy_inv_write s m :
  buddy_inv s →
  (∀ a, m a ≠ pm_mem s a → ∃ f, 0 ≤ f < frames (pm_buddy s) ∧ frame_free s f = false ∧
                              span (nodep (pm_buddy s) f) PAGE_SIZE a) →
  buddy_inv (mkPM m (pm_buddy s)) ∧
  (∀ f, 0 ≤ f < frames (pm_buddy s) → frame_free (mkPM m (pm_buddy s)) f = frame_free s f).
Proof.
  intros [fl Hok] Hw. pose proof (ok_linked _ _ Hok) as Hl.
  assert (Hl' : linked fl (mkPM m (pm_buddy s))).
  { apply linked_mem; [done|]. intros a Ha. destruct (decide (m a = pm_mem s a)) as [|Hne]; [done|].
    exfalso. destruct (Hw a Hne) as (f & Hf & Hfree & Hsp). apply Ha, outside_frames.
    destruct (geometry_page _ f a (lk_geo _ _ Hl) Hf Hsp) as [-> ?]. split; [done|].
    by apply (frame_free_false fl s f Hl Hf). }
  split.
  - exists fl. destruct Hok. by constructor.
  - intros f Hf. apply eq_true_iff_eq. by rewrite (frame_free_spec fl s f Hl Hf), (frame_free_spec fl _ f Hl').
Qed.

Lemma held_ok_write s h p k m :
  held_ok s h → (p, k) ∈ h →
  agree (λ a, ¬ span (p * PAGE_SIZE + VIRT_OFFSET) (2 ^ k * PAGE_SIZE) a) (pm_mem s) m →
  held_ok (mkPM m (pm_buddy s)) h.
Proof.
  intros Hh Hin Hm. pose proof (hd_legal _ _ Hh _ _ Hin) as (Hk & Hi & _ & Ht).
  set (b := pm_buddy s) in *.
  destruct (buddy_inv_write s m (hd_inv _ _ Hh)) as [Hinv Hfr].
  { fold b. intros a Hne. destruct (decide (span (nodep b (p - base b)) (2 ^ k * PAGE_SIZE) a)) as [Hs|Hs].
    - apply span_frame in Hs. exists ((a - nodep b 0) `div` PAGE_SIZE). split_and!; [lia|lia| |].
      + apply (held_ok_used s h p k); [done..|]. fold b. lia.
      + pose proof (proj2 (span_frame b ((a - nodep b 0) `div` PAGE_SIZE) 0 a)) as Hp.
        change (2 ^ 0) with 1 in Hp. rewrite Z.mul_1_l in Hp. apply Hp. lia.
    - exfalso. apply Hne, Hm. intros Hs'. apply Hs. unfold span, nodep in *. lia. }
  destruct Hh as [_ Hleg Hdis Hfrm Hcnt]. constructor; try done.
  intros f Hf. simpl in Hf. rewrite Hfr by done. by apply Hfrm.
Qed.

Lemma held_ok_call s h s' h' : held_ok s h → call (s, h) (s', h') → held_ok s' h'.
Proof.
  intros Hh Hc. inversion Hc as [? ? k p ? Hk Hr|? ? k ? Hk Hr|? h1 h2 p k ? Hr|? ? p k m Hin Hm]; subst.
  - pose proof (alloc_taken s k (hd_inv _ _ Hh) Hk) as Ha. unfold wp in Ha. rewrite Hr in Ha.
    by apply (held_ok_alloc s).
  - pose proof (alloc_taken s k (hd_inv _ _ Hh) Hk) as Ha. unfold wp in Ha. rewrite Hr in Ha.
    by destruct Ha as [-> _].
  - assert (Hin : (p, k) ∈ h1 ++ (p, k) :: h2) by set_solver.
    pose proof (free_returned s k (p - base (pm_buddy s)) (hd_inv _ _ Hh)
      (hd_legal _ _ Hh _ _ Hin) (held_ok_used _ _ _ _ Hh Hin)) as Ha.
    replace (base (pm_buddy s) + (p - base (pm_buddy s))) with p in Ha by lia.
    unfold wp in Ha. rewrite Hr in Ha. by apply (held_ok_free s _ _ p k).
  - by apply (held_ok_write s h' p k).
Qed.

Lemma held_ok_init start stop s0 s :
  0 ≤ start → start + 0x500000 ≤ stop < 2 ^ 38 → init start stop s0 = Ret (tt, s) → held_ok s [].
Proof.
  intros H0 H1 Hr. pose proof (init_spec start stop s0 H0 H1) as Hi. unfold wp in Hi. rewrite Hr in Hi.
  destruct Hi as (fl & Hok & Hff & Hal & _). constructor.
  - by exists fl.
  - intros p k Hin. by apply elem_of_nil in Hin.
  - constructor.
  - intros f Hf. rewrite (frame_free_false fl s f (ok_linked _ _ Hok) Hf), Hff.
    split; [tauto|]. intros (p & k & Hin & _). by apply elem_of_nil in Hin.
  - done.
Qed.

Lemma held_ok_reachable s h s' h' : held_ok s h → rtc call (s, h) (s', h') → held_ok s' h'.
Proof.
  intros Hh Hr. remember (s, h) as x eqn:Hx. remember (s', h') as y eqn:Hy. revert s h Hx Hh.
  induction Hr as [x|x [s1 h1] z Hc Hr IH]; intros s h -> Hh; simplify_eq; [done|].
  eapply IH; [done..|]. by eapply held_ok_call.
Qed.

(** ** Order arithmetic *)

Lemma bit_length_spec x : 0 < x → 2 ^ (bit_length x - 1) ≤ x < 2 ^ bit_length x.
Proof.
  intros Hx. unfold bit_length. destruct (Z.eqb_spec x 0); [lia|].
  pose proof (Z.log2_spec x Hx). rewrite <- Z.add_1_r in *. replace (Z.log2 x + 1 - 1) with (Z.log2 x) by lia. lia.
Qed.

(** [order_for count] is the least order whose block holds [count] frames. *)
Theorem order_for_least count k :
  0 ≤ k → count ≤ 2 ^ k ↔ order_for count ≤ k.
Proof.
  intros Hk. unfold order_for. destruct (Z.leb_spec count 1).
  - pose proof (pow2_pos k Hk). lia.
  - pose proof (bit_length_spec (count - 1) ltac:(lia)) as Hb.
    set (n := bit_length (count - 1)) in *.
    assert (1 ≤ n) by (unfold n, bit_length; destruct (Z.eqb_spec (count - 1) 0); [lia|];
      pose proof (Z.log2_nonneg (count - 1)); lia).
    split; intros Hc.
    + apply Z.nlt_ge. intros Hlt. pose proof (Z.pow_le_mono_r 2 k (n - 1)). lia.
    + pose proof (Z.pow_le_mono_r 2 n k). lia.
Qed.

Lemma order_for_least_witness : 5 ≤ 2 ^ 3 ↔ order_for 5 ≤ 3.
Proof. apply (order_for_least 5 3). lia. Defined.

(** ** Theorems *)

(** A machine with 128 MiB, the kernel image ending at [0x802c2000]. *)
Definition boot_mem : PhysMem := mkPM (λ _, x00) empty.
Definition boot_state : PhysMem :=
  match init 0x802c2000 0x88000000 boot_mem with Ret (_, s) => s | Panic => boot_mem end.

Lemma boot_run : init 0x802c2000 0x88000000 boot_mem = Ret (tt, boot_state).
Proof.
  destruct (wp_run _ _ _ (init_spec 0x802c2000 0x88000000 boot_mem ltac:(lia) ltac:(lia))) as ([] & s & Hr & _).
  unfold boot_state. by rewrite Hr.
Qed.

#[global] Opaque boot_state.

Lemma boot_held : held_ok boot_state [].
Proof. eapply held_ok_init, boot_run; lia. Qed.

Lemma boot_region : base (pm_buddy boot_state) = 525312 ∧ frames (pm_buddy boot_state) = 31744.
Proof. vm_compute. done. Qed.

(** C3: every history of calls starting from [init], in which blocks are freed
    and written only while held, keeps the handed-out blocks pairwise disjoint,
    aligned and inside the region; a frame is out of the free lists exactly
    when some held block covers it (nothing is handed out twice and nothing
    leaks); and the frame counter is the total size of the held blocks. *)
Theorem allocator_history start stop s0 s s' h :
  0 ≤ start → start + 0x500000 ≤ stop < 2 ^ 38 → init start stop s0 = Ret (tt, s) →
  rtc call (s, []) (s', h) →
  ForallOrdPairs disjoint_blocks h ∧
  (∀ p k, (p, k) ∈ h → legal (pm_buddy s') k (p - base (pm_buddy s'))) ∧
  (∀ f, 0 ≤ f < frames (pm_buddy s') →
     frame_free s' f = false ↔ holds h (base (pm_buddy s') + f)) ∧
  used_frames (pm_buddy s') = held_frames h.
Proof.
  intros H0 H1 Hi Hr. pose proof (held_ok_init _ _ _ _ H0 H1 Hi) as Hh.
  apply (held_ok_reachable _ _ _ _ Hh) in Hr. destruct Hr. done.
Qed.

Definition after {A} (m : ST PhysMem A) (s : PhysMem) : PhysMem :=
  match m s with Ret (_, s') => s' | Panic => s end.

Lemma boot_alloc2 : alloc 2 boot_state = Ret (Some 556032, after (alloc 2) boot_state).
Proof.
  destruct (wp_run _ _ _ (alloc_taken boot_state 2 (hd_inv _ _ boot_held) ltac:(lia))) as (r & s & Hr & _).
  assert (Hv : match alloc 2 boot_state with Ret (v, _) => v | Panic => None end = Some 556032)
    by (vm_compute; reflexivity).
  unfold after. rewrite Hr in *. by rewrite Hv.
Qed.

Lemma allocator_history_witness :
  used_frames (pm_buddy (after (alloc 2) boot_state)) = held_frames [(556032, 2)].
Proof.
  apply (allocator_history 0x802c2000 0x88000000 boot_mem boot_state); [lia|lia|exact boot_run|].
  apply rtc_once, call_alloc; [lia|exact boot_alloc2].
Defined.

(** C25: an allocation succeeds exactly when an aligned run of that size is
    entirely free: coalescing leaves no fragmentation an allocation could trip
    over. *)
Theorem alloc_complete s order :
  buddy_inv s → 0 ≤ order →
  (∃ p s', alloc order s = Ret (Some p, s')) ↔
  (∃ i, legal (pm_buddy s) order i ∧ ∀ f, i ≤ f < i + 2 ^ order → frame_free s f = true).
Proof.
  intros Hi Ho. destruct (wp_run _ _ _ (alloc_taken s order Hi Ho)) as ([p|] & s' & Hr & Hp); rewrite Hr.
  - split; [|by eauto]. intros _. exists (p - base (pm_buddy s)). destruct Hp. done.
  - destruct Hp as [_ Hno]. split; [by intros (? & ? & [=])|]. intros (i & Hleg & Hfree).
    destruct (Hno i Hleg) as (f & Hf & Hff). by rewrite Hfree in Hff.
Qed.

Lemma alloc_complete_witness :
  (∃ p s', alloc 10 boot_state = Ret (Some p, s')) ↔
  (∃ i, legal (pm_buddy boot_state) 10 i ∧ ∀ f, i ≤ f < i + 2 ^ 10 → frame_free boot_state f = true).
Proof. apply (alloc_complete boot_state 10); [apply boot_held|lia]. Defined.

(** what an allocation does: it never panics; on success the run is
    aligned to its size, was entirely free, and is now the only thing missing
    from the free set; the counter grows by its size, the invariant holds, and
    no byte of a frame in use changes.  When it fails, nothing changes. *)
Theorem alloc_correct s order :
  buddy_inv s → 0 ≤ order →
  ∃ r s', alloc order s = Ret (r, s') ∧
    match r with
    | Some p => taken s s' (p - base (pm_buddy s)) order
    | None => s' = s
    end.
Proof.
  intros Hi Ho. destruct (wp_run _ _ _ (alloc_taken s order Hi Ho)) as ([p|] & s' & Hr & Hp);
    eexists _, s'; (split; [done|]); [done|]. apply Hp.
Qed.

Lemma alloc_correct_witness :
  ∃ r s', alloc 4 boot_state = Ret (r, s') ∧
    match r with
    | Some p => taken boot_state s' (p - base (pm_buddy boot_state)) 4
    | None => s' = boot_state
    end.
Proof. apply (alloc_correct boot_state 4); [apply boot_held|lia]. Defined.

(** releasing an aligned run none of whose frames is free (in particular a
    block obtained from [alloc]) never panics, and makes exactly that run free
    again; the counter shrinks by its size, the invariant holds, and no byte of
    a frame still in use changes. *)
Theorem free_correct s order i :
  buddy_inv s → legal (pm_buddy s) order i →
  (∀ f, i ≤ f < i + 2 ^ order → frame_free s f = false) →
  ∃ s', free (base (pm_buddy s) + i) order s = Ret (tt, s') ∧ returned s s' i order.
Proof.
  intros Hi Hleg Hu. destruct (wp_run _ _ _ (free_returned s order i Hi Hleg Hu)) as ([] & s' & ?).
  by exists s'.
Qed.

Lemma taken_used s s' i k : taken s s' i k → ∀ f, i ≤ f < i + 2 ^ k → frame_free s' f = false.
Proof.
  intros Ht f Hf. destruct (tk_legal _ _ _ _ Ht) as (_ & ? & _ & ?).
  rewrite (tk_now _ _ _ _ Ht), (proj2 (in_run_spec i k f) Hf) by lia. apply andb_false_r.
Qed.

Lemma taken_legal s s' i k : taken s s' i k → legal (pm_buddy s') k i.
Proof.
  intros Ht. destruct (tk_region _ _ _ _ Ht) as (_ & Hf & _). pose proof (tk_legal _ _ _ _ Ht) as Hl.
  unfold legal in *. by rewrite Hf.
Qed.

Definition busy_state : PhysMem := after (alloc 2) boot_state.
Lemma busy_taken : taken boot_state busy_state 30720 2.
Proof.
  pose proof (alloc_taken boot_state 2 (hd_inv _ _ boot_held) ltac:(lia)) as Hw.
  unfold wp in Hw. rewrite boot_alloc2 in Hw.
  replace (556032 - base (pm_buddy boot_state)) with 30720 in Hw; [exact Hw|].
  by rewrite (proj1 boot_region).
Qed.
#[global] Opaque busy_state.

Lemma free_correct_witness :
  ∃ s', free (base (pm_buddy busy_state) + 30720) 2 busy_state = Ret (tt, s') ∧
    returned busy_state s' 30720 2.
Proof.
  apply (free_correct busy_state 2 30720).
  - apply busy_taken.
  - exact (taken_legal _ _ _ _ busy_taken).
  - exact (taken_used _ _ _ _ busy_taken).
Defined.

(** [alloc] followed by [free] of the block it returned is the identity on
    the abstract state: the same frames are free and the counter is back. *)
Theorem alloc_free_roundtrip s order p s1 :
  buddy_inv s → 0 ≤ order → alloc order s = Ret (Some p, s1) →
  ∃ s2, free p order s1 = Ret (tt, s2) ∧ buddy_inv s2 ∧
    (∀ f, 0 ≤ f < frames (pm_buddy s) → frame_free s2 f = frame_free s f) ∧
    used_frames (pm_buddy s2) = used_frames (pm_buddy s).
Proof.
  intros Hi Ho Hr. pose proof (alloc_taken s order Hi Ho) as Ht. unfold wp in Ht. rewrite Hr in Ht.
  set (i := p - base (pm_buddy s)) in *.
  assert (Hp : p = base (pm_buddy s1) + i) by (destruct (tk_region _ _ _ _ Ht) as (-> & _); unfold i; lia).
  destruct (wp_run _ _ _ (free_returned s1 order i (tk_inv _ _ _ _ Ht) (taken_legal _ _ _ _ Ht)
    (taken_used _ _ _ _ Ht))) as ([] & s2 & Hf & Hret). rewrite <- Hp in Hf. exists s2.
  split_and!; [done|apply Hret| |].
  - intros f Hfr. rewrite (rt_now _ _ _ _ Hret); [|by rewrite (proj1 (proj2 (tk_region _ _ _ _ Ht)))].
    rewrite (tk_now _ _ _ _ Ht) by done. destruct (in_run i order f) eqn:Hin.
    + rewrite orb_true_r. symmetry. apply (tk_was_free _ _ _ _ Ht). by apply in_run_spec.
    + by rewrite andb_true_r, orb_false_r.
  - unfold used_frames. rewrite (rt_count _ _ _ _ Hret), (tk_count _ _ _ _ Ht). lia.
Qed.

Lemma alloc_free_roundtrip_witness :
  ∃ s2, free 556032 2 busy_state = Ret (tt, s2) ∧ buddy_inv s2 ∧
    (∀ f, 0 ≤ f < frames (pm_buddy boot_state) → frame_free s2 f = frame_free boot_state f) ∧
    used_frames (pm_buddy s2) = used_frames (pm_buddy boot_state).
Proof.
  apply (alloc_free_roundtrip boot_state 2 556032 busy_state); [apply boot_held|lia|exact boot_alloc2].
Defined.

(** [free] refuses, by panicking before it touches anything, a page below
    the region, a block that runs past its end, and a misaligned block. *)
Theorem free_rejects s p order :
  0 ≤ order < 64 →
  let i := p - base (pm_buddy s) in
  (i < 0 ∨ frames (pm_buddy s) < i + 2 ^ order ∨ ¬ (2 ^ order | i)) → free p order s = Panic.
Proof.
  intros Ho i Hbad. unfold free, self, mbind, ST_bind, lift, checked_sub.
  destruct (Z.leb_spec (base (pm_buddy s)) p) as [Hb|]; [|done]. cbn [expect]. fold i.
  pose proof (pow2_pos order ltac:(lia)).
  assert (2 ^ order < U64) by (apply (Z.pow_lt_mono_r 2 order 64); lia).
  rewrite u64_shl_ok, Z.mul_1_l by lia. unfold u64_add. destruct (Z.ltb_spec (i + 2 ^ order) U64); [|done].
  destruct (Z.leb_spec (i + 2 ^ order) (frames (pm_buddy s))); [|done]. simpl.
  rewrite aligned_mask by lia. destruct (Z.eqb_spec (i `mod` 2 ^ order) 0) as [Hz|]; [|done].
  apply Z.mod_divide in Hz; [|lia]. destruct Hbad as [?|[?|?]]; [unfold i in *; lia|lia|done].
Qed.

Lemma free_rejects_witness : free 556033 1 busy_state = Panic.
Proof.
  apply (free_rejects busy_state 556033 1); [lia|]. right. right.
  replace (556033 - base (pm_buddy busy_state)) with 30721; [intros [q Hq]; lia|].
  vm_compute. reflexivity.
Defined.

(** C33: [init] on a range of at least 5 MiB below the top of the direct map
    does not panic; it ends with the invariant established, every managed frame
    free, none counted as used, the region aligned to the largest block, the
    bitmap below it and everything inside the range; it writes nothing outside
    the range. *)
Theorem init_correct start stop s :
  0 ≤ start → start + 0x500000 ≤ stop < 2 ^ 38 →
  ∃ s', init start stop s = Ret (tt, s') ∧ buddy_inv s' ∧
    (∀ f, 0 ≤ f < total_frames (pm_buddy s') → frame_free s' f = true) ∧
    used_frames (pm_buddy s') = 0 ∧ peak_frames (pm_buddy s') = 0 ∧
    layout start stop (pm_buddy s') ∧
    agree (λ a, ¬ span (start + VIRT_OFFSET) (stop - start) a) (pm_mem s) (pm_mem s').
Proof.
  intros H0 H1. destruct (wp_run _ _ _ (init_spec start stop s H0 H1))
    as ([] & s' & Hr & fl & Hok & Hff & Hal & Hpk & Hly & Hm).
  exists s'. split_and!; try done; [by exists fl|]. intros f Hf.
  apply (frame_free_spec fl s' f (ok_linked _ _ Hok) Hf). by apply Hff.
Qed.

Lemma init_correct_witness :
  ∃ s', init 0x802c2000 0x88000000 boot_mem = Ret (tt, s') ∧ buddy_inv s' ∧
    (∀ f, 0 ≤ f < total_frames (pm_buddy s') → frame_free s' f = true) ∧
    used_frames (pm_buddy s') = 0 ∧ peak_frames (pm_buddy s') = 0 ∧
    layout 0x802c2000 0x88000000 (pm_buddy s') ∧
    agree (λ a, ¬ span (0x802c2000 + VIRT_OFFSET) (0x88000000 - 0x802c2000) a)
      (pm_mem boot_mem) (pm_mem s').
Proof. apply (init_correct 0x802c2000 0x88000000 boot_mem); lia. Defined.

(** ** The buddy allocator implements the frame interface *)

(** [PhysPageNum] [q] is managed by the allocator and handed out. *)
Definition used_page (s : PhysMem) (q : PhysPageNum) : Prop :=
  0 ≤ q - base (pm_buddy s) < frames (pm_buddy s) ∧ frame_free s (q - base (pm_buddy s)) = false.

Definition frame_inv (s : PhysMem) : Prop :=
  buddy_inv s ∧ (2 ^ MAX_ORDER | base (pm_buddy s)).

#[export] Instance buddy_frames : FrameAllocator PhysMem := {
  fa_mem := pm_mem;
  fa_set_mem m s := mkPM m (pm_buddy s);
  fa_alloc := alloc_frames;
  fa_free := free_frames;
  fa_inv := frame_inv;
  fa_used := used_page;
  fa_avail s := frames (pm_buddy s) - allocated (pm_buddy s);
}.

Lemma page_nodep b f : page_base (base b + f) = nodep b f.
Proof. done. Qed.

Lemma page_rel b q a : page q a ↔ span (nodep b (q - base b)) PAGE_SIZE a.
Proof. unfold page. rewrite <- page_nodep. by replace (base b + (q - base b)) with q by lia. Qed.

Lemma used_page_write s m :
  frame_inv s → (∀ a, m a ≠ pm_mem s a → ∃ q, used_page s q ∧ page q a) →
  frame_inv (mkPM m (pm_buddy s)) ∧ (∀ q, used_page (mkPM m (pm_buddy s)) q ↔ used_page s q).
Proof.
  intros [Hi Hb] Hw. destruct (buddy_inv_write s m Hi) as [Hi' Hf].
  { intros a Hne. destruct (Hw a Hne) as (q & [Hr Hq] & Hp). exists (q - base (pm_buddy s)).
    split_and!; [lia..|done|]. by apply page_rel. }
  split; [done|]. intros q. unfold used_page. simpl. split; intros [Hr Hq]; (split; [done|]);
    [by rewrite <- Hf|by rewrite Hf].
Qed.

Lemma buddy_inv_geometry s : buddy_inv s → geometry (pm_buddy s).
Proof. intros [fl Hok]. apply (ok_linked _ _ Hok). Qed.

Lemma order_divides k b i : order_ok k → (2 ^ MAX_ORDER | b) → (2 ^ k | b + i) ↔ (2 ^ k | i).
Proof.
  intros Hk Hb. assert (Hkb : (2 ^ k | b)) by (etransitivity; [by apply pow2_divide|done]).
  split; intros Hd; [|by apply Z.divide_add_r].
  replace i with (b + i - b) by lia. by apply Z.divide_sub_r.
Qed.

Lemma taken_used_page s s' p k q :
  taken s s' (p - base (pm_buddy s)) k →
  used_page s' q ↔ used_page s q ∨ p ≤ q < p + 2 ^ k.
Proof.
  intros Ht. destruct (tk_region _ _ _ _ Ht) as (Hb & Hf & _).
  destruct (tk_legal _ _ _ _ Ht) as (_ & ? & _ & ?). unfold used_page. rewrite Hb, Hf. split.
  - intros [Hr Hq]. rewrite (tk_now _ _ _ _ Ht) in Hq by done.
    apply andb_false_iff in Hq as [Hq|Hq%negb_false_iff%in_run_spec]; [by left|right; lia].
  - intros [[Hr Hq]|Hq].
    + split; [done|]. rewrite (tk_now _ _ _ _ Ht), Hq by done. done.
    + split; [lia|]. apply (taken_used _ _ _ _ Ht). lia.
Qed.

Lemma alloc_frames_ok s k :
  frame_inv s → 0 ≤ k →
  wp (alloc_frames k) (λ r s', match r with
    | None => s' = s
    | Some p =>
        frame_inv s' ∧ (2 ^ k | p) ∧ k ≤ 10 ∧
        (∀ q, used_page s' q ↔ used_page s q ∨ p ≤ q < p + 2 ^ k) ∧
        (∀ q, p ≤ q < p + 2 ^ k → ¬ used_page s q) ∧
        (∀ q a, p ≤ q < p + 2 ^ k → page q a → pm_mem s' a = x00) ∧
        (∀ q, used_page s q → agree (page q) (pm_mem s) (pm_mem s'))
    end) s.
Proof.
  intros [Hi Hb] Hk. unfold alloc_frames. wp_step. eapply wp_mono; [|by apply alloc_taken].
  cbv beta. intros [p|] s1; [|intros [-> _]; by apply wp_ret]. intros Ht.
  pose proof (tk_legal _ _ _ _ Ht) as (Hko & Hlo & Hdv & Htop). pose proof (pow2_pos k Hk) as Hp.
  pose proof (tk_region _ _ _ _ Ht) as (Hb1 & Hf1 & _). pose proof (buddy_inv_geometry s Hi) as Hg.
  assert (Hpr : 0 ≤ p ∧ p + 2 ^ k ≤ 2 ^ 26) by (destruct Hg; lia).
  wp_step. eapply wp_lift.
  { pose proof (Z.pow_le_mono_r 2 k 10 ltac:(lia) (proj2 Hko)).
    apply u64_shl_ok; [done|destruct Hko; unfold MAX_ORDER in *; lia|unfold PAGE_SIZE, U64; lia]. }
  wp_step. apply wp_write_bytes. apply wp_ret. rewrite as_ptr_eq by lia.
  pose proof (λ q, taken_used_page s s1 p k q Ht) as Hused.
  assert (Hrun : ∀ a, span (p * PAGE_SIZE + VIRT_OFFSET) (PAGE_SIZE * 2 ^ k) a →
    ∃ q, p ≤ q < p + 2 ^ k ∧ page q a).
  { intros a Ha. exists ((a - VIRT_OFFSET) `div` PAGE_SIZE). unfold page, page_base, span, PAGE_SIZE in *.
    Z.div_mod_to_equations. lia. }
  assert (Hpage : ∀ q a, p ≤ q < p + 2 ^ k → page q a →
    span (p * PAGE_SIZE + VIRT_OFFSET) (PAGE_SIZE * 2 ^ k) a).
  { intros q a. unfold page, page_base, span, PAGE_SIZE. lia. }
  destruct (used_page_write s1 (fill (pm_mem s1) (p * PAGE_SIZE + VIRT_OFFSET) (PAGE_SIZE * 2 ^ k) x00))
    as [Hinv Hu].
  { split; [apply Ht|by rewrite Hb1]. }
  { intros a Hne. destruct (decide (span (p * PAGE_SIZE + VIRT_OFFSET) (PAGE_SIZE * 2 ^ k) a)) as [Ha|Ha].
    - destruct (Hrun a Ha) as (q & Hq & ?). exists q. split; [|done]. apply Hused. by right.
    - by rewrite fill_out in Hne. }
  assert (Hnew : ∀ q, p ≤ q < p + 2 ^ k → ¬ used_page s q).
  { intros q Hq [_ Hff]. rewrite (tk_was_free _ _ _ _ Ht) in Hff by lia. done. }
  split; [exact Hinv|]. split_and!; [|apply Hko| |done| |].
  - replace p with (base (pm_buddy s) + (p - base (pm_buddy s))) by lia. by apply order_divides.
  - intros q. by rewrite Hu.
  - intros q a Hq Ha. simpl. apply fill_in. by apply (Hpage q).
  - intros q Hq a Ha. simpl. rewrite fill_out.
    + destruct Hq as [Hr Hff]. apply (proj2 (tk_bytes _ _ _ _ Ht) _ Hr Hff), page_rel, Ha.
    + intros Hs. destruct (Hrun a Hs) as (q' & Hq' & Ha'). pose proof (page_disjoint _ _ _ Ha Ha') as ->.
      by apply (Hnew q').
Qed.

Lemma free_frames_ok s p k :
  frame_inv s → 0 ≤ k ≤ 10 → (2 ^ k | p) → (∀ q, p ≤ q < p + 2 ^ k → used_page s q) →
  wp (free_frames p k) (λ _ s',
    frame_inv s' ∧ (∀ q, used_page s' q ↔ used_page s q ∧ ¬ (p ≤ q < p + 2 ^ k)) ∧
    (∀ q, used_page s' q → agree (page q) (pm_mem s) (pm_mem s'))) s.
Proof.
  intros [Hi Hb] Hk Hd Hu. unfold free_frames. pose proof (pow2_pos k ltac:(lia)) as Hp.
  set (i := p - base (pm_buddy s)). assert (Hpi : p = base (pm_buddy s) + i) by (unfold i; lia).
  pose proof (Hu p ltac:(lia)) as [Hu0 _]. pose proof (Hu (p + 2 ^ k - 1) ltac:(lia)) as [Hu1 _].
  assert (Hleg : legal (pm_buddy s) k i).
  { split_and!; [done|unfold i; lia| |unfold i; lia]. apply (order_divides k (base (pm_buddy s))); [done..|].
    by rewrite <- Hpi. }
  assert (Hrun : ∀ f, i ≤ f < i + 2 ^ k → frame_free s f = false).
  { intros f Hf. destruct (Hu (base (pm_buddy s) + f)) as [_ Hff]; [lia|].
    by replace (base (pm_buddy s) + f - base (pm_buddy s)) with f in Hff by lia. }
  rewrite Hpi at 1. eapply wp_mono; [|by apply free_returned]. cbv beta. intros _ s' Hr.
  pose proof (rt_region _ _ _ _ Hr) as (Hb' & Hf' & _).
  assert (Hus : ∀ q, used_page s' q ↔ used_page s q ∧ ¬ (p ≤ q < p + 2 ^ k)).
  { intros q. unfold used_page. rewrite Hb', Hf'. split.
    - intros [Hq Hff]. rewrite (rt_now _ _ _ _ Hr) in Hff by done.
      apply orb_false_iff in Hff as [Hff Hin]. rewrite <- not_true_iff_false, in_run_spec in Hin.
      split; [done|]. lia.
    - intros [[Hq Hff] Hin]. split; [done|]. rewrite (rt_now _ _ _ _ Hr), Hff by done.
      simpl. rewrite <- not_true_iff_false, in_run_spec. lia. }
  split; [split; [apply Hr|by rewrite Hb']|]. split; [done|].
  intros q Hq a Ha. pose proof Hq as [Hqr Hqf]. rewrite Hb', Hf' in *.
  apply (rt_bytes _ _ _ _ Hr _ Hqr Hqf), page_rel, Ha.
Qed.

(** Frames that are not free are counted as allocated. *)
Lemma unfree_counted fl s l : buddy_ok fl s → NoDup l → (∀ f, f ∈ l → 0 ≤ f < frames (pm_buddy s) ∧ frame_free s f = false) →
  Z.of_nat (length l) ≤ allocated (pm_buddy s).
Proof.
  intros Hok Hnd Hl. pose proof (ok_linked _ _ Hok) as Hlk.
  assert (Hcov : ∀ f, f ∈ covered fl → 0 ≤ f < frames (pm_buddy s) ∧ frame_free s f = true).
  { intros f Hf. apply list_elem_of_bind in Hf as ([k i] & Hf%elem_of_seqZ & Hx). apply elem_of_all_blocks in Hx.
    pose proof (lk_legal _ _ Hlk _ _ Hx) as (_ & ? & _ & ?). split; [lia|]. apply (frame_free_spec fl); [done|lia|]. exists k, i. by split; [|lia]. }
  enough (Hsub : covered fl ++ l ⊆+ seqZ 0 (frames (pm_buddy s))).
  { apply submseteq_length in Hsub. rewrite length_app, length_seqZ in Hsub. pose proof (covered_length fl). pose proof (ok_count _ _ Hok). pose proof (ok_alloc _ _ Hok). pose proof (ok_peak _ _ Hok). lia. }
  apply NoDup_submseteq.
  - apply NoDup_app. split_and!; [|intros f Hc Hf; destruct (Hcov f Hc), (Hl f Hf); congruence|done].
    by apply (covered_nodup fl); [apply (lk_nodup _ _ Hlk)|apply (lk_apart _ _ Hlk)].
  - intros f [Hf%Hcov|Hf%Hl]%elem_of_app; apply elem_of_seqZ; lia.
Qed.

(** A block is to be had as long as fewer frames are taken than there are
    blocks of its size. *)
Lemma few_taken_alloc s k : buddy_inv s → 0 ≤ k ≤ MAX_ORDER → 2 ^ k * (allocated (pm_buddy s) + 1) ≤ frames (pm_buddy s) →
  ∃ i, legal (pm_buddy s) k i ∧ ∀ f, i ≤ f < i + 2 ^ k → frame_free s f = true.
Proof.
  intros [fl Hok] Hk Hfew. pose proof (pow2_pos k ltac:(lia)) as Hp. set (n := frames (pm_buddy s) `div` 2 ^ k).
  assert (Hn : allocated (pm_buddy s) < n) by (apply Z.le_succ_l, Z.div_le_lower_bound; lia).
  pose proof (Z.mul_div_le (frames (pm_buddy s)) (2 ^ k) Hp) as Hle. fold n in Hle.
  set (taken := λ j, Exists (λ f, frame_free s f = false) (seqZ (2 ^ k * j) (2 ^ k))).
  assert (Hleg : ∀ j, j ∈ seqZ 0 n → legal (pm_buddy s) k (2 ^ k * j)).
  { intros j Hj%elem_of_seqZ. split; [done|]. split; [nia|]. split; [apply Z.divide_factor_l|nia]. }
  destruct (decide (Forall taken (seqZ 0 n))) as [Hall|Hno].
  - exfalso. set (l := filter (λ f, frame_free s f = false) (seqZ 0 (frames (pm_buddy s)))).
    assert (Hl : Z.of_nat (length l) ≤ allocated (pm_buddy s)).
    { apply (unfree_counted fl); [done|apply NoDup_filter, NoDup_seqZ|]. intros f [? ?%elem_of_seqZ]%list_elem_of_filter. split; [lia|done]. }
    assert (Hsub : seqZ 0 n ⊆+ (λ f, f `div` 2 ^ k) <$> l); [|apply submseteq_length in Hsub; rewrite length_seqZ, length_fmap in Hsub; lia].
    apply NoDup_submseteq; [apply NoDup_seqZ|]. intros j Hj. pose proof (proj1 (Forall_forall _ _) Hall j Hj) as Hex.
    apply Exists_exists in Hex as (f & Hf%elem_of_seqZ & Hff). pose proof (Hleg j Hj) as (_ & ? & _ & ?).
    apply list_elem_of_fmap. exists f. split; [|apply list_elem_of_filter; split; [done|apply elem_of_seqZ; lia]].
    apply (Z.div_unique_pos _ _ _ (f - 2 ^ k * j)); lia.
  - apply not_Forall_Exists in Hno; [|apply _]. apply Exists_exists in Hno as (j & Hj & Hnot). exists (2 ^ k * j). split; [by apply Hleg|].
    intros f Hf. apply not_false_iff_true. intros Hff. apply Hnot, Exists_exists. exists f. split; [apply elem_of_seqZ; lia|done].
Qed.
Lemma few_taken s k : frame_inv s → 0 ≤ k ≤ MAX_ORDER → 2 ^ k * (allocated (pm_buddy s) + 1) ≤ frames (pm_buddy s) →
  wp (alloc_frames k) (λ r _, r ≠ None) s.
Proof.
  intros [Hi Hb] Hk Hfew. destruct (few_taken_alloc s k Hi Hk Hfew) as (i & Hleg & Hfree). unfold alloc_frames. wp_step.
  eapply wp_mono; [|by apply alloc_taken; [|lia]]. intros [p|] s1; cbv beta iota.
  - intros _. wp_step. pose proof (Z.pow_le_mono_r 2 k 10 ltac:(lia) (proj2 Hk)). eapply wp_lift; [by apply u64_shl_ok; [|unfold MAX_ORDER in *; lia|unfold PAGE_SIZE, U64; lia]|].
    wp_step. apply wp_write_bytes. by apply wp_ret.
  - intros [_ Hnone]. destruct (Hnone i Hleg) as (f & Hf & Hff). rewrite Hfree in Hff by done. done.
Qed.

(** With every free list empty, every frame is counted as allocated. *)
Lemma free_total_nil fl : (∀ k, 0 ≤ k ≤ MAX_ORDER → fl k = []) → free_total fl = 0.
Proof. intros Hn. unfold free_total. by rewrite (map_ext_in _ (λ _, 0)) by (intros k Hk%list_elem_of_In%elem_of_seqZ; rewrite Hn by (unfold MAX_ORDER; lia); simpl; lia). Qed.

Lemma alloc_frames_avail s k :
  frame_inv s → 0 ≤ k →
  wp (alloc_frames k) (λ r s', match r with
    | None => k = 0 → frames (pm_buddy s) - allocated (pm_buddy s) = 0
    | Some _ => frames (pm_buddy s') - allocated (pm_buddy s') =
                frames (pm_buddy s) - allocated (pm_buddy s) - 2 ^ k
    end) s.
Proof.
  intros [[fl Hok] _] Hk. unfold alloc_frames. wp_step.
  eapply wp_mono; [|by apply (alloc_spec fl)]. cbv beta. intros [p|] s1.
  - intros (fl' & _ & (Hko & _) & _ & _ & (_ & Hf & _) & Hc & _). wp_step. eapply wp_lift.
    { pose proof (Z.pow_le_mono_r 2 k 10 ltac:(lia) (proj2 Hko)).
      apply u64_shl_ok; [done|destruct Hko; unfold MAX_ORDER in *; lia|unfold PAGE_SIZE, U64; lia]. }
    wp_step. apply wp_write_bytes. apply wp_ret. simpl. rewrite Hf. lia.
  - intros [-> Hn]. apply wp_ret. intros ->. rewrite <- (ok_count _ _ Hok), free_total_nil; [lia|done].
Qed.

#[export] Instance buddy_frames_laws : FrameAllocatorLaws PhysMem.
Proof.
  split.
  - done.
  - intros s p [Hi _] [Hr _]. destruct (buddy_inv_geometry s Hi). simpl in *. lia.
  - exact alloc_frames_ok.
  - exact free_frames_ok.
  - intros s m. exact (used_page_write s m).
  - exact alloc_frames_avail.
  - done.
Qed.

(** [Frame::alloc_order] returns, or [None] with nothing changed, or a
    block none of whose frames was handed out, aligned in physical address,
    all of whose bytes are zero, while the bytes of every frame already handed
    out are untouched. *)
Theorem Frame_alloc_order_correct s order :
  frame_inv s → 0 ≤ order →
  ∃ r s', Frame_alloc_order order s = Ret (r, s') ∧
    match r with
    | None => s' = s
    | Some fr => let p := f_ppn fr in
        frame_inv s' ∧ f_order fr = order ∧ Frame_count fr = Ret (2 ^ order) ∧ (2 ^ order | p) ∧
        (∀ q, used_page s' q ↔ used_page s q ∨ p ≤ q < p + 2 ^ order) ∧
        (∀ q, p ≤ q < p + 2 ^ order → ¬ used_page s q) ∧
        (∀ q a, p ≤ q < p + 2 ^ order → page q a → pm_mem s' a = x00) ∧
        (∀ q, used_page s q → agree (page q) (pm_mem s) (pm_mem s'))
    end.
Proof.
  intros Hi Ho. destruct (wp_run _ _ _ (alloc_frames_ok s order Hi Ho)) as ([p|] & s' & Hr & Hp);
    unfold Frame_alloc_order, mbind, ST_bind; rewrite Hr; eexists _, s'; (split; [done|]); [|done].
  simpl. destruct Hp as (? & ? & Hk & ?). split_and!; try tauto. unfold Frame_count. simpl.
  pose proof (Z.pow_le_mono_r 2 order 10 ltac:(lia) Hk).
  rewrite u64_shl_ok by (unfold U64; lia). f_equal. lia.
Qed.

Lemma boot_frame_inv : frame_inv boot_state.
Proof. split; [apply boot_held|]. rewrite (proj1 boot_region). exists 513. done. Qed.

Lemma Frame_alloc_order_correct_witness :
  ∃ r s', Frame_alloc_order 3 boot_state = Ret (r, s') ∧
    match r with
    | None => s' = boot_state
    | Some fr => let p := f_ppn fr in
        frame_inv s' ∧ f_order fr = 3 ∧ Frame_count fr = Ret (2 ^ 3) ∧ (2 ^ 3 | p) ∧
        (∀ q, used_page s' q ↔ used_page boot_state q ∨ p ≤ q < p + 2 ^ 3) ∧
        (∀ q, p ≤ q < p + 2 ^ 3 → ¬ used_page boot_state q) ∧
        (∀ q a, p ≤ q < p + 2 ^ 3 → page q a → pm_mem s' a = x00) ∧
        (∀ q, used_page boot_state q → agree (page q) (pm_mem boot_state) (pm_mem s'))
    end.
Proof. apply (Frame_alloc_order_correct boot_state 3); [exact boot_frame_inv|lia]. Defined.
