(* ===== verification/PageTable.v ===== *)
(** * Sv39 page tables (kernel/src/mm/page_table.rs)

    A [PageTable] is a Rust object: the root's frame number and the frames it
    owns.  The tables themselves live in memory and are read and written
    through the direct map.  The operations are programs over any state that
    offers the frame interface. *)
From stdpp Require Import base numbers list.
From Stdlib Require Import Lia.
From S2P Require Import Prelude Memory Config Addr FrameIface.

(** ** Flag bits *)
Definition PteFlags := Z.
Module Flags.
Definition VALID : PteFlags := 1.
Definition READ : PteFlags := 2.
Definition WRITE : PteFlags := 4.
Definition EXEC : PteFlags := 8.
Definition USER : PteFlags := 16.
Definition GLOBAL : PteFlags := 32.
Definition ACCESSED : PteFlags := 64.
Definition DIRTY : PteFlags := 128.
Definition COW : PteFlags := 256.
Definition LAZY : PteFlags := 512.
Definition EMPTY : PteFlags := 0.
Definition RW : PteFlags := Z.lor READ WRITE.
Definition RX : PteFlags := Z.lor READ EXEC.
Definition RWX : PteFlags := Z.lor (Z.lor READ WRITE) EXEC.
End Flags.

Definition contains (f other : PteFlags) : bool := Z.land f other =? other.
Definition intersects (f other : PteFlags) : bool := negb (Z.land f other =? 0).
Definition union (f other : PteFlags) : PteFlags := Z.lor f other.
Definition without (f other : PteFlags) : PteFlags := Z.land f (u64_not other).

(** ** Entries *)
Definition Pte := Z.
Definition FLAG_MASK : Z := 0x3ff.
Definition Pte_EMPTY : Pte := 0.
Definition Pte_new (p : PhysPageNum) (f : PteFlags) : Pte := Z.lor (as_usize (Z.shiftl p 10)) f.
Definition Pte_ppn (e : Pte) : PhysPageNum := Z.land (Z.shiftr e 10) (2 ^ 44 - 1).
Definition Pte_flags (e : Pte) : PteFlags := Z.land e FLAG_MASK.
Definition set_flags (e : Pte) (f : PteFlags) : Pte := Z.lor (Z.land e (u64_not FLAG_MASK)) f.
Definition is_valid (e : Pte) : bool := contains (Pte_flags e) Flags.VALID.
Definition is_leaf (e : Pte) : bool := is_valid e && intersects (Pte_flags e) Flags.RWX.

Inductive MapError := AlreadyMapped | NotMapped | OutOfMemory.

Record PageTable := mkPT { root : PhysPageNum; frames : list Frame }.
Definition with_frame (f : Frame) (pt : PageTable) : PageTable :=
  mkPT (root pt) (frames pt ++ [f]).

(** Value for [satp]: Sv39 mode in the top nibble plus the root's number. *)
Definition token (pt : PageTable) : Z := Z.lor (Z.shiftl 8 60) (root pt).
Definition table_frames (pt : PageTable) : Z := Z.of_nat (length (frames pt)).

(** [1 << (PAGE_SHIFT + 9 * (SV39_LEVELS - 1 - level))] *)
Definition level_page_size (level : Z) : outcome Z :=
  l ← SV39_LEVELS - 1 -! level;
  1 <<! (PAGE_SHIFT + 9 * l).

Section operations.
Context {S : Type} `{FrameAllocator S}.

Definition PageTable_new : ST S (option PageTable) :=
  r ← frame_alloc 0;
  mret ((λ f, mkPT (f_ppn f) [f]) <$> r).

(** [&mut table_at(ppn)[index]], as the address of the entry. *)
Definition slot (p : PhysPageNum) (index : Z) : ST S Z :=
  lift (assert (index <? PTE_PER_TABLE));;
  mret (as_ptr p + 8 * index).

(** The loop of [walk_create_to] over the remaining indices. *)
Fixpoint walk_create_loop (idxs : list Z) (level stop_level : Z) (p : PhysPageNum)
    (pt : PageTable) : ST S (option Z * PageTable) :=
  match idxs with
  | [] => lift Panic
  | index :: rest =>
      a ← slot p index;
      if level =? stop_level then mret (Some a, pt) else
      e ← read64 a;
      if is_valid e then walk_create_loop rest (level + 1) stop_level (Pte_ppn e) pt
      else
        r ← frame_alloc 0;
        match r with
        | None => mret (None, pt)
        | Some f =>
            write64 a (Pte_new (f_ppn f) Flags.VALID);;
            e ← read64 a;
            walk_create_loop rest (level + 1) stop_level (Pte_ppn e) (with_frame f pt)
        end
  end.

Definition walk_create_to (pt : PageTable) (v : VirtPageNum) (stop_level : Z)
    : ST S (option Z * PageTable) :=
  walk_create_loop (indices v) 0 stop_level (root pt) pt.

Fixpoint walk_loop (idxs : list Z) (level : Z) (p : PhysPageNum) : ST S (option Z) :=
  match idxs with
  | [] => mret None
  | index :: rest =>
      a ← slot p index;
      if level =? SV39_LEVELS - 1 then mret (Some a) else
      e ← read64 a;
      if negb (is_valid e) then mret None
      else if is_leaf e then mret None
      else walk_loop rest (level + 1) (Pte_ppn e)
  end.

Definition walk_ptr (pt : PageTable) (v : VirtPageNum) : ST S (option Z) :=
  walk_loop (indices v) 0 (root pt).

Definition walk_read (pt : PageTable) (v : VirtPageNum) : ST S (option Pte) :=
  r ← walk_ptr pt v;
  match r with
  | None => mret None
  | Some a => e ← read64 a; mret (Some e)
  end.

Definition walk_mut (pt : PageTable) (v : VirtPageNum) : ST S (option Z) := walk_ptr pt v.

Definition leaf_flags (f : PteFlags) : PteFlags :=
  Z.lor (Z.lor (Z.lor f Flags.VALID) Flags.ACCESSED) Flags.DIRTY.

Definition map_at_level (pt : PageTable) (v : VirtPageNum) (p : PhysPageNum) (f : PteFlags)
    (level : Z) : ST S (result MapError unit * PageTable) :=
  size ← lift (level_page_size level);
  '(r, pt) ← walk_create_to pt v level;
  match r with
  | None => mret (Err OutOfMemory, pt)
  | Some a =>
      e ← read64 a;
      if is_valid e then mret (Err AlreadyMapped, pt)
      else write64 a (Pte_new p (leaf_flags f));; mret (Ok tt, pt)
  end.

Definition map (pt : PageTable) (v : VirtPageNum) (p : PhysPageNum) (f : PteFlags)
    : ST S (result MapError unit * PageTable) :=
  map_at_level pt v p f (SV39_LEVELS - 1).

Definition unmap (pt : PageTable) (v : VirtPageNum) : ST S (result MapError PhysPageNum) :=
  r ← walk_mut pt v;
  match r with
  | None => mret (Err NotMapped)
  | Some a =>
      e ← read64 a;
      if negb (is_valid e) then mret (Err NotMapped)
      else write64 a Pte_EMPTY;; mret (Ok (Pte_ppn e))
  end.

Definition translate (pt : PageTable) (v : VirtPageNum) : ST S (option Pte) :=
  r ← walk_read pt v;
  mret (match r with Some e => if is_valid e then Some e else None | None => None end).

Definition translate_addr (pt : PageTable) (va : VirtAddr) : ST S (option PhysAddr) :=
  r ← translate pt (vpn va);
  match r with
  | None => mret None
  | Some e => a ← lift (ppn_base_addr (Pte_ppn e) +! page_offset va); mret (Some a)
  end.

Definition protect (pt : PageTable) (v : VirtPageNum) (f : PteFlags) : ST S (result MapError unit) :=
  r ← walk_mut pt v;
  match r with
  | None => mret (Err NotMapped)
  | Some a =>
      e ← read64 a;
      if negb (is_valid e) then mret (Err NotMapped)
      else write64 a (set_flags e (leaf_flags f));; mret (Ok tt)
  end.

(** The borrowed entry, as its address. *)
Definition entry_mut (pt : PageTable) (v : VirtPageNum) : ST S (option Z) :=
  r ← walk_mut pt v;
  match r with
  | None => mret None
  | Some a => e ← read64 a; mret (if is_valid e then Some a else None)
  end.

(** [dst[256..].copy_from_slice(&src[256..])]: 256 entries of 8 bytes. *)
Definition share_upper_half (pt kernel : PageTable) : ST S unit :=
  let half := PTE_PER_TABLE `div` 2 in
  update_mem (λ m, copy m (as_ptr (root kernel) + 8 * half) (as_ptr (root pt) + 8 * half) (8 * half)).

(** Dropping the table drops the frames it owns, in order. *)
Fixpoint drop_frames (l : list Frame) : ST S unit :=
  match l with
  | [] => mret tt
  | f :: l => frame_drop f;; drop_frames l
  end.
Definition PageTable_drop (pt : PageTable) : ST S unit := drop_frames (frames pt).

End operations.
