(* ===== verification/PageTableInv.v ===== *)
(** * The shape of a page table in memory

    [tr] is what a walk computes, as a pure function of memory.  [pt_ok] says
    that the tables reachable from the root form a tree: every table page has
    one path of indices ([role]), and the pages on owned paths are the frames
    the object owns.  The lemmas say how one store to an entry changes the
    translation of every page. *)
From stdpp Require Import base numbers functions sets list.
From Stdlib Require Import Lia.
From S2P Require Import Prelude Memory Config Addr FrameIface PageTable.

(** ** Bits of an entry *)

Lemma lor_add a k b : 0 ≤ k → 0 ≤ b < 2 ^ k → Z.lor (a * 2 ^ k) b = a * 2 ^ k + b.
Proof.
  intros Hk Hb. pose proof (Z.add_lor_land (a * 2 ^ k) b) as H.
  assert (Hz : Z.land (a * 2 ^ k) b = 0); [|lia].
  apply Z.bits_inj'. intros j Hj. rewrite Z.land_spec, Z.bits_0.
  destruct (Z.lt_ge_cases j k); [by rewrite Z.mul_pow2_bits_low|].
  destruct (decide (b = 0)) as [->|]; [by rewrite Z.bits_0, andb_false_r|].
  rewrite (Z.bits_above_log2 b j); [apply andb_false_r|lia|].
  apply Z.log2_lt_pow2; [lia|]. pose proof (Z.pow_le_mono_r 2 k j). lia.
Qed.

Lemma lor_range a b k : 0 ≤ k → 0 ≤ a < 2 ^ k → 0 ≤ b < 2 ^ k → 0 ≤ Z.lor a b < 2 ^ k.
Proof.
  intros Hk Ha Hb.
  replace (Z.lor a b) with (Z.lor a b `mod` 2 ^ k); [apply Z.mod_pos_bound; lia|].
  rewrite <- Z.land_ones, Z.land_lor_distr_l, !Z.land_ones by done.
  by rewrite !Z.mod_small.
Qed.

Lemma Pte_ppn_div e : Pte_ppn e = (e `div` 1024) `mod` 2 ^ 44.
Proof.
  unfold Pte_ppn. rewrite Z.shiftr_div_pow2 by lia.
  change (2 ^ 44 - 1) with (Z.ones 44). by rewrite Z.land_ones by lia.
Qed.

Lemma Pte_flags_mod e : Pte_flags e = e `mod` 1024.
Proof. unfold Pte_flags, FLAG_MASK. change 0x3ff with (Z.ones 10). by rewrite Z.land_ones by lia. Qed.

Lemma Pte_new_eq p f : 0 ≤ p < 2 ^ 44 → 0 ≤ f < 1024 → Pte_new p f = p * 1024 + f.
Proof.
  intros Hp Hf. unfold Pte_new, as_usize. rewrite Z.shiftl_mul_pow2 by lia.
  rewrite Z.mod_small by (unfold U64; lia). by apply (lor_add p 10 f).
Qed.

Lemma Pte_new_range p f : 0 ≤ p < 2 ^ 44 → 0 ≤ f < 1024 → 0 ≤ Pte_new p f < U64.
Proof. intros. rewrite Pte_new_eq by done. unfold U64. lia. Qed.

Lemma Pte_new_ppn p f : 0 ≤ p < 2 ^ 44 → 0 ≤ f < 1024 → Pte_ppn (Pte_new p f) = p.
Proof. intros. rewrite Pte_new_eq, Pte_ppn_div by done. Z.div_mod_to_equations. lia. Qed.

Lemma Pte_new_flags p f : 0 ≤ p < 2 ^ 44 → 0 ≤ f < 1024 → Pte_flags (Pte_new p f) = f.
Proof. intros. rewrite Pte_new_eq, Pte_flags_mod by done. Z.div_mod_to_equations. lia. Qed.

Lemma set_flags_eq e f : 0 ≤ e < U64 → 0 ≤ f < 1024 → set_flags e f = e - e `mod` 1024 + f.
Proof.
  intros He Hf. unfold set_flags, FLAG_MASK. change 0x3ff with (2 ^ 10 - 1).
  rewrite u64_not_mask by lia. change (2 ^ 10) with 1024.
  replace (e - e `mod` 1024) with (e `div` 1024 * 2 ^ 10); [by apply lor_add|].
  pose proof (Z.div_mod e 1024 ltac:(lia)). lia.
Qed.

Lemma set_flags_range e f : 0 ≤ e < U64 → 0 ≤ f < 1024 → 0 ≤ set_flags e f < U64.
Proof. intros. rewrite set_flags_eq by done. unfold U64 in *. Z.div_mod_to_equations. lia. Qed.

Lemma set_flags_ppn e f : 0 ≤ e < U64 → 0 ≤ f < 1024 → Pte_ppn (set_flags e f) = Pte_ppn e.
Proof. intros. rewrite set_flags_eq, !Pte_ppn_div by done. Z.div_mod_to_equations. lia. Qed.

Lemma set_flags_flags e f : 0 ≤ e < U64 → 0 ≤ f < 1024 → Pte_flags (set_flags e f) = f.
Proof. intros. rewrite set_flags_eq, Pte_flags_mod by done. Z.div_mod_to_equations. lia. Qed.

Lemma is_valid_odd e : is_valid e = Z.odd e.
Proof.
  unfold is_valid, contains, Flags.VALID. rewrite Pte_flags_mod.
  change 1 with (Z.ones 1) at 1. rewrite Z.land_ones by lia. change (2 ^ 1) with 2.
  rewrite Zmod_odd. replace (Z.odd (e `mod` 1024)) with (Z.odd e).
  - by destruct (Z.odd e).
  - rewrite !Zodd_mod. f_equal. Z.div_mod_to_equations. lia.
Qed.

Lemma leaf_flags_range f : 0 ≤ f < 1024 → 0 ≤ leaf_flags f < 1024.
Proof. intros. unfold leaf_flags. apply (lor_range _ _ 10); [lia| |done]. apply (lor_range _ _ 10); [lia| |done].
  by apply (lor_range _ _ 10). Qed.

Lemma leaf_flags_valid f : Z.odd (leaf_flags f) = true.
Proof. unfold leaf_flags. rewrite <- Z.bit0_odd, !Z.lor_spec. by rewrite orb_true_r. Qed.

Lemma is_valid_flags e e' : Pte_flags e = Pte_flags e' → is_valid e = is_valid e'.
Proof. unfold is_valid. by intros ->. Qed.

Lemma is_valid_leaf p f : 0 ≤ p < 2 ^ 44 → 0 ≤ f < 1024 → is_valid (Pte_new p (leaf_flags f)) = true.
Proof.
  intros Hp Hf. pose proof (leaf_flags_range f Hf) as Hr.
  rewrite is_valid_odd, Pte_new_eq, Z.odd_add, Z.odd_mul by done. rewrite leaf_flags_valid.
  by rewrite andb_false_r.
Qed.

(** An entry through which a walk continues. *)
Definition interior (e : Pte) : bool := is_valid e && negb (is_leaf e).

Lemma interior_table p : 0 ≤ p < 2 ^ 44 → interior (Pte_new p Flags.VALID) = true.
Proof.
  intros Hp. unfold interior, is_leaf. rewrite is_valid_odd.
  rewrite Pte_new_flags by (unfold Flags.VALID; lia).
  rewrite Pte_new_eq by (unfold Flags.VALID; lia). rewrite Z.odd_add, Z.odd_mul. by rewrite andb_false_r.
Qed.

Lemma is_valid_0 : is_valid 0 = false.
Proof. done. Qed.

(** ** Walks as a function of memory *)

Definition ent (m : mem) (t i : Z) : Pte := load64 m (as_ptr t + 8 * i).
Definition filter_valid (e : Pte) : option Pte := if is_valid e then Some e else None.

Fixpoint tr (m : mem) (idxs : list Z) (t : PhysPageNum) : option Pte :=
  match idxs with
  | [] => None
  | [i] => filter_valid (ent m t i)
  | i :: rest => if interior (ent m t i) then tr m rest (Pte_ppn (ent m t i)) else None
  end.

Lemma tr_range m idxs t e : tr m idxs t = Some e → 0 ≤ e < U64 ∧ is_valid e = true.
Proof.
  revert t. induction idxs as [|i rest IH]; intros t; [done|]. destruct rest as [|j rest]; cbn [tr].
  - unfold filter_valid. destruct (is_valid (ent m t i)) eqn:Hv; [|done]. intros [= <-].
    split; [apply load64_range|done].
  - destruct (interior (ent m t i)); [apply IH|done].
Qed.

Definition index_ok (i : Z) : Prop := 0 ≤ i < 512.

Lemma indices_ok v : Forall index_ok (indices v) ∧ length (indices v) = 3%nat.
Proof.
  unfold indices. rewrite !land_1ff. split; [|done].
  repeat constructor; pose proof (Z.mod_pos_bound (Z.shiftr v 18) 512);
    pose proof (Z.mod_pos_bound (Z.shiftr v 9) 512); pose proof (Z.mod_pos_bound v 512); lia.
Qed.

(** A path whose first index is below [n] belongs to this table; the others are
    shared with the kernel's. *)
Definition owned (n : Z) (pa : list Z) : Prop :=
  match pa with [] => True | i :: _ => i < n end.

Lemma owned_app n pa pb : pa ≠ [] → owned n (pa ++ pb) ↔ owned n pa.
Proof. by destruct pa. Qed.

Section table.
Context {S : Type} `{FrameAllocator S, !FrameAllocatorLaws S}.
Implicit Types (s : S) (role : Z → option (list Z)) (pt : PageTable).

Record pt_ok (n : Z) role pt s : Prop := {
  pt_inv : fa_inv s;
  pt_n : 0 ≤ n ≤ 512;
  pt_root : ∀ p, role p = Some [] ↔ p = root pt;
  pt_frames : ∀ p pa, role p = Some pa → p ∈ f_ppn <$> frames pt ↔ owned n pa;
  pt_total : ∀ p, p ∈ f_ppn <$> frames pt → is_Some (role p);
  pt_orders : ∀ f, f ∈ frames pt → f_order f = 0;
  pt_nodup : NoDup (f_ppn <$> frames pt);
  pt_used : ∀ p pa, role p = Some pa → fa_used s p;
  pt_depth : ∀ p pa, role p = Some pa → (length pa ≤ 2)%nat;
  pt_child : ∀ p pa i, role p = Some pa → (length pa < 2)%nat → index_ok i →
    interior (ent (fa_mem s) p i) = true → role (Pte_ppn (ent (fa_mem s) p i)) = Some (pa ++ [i]);
  pt_parent : ∀ p pa i, role p = Some (pa ++ [i]) →
    index_ok i ∧ ∃ t, role t = Some pa ∧ interior (ent (fa_mem s) t i) = true ∧
                      Pte_ppn (ent (fa_mem s) t i) = p;
}.

Lemma pt_page n role pt s p pa :
  pt_ok n role pt s → role p = Some pa → 0 ≤ p < 2 ^ 26 ∧ as_ptr p = page_base p.
Proof.
  intros Hok Hp. assert (Hr : 0 ≤ p < 2 ^ 26).
  { eapply fa_used_range; [apply Hok|by eapply pt_used]. }
  split; [done|]. by rewrite as_ptr_eq.
Qed.

Lemma ent_store m t i v t' i' :
  0 ≤ t < 2 ^ 26 → 0 ≤ t' < 2 ^ 26 → index_ok i → index_ok i' → 0 ≤ v < U64 →
  ent (store64 m (as_ptr t + 8 * i) v) t' i' = if decide (t = t' ∧ i = i') then v else ent m t' i'.
Proof.
  intros Ht Ht' Hi Hi' Hv. unfold ent, index_ok in *. rewrite !as_ptr_eq by done. case_decide as Hd.
  - destruct Hd as [-> ->]. by apply load_store64.
  - apply load_store64_ne. unfold PAGE_SIZE. lia.
Qed.

Lemma ent_agree m m' t i :
  0 ≤ t < 2 ^ 26 → index_ok i → agree (page t) m m' → ent m' t i = ent m t i.
Proof.
  intros Ht Hi Ha. unfold ent. rewrite as_ptr_eq by done. apply load64_ext.
  eapply agree_weaken; [|exact Ha]. intros a. by apply page_word.
Qed.

Lemma ent_zero m t i :
  0 ≤ t < 2 ^ 26 → index_ok i → (∀ a, page t a → m a = x00) → ent m t i = 0.
Proof.
  intros Ht Hi Hz. unfold ent. rewrite as_ptr_eq by done. apply load64_zero.
  intros a Ha. apply Hz. by apply (page_word t i).
Qed.

(** Walking from the root along a table's path arrives at the table. *)
Lemma tr_reach n role pt s t pa idxs :
  pt_ok n role pt s → role t = Some pa → idxs ≠ [] →
  tr (fa_mem s) (pa ++ idxs) (root pt) = tr (fa_mem s) idxs t.
Proof.
  intros Hok. revert t idxs. induction pa as [|i pa IH] using rev_ind; intros t idxs Ht Hne.
  - apply (pt_root _ _ _ _ Hok) in Ht as ->. done.
  - destruct (pt_parent _ _ _ _ Hok _ _ _ Ht) as (Hi & t' & Ht' & Hin & Hp).
    rewrite <- app_assoc, (IH t' ([i] ++ idxs) Ht') by done.
    destruct idxs as [|j idxs]; [done|]. cbn [app tr]. by rewrite Hin, Hp.
Qed.

(** Memory that agrees on the tables gives the same translations. *)
Lemma tr_ext n role pt s m' idxs :
  pt_ok n role pt s →
  (∀ p pa, role p = Some pa → agree (page p) (fa_mem s) m') →
  ∀ p pa, role p = Some pa → (length pa + length idxs = 3)%nat → Forall index_ok idxs →
  tr m' idxs p = tr (fa_mem s) idxs p.
Proof.
  intros Hok Hag. induction idxs as [|i rest IH]; intros p pa Hp Hlen Hix; [done|].
  apply Forall_cons in Hix as [Hi Hrest].
  pose proof (proj1 (pt_page _ _ _ _ _ _ Hok Hp)) as Hpr.
  pose proof (ent_agree _ _ p i Hpr Hi (Hag p pa Hp)) as He.
  destruct rest as [|j rest]; [simpl; by rewrite He|].
  cbn [tr]. rewrite He. destruct (interior (ent (fa_mem s) p i)) eqn:Hin; [|done].
  apply (IH _ (pa ++ [i])); [|rewrite length_app; simpl in *; lia|done].
  apply (pt_child _ _ _ _ Hok); [done|simpl in *; lia|done..].
Qed.

(** A store to an entry leaves alone every walk that does not pass it. *)
Lemma tr_off n role pt s t pa i v idxs :
  pt_ok n role pt s → role t = Some pa → index_ok i → 0 ≤ v < U64 →
  let m' := store64 (fa_mem s) (as_ptr t + 8 * i) v in
  ∀ p pb, role p = Some pb → (length pb + length idxs = 3)%nat → Forall index_ok idxs →
  ¬ (pa ++ [i]) `prefix_of` (pb ++ idxs) → tr m' idxs p = tr (fa_mem s) idxs p.
Proof.
  intros Hok Ht Hi Hv m'. pose proof (proj1 (pt_page _ _ _ _ _ _ Hok Ht)) as Htr.
  induction idxs as [|j rest IH]; intros p pb Hp Hlen Hix Hoff; [done|].
  apply Forall_cons in Hix as [Hj Hrest]. pose proof (proj1 (pt_page _ _ _ _ _ _ Hok Hp)) as Hpr.
  assert (He : ent m' p j = ent (fa_mem s) p j).
  { unfold m'. rewrite ent_store by done. rewrite decide_False; [done|]. intros [<- <-].
    rewrite Ht in Hp. injection Hp as <-. apply Hoff. exists rest. by rewrite <- app_assoc. }
  destruct rest as [|k rest]; [simpl; by rewrite He|].
  cbn [tr]. rewrite He. destruct (interior (ent (fa_mem s) p j)) eqn:Hin; [|done].
  apply (IH _ (pb ++ [j])); [|rewrite length_app; simpl in *; lia|done|by rewrite <- app_assoc].
  apply (pt_child _ _ _ _ Hok); [done|simpl in *; lia|done..].
Qed.

(** ** Writing to an owned entry *)

Definition write_ent (s : S) (t i v : Z) : S :=
  fa_set_mem (store64 (fa_mem s) (as_ptr t + 8 * i) v) s.

Lemma write_ent_mem s t i v : fa_mem (write_ent s t i v) = store64 (fa_mem s) (as_ptr t + 8 * i) v.
Proof. apply fa_mem_set. Qed.

Lemma write_ent_page s t i v :
  0 ≤ t < 2 ^ 26 → index_ok i → ∀ p, p ≠ t → agree (page p) (fa_mem s) (fa_mem (write_ent s t i v)).
Proof.
  intros Ht Hi p Hne. rewrite write_ent_mem. apply store64_agree. rewrite as_ptr_eq by done.
  intros x Hx Hp. apply Hne. eapply page_disjoint; [exact Hp|]. by apply (page_word t i).
Qed.

Lemma write_ent_inv s t i v :
  fa_inv s → fa_used s t → index_ok i →
  fa_inv (write_ent s t i v) ∧ ∀ q, fa_used (write_ent s t i v) q ↔ fa_used s q.
Proof.
  intros Hs Ht Hi. pose proof (fa_used_range s t Hs Ht) as Hr. apply fa_write_ok; [done|].
  intros a Hne. exists t. split; [done|]. apply (page_word t i a Hi).
  change (page_base t) with (t * PAGE_SIZE + VIRT_OFFSET). rewrite <- as_ptr_eq by done.
  destruct (decide (span (as_ptr t + 8 * i) 8 a)) as [|Hs']; [done|]. by rewrite store64_out in Hne.
Qed.

(** Storing a leaf entry at the bottom level. *)
Lemma write_leaf n role pt s t pa i v :
  pt_ok n role pt s → role t = Some pa → length pa = 2%nat → index_ok i → 0 ≤ v < U64 →
  pt_ok n role pt (write_ent s t i v) ∧
  (∀ idxs, Forall index_ok idxs → length idxs = 3%nat →
     tr (fa_mem (write_ent s t i v)) idxs (root pt) =
       if decide (idxs = pa ++ [i]) then filter_valid v else tr (fa_mem s) idxs (root pt)).
Proof.
  intros Hok Ht Hlen Hi Hv. pose proof (proj1 (pt_page _ _ _ _ _ _ Hok Ht)) as Htr.
  destruct (write_ent_inv s t i v (pt_inv _ _ _ _ Hok) (pt_used _ _ _ _ Hok _ _ Ht) Hi) as [Hinv Hus].
  assert (Hent : ∀ p pb j, role p = Some pb → (length pb < 2)%nat → index_ok j →
    ent (fa_mem (write_ent s t i v)) p j = ent (fa_mem s) p j).
  { intros p pb j Hp Hpb Hj. apply ent_agree; [by eapply pt_page|done|].
    apply write_ent_page; [done..|]. intros ->. rewrite Ht in Hp. injection Hp as <-. lia. }
  assert (Hok' : pt_ok n role pt (write_ent s t i v)).
  { destruct Hok as [? ? ? ? ? ? ? Hu Hd Hc Hpar]. constructor; try done.
    - intros p pb Hp. apply Hus. eauto.
    - intros p pb j Hp Hl Hj. rewrite (Hent p pb j) by done. auto.
    - intros p pb j Hp. destruct (Hpar _ _ _ Hp) as (Hj & t' & Ht' & Hin & He). split; [done|].
      exists t'. rewrite (Hent t' pb j); [done|done| |done]. apply Hd in Hp. rewrite length_app in Hp. simpl in Hp. lia. }
  split; [done|]. intros idxs Hix Hl3. case_decide as Hdec.
  - rewrite Hdec, (tr_reach n role pt _ t pa [i] Hok' Ht) by done. simpl.
    rewrite write_ent_mem, ent_store, decide_True by done. done.
  - rewrite write_ent_mem. apply (tr_off n role pt s t pa i v idxs Hok Ht Hi Hv (root pt) []); [|simpl; lia|done|].
    + by apply (pt_root _ _ _ _ Hok).
    + simpl. intros Hpre. apply Hdec. symmetry. apply prefix_length_eq; [done|].
      rewrite length_app. simpl. lia.
Qed.
End table.
