(* ===== verification/PageTableWalk.v ===== *)
(** * Walks that create tables

    Growing the tree by one table, and the loop of [walk_create_to]: no
    translation changes, and the slot it returns belongs to the table on the
    requested path. *)
From stdpp Require Import base numbers functions sets list.
From Stdlib Require Import Lia.
From S2P Require Import Prelude Memory Config Addr FrameIface PageTable PageTableInv.

Section walk.
Context {S : Type} `{FrameAllocator S, !FrameAllocatorLaws S}.
Implicit Types (s : S) (role : Z → option (list Z)) (pt : PageTable).

Lemma pt_ok_stable n role pt s s' :
  pt_ok n role pt s → fa_inv s' →
  (∀ p pa, role p = Some pa → fa_used s' p ∧ agree (page p) (fa_mem s) (fa_mem s')) →
  pt_ok n role pt s' ∧
  (∀ idxs, Forall index_ok idxs → length idxs = 3%nat →
     tr (fa_mem s') idxs (root pt) = tr (fa_mem s) idxs (root pt)).
Proof.
  intros Hok Hinv Hst.
  assert (Hent : ∀ p pb j, role p = Some pb → index_ok j → ent (fa_mem s') p j = ent (fa_mem s) p j).
  { intros p pb j Hp Hj. apply ent_agree; [by eapply pt_page|done|]. by eapply Hst. }
  split.
  - destruct Hok as [? ? ? ? ? ? ? Hu Hd Hc Hpar]. constructor; try done.
    + intros p pa Hp. by eapply Hst.
    + intros p pa i Hp Hl Hi. rewrite (Hent p pa i) by done. auto.
    + intros p pa i Hp. destruct (Hpar _ _ _ Hp) as (Hi & t & Ht & Hin & He). split; [done|].
      exists t. by rewrite (Hent t pa i).
  - intros idxs Hix Hl. apply (tr_ext n role pt s _ idxs Hok) with (pa := []); [intros; by eapply Hst| |simpl; lia|done].
    by apply (pt_root _ _ _ _ Hok).
Qed.

Lemma tr_zero m t idxs :
  0 ≤ t < 2 ^ 26 → (∀ a, page t a → m a = x00) → Forall index_ok idxs → tr m idxs t = None.
Proof.
  intros Ht Hz Hix. destruct idxs as [|i rest]; [done|]. apply Forall_cons in Hix as [Hi _].
  destruct rest as [|j rest]; simpl; by rewrite (ent_zero m t i Ht Hi Hz).
Qed.

(** What [Frame::alloc] established, between [s] and [s1]. *)
Record fresh_page (s s1 : S) (f : PhysPageNum) : Prop := {
  fp_inv : fa_inv s1;
  fp_used : ∀ q, fa_used s1 q ↔ fa_used s q ∨ q = f;
  fp_new : ¬ fa_used s f;
  fp_zero : ∀ a, page f a → fa_mem s1 a = x00;
  fp_agree : ∀ q, fa_used s q → agree (page q) (fa_mem s) (fa_mem s1);
  fp_avail : fa_avail s1 = fa_avail s - 1;
}.

Lemma wp_frame_alloc0 (Q : option Frame → S → Prop) s :
  fa_inv s → (fa_avail s = 0 → Q None s) → (∀ f s1, fresh_page s s1 f → Q (Some (mkFrame f 0)) s1) →
  wp (frame_alloc 0) Q s.
Proof.
  intros Hinv HN HS. unfold frame_alloc. apply wp_bind.
  eapply wp_mono; [|apply wp_conj; [by apply (fa_alloc_ok s 0)|by apply (fa_avail_alloc s 0)]].
  cbv beta. intros [f|] s1; [|intros [-> Hav]; apply wp_ret; auto].
  change (2 ^ 0) with 1. intros [(Hi & _ & _ & Hu & Hn & Hz & Ha) Hav]. apply wp_ret. simpl. apply HS.
  constructor; try done.
  - intros q. rewrite Hu. split; (intros [?|?]; [by left|right; lia]).
  - apply Hn. lia.
  - intros a. apply Hz. lia.
Qed.

(** ** Growing the tree by one table

    [f] is a fresh zeroed page; the invalid entry [i] of the table [t] on path
    [pa] is pointed at it. *)
Section grow.
Context (n : Z) (role : Z → option (list Z)) (pt : PageTable) (s s1 : S) (t : Z) (pa : list Z) (i f : Z).
Context (Hok : pt_ok n role pt s) (Ht : role t = Some pa) (Hpa : (length pa < 2)%nat)
  (Hi : index_ok i) (Hown : owned n (pa ++ [i]))
  (Hinvd : is_valid (ent (fa_mem s) t i) = false) (Hf : fresh_page s s1 f).

Abbreviation s2 := (write_ent s1 t i (Pte_new f Flags.VALID)).
Abbreviation role2 := (<[f := Some (pa ++ [i])]> role).

Lemma grow_stable : pt_ok n role pt s1 ∧
  (∀ idxs, Forall index_ok idxs → length idxs = 3%nat →
     tr (fa_mem s1) idxs (root pt) = tr (fa_mem s) idxs (root pt)).
Proof.
  apply pt_ok_stable; [done|apply Hf|].
  intros p pb Hp. apply (pt_used _ _ _ _ Hok) in Hp. split; [apply (fp_used _ _ _ Hf); by left|].
  by apply (fp_agree _ _ _ Hf).
Qed.

Lemma grow_new : role f = None.
Proof.
  destruct (role f) as [pb|] eqn:Hr; [|done]. exfalso.
  by apply (fp_new _ _ _ Hf), (pt_used _ _ _ _ Hok _ _ Hr).
Qed.

Lemma grow_ranges : 0 ≤ t < 2 ^ 26 ∧ 0 ≤ f < 2 ^ 26 ∧ t ≠ f ∧ 0 ≤ Pte_new f Flags.VALID < U64 ∧
  Pte_ppn (Pte_new f Flags.VALID) = f.
Proof.
  assert (Hfr : 0 ≤ f < 2 ^ 26) by (apply (fa_used_range s1); [apply Hf|apply (fp_used _ _ _ Hf); by right]).
  split_and!; try lia; [by eapply pt_page..| | | |].
  - pose proof grow_new. congruence.
  - apply Pte_new_range; unfold Flags.VALID; lia.
  - apply Pte_new_range; unfold Flags.VALID; lia.
  - apply Pte_new_ppn; unfold Flags.VALID; lia.
Qed.

Lemma grow_invalid : is_valid (ent (fa_mem s1) t i) = false.
Proof.
  destruct grow_ranges as (Htr & _). rewrite (ent_agree (fa_mem s)); [done..|].
  apply (fp_agree _ _ _ Hf), (pt_used _ _ _ _ Hok _ _ Ht).
Qed.

Lemma grow_ent p j : 0 ≤ p < 2 ^ 26 → index_ok j →
  ent (fa_mem s2) p j = if decide (t = p ∧ i = j) then Pte_new f Flags.VALID else ent (fa_mem s1) p j.
Proof.
  destruct grow_ranges as (Htr & _ & _ & Hv & _). intros Hp Hj. rewrite write_ent_mem.
  by apply ent_store.
Qed.

Lemma grow_zero a : page f a → fa_mem s2 a = x00.
Proof.
  destruct grow_ranges as (Htr & _ & Hne & _). intros Ha.
  rewrite (write_ent_page s1 t i _ Htr Hi f) by done. by apply (fp_zero _ _ _ Hf).
Qed.

Lemma grow_used : fa_inv s2 ∧ ∀ q, fa_used s2 q ↔ fa_used s q ∨ q = f.
Proof.
  destruct (write_ent_inv s1 t i (Pte_new f Flags.VALID) (fp_inv _ _ _ Hf)) as [Hinv Hus];
    [apply (pt_used _ _ _ _ (proj1 grow_stable) _ _ Ht)|done|].
  split; [done|]. intros q. by rewrite Hus, (fp_used _ _ _ Hf).
Qed.

Lemma role2_cases p pb : role2 p = Some pb ↔ (p = f ∧ pb = pa ++ [i]) ∨ (p ≠ f ∧ role p = Some pb).
Proof.
  destruct (decide (f = p)) as [<-|Hne].
  - rewrite fn_lookup_insert. naive_solver.
  - rewrite fn_lookup_insert_ne by done. naive_solver.
Qed.

Lemma grow_child p pb j : role2 p = Some pb → (length pb < 2)%nat → index_ok j →
  interior (ent (fa_mem s2) p j) = true → role2 (Pte_ppn (ent (fa_mem s2) p j)) = Some (pb ++ [j]).
Proof.
  destruct grow_ranges as (Htr & Hfr & Htf & Hv & Hppn). destruct grow_stable as [Hok1 _].
  intros [[-> ->]|[Hne Hp]]%role2_cases Hpb Hj.
  - rewrite (ent_zero _ f j Hfr Hj grow_zero). done.
  - pose proof (proj1 (pt_page _ _ _ _ _ _ Hok Hp)) as Hpr. rewrite grow_ent by done.
    case_decide as Hd; intros Hin; apply role2_cases.
    + destruct Hd as [<- <-]. rewrite Ht in Hp. injection Hp as <-. by left.
    + pose proof (pt_child _ _ _ _ Hok1 p pb j Hp Hpb Hj Hin) as Hc. right. split; [|done].
      pose proof grow_new. congruence.
Qed.

Lemma grow_parent p pb j : role2 p = Some (pb ++ [j]) →
  index_ok j ∧ ∃ t', role2 t' = Some pb ∧ interior (ent (fa_mem s2) t' j) = true ∧
                     Pte_ppn (ent (fa_mem s2) t' j) = p.
Proof.
  destruct grow_ranges as (Htr & Hfr & Htf & Hv & Hppn). destruct grow_stable as [Hok1 _].
  intros [[-> Hpath]|[Hne Hp]]%role2_cases.
  - apply app_inj_tail in Hpath as [-> ->]. split; [done|]. exists t.
    rewrite role2_cases, grow_ent, decide_True by done. split_and!; [by right| |done].
    apply interior_table. lia.
  - destruct (pt_parent _ _ _ _ Hok1 _ _ _ Hp) as (Hj & t' & Ht' & Hin & He). split; [done|].
    exists t'. rewrite role2_cases. split.
    + right. split; [|done]. pose proof grow_new. congruence.
    + rewrite grow_ent by (done || by eapply pt_page). rewrite decide_False; [done|].
      intros [<- <-]. unfold interior in Hin. by rewrite grow_invalid in Hin.
Qed.

Lemma grow_ok : pt_ok n role2 (with_frame (mkFrame f 0) pt) s2.
Proof.
  pose proof grow_new as Hfn.
  assert (Hin : ∀ p, p ∈ f_ppn <$> frames (with_frame (mkFrame f 0) pt) ↔ p ∈ f_ppn <$> frames pt ∨ p = f).
  { intros p. simpl. rewrite fmap_app, elem_of_app. simpl. by rewrite list_elem_of_singleton. }
  constructor.
  - apply grow_used.
  - apply Hok.
  - intros p. rewrite role2_cases, (pt_root _ _ _ _ Hok). split.
    + intros [[_ ?]|[_ ?]]; [by destruct pa|done].
    + intros ->. right. split; [|done]. intros Heq.
      pose proof (proj2 (pt_root _ _ _ _ Hok (root pt)) eq_refl). simpl in Heq. congruence.
  - intros p pb. rewrite Hin, role2_cases. intros [[-> ->]|[Hne Hp]].
    + split; [done|by right].
    + rewrite (pt_frames _ _ _ _ Hok p pb Hp). naive_solver.
  - intros p [Hp| ->]%Hin.
    + pose proof (pt_total _ _ _ _ Hok p Hp) as [pb Hpb]. exists pb. apply role2_cases. right.
      split; [congruence|done].
    + exists (pa ++ [i]). apply role2_cases. by left.
  - intros fr [Hfr| ->%list_elem_of_singleton]%elem_of_app; [by apply (pt_orders _ _ _ _ Hok)|done].
  - simpl. rewrite fmap_app. apply NoDup_app. split; [apply Hok|]. split; [|apply NoDup_singleton].
    intros p Hp Hpf%list_elem_of_singleton. simpl in Hpf. subst p.
    apply (pt_total _ _ _ _ Hok) in Hp. rewrite Hfn in Hp. by destruct Hp.
  - intros p pb Hp. apply grow_used. apply role2_cases in Hp as [[-> _]|[_ Hp]]; [by right|left].
    by apply (pt_used _ _ _ _ Hok p pb).
  - intros p pb [[_ ->]|[_ Hp]]%role2_cases; [rewrite length_app; simpl; lia|].
    by apply (pt_depth _ _ _ _ Hok p).
  - exact grow_child.
  - exact grow_parent.
Qed.

Lemma grow_tr idxs : Forall index_ok idxs → length idxs = 3%nat →
  tr (fa_mem s2) idxs (root pt) = tr (fa_mem s) idxs (root pt).
Proof.
  destruct grow_ranges as (Htr & Hfr & Htf & Hv & Hppn). destruct grow_stable as [Hok1 Htr1].
  intros Hix Hl. rewrite <- (Htr1 idxs Hix Hl).
  destruct (decide ((pa ++ [i]) `prefix_of` idxs)) as [[rest ->]|Hoff].
  - rewrite length_app in Hl. pose proof Hix as [_ Hrest]%Forall_app.
    assert (Hne : rest ≠ []) by (intros ->; rewrite length_app in Hl; simpl in Hl; lia).
    change (root pt) with (root (with_frame (mkFrame f 0) pt)) at 1.
    rewrite (tr_reach n role2 _ s2 f (pa ++ [i]) rest grow_ok); [|apply role2_cases; by left|done].
    rewrite tr_zero; [|done|exact grow_zero|done].
    rewrite <- app_assoc, (tr_reach n role pt s1 t pa ([i] ++ rest) Hok1 Ht) by done.
    destruct rest as [|j rest]; [done|]. cbn [app tr]. unfold interior. by rewrite grow_invalid.
  - rewrite write_ent_mem.
    apply (tr_off n role pt s1 t pa i _ idxs Hok1 Ht Hi Hv (root pt) []); [|simpl; lia|done|done].
    by apply (pt_root _ _ _ _ Hok).
Qed.

Lemma grow_agree p : fa_used s p → p ≠ t → agree (page p) (fa_mem s) (fa_mem s2).
Proof.
  destruct grow_ranges as (Htr & _). intros Hp Hne.
  etransitivity; [by apply (fp_agree _ _ _ Hf)|]. by apply write_ent_page.
Qed.
End grow.

(** ** The walk *)

(** No superpage leaf above the bottom level, on the paths this table owns. *)
Definition flat (n : Z) role s : Prop :=
  ∀ p pa i, role p = Some pa → (length pa < 2)%nat → index_ok i → owned n (pa ++ [i]) →
  is_leaf (ent (fa_mem s) p i) = false.

Record grown (n : Z) role pt s role' pt' s' : Prop := {
  gr_ok : pt_ok n role' pt' s';
  gr_root : root pt' = root pt;
  gr_role : ∀ p pa, role p = Some pa → role' p = Some pa;
  gr_tr : ∀ idxs, Forall index_ok idxs → length idxs = 3%nat →
    tr (fa_mem s') idxs (root pt) = tr (fa_mem s) idxs (root pt);
  gr_used : ∀ q, fa_used s' q ↔ fa_used s q ∨ q ∈ f_ppn <$> frames pt';
  gr_new : ∀ q, q ∈ f_ppn <$> frames pt' → q ∈ f_ppn <$> frames pt ∨ ¬ fa_used s q;
  gr_sub : ∀ q, q ∈ f_ppn <$> frames pt → q ∈ f_ppn <$> frames pt';
  gr_agree : ∀ p, fa_used s p → p ∉ f_ppn <$> frames pt → agree (page p) (fa_mem s) (fa_mem s');
  gr_flat : flat n role s → flat n role' s';
  gr_dom : ∀ p pa, role' p = Some pa → role p = Some pa ∨ p ∈ f_ppn <$> frames pt';
  gr_leaf : ∀ p pa i e, index_ok i → is_leaf e = true →
    (role' p = Some pa ∧ ent (fa_mem s') p i = e) ↔ (role p = Some pa ∧ ent (fa_mem s) p i = e);
  gr_avail : fa_avail s' + table_frames pt' = fa_avail s + table_frames pt;
}.

Lemma pt_frame_used n role pt s q : pt_ok n role pt s → q ∈ f_ppn <$> frames pt → fa_used s q.
Proof. intros Hok [pa Hq]%(pt_total _ _ _ _ Hok). by apply (pt_used _ _ _ _ Hok q pa). Qed.

Lemma grown_refl n role pt s : pt_ok n role pt s → grown n role pt s role pt s.
Proof.
  intros Hok. constructor; try done; [|by left|by left].
  intros q. split; [by left|]. intros [?|?]; [done|]. by eapply pt_frame_used.
Qed.

Lemma grown_trans n r1 p1 s1 r2 p2 s2 r3 p3 s3 :
  grown n r1 p1 s1 r2 p2 s2 → grown n r2 p2 s2 r3 p3 s3 → grown n r1 p1 s1 r3 p3 s3.
Proof.
  intros G1 G2. constructor.
  - apply G2.
  - by rewrite (gr_root _ _ _ _ _ _ _ G2), (gr_root _ _ _ _ _ _ _ G1).
  - intros p pa Hp. by apply (gr_role _ _ _ _ _ _ _ G2), (gr_role _ _ _ _ _ _ _ G1).
  - intros idxs Hix Hl. rewrite <- (gr_tr _ _ _ _ _ _ _ G1), <- (gr_root _ _ _ _ _ _ _ G1) by done.
    by apply (gr_tr _ _ _ _ _ _ _ G2).
  - intros q. rewrite (gr_used _ _ _ _ _ _ _ G2), (gr_used _ _ _ _ _ _ _ G1).
    pose proof (gr_sub _ _ _ _ _ _ _ G2 q). tauto.
  - intros q [Hq|Hq]%(gr_new _ _ _ _ _ _ _ G2); [by apply (gr_new _ _ _ _ _ _ _ G1)|].
    right. intros Hu. apply Hq, (gr_used _ _ _ _ _ _ _ G1). by left.
  - intros q Hq. by apply (gr_sub _ _ _ _ _ _ _ G2), (gr_sub _ _ _ _ _ _ _ G1).
  - intros p Hp Hnin. etransitivity; [by apply (gr_agree _ _ _ _ _ _ _ G1)|].
    apply (gr_agree _ _ _ _ _ _ _ G2); [apply (gr_used _ _ _ _ _ _ _ G1); by left|].
    intros [?|?]%(gr_new _ _ _ _ _ _ _ G1); done.
  - intros Hfl. by apply (gr_flat _ _ _ _ _ _ _ G2), (gr_flat _ _ _ _ _ _ _ G1).
  - intros p pa [Hp|Hp]%(gr_dom _ _ _ _ _ _ _ G2); [|by right].
    apply (gr_dom _ _ _ _ _ _ _ G1) in Hp as [Hp|Hp]; [by left|right]. by apply (gr_sub _ _ _ _ _ _ _ G2).
  - intros p pa i e Hi He. by rewrite (gr_leaf _ _ _ _ _ _ _ G2), (gr_leaf _ _ _ _ _ _ _ G1).
  - by rewrite (gr_avail _ _ _ _ _ _ _ G2), (gr_avail _ _ _ _ _ _ _ G1).
Qed.

(** One step of growth, as [grown]. *)
Lemma grow_grown n role pt s s1 t pa i f :
  pt_ok n role pt s → role t = Some pa → (length pa < 2)%nat → index_ok i → owned n (pa ++ [i]) →
  is_valid (ent (fa_mem s) t i) = false → fresh_page s s1 f →
  grown n role pt s (<[f := Some (pa ++ [i])]> role) (with_frame (mkFrame f 0) pt)
    (write_ent s1 t i (Pte_new f Flags.VALID)).
Proof.
  intros Hok Ht Hpa Hi Hown Hinvd Hf.
  assert (Hin : ∀ p, p ∈ f_ppn <$> frames (with_frame (mkFrame f 0) pt) ↔ p ∈ f_ppn <$> frames pt ∨ p = f).
  { intros p. simpl. rewrite fmap_app, elem_of_app. simpl. by rewrite list_elem_of_singleton. }
  pose proof (grow_new n role pt s s1 f Hok Hf) as Hfn.
  constructor.
  - by eapply (grow_ok n role pt s).
  - done.
  - intros p pb Hp. rewrite fn_lookup_insert_ne; [done|congruence].
  - intros idxs; by eapply (grow_tr n role pt s).
  - intros q. rewrite (proj2 (grow_used n role pt s s1 t pa i f Hok Ht Hi Hf)), Hin.
    pose proof (pt_frame_used n role pt s q Hok). tauto.
  - intros q [?| ->]%Hin; [by left|right; apply Hf].
  - intros q Hq. apply Hin. by left.
  - intros p Hp Hnin. eapply (grow_agree n role pt s); try done. intros ->. apply Hnin.
    apply (pt_frames _ _ _ _ Hok t pa Ht). by destruct pa.
  - intros Hfl p pb j Hp Hpb Hj Hob.
    destruct (grow_ranges n role pt s s1 t pa f Hok Ht Hpa Hf) as (Htr & Hfr & Htf & Hv & Hppn).
    apply role2_cases in Hp as [[-> ->]|[Hne Hp]].
    + by rewrite (ent_zero _ f j Hfr Hj (grow_zero n role pt s s1 t pa i f Hok Ht Hpa Hi Hf)).
    + pose proof (proj1 (pt_page _ _ _ _ _ _ Hok Hp)) as Hpr.
      rewrite (grow_ent n role pt s s1 t pa i f Hok Ht Hpa Hi Hf p j Hpr Hj). case_decide.
      * pose proof (interior_table f ltac:(lia)) as Hint. unfold interior in Hint.
        apply andb_true_iff in Hint as [_ Hint]. by apply negb_true_iff in Hint.
      * rewrite (ent_agree (fa_mem s)); [by apply (Hfl p pb)|done..|].
        apply (fp_agree _ _ _ Hf), (pt_used _ _ _ _ Hok _ _ Hp).
  - intros p pb [[-> ->]|[_ Hp]]%role2_cases; [right|by left]. apply Hin. by right.
  - intros p pb j e Hj He. rewrite role2_cases.
    destruct (grow_ranges n role pt s s1 t pa f Hok Ht Hpa Hf) as (Htr & Hfr & Htf & Hv & Hppn).
    assert (Hold : ∀ q pc, role q = Some pc → q ≠ t ∨ j ≠ i →
      ent (fa_mem (write_ent s1 t i (Pte_new f Flags.VALID))) q j = ent (fa_mem s) q j).
    { intros q pc Hq Hne. pose proof (proj1 (pt_page _ _ _ _ _ _ Hok Hq)) as Hqr.
      rewrite (grow_ent n role pt s s1 t pa i f Hok Ht Hpa Hi Hf q j Hqr Hj), decide_False by (intros [<- <-]; by destruct Hne).
      apply ent_agree; [done..|]. apply (fp_agree _ _ _ Hf), (pt_used _ _ _ _ Hok _ _ Hq). }
    split; [intros [[[-> ->]|[Hne Hp]] <-]|intros [Hp <-]].
    + exfalso. revert He. by rewrite (ent_zero _ f j Hfr Hj (grow_zero n role pt s s1 t pa i f Hok Ht Hpa Hi Hf)).
    + split; [done|]. destruct (decide (p = t ∧ j = i)) as [[-> ->]|Hd]; [exfalso|symmetry; apply (Hold p pb Hp); destruct (decide (p = t)); naive_solver].
      revert He. rewrite (grow_ent n role pt s s1 t pa i f Hok Ht Hpa Hi Hf t i Htr Hi), decide_True by done.
      pose proof (interior_table f ltac:(lia)) as Hint. apply andb_true_iff in Hint as [_ Hint%negb_true_iff]. by rewrite Hint.
    + assert (Hpf : p ≠ f) by congruence. split; [by right|]. apply (Hold p pb Hp).
      destruct (decide (p = t)) as [->|]; [right|by left]. intros ->. unfold is_leaf in He. by rewrite Hinvd in He.
  - unfold write_ent. rewrite fa_avail_set, (fp_avail _ _ _ Hf). unfold table_frames. simpl.
    rewrite length_app. simpl. lia.
Qed.

(** No leaf in the first [k] entries of the walk. *)
Fixpoint clear (m : mem) (idxs : list Z) (k : nat) (t : PhysPageNum) : Prop :=
  match k, idxs with
  | Datatypes.S k, i :: rest =>
      is_leaf (ent m t i) = false ∧
      (is_valid (ent m t i) = true → clear m rest k (Pte_ppn (ent m t i)))
  | _, _ => True
  end.

Lemma clear_zero m t idxs k :
  0 ≤ t < 2 ^ 26 → (∀ a, page t a → m a = x00) → Forall index_ok idxs → clear m idxs k t.
Proof.
  intros Ht Hz Hix. destruct k as [|k], idxs as [|i rest]; try done.
  apply Forall_cons in Hix as [Hi _]. simpl. by rewrite (ent_zero m t i Ht Hi Hz).
Qed.

Lemma wp_slot p i (Q : Z → S → Prop) s : index_ok i → Q (as_ptr p + 8 * i) s → wp (slot p i) Q s.
Proof.
  intros Hi HQ. unfold slot. apply wp_bind. eapply wp_lift; [|by apply wp_ret].
  unfold index_ok, PTE_PER_TABLE in *. rewrite (proj2 (Z.ltb_lt _ _)) by lia. done.
Qed.

Lemma walk_create_spec n idxs : ∀ pa t k pt s role,
  pt_ok n role pt s → role t = Some pa → (length pa + length idxs = 3)%nat →
  Forall index_ok idxs → owned n (pa ++ idxs) → (k < length idxs)%nat → clear (fa_mem s) idxs k t →
  wp (walk_create_loop idxs (Z.of_nat (length pa)) (Z.of_nat (length pa + k)) t pt)
    (λ '(r, pt') s', ∃ role', grown n role pt s role' pt' s' ∧
       (∀ p pb, role' p = Some pb → role p = Some pb ∨ pb `prefix_of` pa ++ take k idxs) ∧
       match r with
       | None => fa_avail s' = 0 ∧ fa_avail s < Z.of_nat k ∧ tr (fa_mem s) idxs t = None
       | Some a => fa_avail s - Z.of_nat k ≤ fa_avail s' ∧ ∃ q i, role' q = Some (pa ++ take k idxs) ∧ idxs !! k = Some i ∧ a = as_ptr q + 8 * i
       end) s.
Proof.
  induction idxs as [|i rest IH]; intros pa t k pt s role Hok Ht Hlen Hix Hown Hk Hcl; [simpl in Hk; lia|].
  apply Forall_cons in Hix as [Hi Hrest]. cbn [walk_create_loop]. wp_step. apply wp_slot; [done|].
  destruct k as [|k].
  { rewrite Nat.add_0_r, Z.eqb_refl. apply wp_ret. exists role. split; [by apply grown_refl|]. split; [by left|]. split; [lia|].
    exists t, i. simpl. by rewrite app_nil_r. }
  rewrite (proj2 (Z.eqb_neq _ _)) by lia. simpl in Hlen, Hk. destruct Hcl as [Hnl Hcl].
  assert (Hown1 : owned n (pa ++ [i])) by (by destruct pa).
  assert (Hlv : Z.of_nat (length pa) + 1 = Z.of_nat (length (pa ++ [i]))) by (rewrite length_app; simpl; lia).
  assert (Hst : (length pa + Datatypes.S k = length (pa ++ [i]) + k)%nat) by (rewrite length_app; simpl; lia).
  assert (Hlen1 : (length (pa ++ [i]) + length rest = 3)%nat) by (rewrite length_app; simpl; lia).
  assert (Htri : tr (fa_mem s) (i :: rest) t =
    if interior (ent (fa_mem s) t i) then tr (fa_mem s) rest (Pte_ppn (ent (fa_mem s) t i)) else None).
  { destruct rest as [|j rest]; [simpl in Hk; lia|done]. }
  rewrite Htri. unfold interior. rewrite Hlv, Hst. wp_step. apply wp_read64. fold (ent (fa_mem s) t i).
  destruct (is_valid (ent (fa_mem s) t i)) eqn:Hval.
  - assert (Hc : role (Pte_ppn (ent (fa_mem s) t i)) = Some (pa ++ [i])).
    { apply (pt_child _ _ _ _ Hok); [done|lia|done|]. unfold interior. by rewrite Hval, Hnl. }
    eapply wp_mono; [|apply (IH (pa ++ [i])); try done; [by rewrite <- app_assoc|lia|by apply Hcl]].
    intros [r pt'] s' (role' & Hg & Hpth & Hr). rewrite <- app_assoc in Hpth. exists role'. split; [done|]. split; [done|].
    rewrite Hnl. destruct r as [a|]; [|split_and!; [apply Hr|lia|apply Hr]]. rewrite <- app_assoc in Hr. split; [lia|apply Hr].
  - wp_step. apply wp_frame_alloc0; [apply Hok|intros Hav; apply wp_ret; exists role; split_and!; [by apply grown_refl|by left|lia..|done]|].
    intros f s1 Hf. assert (Hpa : (length pa < 2)%nat) by lia.
    destruct (grow_ranges n role pt s s1 t pa f Hok Ht Hpa Hf) as (Htr & Hfr & Htf & Hv & Hppn).
    pose proof (grow_grown n role pt s s1 t pa i f Hok Ht Hpa Hi Hown1 Hval Hf) as Hg.
    wp_step. apply wp_update_mem. change (fa_set_mem _ s1) with (write_ent s1 t i (Pte_new f Flags.VALID)).
    wp_step. apply wp_read64. fold (ent (fa_mem (write_ent s1 t i (Pte_new f Flags.VALID))) t i).
    rewrite (grow_ent n role pt s s1 t pa i f Hok Ht Hpa Hi Hf t i Htr Hi), decide_True, Hppn by done.
    eapply wp_mono; [|apply (IH (pa ++ [i])); [apply Hg| |done|done|by rewrite <- app_assoc|lia|]].
    + intros [r pt'] s' (role' & Hg' & Hpth & Hr). rewrite <- app_assoc in Hpth. exists role'. split; [by eapply grown_trans|]. split.
      * intros p pb [[[-> ->]|[_ ?]]%role2_cases|?]%Hpth; [right; by exists (take k rest); rewrite <- app_assoc|by left|by right].
      * unfold write_ent in Hr. rewrite fa_avail_set, (fp_avail _ _ _ Hf) in Hr.
        destruct r as [a|]; [|split_and!; [apply Hr|lia|done]]. rewrite <- app_assoc in Hr. split; [lia|apply Hr].
    + by rewrite fn_lookup_insert.
    + apply clear_zero; [done| |done]. exact (grow_zero n role pt s s1 t pa i f Hok Ht Hpa Hi Hf).
Qed.

Lemma flat_clear n role pt s idxs : pt_ok n role pt s → flat n role s →
  ∀ k pa t, role t = Some pa → (k + length pa ≤ 2)%nat → Forall index_ok idxs → owned n (pa ++ idxs) →
  clear (fa_mem s) idxs k t.
Proof.
  intros Hok Hfl. induction idxs as [|i rest IH]; intros k pa t Ht Hk Hix Hown; destruct k as [|k]; try done.
  apply Forall_cons in Hix as [Hi Hrest]. assert (Ho : owned n (pa ++ [i])) by (by destruct pa).
  assert (Hnl : is_leaf (ent (fa_mem s) t i) = false) by (apply (Hfl t pa); [done|lia|done..]).
  split; [done|]. intros Hv. apply (IH k (pa ++ [i])); [|rewrite length_app; simpl; lia|done|by rewrite <- app_assoc].
  apply (pt_child _ _ _ _ Hok); [done|lia|done|]. unfold interior. by rewrite Hv, Hnl.
Qed.

(** The slot a read-only walk ends at. *)
Lemma walk_loop_slot n role pt s idxs : pt_ok n role pt s →
  ∀ t pa a s', role t = Some pa → (length pa + length idxs = 3)%nat → Forall index_ok idxs →
  walk_loop idxs (Z.of_nat (length pa)) t s = Ret (Some a, s') →
  ∃ q pb i, role q = Some pb ∧ pa ++ idxs = pb ++ [i] ∧ index_ok i ∧ a = as_ptr q + 8 * i.
Proof.
  intros Hok. induction idxs as [|i rest IH]; intros t pa a s' Ht Hlen Hix Hr; [done|].
  apply Forall_cons in Hix as [Hi Hrest]. simpl in Hlen.
  destruct (wp_run _ (λ a s', a = as_ptr t + 8 * i ∧ s' = s) s (wp_slot t i _ s Hi (conj eq_refl eq_refl)))
    as (a' & s1 & Hsl & -> & ->).
  cbn [walk_loop] in Hr. unfold mbind, ST_bind in Hr. rewrite Hsl in Hr. unfold SV39_LEVELS in Hr.
  destruct (Z.eqb_spec (Z.of_nat (length pa)) (3 - 1)) as [He|Hne].
  - injection Hr as <- <-. exists t, pa, i. destruct rest; [done|simpl in Hlen; lia].
  - unfold read64 in Hr. fold (ent (fa_mem s) t i) in Hr.
    destruct (is_valid (ent (fa_mem s) t i)) eqn:Hv; [|done]. simpl in Hr.
    destruct (is_leaf (ent (fa_mem s) t i)) eqn:Hlf; [done|].
    replace (Z.of_nat (length pa) + 1) with (Z.of_nat (length (pa ++ [i]))) in Hr by (rewrite length_app; simpl; lia).
    assert (Hdep : (length pa < 2)%nat) by (destruct rest; simpl in *; lia).
    destruct (IH (Pte_ppn (ent (fa_mem s) t i)) (pa ++ [i]) a s') as (q & pb & j & ?); [|rewrite length_app; simpl; lia|done..|].
    + apply (pt_child _ _ _ _ Hok); [done..|]. unfold interior. by rewrite Hv, Hlf.
    + exists q, pb, j. by rewrite <- app_assoc in *.
Qed.

(** The read-only walk computes [tr]. *)
Lemma walk_loop_run idxs : ∀ d t s, (d + length idxs = 3)%nat → Forall index_ok idxs →
  ∃ r, walk_loop idxs (Z.of_nat d) t s = Ret (r, s) ∧
    match r with
    | None => tr (fa_mem s) idxs t = None
    | Some a => tr (fa_mem s) idxs t = filter_valid (load64 (fa_mem s) a)
    end.
Proof.
  induction idxs as [|i rest IH]; intros d t s Hd Hix; [by exists None|].
  apply Forall_cons in Hix as [Hi Hrest]. simpl in Hd.
  destruct (wp_run _ (λ a s', a = as_ptr t + 8 * i ∧ s' = s) s (wp_slot t i _ s Hi (conj eq_refl eq_refl)))
    as (a & s' & Hsl & -> & ->).
  cbn [walk_loop]. unfold mbind, ST_bind. rewrite Hsl. unfold read64. fold (ent (fa_mem s) t i).
  unfold SV39_LEVELS. destruct rest as [|j rest].
  - rewrite (proj2 (Z.eqb_eq _ _)) by (simpl in Hd; lia). by eexists.
  - rewrite (proj2 (Z.eqb_neq _ _)) by (simpl in Hd; lia). cbn [tr]. unfold interior.
    unfold ent. set (e := load64 _ _).
    destruct (is_valid e); [|by exists None]. destruct (is_leaf e); [by exists None|]. simpl negb. cbv iota.
    replace (Z.of_nat d + 1) with (Z.of_nat (Datatypes.S d)) by lia. apply IH; [simpl in *; lia|done].
Qed.

Lemma translate_run pt v s :
  translate pt v s = Ret (tr (fa_mem s) (indices v) (root pt), s).
Proof.
  destruct (indices_ok v) as [Hix Hl].
  destruct (walk_loop_run (indices v) 0 (root pt) s) as (r & Hr & Htr); [lia|done|].
  change (Z.of_nat 0) with 0 in Hr.
  unfold translate, walk_read, walk_ptr, mbind, ST_bind. rewrite Hr.
  destruct r as [a|]; rewrite Htr; [|done]. unfold read64, filter_valid. done.
Qed.
End walk.
