(* ===== verification/PageTableOps.v ===== *)
(** * The page-table operations against the abstract map

    [view pt s] is the partial map from virtual pages to entries that a table
    denotes.  Each operation is specified by what it does to [view], which
    frames it takes, and the pages it leaves alone. *)
From stdpp Require Import base numbers functions sets list.
From Stdlib Require Import Lia.
From S2P Require Import Prelude Memory Config Addr FrameIface PageTable PageTableInv PageTableWalk.

Section ops.
Context {S : Type} `{FrameAllocator S, !FrameAllocatorLaws S}.
Implicit Types (s : S) (role : Z → option (list Z)) (pt : PageTable).

(** What the table maps the page of [v] to. *)
Definition view pt s (v : VirtPageNum) : option Pte := tr (fa_mem s) (indices v) (root pt).

Definition table_pages pt : list PhysPageNum := f_ppn <$> frames pt.

(** A well-formed table whose own root indices are those below [n]; its other
    tables, if any, are among the pages [K]. *)
Definition pt_wf (n : Z) (K : Z → Prop) pt s : Prop := ∃ role,
  pt_ok n role pt s ∧ flat n role s ∧ ∀ p pa, role p = Some pa → p ∈ table_pages pt ∨ K p.

(** The same, before the kernel half is shared in: no table on an upper path. *)
Definition upper (pa : list Z) : Prop := match pa with [] => False | i :: _ => 256 ≤ i end.
Definition pt_low (n : Z) pt s : Prop :=
  ∃ role, pt_ok n role pt s ∧ flat n role s ∧ ∀ p pa, role p = Some pa → ¬ upper pa.

(** The kernel's own table: every path is its own; superpages allowed. *)
Definition pt_kernel pt s : Prop := ∃ role, pt_ok 512 role pt s.

(** [pt] and its memory changed only in the pages [pt] owns, taking new ones
    from the free ones. *)
Record only_tables pt s pt' s' : Prop := {
  ot_root : root pt' = root pt;
  ot_sub : ∀ q, q ∈ table_pages pt → q ∈ table_pages pt';
  ot_new : ∀ q, q ∈ table_pages pt' → q ∈ table_pages pt ∨ ¬ fa_used s q;
  ot_used : ∀ q, fa_used s' q ↔ fa_used s q ∨ q ∈ table_pages pt';
  ot_agree : ∀ q, fa_used s q → q ∉ table_pages pt → agree (page q) (fa_mem s) (fa_mem s');
}.

Lemma grown_only n role pt s role' pt' s' : grown n role pt s role' pt' s' → only_tables pt s pt' s'.
Proof. by intros []. Qed.

Lemma only_tables_trans pt1 s1 pt2 s2 pt3 s3 :
  only_tables pt1 s1 pt2 s2 → only_tables pt2 s2 pt3 s3 → only_tables pt1 s1 pt3 s3.
Proof.
  intros O1 O2. constructor.
  - by rewrite (ot_root _ _ _ _ O2), (ot_root _ _ _ _ O1).
  - intros q Hq. by apply (ot_sub _ _ _ _ O2), (ot_sub _ _ _ _ O1).
  - intros q [Hq|Hq]%(ot_new _ _ _ _ O2); [by apply (ot_new _ _ _ _ O1)|].
    right. intros Hu. apply Hq, (ot_used _ _ _ _ O1). by left.
  - intros q. rewrite (ot_used _ _ _ _ O2), (ot_used _ _ _ _ O1). pose proof (ot_sub _ _ _ _ O2 q). tauto.
  - intros q Hq Hnin. etransitivity; [by apply (ot_agree _ _ _ _ O1)|].
    apply (ot_agree _ _ _ _ O2); [apply (ot_used _ _ _ _ O1); by left|].
    intros [?|?]%(ot_new _ _ _ _ O1); done.
Qed.

(** A store to an entry of an owned table. *)
Lemma write_ent_only n role pt s q pb i e :
  pt_ok n role pt s → role q = Some pb → owned n pb → index_ok i →
  only_tables pt s pt (write_ent s q i e).
Proof.
  intros Hok Hq Hown Hi. pose proof (proj1 (pt_page _ _ _ _ _ _ Hok Hq)) as Hqr.
  destruct (write_ent_inv s q i e (pt_inv _ _ _ _ Hok) (pt_used _ _ _ _ Hok _ _ Hq) Hi) as [_ Hus].
  constructor; try done; [by left|..].
  - intros p. rewrite Hus. split; [by left|]. intros [?|?]; [done|]. by eapply pt_frame_used.
  - intros p Hp Hnin. apply write_ent_page; [done..|]. intros ->. apply Hnin. by apply (pt_frames _ _ _ _ Hok q pb Hq).
Qed.

Lemma grown_view n role pt s role' pt' s' v :
  grown n role pt s role' pt' s' → view pt' s' v = view pt s v.
Proof.
  intros Hg. unfold view. rewrite (gr_root _ _ _ _ _ _ _ Hg). destruct (indices_ok v).
  by apply (gr_tr _ _ _ _ _ _ _ Hg).
Qed.

(** ** Leaf slots *)

(** [a] is the address of the bottom-level entry for [v]. *)
Definition at_slot role (v : VirtPageNum) (a : Z) : Prop :=
  ∃ q pb i, role q = Some pb ∧ indices v = pb ++ [i] ∧ index_ok i ∧ a = as_ptr q + 8 * i.

Lemma at_slot_depth v pb i : indices v = pb ++ [i] → length pb = 2%nat.
Proof. intros Hix. destruct (indices_ok v) as [_ Hl]. rewrite Hix, length_app in Hl. simpl in Hl. lia. Qed.

Lemma slot_read n role pt s v a :
  pt_ok n role pt s → at_slot role v a → filter_valid (load64 (fa_mem s) a) = view pt s v.
Proof.
  intros Hok (q & pb & i & Hq & Hix & Hi & ->). unfold view.
  by rewrite Hix, (tr_reach n role pt s q pb [i] Hok Hq).
Qed.

Lemma slot_write n role pt s v a e :
  pt_ok n role pt s → flat n role s → at_slot role v a → owned n (indices v) → 0 ≤ e < U64 →
  let s' := fa_set_mem (store64 (fa_mem s) a e) s in
  pt_ok n role pt s' ∧ flat n role s' ∧ only_tables pt s pt s' ∧
  (∀ v', view pt s' v' = if decide (indices v' = indices v) then filter_valid e else view pt s v').
Proof.
  intros Hok Hfl (q & pb & i & Hq & Hix & Hi & ->) Hown He s'.
  assert (Hpb : length pb = 2%nat) by (by eapply at_slot_depth).
  destruct (write_leaf n role pt s q pb i e Hok Hq Hpb Hi He) as [Hok' Htr]. fold (write_ent s q i e) in s'.
  pose proof (proj1 (pt_page _ _ _ _ _ _ Hok Hq)) as Hqr.
  split_and!; [done| | |].
  - intros p pa j Hp Hpa Hj Ho. unfold s'. rewrite (ent_agree (fa_mem s)); [by apply (Hfl p pa)|by eapply pt_page|done|].
    apply write_ent_page; [done..|]. intros ->. rewrite Hq in Hp. injection Hp as <-. lia.
  - apply (write_ent_only n role pt s q pb); [done..| |done]. rewrite Hix in Hown. by destruct pb.
  - intros v'. unfold view, s'. destruct (indices_ok v'). rewrite Htr by done. by rewrite Hix.
Qed.

Lemma wp_walk_mut n role pt s v (Q : option Z → S → Prop) :
  pt_ok n role pt s →
  (view pt s v = None → Q None s) → (∀ a, at_slot role v a → Q (Some a) s) →
  wp (walk_mut pt v) Q s.
Proof.
  intros Hok HN HS. destruct (indices_ok v) as [Hix Hl].
  destruct (walk_loop_run (indices v) 0 (root pt) s) as (r & Hr & Htr); [lia|done|].
  unfold walk_mut, walk_ptr. eapply wp_of_run; [exact Hr|]. destruct r as [a|]; [|by apply HN].
  apply HS. pose proof (proj2 (pt_root _ _ _ _ Hok (root pt)) eq_refl) as Hroot.
  destruct (walk_loop_slot n role pt s (indices v) Hok (root pt) [] a s) as (q & pb & i & ?); [done|simpl; lia|done|exact Hr|].
  by exists q, pb, i.
Qed.

(** ** The operations *)

Lemma PageTable_new_spec n s (Q : option PageTable → S → Prop) :
  0 ≤ n ≤ 512 → fa_inv s → (fa_avail s = 0 → Q None s) →
  (∀ pt s', pt_low n pt s' → (∀ v, view pt s' v = None) → fresh_page s s' (root pt) →
     table_pages pt = [root pt] →
     (∀ i, index_ok i → ent (fa_mem s') (root pt) i = 0) → Q (Some pt) s') →
  wp PageTable_new Q s.
Proof.
  intros Hn Hinv HN HS. unfold PageTable_new. apply wp_bind. apply wp_frame_alloc0; [done|intros; apply wp_ret; by apply HN|].
  intros f s1 Hf. apply wp_ret. simpl.
  assert (Hu : fa_used s1 f) by (apply (fp_used _ _ _ Hf); by right).
  pose proof (fa_used_range s1 f (fp_inv _ _ _ Hf) Hu) as Hr.
  assert (Hz : ∀ i, index_ok i → ent (fa_mem s1) f i = 0) by (intros; apply ent_zero; [done..|apply Hf]).
  apply HS; [|intros v; apply tr_zero; [done|apply Hf|apply indices_ok]|done|done|done].
  set (role := λ p : Z, if decide (p = f) then Some (@nil Z) else None).
  assert (Hrole : ∀ p pa, role p = Some pa ↔ p = f ∧ pa = []).
  { intros p pa. unfold role. case_decide; naive_solver. }
  exists role. split; [constructor|split]; simpl.
  - apply Hf.
  - done.
  - intros p. rewrite Hrole. naive_solver.
  - intros p pa [-> ->]%Hrole. rewrite list_elem_of_singleton. done.
  - intros p ->%list_elem_of_singleton. exists []. by apply Hrole.
  - intros fr ->%list_elem_of_singleton. done.
  - apply NoDup_singleton.
  - by intros p pa [-> ->]%Hrole.
  - intros p pa [-> ->]%Hrole. simpl. lia.
  - intros p pa i [-> ->]%Hrole _ Hi. by rewrite Hz.
  - intros p pa i [_ Happ]%Hrole. by destruct pa.
  - intros p pa i [-> ->]%Hrole _ Hi _. by rewrite Hz.
  - intros p pa [-> ->]%Hrole. by intros [].
Qed.

Lemma pt_low_pages role pt s p pa :
  pt_ok 256 role pt s → (∀ p pa, role p = Some pa → ¬ upper pa) → role p = Some pa → p ∈ table_pages pt.
Proof.
  intros Hok Hlow Hp. apply (pt_frames _ _ _ _ Hok p pa Hp). pose proof (Hlow p pa Hp).
  destruct pa; simpl in *; [done|lia].
Qed.

Lemma pt_low_wf K pt s : pt_low 256 pt s → pt_wf 256 K pt s.
Proof.
  intros (role & Hok & Hfl & Hlow). exists role. split_and!; [done..|]. intros p pa Hp. left.
  by eapply pt_low_pages.
Qed.

Lemma pt_low_kernel pt s : pt_low 512 pt s → pt_kernel pt s.
Proof. intros (role & ? & _). by exists role. Qed.

(** Nothing about a table depends on pages that are not its tables. *)
Lemma pt_low_stable n pt s s' :
  pt_low n pt s → fa_inv s' →
  (∀ q, fa_used s q → fa_used s' q ∧ agree (page q) (fa_mem s) (fa_mem s')) →
  pt_low n pt s' ∧ ∀ v, view pt s' v = view pt s v.
Proof.
  intros (role & Hok & Hfl & Hlow) Hinv Hst.
  destruct (pt_ok_stable n role pt s s' Hok Hinv) as [Hok' Htr].
  { intros p pa Hp. apply Hst. exact (pt_used _ _ _ _ Hok p pa Hp). }
  split.
  - exists role. split_and!; [done| |done]. intros p pa i Hp Hpa Hi Ho.
    rewrite (ent_agree (fa_mem s)); [by apply (Hfl p pa)|by eapply pt_page|done|].
    apply Hst. exact (pt_used _ _ _ _ Hok p pa Hp).
  - intros v. destruct (indices_ok v). by apply Htr.
Qed.

Lemma map_spec n K pt s v p f :
  pt_wf n K pt s → owned n (indices v) → 0 ≤ p < 2 ^ 44 → 0 ≤ f < 1024 →
  wp (map pt v p f) (λ '(r, pt') s',
    pt_wf n K pt' s' ∧ only_tables pt s pt' s' ∧
    fa_avail s' + table_frames pt' = fa_avail s + table_frames pt ∧
    match r with
    | Ok _ => view pt s v = None ∧ fa_avail s - 2 ≤ fa_avail s' ∧
        ∀ v', view pt' s' v' = if decide (indices v' = indices v)
                               then Some (Pte_new p (leaf_flags f)) else view pt s v'
    | Err AlreadyMapped => is_Some (view pt s v) ∧ ∀ v', view pt' s' v' = view pt s v'
    | Err OutOfMemory => view pt s v = None ∧ fa_avail s < 2 ∧ fa_avail s' = 0 ∧ ∀ v', view pt' s' v' = view pt s v'
    | Err NotMapped => False
    end) s.
Proof.
  intros (role & Hok & Hfl & Hdom) Hown Hp Hf. destruct (indices_ok v) as [Hix Hl].
  pose proof (proj2 (pt_root _ _ _ _ Hok (root pt)) eq_refl) as Hroot.
  unfold map, map_at_level, walk_create_to. wp_step. eapply wp_lift; [done|]. wp_step.
  eapply wp_mono; [|apply (walk_create_spec n (indices v) [] (root pt) 2 pt s role); try done; [lia|]].
  2: { apply (flat_clear n role pt s _ Hok Hfl 2 []); [done|simpl; lia|done..]. }
  intros [r pt1] s1 (role1 & Hg & _ & Hr). pose proof (gr_ok _ _ _ _ _ _ _ Hg) as Hok1.
  assert (Hwf1 : ∀ s2, pt_ok n role1 pt1 s2 → flat n role1 s2 → pt_wf n K pt1 s2).
  { intros s2 Hok2 Hfl2. exists role1. split_and!; [done..|].
    intros q pa [[Hq|Hq]%Hdom|Hq]%(gr_dom _ _ _ _ _ _ _ Hg); [|by right|by left].
    left. by apply (gr_sub _ _ _ _ _ _ _ Hg). }
  pose proof (gr_flat _ _ _ _ _ _ _ Hg Hfl) as Hfl1. pose proof (λ v', grown_view _ _ _ _ _ _ _ v' Hg) as Hvw.
  pose proof (gr_avail _ _ _ _ _ _ _ Hg) as Hav.
  destruct r as [a|].
  2: { apply wp_ret. destruct Hr as (Hz & Hfew & Htr). split_and!; [by apply Hwf1|by eapply grown_only|done|exact Htr|lia|done|done]. }
  destruct Hr as [Hfew Hr].
  assert (Hat : at_slot role1 v a).
  { destruct Hr as (q & i & Hq & Hi & ->). simpl in Hq. exists q, (take 2 (indices v)), i. split_and!; [done| |by eapply Forall_lookup_1|done].
    rewrite <- (take_drop_middle (indices v) 2 i Hi) at 1. f_equal. }
  wp_step. apply wp_read64. pose proof (slot_read n role1 pt1 s1 v a Hok1 Hat) as Hrd. rewrite Hvw in Hrd.
  unfold filter_valid in Hrd. destruct (is_valid (load64 (fa_mem s1) a)).
  { apply wp_ret. split_and!; [by apply Hwf1|by eapply grown_only|done|rewrite <- Hrd; by eexists|done]. }
  wp_step. apply wp_update_mem. apply wp_ret.
  pose proof (leaf_flags_range f Hf) as Hlf.
  destruct (slot_write n role1 pt1 s1 v a (Pte_new p (leaf_flags f)) Hok1 Hfl1 Hat Hown) as (Hok2 & Hfl2 & Hot2 & Hv2);
    [by apply Pte_new_range|].
  pose proof (grown_only _ _ _ _ _ _ _ Hg) as Hot1.
  split_and!; [by apply Hwf1|by eapply only_tables_trans|by rewrite fa_avail_set|done|rewrite fa_avail_set; lia|].
  intros v'. rewrite Hv2. unfold filter_valid. rewrite is_valid_leaf by done. by rewrite Hvw.
Qed.

Lemma unmap_spec n K pt s v :
  pt_wf n K pt s → owned n (indices v) →
  wp (unmap pt v) (λ r s',
    match r, view pt s v with
    | Ok p, Some e => p = Pte_ppn e ∧ pt_wf n K pt s' ∧ only_tables pt s pt s' ∧
        ∀ v', view pt s' v' = if decide (indices v' = indices v) then None else view pt s v'
    | Err NotMapped, None => s' = s
    | _, _ => False
    end) s.
Proof.
  intros (role & Hok & Hfl & Hdom) Hown. unfold unmap. wp_step.
  apply (wp_walk_mut n role); [done|intros Hv; apply wp_ret; by rewrite Hv|]. intros a Hat.
  wp_step. apply wp_read64. pose proof (slot_read n role pt s v a Hok Hat) as Hrd. unfold filter_valid in Hrd.
  destruct (is_valid (load64 (fa_mem s) a)); cbn [negb]; [|apply wp_ret; by rewrite <- Hrd].
  wp_step. apply wp_update_mem. apply wp_ret. rewrite <- Hrd.
  destruct (slot_write n role pt s v a Pte_EMPTY Hok Hfl Hat Hown ltac:(done)) as (Hok2 & Hfl2 & Hot2 & Hv2).
  split_and!; try done. by exists role.
Qed.

Lemma protect_spec n K pt s v f :
  pt_wf n K pt s → owned n (indices v) → 0 ≤ f < 1024 →
  wp (protect pt v f) (λ r s',
    match r, view pt s v with
    | Ok _, Some e => pt_wf n K pt s' ∧ only_tables pt s pt s' ∧
        ∀ v', view pt s' v' = if decide (indices v' = indices v)
                              then Some (set_flags e (leaf_flags f)) else view pt s v'
    | Err NotMapped, None => s' = s
    | _, _ => False
    end) s.
Proof.
  intros (role & Hok & Hfl & Hdom) Hown Hf. unfold protect. wp_step.
  apply (wp_walk_mut n role); [done|intros Hv; apply wp_ret; by rewrite Hv|]. intros a Hat.
  wp_step. apply wp_read64. pose proof (slot_read n role pt s v a Hok Hat) as Hrd. unfold filter_valid in Hrd.
  set (e := load64 (fa_mem s) a) in *. assert (He : 0 ≤ e < U64) by apply load64_range.
  destruct (is_valid e) eqn:Hval; cbn [negb]; [|apply wp_ret; by rewrite <- Hrd].
  wp_step. apply wp_update_mem. apply wp_ret. rewrite <- Hrd.
  pose proof (leaf_flags_range f Hf) as Hlf.
  destruct (slot_write n role pt s v a (set_flags e (leaf_flags f)) Hok Hfl Hat Hown) as (Hok2 & Hfl2 & Hot2 & Hv2);
    [by apply set_flags_range|].
  split_and!; [by exists role|done|]. intros v'. rewrite Hv2. unfold filter_valid.
  rewrite is_valid_odd, set_flags_eq, Z.odd_add, leaf_flags_valid by done.
  replace (Z.odd (e - e `mod` 1024)) with false; [done|].
  rewrite Zodd_mod. symmetry. apply Z.eqb_neq. Z.div_mod_to_equations. lia.
Qed.

Lemma pt_wf_stable n K pt s s' :
  pt_wf n K pt s → fa_inv s' →
  (∀ q, q ∈ table_pages pt ∨ K q → fa_used s q → fa_used s' q ∧ agree (page q) (fa_mem s) (fa_mem s')) →
  pt_wf n K pt s' ∧ ∀ v, view pt s' v = view pt s v.
Proof.
  intros (role & Hok & Hfl & Hdom) Hinv Hst.
  assert (Hst' : ∀ p pa, role p = Some pa → fa_used s' p ∧ agree (page p) (fa_mem s) (fa_mem s')).
  { intros p pa Hp. apply Hst; [by eapply Hdom|]. exact (pt_used _ _ _ _ Hok p pa Hp). }
  destruct (pt_ok_stable n role pt s s' Hok Hinv Hst') as [Hok' Htr]. split.
  - exists role. split_and!; [done| |done]. intros p pa i Hp Hpa Hi Ho.
    rewrite (ent_agree (fa_mem s)); [by apply (Hfl p pa)|by eapply pt_page|done|by eapply Hst'].
  - intros v. destruct (indices_ok v). by apply Htr.
Qed.

Lemma pt_wf_pages n K pt s q : pt_wf n K pt s → q ∈ table_pages pt → fa_used s q.
Proof. intros (role & Hok & _) Hq. by eapply pt_frame_used. Qed.

Lemma pt_wf_inv n K pt s : pt_wf n K pt s → fa_inv s.
Proof. intros (role & Hok & _). apply Hok. Qed.

(** Releasing the frames of a table. *)
Lemma drop_frames_spec l s :
  fa_inv s → NoDup (f_ppn <$> l) → (∀ f, f ∈ l → f_order f = 0 ∧ fa_used s (f_ppn f)) →
  wp (drop_frames l) (λ _ s', fa_inv s' ∧
    (∀ q, fa_used s' q ↔ fa_used s q ∧ q ∉ f_ppn <$> l) ∧
    (∀ q, fa_used s' q → agree (page q) (fa_mem s) (fa_mem s'))) s.
Proof.
  revert s. induction l as [|f l IH]; intros s Hinv Hnd Hall; cbn [drop_frames].
  { apply wp_ret. split_and!; [done|set_solver|done]. }
  rewrite fmap_cons in *. apply NoDup_cons in Hnd as [Hf Hnd].
  destruct (Hall f (list_elem_of_here f l)) as [Ho Hu]. wp_step. unfold frame_drop. rewrite Ho.
  eapply wp_mono; [|apply fa_free_ok; [done|lia|apply Z.divide_1_l|]].
  2: { change (2 ^ 0) with 1. intros q Hq. by assert (q = f_ppn f) as -> by lia. }
  change (2 ^ 0) with 1. cbv beta. intros _ s1 (Hinv1 & Hus1 & Hag1).
  eapply wp_mono; [|apply IH; [done..|]].
  - cbv beta. intros _ s2 (Hinv2 & Hus2 & Hag2). split_and!; [done| |].
    + intros q. rewrite Hus2, Hus1, not_elem_of_cons.
      assert (¬ f_ppn f ≤ q < f_ppn f + 1 ↔ q ≠ f_ppn f) by lia. tauto.
    + intros q Hq. etransitivity; [apply Hag1; by apply Hus2 in Hq as [? _]|by apply Hag2].
  - intros f' Hf'. destruct (Hall f' (list_elem_of_further f' f l Hf')) as [? ?]. split; [done|]. apply Hus1. split; [done|].
    intros Heq. apply Hf. replace (f_ppn f) with (f_ppn f') by lia. by apply list_elem_of_fmap_2.
Qed.

Lemma PageTable_drop_spec n K pt s :
  pt_wf n K pt s →
  wp (PageTable_drop pt) (λ _ s', fa_inv s' ∧
    (∀ q, fa_used s' q ↔ fa_used s q ∧ q ∉ table_pages pt) ∧
    (∀ q, fa_used s' q → agree (page q) (fa_mem s) (fa_mem s'))) s.
Proof.
  intros (role & Hok & _). apply drop_frames_spec; [apply Hok..|]. intros f Hf.
  split; [by apply (pt_orders _ _ _ _ Hok)|]. eapply pt_frame_used; [done|]. by apply list_elem_of_fmap_2.
Qed.

(** ** Sharing the kernel half *)

Lemma load64_copy m src dst n d :
  0 ≤ d → d + 8 ≤ n → load64 (copy m src dst n) (dst + d) = load64 m (src + d).
Proof.
  intros Hd Hn. unfold load64. f_equal. unfold load_bytes. apply map_ext_in. intros j Hj%in_seq.
  unfold copy. case_bool; simpl; try lia. f_equal. lia.
Qed.

Lemma ent_copy m k r i t j :
  0 ≤ k < 2 ^ 26 → 0 ≤ r < 2 ^ 26 → 0 ≤ t < 2 ^ 26 → index_ok j → index_ok i →
  ent (copy m (as_ptr k + 8 * i) (as_ptr r + 8 * i) (8 * (512 - i))) t j =
    if decide (t = r ∧ i ≤ j) then ent m k j else ent m t j.
Proof.
  intros Hk Hr Ht Hj Hi. unfold ent, index_ok in *. rewrite !as_ptr_eq by done. case_decide as Hd.
  - destruct Hd as [-> Hij].
    replace (r * PAGE_SIZE + VIRT_OFFSET + 8 * j) with (r * PAGE_SIZE + VIRT_OFFSET + 8 * i + 8 * (j - i)) by lia.
    rewrite load64_copy by lia. f_equal. lia.
  - apply load64_ext. intros a Ha. unfold copy, span, PAGE_SIZE in *. case_bool; simpl; done || lia.
Qed.

(** Root entries [256..512] cover the upper half of the address space. *)
#[local] Instance upper_dec pa : Decision (upper pa).
Proof. destruct pa; apply _. Qed.

Definition joined role krole : Z → option (list Z) := λ p,
  match krole p with
  | Some pa => if decide (upper pa) then Some pa else role p
  | None => role p
  end.

Lemma joined_cases role krole p pa :
  (∀ q, is_Some (role q) → krole q = None) →
  joined role krole p = Some pa ↔ (krole p = Some pa ∧ upper pa) ∨ role p = Some pa.
Proof.
  intros Hdis. specialize (Hdis p). unfold joined. destruct (krole p) as [pb|]; [|naive_solver].
  assert (role p = None) as -> by (destruct (role p) as [x|]; [specialize (Hdis (ex_intro _ x eq_refl))|]; done).
  case_decide; naive_solver.
Qed.

Section share.
Context (role krole : Z → option (list Z)) (pt kpt : PageTable) (s : S).
Context (Hok : pt_ok 256 role pt s) (Hkok : pt_ok 512 krole kpt s)
  (Hlow : ∀ p pa, role p = Some pa → ¬ upper pa)
  (Hdis : ∀ q, is_Some (role q) → krole q = None).

Abbreviation s2 := (fa_set_mem (copy (fa_mem s) (as_ptr (root kpt) + 8 * 256) (as_ptr (root pt) + 8 * 256) (8 * 256)) s).

Lemma share_roots : role (root pt) = Some [] ∧ krole (root kpt) = Some [] ∧
  0 ≤ root pt < 2 ^ 26 ∧ 0 ≤ root kpt < 2 ^ 26.
Proof.
  pose proof (proj2 (pt_root _ _ _ _ Hok _) eq_refl) as Hr.
  pose proof (proj2 (pt_root _ _ _ _ Hkok _) eq_refl) as Hkr.
  split; [done|]. split; [done|]. split; [apply (pt_page 256 role pt s _ [] Hok Hr)|apply (pt_page 512 krole kpt s _ [] Hkok Hkr)].
Qed.

Lemma share_ent t j : 0 ≤ t < 2 ^ 26 → index_ok j →
  ent (fa_mem s2) t j = if decide (t = root pt ∧ 256 ≤ j) then ent (fa_mem s) (root kpt) j else ent (fa_mem s) t j.
Proof.
  destruct share_roots as (_ & _ & Hr & Hkr). intros Ht Hj. rewrite fa_mem_set.
  by apply (ent_copy (fa_mem s) (root kpt) (root pt) 256 t j).
Qed.

Lemma share_write : fa_inv s2 ∧ (∀ q, fa_used s2 q ↔ fa_used s q) ∧
  (∀ q, q ≠ root pt → agree (page q) (fa_mem s) (fa_mem s2)).
Proof.
  destruct share_roots as (Hrole & _ & Hr & Hkr).
  assert (Hin : ∀ a, span (as_ptr (root pt) + 8 * 256) (8 * 256) a → page (root pt) a).
  { intros a. rewrite as_ptr_eq by done. unfold page, page_base, span, PAGE_SIZE. lia. }
  assert (Hc : ∀ a, ¬ page (root pt) a → fa_mem s2 a = fa_mem s a).
  { intros a Ha. rewrite fa_mem_set. unfold copy. specialize (Hin a). unfold span in Hin.
    case_bool; simpl; try done. exfalso. apply Ha, Hin. lia. }
  destruct (fa_write_ok s (fa_mem s2) (pt_inv _ _ _ _ Hok)) as [Hi Hu].
  { intros a Hne. exists (root pt). split; [exact (pt_used _ _ _ _ Hok _ _ Hrole)|].
    destruct (decide (page (root pt) a)) as [|Hp]; [done|]. exfalso. by apply Hne, Hc. }
  rewrite fa_mem_set in Hi, Hu. split_and!; [done|done|].
  intros q Hq a Ha. apply Hc. intros Ha'. apply Hq. by eapply page_disjoint.
Qed.

Lemma share_child p pa i : joined role krole p = Some pa → (length pa < 2)%nat → index_ok i →
  interior (ent (fa_mem s2) p i) = true →
  joined role krole (Pte_ppn (ent (fa_mem s2) p i)) = Some (pa ++ [i]).
Proof.
  destruct share_roots as (Hr & Hkr & _). intros [[Hp Hup]|Hp]%joined_cases Hpa Hi Hin; [..|done].
  - rewrite share_ent in * by (done || by eapply (pt_page 512)).
    rewrite decide_False in *; [|intros [-> _]; rewrite (Hdis (root pt)) in Hp by eauto; done..].
    apply joined_cases; [done|]. left. split; [by apply (pt_child _ _ _ _ Hkok)|]. by destruct pa.
  - rewrite share_ent in * by (done || by eapply (pt_page 256)). case_decide as Hd.
    + destruct Hd as [-> Hge]. rewrite Hr in Hp. injection Hp as <-.
      apply joined_cases; [done|]. left. split; [|done].
      apply (pt_child _ _ _ _ Hkok (root kpt) []); [done|simpl; lia|done..].
    + apply joined_cases; [done|]. right. by apply (pt_child _ _ _ _ Hok).
Qed.

Lemma share_parent p pa i : joined role krole p = Some (pa ++ [i]) →
  index_ok i ∧ ∃ t, joined role krole t = Some pa ∧ interior (ent (fa_mem s2) t i) = true ∧
                    Pte_ppn (ent (fa_mem s2) t i) = p.
Proof.
  destruct share_roots as (Hr & Hkr & Hrr & _). intros [[Hp Hup]|Hp]%joined_cases; [..|done].
  - destruct (pt_parent _ _ _ _ Hkok _ _ _ Hp) as (Hi & t & Ht & Hint & He). split; [done|].
    destruct pa as [|i0 pa].
    + apply (pt_root _ _ _ _ Hkok) in Ht as ->. exists (root pt).
      rewrite joined_cases, share_ent, decide_True by done. split; [by right|done].
    + exists t. rewrite joined_cases, share_ent by (done || by eapply (pt_page 512)).
      split; [by left|]. rewrite decide_False; [done|]. intros [-> _].
      rewrite (Hdis (root pt)) in Ht by eauto. done.
  - destruct (pt_parent _ _ _ _ Hok _ _ _ Hp) as (Hi & t & Ht & Hint & He). split; [done|].
    exists t. rewrite joined_cases, share_ent by (done || by eapply (pt_page 256)).
    split; [by right|]. rewrite decide_False; [done|]. intros [-> Hge].
    rewrite Hr in Ht. injection Ht as <-. apply (Hlow _ _ Hp). done.
Qed.

Lemma share_ok : pt_ok 256 (joined role krole) pt s2.
Proof.
  destruct share_write as (Hi & Hu & _). constructor.
  - done.
  - lia.
  - intros p. rewrite joined_cases by done. rewrite (pt_root _ _ _ _ Hok). split; [intros [[_ []]|?]; done|by right].
  - intros p pa [[Hp Hup]|Hp]%joined_cases; [..|done].
    + destruct pa as [|i pa]; [done|]. simpl in *. split; [|lia].
      intros Hin%(pt_total _ _ _ _ Hok). by rewrite (Hdis p Hin) in Hp.
    + by apply (pt_frames _ _ _ _ Hok).
  - intros p [pa Hp]%(pt_total _ _ _ _ Hok). exists pa. apply joined_cases; [done|]. by right.
  - apply Hok.
  - apply Hok.
  - intros p pa [[Hp _]|Hp]%joined_cases; [..|done]; apply Hu.
    + exact (pt_used _ _ _ _ Hkok _ _ Hp).
    + exact (pt_used _ _ _ _ Hok _ _ Hp).
  - intros p pa [[Hp _]|Hp]%joined_cases; [..|done].
    + exact (pt_depth _ _ _ _ Hkok _ _ Hp).
    + exact (pt_depth _ _ _ _ Hok _ _ Hp).
  - exact share_child.
  - exact share_parent.
Qed.

Lemma share_flat : flat 256 role s → flat 256 (joined role krole) s2.
Proof.
  destruct share_roots as (Hr & _). intros Hfl p pa i [[Hp Hup]|Hp]%joined_cases Hpa Hi Hown; [..|done].
  - exfalso. destruct pa; simpl in *; lia.
  - rewrite share_ent by (done || by eapply (pt_page 256)). case_decide as Hd; [|by apply (Hfl p pa)].
    exfalso. destruct Hd as [-> Hge]. rewrite Hr in Hp. injection Hp as <-. simpl in Hown. lia.
Qed.

Lemma share_sub r n pt0 l :
  pt_ok n r pt0 s → (∀ q pa, r q = Some pa → pa ≠ [] → q ≠ root pt) → Forall index_ok l →
  ∀ p pa, r p = Some pa → pa ≠ [] → (length pa + length l = 3)%nat →
  tr (fa_mem s2) l p = tr (fa_mem s) l p.
Proof.
  intros Hrok Hne Hix. destruct share_write as (_ & _ & Hag).
  induction l as [|i0 l IH]; intros p pa Hp Hpa Hlen; [done|]. apply Forall_cons in Hix as [Hi0 Hl0].
  assert (He : ent (fa_mem s2) p i0 = ent (fa_mem s) p i0).
  { apply ent_agree; [by apply (pt_page n r pt0 s _ pa)|done|]. by eapply Hag, Hne. }
  destruct l as [|i1 l]; cbn [tr]; rewrite He; [done|].
  destruct (interior (ent (fa_mem s) p i0)) eqn:Hint; [|done].
  apply (IH Hl0 _ (pa ++ [i0])); [|by destruct pa|rewrite length_app; simpl in *; lia].
  apply (pt_child _ _ _ _ Hrok); [done|simpl in *; lia|done..].
Qed.

Lemma share_kernel : pt_ok 512 krole kpt s2.
Proof.
  destruct share_write as (Hi & Hu & Hag). destruct share_roots as (Hr & _).
  apply (pt_ok_stable 512 krole kpt s); [done..|]. intros p pa Hp.
  split; [apply Hu; exact (pt_used _ _ _ _ Hkok _ _ Hp)|]. apply Hag. intros ->.
  by rewrite (Hdis (root pt)) in Hp by eauto.
Qed.

(** Afterwards the upper half translates as the kernel's table does. *)
Lemma share_view v :
  view pt s2 v = if decide (256 ≤ nth 0 (indices v) 0) then view kpt s v else view pt s v.
Proof.
  destruct share_roots as (Hr & Hkr & Hrr & Hkrr). destruct share_write as (Hinv & Hu & Hag).
  destruct (indices_ok v) as [Hix Hl]. unfold view.
  destruct (indices v) as [|i [|j rest]] eqn:Hv; [done|done|]. apply Forall_cons in Hix as [Hi Hrest].
  simpl nth. cbn [tr]. rewrite share_ent by done. simpl in Hl.
  destruct (decide (256 ≤ i)) as [Hge|Hlt].
  - rewrite decide_True by done. destruct (interior (ent (fa_mem s) (root kpt) i)) eqn:Hint; [|done].
    apply (share_sub krole 512 kpt (j :: rest) Hkok) with (pa := [i]); [|done|by apply (pt_child _ _ _ _ Hkok (root kpt) []); [|simpl; lia|..]|done|simpl in *; lia].
    intros q pa Hq _ ->. by rewrite (Hdis (root pt)) in Hq by eauto.
  - rewrite decide_False by tauto. destruct (interior (ent (fa_mem s) (root pt) i)) eqn:Hint; [|done].
    apply (share_sub role 256 pt (j :: rest) Hok) with (pa := [i]); [|done|by apply (pt_child _ _ _ _ Hok (root pt) []); [|simpl; lia|..]|done|simpl in *; lia].
    intros q pa Hq Hpa ->. rewrite Hr in Hq. by injection Hq as <-.
Qed.
End share.

Lemma pt_path n role pt s p pa : pt_ok n role pt s → role p = Some pa → Forall index_ok pa.
Proof.
  intros Hok. revert p. induction pa as [|i pa IH] using rev_ind; intros p Hp; [done|].
  destruct (pt_parent _ _ _ _ Hok _ _ _ Hp) as (Hi & t & Ht & _). apply Forall_app. split; [by eapply IH|].
  by constructor.
Qed.

Lemma share_upper_half_spec pt kpt s :
  pt_low 256 pt s → pt_kernel kpt s → (∀ q, q ∈ table_pages pt → q ∉ table_pages kpt) →
  wp (share_upper_half pt kpt) (λ _ s',
    pt_wf 256 (λ q, q ∈ table_pages kpt) pt s' ∧ pt_kernel kpt s' ∧ only_tables pt s pt s' ∧
    (∀ v, view pt s' v = if decide (256 ≤ nth 0 (indices v) 0) then view kpt s v else view pt s v) ∧
    (∀ v, view kpt s' v = view kpt s v)) s.
Proof.
  intros (role & Hok & Hfl & Hlow) (krole & Hkok) Hdis. unfold share_upper_half. apply wp_update_mem.
  assert (Hin : ∀ p pa, role p = Some pa → p ∈ table_pages pt) by (intros; by eapply pt_low_pages).
  assert (Hkin : ∀ p pa, krole p = Some pa → p ∈ table_pages kpt).
  { intros q pb Hk. apply (pt_frames _ _ _ _ Hkok q pb Hk). pose proof (pt_path _ _ _ _ _ _ Hkok Hk) as Hpb.
    destruct pb as [|i pb]; [done|]. apply Forall_cons in Hpb as [Hi _]. simpl. unfold index_ok in Hi. lia. }
  assert (Hd : ∀ q, is_Some (role q) → krole q = None).
  { intros q [pa Hq]. destruct (krole q) as [pb|] eqn:Hk; [|done].
    exfalso. apply (Hdis q); [by eapply Hin|by eapply Hkin]. }
  destruct (share_write role krole pt kpt s Hok Hkok) as (Hi & Hu & Hag).
  split_and!.
  - exists (joined role krole). split_and!; [by apply share_ok|by apply share_flat|].
    intros p pa [[Hp _]|Hp]%joined_cases; [right; by eapply Hkin|left; by eapply Hin|done].
  - exists krole. by apply (share_kernel role krole).
  - constructor; try done; [by left| |].
    + intros q. rewrite Hu. split; [by left|]. intros [?|?]; [done|]. by apply (pt_frame_used 256 role pt).
    + intros q _ Hq. apply Hag. intros ->. apply Hq. eapply Hin. by apply (pt_root _ _ _ _ Hok).
  - intros v. by apply (share_view role krole).
  - intros v. destruct (indices_ok v) as [Hix Hl].
    apply (pt_ok_stable 512 krole kpt s); [done|done| |done..]. intros p pa Hp.
    split; [apply Hu; exact (pt_used _ _ _ _ Hkok _ _ Hp)|]. apply Hag. intros ->.
    rewrite (Hd (root pt)) in Hp; [done|]. exists []. by apply (pt_root _ _ _ _ Hok).
Qed.
End ops.
