(* ===== verification/PageTableProps.v ===== *)
(** * Theorems about page tables

    The abstract map a table denotes ([view]) under every operation of
    page_table.rs, over any frame allocator that satisfies the interface. *)
From stdpp Require Import base numbers functions sets list.
From Stdlib Require Import Lia.
From S2P Require Frame.
From S2P Require Import Prelude Memory Config Addr FrameIface FrameProps.
From S2P Require Import PageTable PageTableInv PageTableWalk PageTableOps.

(** A table built on the booted machine, for the witnesses. *)
Definition run_or {S A} (o : outcome (A * S)) (a : A) (s : S) : A * S :=
  match o with Ret r => r | Panic => (a, s) end.
Definition demo_start : option PageTable * Frame.PhysMem :=
  run_or (PageTable_new boot_state) None boot_state.
Definition demo_pt : PageTable := default (mkPT 0 []) demo_start.1.
Definition demo_s : Frame.PhysMem := demo_start.2.

Lemma demo_low : pt_low 256 demo_pt demo_s ∧ (∀ v, view demo_pt demo_s v = None).
Proof.
  assert (Hsome : match PageTable_new boot_state with Ret (Some _, _) => true | _ => false end = true)
    by (vm_compute; reflexivity).
  pose proof (PageTable_new_spec 256 boot_state
    (λ r s, match r with Some pt => pt_low 256 pt s ∧ ∀ v, view pt s v = None | None => True end)) as Hw.
  unfold demo_pt, demo_s, demo_start. unfold wp in Hw.
  destruct (PageTable_new boot_state) as [[[pt|] s]|]; [|done..]. simpl.
  apply Hw; [lia|exact boot_frame_inv|done|]. intros pt' s' Hl Hv _ _ _. done.
Qed.
Lemma demo_frames_left : 2 ≤ fa_avail demo_s.
Proof. apply Z.leb_le. vm_compute. reflexivity. Qed.
#[global] Opaque demo_start.

Section theorems.
Context {S : Type} `{FrameAllocator S, !FrameAllocatorLaws S}.


(** removing a mapping returns the frame the page was mapped to and makes
    that page, and no other, unmapped; an unmapped page is an error that
    changes nothing. *)
Theorem unmap_correct n K pt (s : S) v :
  pt_wf n K pt s → owned n (indices v) →
  ∃ r s', unmap pt v s = Ret (r, s') ∧
    match r, view pt s v with
    | Ok p, Some e => p = Pte_ppn e ∧ pt_wf n K pt s' ∧ only_tables pt s pt s' ∧
        ∀ v', view pt s' v' = if decide (indices v' = indices v) then None else view pt s v'
    | Err NotMapped, None => s' = s
    | _, _ => False
    end.
Proof.
  intros Hwf Hown. destruct (wp_run _ _ _ (unmap_spec n K pt s v Hwf Hown)) as (r & s' & Hr).
  by exists r, s'.
Qed.

(** changing permissions keeps the frame: afterwards the page translates
    to the same frame with exactly the new flags plus VALID, ACCESSED and
    DIRTY, and every other translation is unchanged. *)
Theorem protect_correct n K pt (s : S) v f e :
  pt_wf n K pt s → owned n (indices v) → 0 ≤ f < 1024 → view pt s v = Some e →
  ∃ e' s', protect pt v f s = Ret (Ok tt, s') ∧ pt_wf n K pt s' ∧
    Pte_ppn e' = Pte_ppn e ∧ Pte_flags e' = leaf_flags f ∧
    ∀ v', view pt s' v' = if decide (indices v' = indices v) then Some e' else view pt s v'.
Proof.
  intros Hwf Hown Hf Hv. pose proof (proj1 (tr_range _ _ _ _ Hv)) as He.
  destruct (wp_run _ _ _ (protect_spec n K pt s v f Hwf Hown Hf)) as (r & s' & Hr & Hpost).
  rewrite Hv in Hpost. destruct r as [[]|[]]; try done. destruct Hpost as (Hwf' & _ & Hview).
  pose proof (leaf_flags_range f Hf). exists (set_flags e (leaf_flags f)), s'.
  split_and!; try done; [by apply set_flags_ppn|by apply set_flags_flags].
Qed.

(** [map] then [unmap] of the same page returns the frame that was mapped
    and restores every translation. *)
Theorem map_unmap_roundtrip n K pt (s : S) v p f pt1 s1 :
  pt_wf n K pt s → owned n (indices v) → 0 ≤ p < 2 ^ 44 → 0 ≤ f < 1024 →
  map pt v p f s = Ret ((Ok tt, pt1), s1) →
  ∃ s2, unmap pt1 v s1 = Ret (Ok p, s2) ∧ ∀ v', view pt1 s2 v' = view pt s v'.
Proof.
  intros Hwf Hown Hp Hf Hm. pose proof (map_spec n K pt s v p f Hwf Hown Hp Hf) as Hs.
  unfold wp in Hs. rewrite Hm in Hs. destruct Hs as (Hwf1 & _ & _ & Hnone & _ & Hv1).
  destruct (wp_run _ _ _ (unmap_spec n K pt1 s1 v Hwf1 Hown)) as (r & s2 & Hr & Hpost).
  rewrite Hv1, decide_True in Hpost by done. pose proof (leaf_flags_range f Hf).
  destruct r as [p'|[]]; try done. destruct Hpost as (-> & _ & _ & Hv2).
  exists s2. rewrite Hr, Pte_new_ppn by done. split; [done|]. intros v'. rewrite Hv2, Hv1.
  case_decide as Hd; [|done]. unfold view in *. by rewrite Hd.
Qed.

(** sharing the kernel half into a fresh user table: every upper-half page
    then translates exactly as in the kernel's table, the lower half is
    unchanged, and the kernel's table and its translations are untouched. *)
Theorem share_upper_half_correct pt kpt (s : S) :
  pt_low 256 pt s → pt_kernel kpt s → (∀ q, q ∈ table_pages pt → q ∉ table_pages kpt) →
  ∃ s', share_upper_half pt kpt s = Ret (tt, s') ∧ pt_wf 256 (λ q, q ∈ table_pages kpt) pt s' ∧ pt_kernel kpt s' ∧
    (∀ v, view pt s' v = if decide (256 ≤ nth 0 (indices v) 0) then view kpt s v else view pt s v) ∧
    (∀ v, view kpt s' v = view kpt s v).
Proof.
  intros Hpt Hk Hd. destruct (wp_run _ _ _ (share_upper_half_spec pt kpt s Hpt Hk Hd)) as ([] & s' & Hr & Hpost).
  exists s'. tauto.
Qed.

(** [translate] is read-only and computes the abstract map; [translate_addr]
    resolves an address of a mapped page to that frame's address plus the same
    page offset. *)
Theorem translate_addr_correct pt (s : S) va :
  translate pt (vpn va) s = Ret (view pt s (vpn va), s) ∧
  translate_addr pt va s =
    Ret (match view pt s (vpn va) with
         | Some e => Some (Pte_ppn e * PAGE_SIZE + va `mod` PAGE_SIZE)
         | None => None
         end, s).
Proof.
  split; [apply translate_run|]. unfold translate_addr, mbind, ST_bind. rewrite translate_run.
  fold (view pt s (vpn va)). destruct (view pt s (vpn va)) as [e|]; [|done].
  assert (Hr : 0 ≤ Pte_ppn e < 2 ^ 44) by (rewrite Pte_ppn_div; apply Z.mod_pos_bound; lia).
  rewrite base_addr_eq, page_offset_mod by lia. unfold PAGE_SIZE in *.
  pose proof (Z.mod_pos_bound va 4096). rewrite u64_add_ok by (unfold U64; lia). done.
Qed.

(** dropping a table returns exactly the frames it owns and touches no page
    that stays in use. *)
Theorem PageTable_drop_correct n K pt (s : S) :
  pt_wf n K pt s →
  ∃ s', PageTable_drop pt s = Ret (tt, s') ∧ fa_inv s' ∧
    (∀ q, fa_used s' q ↔ fa_used s q ∧ q ∉ table_pages pt) ∧
    (∀ q, fa_used s' q → agree (page q) (fa_mem s) (fa_mem s')).
Proof.
  intros Hwf. destruct (wp_run _ _ _ (PageTable_drop_spec n K pt s Hwf)) as ([] & s' & Hr & Hpost).
  by exists s'.
Qed.
End theorems.

(** an entry built from a frame number and flags gives both back, and
    replacing the flags keeps the frame. *)
Theorem pte_roundtrip p f f' :
  0 ≤ p < 2 ^ 44 → 0 ≤ f < 1024 → 0 ≤ f' < 1024 →
  Pte_ppn (Pte_new p f) = p ∧ Pte_flags (Pte_new p f) = f ∧
  Pte_ppn (set_flags (Pte_new p f) f') = p ∧ Pte_flags (set_flags (Pte_new p f) f') = f'.
Proof.
  intros Hp Hf Hf'. pose proof (Pte_new_range p f Hp Hf).
  split_and!; [by apply Pte_new_ppn|by apply Pte_new_flags| |by apply set_flags_flags].
  rewrite set_flags_ppn by done. by apply Pte_new_ppn.
Qed.

(** ** Witnesses *)


(** The demo table after mapping page [0x10]. *)
Definition demo_map : (result MapError unit * PageTable) * Frame.PhysMem :=
  run_or (map demo_pt 0x10 0x80300 Flags.RW demo_s) (Err NotMapped, demo_pt) demo_s.
Definition demo_pt1 : PageTable := demo_map.1.2.
Definition demo_s1 : Frame.PhysMem := demo_map.2.

Lemma demo_map_run : map demo_pt 0x10 0x80300 Flags.RW demo_s = Ret ((Ok tt, demo_pt1), demo_s1).
Proof.
  assert (Hok : match map demo_pt 0x10 0x80300 Flags.RW demo_s with Ret ((Ok _, _), _) => true | _ => false end = true)
    by (vm_compute; reflexivity).
  unfold demo_pt1, demo_s1, demo_map.
  destruct (map demo_pt 0x10 0x80300 Flags.RW demo_s) as [[[[[]|] pt] s]|]; done.
Qed.
#[global] Opaque demo_map.

Lemma demo_map_wf : pt_wf 256 (λ _, False) demo_pt1 demo_s1 ∧ view demo_pt1 demo_s1 0x10 = Some (Pte_new 0x80300 (leaf_flags Flags.RW)).
Proof.
  pose proof (map_spec 256 (λ _, False) demo_pt demo_s 0x10 0x80300 Flags.RW (pt_low_wf _ _ _ (proj1 demo_low))) as Hs.
  unfold wp in Hs. rewrite demo_map_run in Hs.
  destruct Hs as (Hwf & _ & _ & _ & _ & Hv); [done|lia|vm_compute; split; [discriminate|done]|].
  split; [done|]. by rewrite Hv, decide_True.
Qed.

Lemma unmap_correct_witness :
  ∃ r s', unmap demo_pt1 0x10 demo_s1 = Ret (r, s') ∧
    match r, view demo_pt1 demo_s1 0x10 with
    | Ok p, Some e => p = Pte_ppn e ∧ pt_wf 256 (λ _, False) demo_pt1 s' ∧ only_tables demo_pt1 demo_s1 demo_pt1 s' ∧
        ∀ v', view demo_pt1 s' v' = if decide (indices v' = indices 0x10) then None else view demo_pt1 demo_s1 v'
    | Err NotMapped, None => s' = demo_s1
    | _, _ => False
    end.
Proof. apply (unmap_correct 256 (λ _, False) demo_pt1 demo_s1 0x10); [apply demo_map_wf|vm_compute; done]. Defined.

Lemma protect_correct_witness :
  ∃ e' s', protect demo_pt1 0x10 Flags.READ demo_s1 = Ret (Ok tt, s') ∧ pt_wf 256 (λ _, False) demo_pt1 s' ∧
    Pte_ppn e' = Pte_ppn (Pte_new 0x80300 (leaf_flags Flags.RW)) ∧ Pte_flags e' = leaf_flags Flags.READ ∧
    ∀ v', view demo_pt1 s' v' = if decide (indices v' = indices 0x10) then Some e' else view demo_pt1 demo_s1 v'.
Proof.
  apply (protect_correct 256 (λ _, False) demo_pt1 demo_s1 0x10 Flags.READ (Pte_new 0x80300 (leaf_flags Flags.RW)));
    [apply demo_map_wf|vm_compute; done|unfold Flags.READ; lia|apply demo_map_wf].
Defined.

Lemma map_unmap_roundtrip_witness :
  ∃ s2, unmap demo_pt1 0x10 demo_s1 = Ret (Ok 0x80300, s2) ∧ ∀ v', view demo_pt1 s2 v' = view demo_pt demo_s v'.
Proof.
  apply (map_unmap_roundtrip 256 (λ _, False) demo_pt demo_s 0x10 0x80300 Flags.RW demo_pt1 demo_s1);
    [apply pt_low_wf, demo_low|vm_compute; done|lia|vm_compute; split; [discriminate|done]|exact demo_map_run].
Defined.

Lemma PageTable_drop_correct_witness :
  ∃ s', PageTable_drop demo_pt1 demo_s1 = Ret (tt, s') ∧ fa_inv s' ∧
    (∀ q, fa_used s' q ↔ fa_used demo_s1 q ∧ q ∉ table_pages demo_pt1) ∧
    (∀ q, fa_used s' q → agree (page q) (fa_mem demo_s1) (fa_mem s')).
Proof. apply (PageTable_drop_correct 256 (λ _, False) demo_pt1 demo_s1). apply demo_map_wf. Defined.

Lemma translate_addr_correct_witness :
  translate demo_pt1 (vpn 0x10abc) demo_s1 = Ret (view demo_pt1 demo_s1 (vpn 0x10abc), demo_s1) ∧
  translate_addr demo_pt1 0x10abc demo_s1 =
    Ret (match view demo_pt1 demo_s1 (vpn 0x10abc) with
         | Some e => Some (Pte_ppn e * PAGE_SIZE + 0x10abc `mod` PAGE_SIZE)
         | None => None
         end, demo_s1).
Proof. apply (translate_addr_correct demo_pt1 demo_s1 0x10abc). Defined.

Lemma pte_roundtrip_witness :
  Pte_ppn (Pte_new 0x80300 6) = 0x80300 ∧ Pte_flags (Pte_new 0x80300 6) = 6 ∧
  Pte_ppn (set_flags (Pte_new 0x80300 6) 2) = 0x80300 ∧ Pte_flags (set_flags (Pte_new 0x80300 6) 2) = 2.
Proof. apply (pte_roundtrip 0x80300 6 2); lia. Defined.

(** A second table playing the kernel's part. *)
Definition demo_kstart : option PageTable * Frame.PhysMem := run_or (PageTable_new demo_s) None demo_s.
Definition demo_kpt : PageTable := default (mkPT 0 []) demo_kstart.1.
Definition demo_ks : Frame.PhysMem := demo_kstart.2.

Lemma demo_kernel : pt_low 256 demo_pt demo_ks ∧ pt_kernel demo_kpt demo_ks ∧
  (∀ q, q ∈ table_pages demo_pt → q ∉ table_pages demo_kpt).
Proof.
  assert (Hsome : match PageTable_new demo_s with Ret (Some _, _) => true | _ => false end = true)
    by (vm_compute; reflexivity).
  destruct demo_low as [(role & Hok & Hfl & Hlow) _].
  pose proof (PageTable_new_spec 512 demo_s (λ r s, match r with
    | Some pt => pt_low 256 demo_pt s ∧ pt_kernel pt s ∧ (∀ q, q ∈ table_pages demo_pt → q ∉ table_pages pt)
    | None => True end)) as Hw.
  unfold demo_kpt, demo_ks, demo_kstart. unfold wp in Hw.
  destruct (PageTable_new demo_s) as [[[pt|] s]|]; [|done..]. simpl.
  apply Hw; [lia|apply Hok|done|]. intros kpt s' Hl _ Hf Hp _. split_and!.
  - apply (pt_low_stable 256 demo_pt demo_s s'); [by exists role|apply Hf|]. intros q Hq.
    split; [apply (fp_used _ _ _ Hf); by left|by apply (fp_agree _ _ _ Hf)].
  - by apply pt_low_kernel.
  - intros q Hq. rewrite Hp. intros ->%list_elem_of_singleton. apply (fp_new _ _ _ Hf).
    by apply (pt_frame_used 256 role demo_pt).
Qed.
#[global] Opaque demo_kstart.

Lemma share_upper_half_correct_witness :
  ∃ s', share_upper_half demo_pt demo_kpt demo_ks = Ret (tt, s') ∧ pt_wf 256 (λ q, q ∈ table_pages demo_kpt) demo_pt s' ∧ pt_kernel demo_kpt s' ∧
    (∀ v, view demo_pt s' v = if decide (256 ≤ nth 0 (indices v) 0) then view demo_kpt demo_ks v else view demo_pt demo_ks v) ∧
    (∀ v, view demo_kpt s' v = view demo_kpt demo_ks v).
Proof. apply (share_upper_half_correct demo_pt demo_kpt demo_ks); apply demo_kernel. Defined.
