(* ===== verification/Space.v ===== *)
(** * Address spaces (kernel/src/mm/space.rs)

    A [Region] is a run of virtual pages with one backing and one set of
    permissions; an [AddressSpace] is a page table and the regions mapped into
    it.  Both are Rust values, passed and returned; memory and the frame
    allocator are the state.  Values that go out of scope are dropped where the
    source drops them. *)
From stdpp Require Import base numbers list.
From coqutil Require Import Byte.
From Stdlib Require Import Lia.
From S2P Require Import Prelude Memory Config Addr FrameIface PageTable.

Definition SUPERPAGE_SIZE : Z := 2 * 1024 * 1024.

(** ** [BTreeMap]: an association list kept in key order *)
Fixpoint bt_get {A} (k : Z) (l : list (Z * A)) : option A :=
  match l with
  | [] => None
  | (k', x) :: l => if k =? k' then Some x else bt_get k l
  end.

Fixpoint bt_insert {A} (k : Z) (x : A) (l : list (Z * A)) : list (Z * A) :=
  match l with
  | [] => [(k, x)]
  | (k', y) :: r =>
      if k <? k' then (k, x) :: l
      else if k =? k' then (k, x) :: r
      else (k', y) :: bt_insert k x r
  end.

Inductive Backing := Linear | Framed.

Record Region := mkRegion {
  r_start : VirtAddr;
  r_end : VirtAddr;
  r_backing : Backing;
  r_perm : PteFlags;
  r_frames : list (VirtPageNum * Frame);
}.

Definition with_frames (l : list (VirtPageNum * Frame)) (r : Region) : Region :=
  mkRegion (r_start r) (r_end r) (r_backing r) (r_perm r) l.

Definition Region_new (start stop : VirtAddr) (b : Backing) (perm : PteFlags) : outcome Region :=
  e ← align_up stop;
  mret (mkRegion (align_down start) e b perm []).

Definition Region_contains (r : Region) (addr : VirtAddr) : bool :=
  (r_start r <=? addr) && (addr <? r_end r).

Record AddressSpace := mkAS { table : PageTable; regions : list Region }.

Definition with_table (pt : PageTable) (sp : AddressSpace) : AddressSpace := mkAS pt (regions sp).
Definition push_region (r : Region) (sp : AddressSpace) : AddressSpace :=
  mkAS (table sp) (regions sp ++ [r]).

(** ** [String::from_utf8]: the well-formed byte sequences *)
Definition cont (lo hi : Z) (b : byte) : bool :=
  (lo <=? byte.unsigned b) && (byte.unsigned b <=? hi).

Fixpoint utf8_valid (l : list byte) : bool :=
  match l with
  | [] => true
  | b0 :: l1 =>
      let c := byte.unsigned b0 in
      if c <? 0x80 then utf8_valid l1 else
      match l1 with
      | [] => false
      | b1 :: l2 =>
          if (0xc2 <=? c) && (c <=? 0xdf) then cont 0x80 0xbf b1 && utf8_valid l2 else
          match l2 with
          | [] => false
          | b2 :: l3 =>
              if (0xe0 <=? c) && (c <=? 0xef) then
                cont (if c =? 0xe0 then 0xa0 else 0x80) (if c =? 0xed then 0x9f else 0xbf) b1 &&
                cont 0x80 0xbf b2 && utf8_valid l3
              else
              match l3 with
              | [] => false
              | b3 :: l4 =>
                  if (0xf0 <=? c) && (c <=? 0xf4) then
                    cont (if c =? 0xf0 then 0x90 else 0x80) (if c =? 0xf4 then 0x8f else 0xbf) b1 &&
                    cont 0x80 0xbf b2 && cont 0x80 0xbf b3 && utf8_valid l4
                  else false
              end
          end
      end
  end.

Section operations.
Context {S : Type} `{FrameAllocator S}.

(** ** Regions *)

(** [frames.insert(v, f)]: a replaced frame is dropped. *)
Definition insert_frame (r : Region) (v : VirtPageNum) (f : Frame) : ST S Region :=
  match bt_get v (r_frames r) with Some old => frame_drop old | None => mret tt end;;
  mret (with_frames (bt_insert v f (r_frames r)) r).

(** Does a 2 MiB leaf fit at [v]? *)
Definition fits_superpage (v p stop : Z) : ST S bool :=
  let pages := SUPERPAGE_SIZE `div` PAGE_SIZE in
  if is_multiple_of v pages && is_multiple_of p pages
  then top ← lift (v +! pages); mret (top <=? stop)
  else mret false.

(** The loop of [map_into]; the fuel is the number of pages left. *)
Fixpoint map_into_loop (fuel : nat) (v stop : VirtPageNum) (r : Region) (pt : PageTable)
    : ST S (result MapError unit * (Region * PageTable)) :=
  match fuel with
  | O => mret (Ok tt, (r, pt))
  | Datatypes.S fuel =>
      if v <? stop then
        match r_backing r with
        | Linear =>
            p ← lift (v -! Z.shiftr VIRT_OFFSET PAGE_SHIFT);
            big ← fits_superpage v p stop;
            if (big : bool) then
              '(res, pt) ← map_at_level pt v p (r_perm r) 1;
              match res with
              | Err e => mret (Err e, (r, pt))
              | Ok _ =>
                  v ← lift (v +! SUPERPAGE_SIZE `div` PAGE_SIZE);
                  map_into_loop fuel v stop r pt
              end
            else
              '(res, pt) ← map pt v p (r_perm r);
              match res with
              | Err e => mret (Err e, (r, pt))
              | Ok _ => v ← lift (next v); map_into_loop fuel v stop r pt
              end
        | Framed =>
            fr ← frame_alloc 0;
            match fr with
            | None => mret (Err OutOfMemory, (r, pt))
            | Some f =>
                '(res, pt) ← map pt v (f_ppn f) (r_perm r);
                match res with
                | Err e => frame_drop f;; mret (Err e, (r, pt))
                | Ok _ =>
                    r ← insert_frame r v f;
                    v ← lift (next v);
                    map_into_loop fuel v stop r pt
                end
            end
        end
      else mret (Ok tt, (r, pt))
  end.

Definition map_into (r : Region) (pt : PageTable) : ST S (result MapError unit * (Region * PageTable)) :=
  let v := vpn (r_start r) in
  let stop := vpn (r_end r) in
  map_into_loop (Z.to_nat (stop - v)) v stop r pt.

Fixpoint unmap_loop (fuel : nat) (v stop : VirtPageNum) (pt : PageTable) : ST S unit :=
  match fuel with
  | O => mret tt
  | Datatypes.S fuel =>
      if v <? stop then
        _ ← unmap pt v;
        v ← lift (next v);
        unmap_loop fuel v stop pt
      else mret tt
  end.

Definition clear_frames (r : Region) : ST S unit := drop_frames (r_frames r).*2.

Definition unmap_from (r : Region) (pt : PageTable) : ST S unit :=
  let v := vpn (r_start r) in
  let stop := vpn (r_end r) in
  unmap_loop (Z.to_nat (stop - v)) v stop pt;;
  clear_frames r.

(** A [Region] going out of scope drops its frames; the page table is not
    touched. *)
Definition Region_drop (r : Region) : ST S unit := drop_frames (r_frames r).*2.

Definition slice {A} (l : list A) (from n : Z) : list A := take (Z.to_nat n) (drop (Z.to_nat from) l).

(** The loop of [write_data]; each round writes at least one byte. *)
Fixpoint write_data_loop (fuel : nat) (r : Region) (pos written : Z) (data : list byte) : ST S unit :=
  match fuel with
  | O => mret tt
  | Datatypes.S fuel =>
      if written <? Z.of_nat (length data) then
        a ← lift (r_start r +! pos);
        let page_off := pos `mod` PAGE_SIZE in
        let n := Z.min (PAGE_SIZE - page_off) (Z.of_nat (length data) - written) in
        f ← lift (expect (bt_get (vpn a) (r_frames r)));
        update_mem (λ m, store_bytes m (as_ptr (f_ppn f) + page_off) (slice data written n));;
        pos ← lift (pos +! n);
        write_data_loop fuel r pos (written + n) data
      else mret tt
  end.

Definition write_data (r : Region) (offset : Z) (data : list byte) : ST S unit :=
  write_data_loop (length data) r offset 0 data.

(** ** Address spaces *)
Definition AddressSpace_new : ST S (option AddressSpace) :=
  r ← PageTable_new;
  mret ((λ pt, mkAS pt []) <$> r).

Definition AS_push (sp : AddressSpace) (r : Region) : ST S (result MapError unit * AddressSpace) :=
  '(res, (r, pt)) ← map_into r (table sp);
  match res with
  | Err e => Region_drop r;; mret (Err e, with_table pt sp)
  | Ok _ => mret (Ok tt, push_region r (with_table pt sp))
  end.

Definition push_with_offset (sp : AddressSpace) (r : Region) (offset : Z) (data : list byte)
    : ST S (result MapError unit * AddressSpace) :=
  '(res, (r, pt)) ← map_into r (table sp);
  match res with
  | Err e => Region_drop r;; mret (Err e, with_table pt sp)
  | Ok _ => write_data r offset data;; mret (Ok tt, push_region r (with_table pt sp))
  end.

(** [kernel] is the contents of [KERNEL_SPACE]. *)
Definition map_kernel_half (sp : AddressSpace) (kernel : option AddressSpace)
    : ST S (result MapError unit) :=
  k ← lift (expect kernel);
  share_upper_half (table sp) (table k);;
  mret (Ok tt).

Fixpoint unmap_regions (l : list Region) (pt : PageTable) : ST S unit :=
  match l with
  | [] => mret tt
  | r :: l => unmap_from r pt;; unmap_regions l pt
  end.

Definition AddressSpace_drop (sp : AddressSpace) : ST S unit :=
  unmap_regions (regions sp) (table sp);;
  PageTable_drop (table sp).

(** Copy the pages of [src] (the parent's frames) into the child's region. *)
Fixpoint copy_pages (src : list (VirtPageNum * Frame)) (r : Region) : ST S (option unit) :=
  match src with
  | [] => mret (Some tt)
  | (v, f) :: src =>
      match bt_get v (r_frames r) with
      | None => mret None
      | Some dst =>
          update_mem (λ m, copy m (as_ptr (f_ppn f)) (as_ptr (f_ppn dst)) PAGE_SIZE);;
          copy_pages src r
      end
  end.

Fixpoint duplicate_regions (l : list Region) (child : AddressSpace) : ST S (option AddressSpace) :=
  match l with
  | [] => mret (Some child)
  | region :: l =>
      match r_backing region with
      | Linear => duplicate_regions l child
      | Framed =>
          cp ← lift (Region_new (r_start region) (r_end region) Framed (r_perm region));
          '(res, (cp, pt)) ← map_into cp (table child);
          let child := with_table pt child in
          match res with
          | Err _ => Region_drop cp;; AddressSpace_drop child;; mret None
          | Ok _ =>
              ok ← copy_pages (r_frames region) cp;
              match ok with
              | None => Region_drop cp;; AddressSpace_drop child;; mret None
              | Some _ => duplicate_regions l (push_region cp child)
              end
          end
      end
  end.

Definition duplicate (sp : AddressSpace) (kernel : option AddressSpace) : ST S (option AddressSpace) :=
  c ← AddressSpace_new;
  match c with
  | None => mret None
  | Some child =>
      _ ← map_kernel_half child kernel;
      duplicate_regions (regions sp) child
  end.

(** ** User memory *)

(** The first [copied] bytes of [dst] are in place. *)
Fixpoint copy_from_loop (fuel : nat) (sp : AddressSpace) (addr copied : Z) (dst : list byte)
    : ST S (option unit * list byte) :=
  match fuel with
  | O => mret (Some tt, dst)
  | Datatypes.S fuel =>
      let len := Z.of_nat (length dst) in
      if copied <? len then
        match checked_add addr copied with
        | None => mret (None, dst)
        | Some va =>
            if USER_MAX_ADDR <=? va then mret (None, dst) else
            r ← translate_addr (table sp) va;
            match r with
            | None => mret (None, dst)
            | Some pa =>
                let n := Z.min (PAGE_SIZE - page_offset va) (len - copied) in
                src ← lift (to_virt pa);
                s ← get;
                let bytes := load_bytes (fa_mem s) src (Z.to_nat n) in
                copy_from_loop fuel sp addr (copied + n)
                  (take (Z.to_nat copied) dst ++ bytes ++ drop (Z.to_nat (copied + n)) dst)
            end
        end
      else mret (Some tt, dst)
  end.

Definition copy_from_user (sp : AddressSpace) (addr : VirtAddr) (dst : list byte)
    : ST S (option unit * list byte) :=
  copy_from_loop (length dst) sp addr 0 dst.

Fixpoint copy_to_loop (fuel : nat) (sp : AddressSpace) (addr copied : Z) (src : list byte)
    : ST S (option unit) :=
  match fuel with
  | O => mret (Some tt)
  | Datatypes.S fuel =>
      let len := Z.of_nat (length src) in
      if copied <? len then
        match checked_add addr copied with
        | None => mret None
        | Some va =>
            if USER_MAX_ADDR <=? va then mret None else
            e ← translate (table sp) (vpn va);
            match e with
            | None => mret None
            | Some pte =>
                if negb (contains (Pte_flags pte) (Z.lor Flags.WRITE Flags.USER)) then mret None else
                r ← translate_addr (table sp) va;
                match r with
                | None => mret None
                | Some pa =>
                    let n := Z.min (PAGE_SIZE - page_offset va) (len - copied) in
                    dst ← lift (to_virt pa);
                    update_mem (λ m, store_bytes m dst (slice src copied n));;
                    copy_to_loop fuel sp addr (copied + n) src
                end
            end
        end
      else mret (Some tt)
  end.

Definition copy_to_user (sp : AddressSpace) (addr : VirtAddr) (src : list byte) : ST S (option unit) :=
  copy_to_loop (length src) sp addr 0 src.

Fixpoint read_cstr_loop (fuel : nat) (sp : AddressSpace) (addr i : Z) (bytes : list byte)
    : ST S (option (list byte)) :=
  match fuel with
  | O => mret None
  | Datatypes.S fuel =>
      match checked_add addr i with
      | None => mret None
      | Some a =>
          '(r, one) ← copy_from_user sp a [x00];
          match r, one with
          | Some _, [b] =>
              if byte.unsigned b =? 0 then mret (if utf8_valid bytes then Some bytes else None)
              else read_cstr_loop fuel sp addr (i + 1) (bytes ++ [b])
          | _, _ => mret None
          end
      end
  end.

Definition read_cstr (sp : AddressSpace) (addr : VirtAddr) (max : Z) : ST S (option (list byte)) :=
  read_cstr_loop (Z.to_nat max) sp addr 0 [].

Definition AS_token (sp : AddressSpace) : Z := token (table sp).
Definition find_region (sp : AddressSpace) (addr : VirtAddr) : option Region :=
  find (λ r, Region_contains r addr) (regions sp).
Definition AS_translate (sp : AddressSpace) (addr : VirtAddr) : ST S (option PhysAddr) :=
  translate_addr (table sp) addr.


(** ** The kernel's own space *)

Definition MMIO_REGIONS : list (Z * Z) :=
  [(TEST_DEVICE_BASE, PAGE_SIZE); (CLINT_BASE, 0x10000); (PLIC_BASE, 0x600000); (UART_BASE, PAGE_SIZE);
   (VIRTIO_MMIO_BASE, VIRTIO_MMIO_STRIDE * VIRTIO_MMIO_SLOTS)].

(** [push(Region::new(start, end, Linear, perm)).expect(..)] *)
Definition push_linear (sp : AddressSpace) (start stop : VirtAddr) (perm : PteFlags) : ST S AddressSpace :=
  r ← lift (Region_new start stop Linear perm);
  '(res, sp) ← AS_push sp r;
  match res with Ok _ => mret sp | Err _ => lift Panic end.

Fixpoint push_sections (sp : AddressSpace) (l : list (VirtAddr * VirtAddr * PteFlags)) : ST S AddressSpace :=
  match l with
  | [] => mret sp
  | (start, stop, perm) :: l =>
      if start =? stop then push_sections sp l
      else sp ← push_linear sp start stop perm; push_sections sp l
  end.

Fixpoint push_mmio (sp : AddressSpace) (l : list (Z * Z)) : ST S AddressSpace :=
  match l with
  | [] => mret sp
  | (dev, size) :: l =>
      start ← lift (dev +! VIRT_OFFSET);
      top ← lift (dev +! size);
      stop ← lift (top +! VIRT_OFFSET);
      sp ← push_linear sp start stop (Z.lor Flags.RW Flags.GLOBAL);
      push_mmio sp l
  end.

(** [sections] are the four bounds the linker emits with the permissions the
    code gives them, [kernel_end] the address of [__kernel_end].  The result is
    the new contents of [KERNEL_SPACE] and the value written to [satp]. *)
Definition init_kernel_space (text rodata data bss : VirtAddr * VirtAddr) (kernel_end : VirtAddr)
    : ST S (AddressSpace * Z) :=
  c ← AddressSpace_new;
  sp ← lift (expect c);
  let section (b : VirtAddr * VirtAddr) perm := (b.1, b.2, Z.lor perm Flags.GLOBAL) in
  sp ← push_sections sp [section text Flags.RX; section rodata Flags.READ; section data Flags.RW; section bss Flags.RW];
  phys ← lift (kernel_end -! VIRT_OFFSET);
  heap_start ← lift (phys +! VIRT_OFFSET);
  heap_end ← lift (DRAM_BASE + DRAM_SIZE +! VIRT_OFFSET);
  sp ← push_linear sp heap_start heap_end (Z.lor Flags.RW Flags.GLOBAL);
  sp ← push_mmio sp MMIO_REGIONS;
  mret (sp, AS_token sp).

(** [activate_token]: the new [satp], and whether the TLB is flushed. *)
Definition activate_token (satp token : Z) : Z * bool :=
  if satp =? token then (satp, false) else (token, true).
End operations.
