(* ===== verification/SpaceInv.v ===== *)
(** * What an address space owns and maps

    [maps] relates a page table to a list of user pages [(vpn, (ppn, flags))];
    [owns] says that a list of frames is handed out and disjoint from every
    table.  Together they are the invariant of an address space; [K] is the set
    of the kernel's table pages, shared by every space. *)
From stdpp Require Import base numbers functions sets list.
From Stdlib Require Import Lia.
From S2P Require Import Prelude Memory Config Addr FrameIface.
From S2P Require Import PageTable PageTableInv PageTableWalk PageTableOps Space.

(** User pages are those below [USER_MAX_ADDR]: [2^26] of them. *)
Definition user_vpn (v : VirtPageNum) : Prop := 0 ≤ v < 2 ^ 26.

Lemma user_owned v : user_vpn v → owned 256 (indices v).
Proof. unfold user_vpn. intros Hv. rewrite indices_eq. simpl. Z.div_mod_to_equations. lia. Qed.

Lemma user_inj v v' : user_vpn v → user_vpn v' → indices v = indices v' → v = v'.
Proof. unfold user_vpn. intros. apply indices_inj; [lia..|done]. Qed.

Section inv.
Context {S : Type} `{FrameAllocator S, !FrameAllocatorLaws S}.
Implicit Types (s : S) (pt : PageTable) (K : Z → Prop) (L : list (Z * (Z * Z))).

Record maps K pt L s : Prop := {
  mp_wf : pt_wf 256 K pt s;
  mp_K : ∀ q, K q → fa_used s q ∧ q ∉ table_pages pt;
  mp_vpn : NoDup L.*1;
  mp_range : ∀ v p f, (v, (p, f)) ∈ L → user_vpn v ∧ 0 ≤ p < 2 ^ 26 ∧ 0 ≤ f < 1024;
  mp_page : ∀ v p f, (v, (p, f)) ∈ L → view pt s v = Some (Pte_new p (leaf_flags f));
  mp_none : ∀ v, user_vpn v → v ∉ L.*1 → view pt s v = None;
}.

(** The frames are handed out, distinct, and not tables. *)
Record owns K pt (fs : list Z) s : Prop := {
  ow_nodup : NoDup fs;
  ow_used : ∀ q, q ∈ fs → fa_used s q;
  ow_tables : ∀ q, q ∈ fs → (q ∉ table_pages pt) ∧ ¬ K q;
}.

Lemma maps_inv K pt L s : maps K pt L s → fa_inv s.
Proof. intros Hm. eapply pt_wf_inv, Hm. Qed.

Lemma maps_stable K pt L s s' :
  maps K pt L s → fa_inv s' →
  (∀ q, q ∈ table_pages pt ∨ K q → fa_used s q → fa_used s' q ∧ agree (page q) (fa_mem s) (fa_mem s')) →
  maps K pt L s'.
Proof.
  intros Hm Hinv Hst. destruct (pt_wf_stable 256 K pt s s' (mp_wf _ _ _ _ Hm) Hinv Hst) as [Hwf Hv].
  destruct Hm as [_ HK Hnd Hr Hp Hn]. constructor; [exact Hwf| |exact Hnd|exact Hr| |].
  - intros q Hq. destruct (HK q Hq) as [Hu Ht]. split; [|done]. by apply Hst; [right|].
  - intros v p f Hin. rewrite Hv. by apply Hp.
  - intros v Hu Hin. rewrite Hv. by apply Hn.
Qed.

Lemma maps_perm K pt L L' s : L ≡ₚ L' → maps K pt L s → maps K pt L' s.
Proof.
  intros HL [Hwf HK Hnd Hr Hp Hn]. constructor; try assumption.
  - by rewrite <- HL.
  - intros v p f. rewrite <- HL. apply Hr.
  - intros v p f. rewrite <- HL. apply Hp.
  - intros v. rewrite <- HL. apply Hn.
Qed.

Lemma maps_map K pt L s v p f :
  maps K pt L s → user_vpn v → 0 ≤ p < 2 ^ 26 → 0 ≤ f < 1024 →
  wp (map pt v p f) (λ '(r, pt') s', only_tables pt s pt' s' ∧
    match r with
    | Ok _ => (v ∉ L.*1) ∧ maps K pt' ((v, (p, f)) :: L) s' ∧ fa_avail s - 2 ≤ fa_avail s'
    | Err OutOfMemory => maps K pt' L s' ∧ fa_avail s < 2
    | Err AlreadyMapped => (v ∈ L.*1) ∧ maps K pt' L s'
    | Err NotMapped => False
    end) s.
Proof.
  intros Hm Hv Hp Hf.
  eapply wp_mono; [|apply (map_spec 256 K pt s v p f (mp_wf _ _ _ _ Hm)); [by apply user_owned|lia|done]].
  cbv beta. intros [r pt'] s' (Hwf & Hot & _ & Hr). split; [done|].
  assert (HK : ∀ q, K q → fa_used s' q ∧ q ∉ table_pages pt').
  { intros q Hq. destruct (mp_K _ _ _ _ Hm q Hq) as [Hu Ht]. split; [apply (ot_used _ _ _ _ Hot); by left|].
    intros [?|?]%(ot_new _ _ _ _ Hot); done. }
  destruct Hm as [_ _ Hnd Hrg Hpg Hn].
  assert (Hsame : (∀ v', view pt' s' v' = view pt s v') → maps K pt' L s').
  { intros Hsame. constructor; [exact Hwf|exact HK|exact Hnd|exact Hrg| |].
    - intros v' p' f' Hin'. rewrite Hsame. by apply Hpg.
    - intros v' Hv' Hnin. rewrite Hsame. by apply Hn. }
  destruct r as [[]|[]]; try contradiction.
  - destruct Hr as (Hnone & Hav & Hview).
    assert (Hin : v ∉ L.*1).
    { intros ([v' [p' f']] & -> & Hin)%list_elem_of_fmap. cbn [fst] in *. by rewrite (Hpg _ _ _ Hin) in Hnone. }
    split; [exact Hin|]. split; [|exact Hav].
    assert (Hother : ∀ v', user_vpn v' → v' ≠ v → view pt' s' v' = view pt s v').
    { intros v' Hv' Hne. rewrite Hview, decide_False; [done|]. intros He. by apply Hne, user_inj. }
    constructor; try assumption.
    + simpl. by apply NoDup_cons.
    + intros v' p' f' [[= -> -> ->]|Hin']%elem_of_cons; [done|by apply Hrg].
    + intros v' p' f' [[= -> -> ->]|Hin']%elem_of_cons; [by rewrite Hview, decide_True|].
      rewrite Hother; [by apply Hpg|exact (proj1 (Hrg _ _ _ Hin'))|]. intros ->. apply Hin.
      apply list_elem_of_fmap. by exists (v, (p', f')).
    + intros v' Hv' [Hne Hnin]%not_elem_of_cons. rewrite Hother by done. by apply Hn.
  - destruct Hr as [[e He] Hr]. split; [|by apply Hsame].
    destruct (decide (v ∈ L.*1)) as [|Hnin]; [done|]. by rewrite (Hn v Hv Hnin) in He.
  - destruct Hr as (_ & Hfew & _ & Hr). split; [by apply Hsame|done].
Qed.

Lemma maps_unmap K pt L s v p f :
  maps K pt ((v, (p, f)) :: L) s →
  wp (unmap pt v) (λ r s', r = Ok p ∧ only_tables pt s pt s' ∧ maps K pt L s') s.
Proof.
  intros Hm. destruct (mp_range _ _ _ _ Hm v p f) as (Hv & Hp & Hf); [set_solver|].
  pose proof (mp_page _ _ _ _ Hm v p f ltac:(set_solver)) as Hview.
  eapply wp_mono; [|apply (unmap_spec 256 K pt s v (mp_wf _ _ _ _ Hm)); by apply user_owned].
  cbv beta. intros r s' Hr. rewrite Hview in Hr. destruct r as [p'|[]]; try done.
  destruct Hr as (-> & Hwf & Hot & Hv'). pose proof (leaf_flags_range f Hf).
  rewrite Pte_new_ppn by lia. split_and!; [done..|].
  destruct Hm as [_ HK Hnd Hrg Hpg Hn]. simpl in Hnd. apply NoDup_cons in Hnd as [Hnin Hnd].
  assert (Hne : ∀ v' p' f', (v', (p', f')) ∈ L → indices v' ≠ indices v).
  { intros v' p' f' Hin He. apply Hnin. apply user_inj in He as ->; [|exact (proj1 (Hrg _ _ _ (list_elem_of_further _ _ _ Hin)))|done].
    apply list_elem_of_fmap. by exists (v, (p', f')). }
  constructor; try assumption.
  - intros q Hq. destruct (HK q Hq) as [Hu Ht]. split; [|done]. apply (ot_used _ _ _ _ Hot). by left.
  - intros v' p' f' Hin. by apply Hrg, list_elem_of_further.
  - intros v' p' f' Hin. rewrite Hv', decide_False by (by eapply Hne). by apply Hpg, list_elem_of_further.
  - intros v' Hu Hnin'. rewrite Hv'. case_decide as He; [done|]. apply Hn; [done|]. apply not_elem_of_cons.
    split; [|done]. by intros ->.
Qed.

(** An unmapped page: [unmap] reports it and changes nothing. *)
Lemma maps_unmap_none K pt L s v :
  maps K pt L s → user_vpn v → v ∉ L.*1 → wp (unmap pt v) (λ r s', r = Err NotMapped ∧ s' = s) s.
Proof.
  intros Hm Hv Hin. eapply wp_mono; [|apply (unmap_spec 256 K pt s v (mp_wf _ _ _ _ Hm)); by apply user_owned].
  cbv beta. intros r s' Hr. rewrite (mp_none _ _ _ _ Hm v Hv Hin) in Hr. by destruct r as [|[]].
Qed.

(** ** Frames *)

(** Frames taken by a table come from outside what is owned. *)
Lemma owns_only K pt fs s pt' s' : owns K pt fs s → only_tables pt s pt' s' → owns K pt' fs s'.
Proof.
  intros [Hnd Hu Ht] Hot. constructor; [done| |].
  - intros q Hq. apply (ot_used _ _ _ _ Hot). left. by apply Hu.
  - intros q Hq. split; [|by apply Ht]. intros [?|Hn]%(ot_new _ _ _ _ Hot); [by destruct (Ht q Hq)|].
    by apply Hn, Hu.
Qed.

(** Dropping a list of owned frames: tables and mappings are untouched. *)
Lemma drop_owned K pt L (l : list Frame) rest s :
  maps K pt L s → owns K pt ((f_ppn <$> l) ++ rest) s → (∀ f, f ∈ l → f_order f = 0) →
  wp (drop_frames l) (λ _ s', maps K pt L s' ∧ owns K pt rest s' ∧
    (∀ q, fa_used s' q ↔ fa_used s q ∧ q ∉ f_ppn <$> l) ∧
    (∀ q, fa_used s' q → agree (page q) (fa_mem s) (fa_mem s'))) s.
Proof.
  intros Hm [Hnd Hu Ht] Ho. apply NoDup_app in Hnd as (Hnd & Hdis & Hndr).
  eapply wp_mono; [|apply (drop_frames_spec l s (maps_inv _ _ _ _ Hm) Hnd)].
  2: { intros f Hf. split; [by apply Ho|]. apply Hu, elem_of_app. left. by apply list_elem_of_fmap_2. }
  cbv beta. intros _ s' (Hinv & Hus & Hag). split_and!; [| |done|done].
  - eapply maps_stable; [done..|]. intros q Hq Huq.
    assert (Hin : q ∉ f_ppn <$> l).
    { intros Hin. destruct (Ht q) as [? ?]; [apply elem_of_app; by left|]. by destruct Hq. }
    split; [by apply Hus|]. by apply Hag, Hus.
  - constructor; [done| |].
    + intros q Hq. apply Hus. split; [apply Hu, elem_of_app; by right|]. intros ?. by apply (Hdis q).
    + intros q Hq. apply Ht, elem_of_app. by right.
Qed.
End inv.
