(* ===== verification/SpaceMap.v ===== *)
(** * Mapping and unmapping regions

    [map_into] on a framed region, the drop of a region's frames, and
    [unmap_from]. *)
From stdpp Require Import base numbers functions sets list.
From Stdlib Require Import Lia.
From S2P Require Import Prelude Memory Config Addr FrameIface.
From S2P Require Import PageTable PageTableInv PageTableWalk PageTableOps Space SpaceInv.

(** ** Ordered maps *)

Lemma bt_get_None {A} k (l : list (Z * A)) : bt_get k l = None ↔ k ∉ l.*1.
Proof.
  induction l as [|[k' x] l IH]; simpl; [split; [intros _; apply not_elem_of_nil|done]|].
  rewrite not_elem_of_cons. destruct (Z.eqb_spec k k'); naive_solver.
Qed.

Lemma bt_get_Some {A} k (l : list (Z * A)) x : NoDup l.*1 → (k, x) ∈ l → bt_get k l = Some x.
Proof.
  induction l as [|[k' y] l IH]; simpl; intros Hnd Hin; [by apply elem_of_nil in Hin|].
  apply NoDup_cons in Hnd as [Hk Hnd]. apply elem_of_cons in Hin as [[= -> ->]|Hin]; [by rewrite Z.eqb_refl|].
  destruct (Z.eqb_spec k k') as [->|]; [|auto]. exfalso. apply Hk, list_elem_of_fmap. by exists (k', x).
Qed.

Lemma bt_get_In {A} k (l : list (Z * A)) x : bt_get k l = Some x → (k, x) ∈ l.
Proof.
  induction l as [|[k' y] l IH]; simpl; [done|]. destruct (Z.eqb_spec k k') as [->|].
  - intros [= ->]. apply list_elem_of_here.
  - intros Hx. apply list_elem_of_further. auto.
Qed.

Lemma bt_insert_last {A} k (x : A) l : (∀ k', k' ∈ l.*1 → k' < k) → bt_insert k x l = l ++ [(k, x)].
Proof.
  induction l as [|[k' y] l IH]; simpl; intros Hlt; [done|].
  assert (k' < k) by (apply Hlt, list_elem_of_here).
  destruct (Z.ltb_spec k k'), (Z.eqb_spec k k'); try lia. f_equal. apply IH.
  intros k0 Hk0. by apply Hlt, list_elem_of_further.
Qed.

(** ** Pages of a region *)
Definition region_pages (r : Region) : list (Z * (Z * Z)) :=
  (λ x, (x.1, (f_ppn x.2, r_perm r))) <$> r_frames r.
Definition region_ppns (r : Region) : list Z := f_ppn <$> (r_frames r).*2.

Lemma region_pages_vpns r : (region_pages r).*1 = (r_frames r).*1.
Proof. unfold region_pages. rewrite <- list_fmap_compose. by apply list_fmap_ext. Qed.

Lemma region_pages_app r l1 l2 :
  region_pages (with_frames (l1 ++ l2) r) =
  region_pages (with_frames l1 r) ++ region_pages (with_frames l2 r).
Proof. unfold region_pages. simpl. by rewrite fmap_app. Qed.

Lemma region_ppns_app r l1 l2 :
  region_ppns (with_frames (l1 ++ l2) r) =
  region_ppns (with_frames l1 r) ++ region_ppns (with_frames l2 r).
Proof. unfold region_ppns. simpl. by rewrite !fmap_app. Qed.

Lemma with_frames_id r : with_frames (r_frames r) r = r.
Proof. by destruct r. Qed.

Lemma with_frames_2 l l' r : with_frames l (with_frames l' r) = with_frames l r.
Proof. done. Qed.

Section ops.
Context {S : Type} `{FrameAllocator S, !FrameAllocatorLaws S}.
Implicit Types (s : S) (pt : PageTable) (K : Z → Prop) (L : list (Z * (Z * Z))).

(** Tables and the fresh zeroed pages [ps] were added; nothing else changed. *)
Record grew pt s pt' s' (ps : list Z) : Prop := {
  gw_root : root pt' = root pt;
  gw_sub : ∀ q, q ∈ table_pages pt → q ∈ table_pages pt';
  gw_new : ∀ q, q ∈ table_pages pt' → q ∈ table_pages pt ∨ ¬ fa_used s q;
  gw_used : ∀ q, fa_used s' q ↔ fa_used s q ∨ q ∈ table_pages pt' ∨ q ∈ ps;
  gw_fresh : ∀ q, q ∈ ps → (¬ fa_used s q) ∧ q ∉ table_pages pt';
  gw_zero : ∀ q a, q ∈ ps → page q a → fa_mem s' a = x00;
  gw_agree : ∀ q, fa_used s q → q ∉ table_pages pt → agree (page q) (fa_mem s) (fa_mem s');
}.

Lemma grew_refl n K pt s : pt_wf n K pt s → grew pt s pt s [].
Proof.
  intros Hwf. constructor; try done; try (intros ? ?%elem_of_nil; done); try (intros ? ? ?%elem_of_nil; done).
  - by left.
  - intros q. rewrite elem_of_nil. pose proof (pt_wf_pages n K pt s q Hwf). tauto.
Qed.

Lemma grew_trans p1 s1 p2 s2 p3 s3 ps qs :
  grew p1 s1 p2 s2 ps → grew p2 s2 p3 s3 qs → grew p1 s1 p3 s3 (ps ++ qs).
Proof.
  intros G1 G2. constructor.
  - by rewrite (gw_root _ _ _ _ _ G2), (gw_root _ _ _ _ _ G1).
  - intros q Hq. by apply (gw_sub _ _ _ _ _ G2), (gw_sub _ _ _ _ _ G1).
  - intros q [Hq|Hq]%(gw_new _ _ _ _ _ G2); [by apply (gw_new _ _ _ _ _ G1)|].
    right. intros Hu. apply Hq, (gw_used _ _ _ _ _ G1). by left.
  - intros q. rewrite (gw_used _ _ _ _ _ G2), (gw_used _ _ _ _ _ G1), elem_of_app.
    pose proof (gw_sub _ _ _ _ _ G2 q). tauto.
  - intros q [Hq|Hq]%elem_of_app.
    + destruct (gw_fresh _ _ _ _ _ G1 q Hq) as [Hu Ht]. split; [done|].
      intros [?|Hn]%(gw_new _ _ _ _ _ G2); [done|]. apply Hn, (gw_used _ _ _ _ _ G1). tauto.
    + destruct (gw_fresh _ _ _ _ _ G2 q Hq) as [Hu Ht]. split; [|done].
      intros Hu1. apply Hu, (gw_used _ _ _ _ _ G1). by left.
  - intros q a [Hq|Hq]%elem_of_app Ha; [|by apply (gw_zero _ _ _ _ _ G2 q)].
    destruct (gw_fresh _ _ _ _ _ G1 q Hq) as [Hu Ht].
    rewrite (gw_agree _ _ _ _ _ G2 q); [by apply (gw_zero _ _ _ _ _ G1 q)| |done|done].
    apply (gw_used _ _ _ _ _ G1). tauto.
  - intros q Hq Ht. etransitivity; [by apply (gw_agree _ _ _ _ _ G1)|].
    apply (gw_agree _ _ _ _ _ G2); [apply (gw_used _ _ _ _ _ G1); by left|].
    intros [?|?]%(gw_new _ _ _ _ _ G1); done.
Qed.

(** A fresh page followed by table growth. *)
Lemma grew_page n K pt s f s1 pt' s2 :
  pt_wf n K pt s → fresh_page s s1 f → only_tables pt s1 pt' s2 → grew pt s pt' s2 [f].
Proof.
  intros Hwf Hf Hot. pose proof (pt_wf_pages n K pt s) as Hpg.
  assert (Hft : f ∉ table_pages pt') .
  { intros [Hin|Hn]%(ot_new _ _ _ _ Hot); [by apply (fp_new _ _ _ Hf), Hpg|].
    apply Hn, (fp_used _ _ _ Hf). by right. }
  constructor.
  - apply Hot.
  - apply Hot.
  - intros q [?|Hn]%(ot_new _ _ _ _ Hot); [by left|right]. intros Hu. apply Hn, (fp_used _ _ _ Hf). by left.
  - intros q. rewrite (ot_used _ _ _ _ Hot), (fp_used _ _ _ Hf), list_elem_of_singleton. tauto.
  - intros q ->%list_elem_of_singleton. split; [apply Hf|done].
  - intros q a ->%list_elem_of_singleton Ha. rewrite (ot_agree _ _ _ _ Hot f); [by apply (fp_zero _ _ _ Hf)| |  |done].
    + apply (fp_used _ _ _ Hf). by right.
    + intros Hin. by apply (fp_new _ _ _ Hf), Hpg.
  - intros q Hq Ht. etransitivity; [by apply (fp_agree _ _ _ Hf)|]. apply (ot_agree _ _ _ _ Hot); [|done].
    apply (fp_used _ _ _ Hf). by left.
Qed.

Lemma owns_fresh K pt L fs s s1 f :
  maps K pt L s → owns K pt fs s → fresh_page s s1 f →
  maps K pt L s1 ∧ owns K pt (f :: fs) s1 ∧ 0 ≤ f < 2 ^ 26.
Proof.
  intros Hm [Hnd Hu Ht] Hf. split_and!.
  - eapply maps_stable; [done|apply Hf|]. intros q _ Hq.
    split; [apply (fp_used _ _ _ Hf); by left|by apply (fp_agree _ _ _ Hf)].
  - constructor.
    + apply NoDup_cons. split; [|done]. intros Hin. by apply (fp_new _ _ _ Hf), Hu.
    + intros q [->|Hq]%elem_of_cons; apply (fp_used _ _ _ Hf); [by right|left; by apply Hu].
    + intros q [->|Hq]%elem_of_cons; [|by apply Ht]. split.
      * intros Hin. apply (fp_new _ _ _ Hf). by eapply pt_wf_pages; [apply Hm|].
      * intros HK. by apply (fp_new _ _ _ Hf), (mp_K _ _ _ _ Hm).
  - eapply fa_used_range; [apply Hf|]. apply (fp_used _ _ _ Hf). by right.
  - eapply fa_used_range; [apply Hf|]. apply (fp_used _ _ _ Hf). by right.
Qed.

Lemma drop_one K pt L f rest s :
  maps K pt L s → owns K pt (f :: rest) s →
  wp (frame_drop (mkFrame f 0)) (λ _ s', maps K pt L s' ∧ owns K pt rest s' ∧
    (∀ q, fa_used s' q ↔ fa_used s q ∧ q ≠ f) ∧
    (∀ q, fa_used s' q → agree (page q) (fa_mem s) (fa_mem s'))) s.
Proof.
  intros Hm Ho. pose proof (drop_owned K pt L [mkFrame f 0] rest s Hm Ho) as Hd.
  cbn [drop_frames] in Hd. specialize (Hd ltac:(by intros ? ->%list_elem_of_singleton)).
  apply wp_bind_inv in Hd. eapply wp_mono; [|exact Hd]. cbv beta. intros _ s' (? & ? & Hu & ?).
  split_and!; try done. intros q. rewrite Hu. simpl. by rewrite list_elem_of_singleton.
Qed.

(** Mapping one fresh page of a framed region, with the continuations of the
    three ways it can go. *)
Lemma wp_map_fresh {A} K pt L fs s v perm (kNone : ST S A) (kErr : MapError → PageTable → ST S A)
    (kOk : Frame → PageTable → ST S A) (Q : A → S → Prop) :
  maps K pt L s → owns K pt fs s → user_vpn v → 0 ≤ perm < 1024 →
  (fa_avail s = 0 → wp kNone Q s) →
  (∀ e pt' s', e = OutOfMemory ∧ fa_avail s < 3 ∨ e = AlreadyMapped ∧ v ∈ L.*1 →
     maps K pt' L s' → owns K pt' fs s' → grew pt s pt' s' [] → wp (kErr e pt') Q s') →
  (∀ pt' s' f, maps K pt' ((v, (f, perm)) :: L) s' → owns K pt' (f :: fs) s' → grew pt s pt' s' [f] →
     fa_avail s - 3 ≤ fa_avail s' → wp (kOk (mkFrame f 0) pt') Q s') →
  wp (fr ← frame_alloc 0;
      match fr with
      | None => kNone
      | Some f =>
          '(res, pt') ← map pt v (f_ppn f) perm;
          match res with
          | Err e => frame_drop f;; kErr e pt'
          | Ok _ => kOk f pt'
          end
      end) Q s.
Proof.
  intros Hm Ho Hv Hperm Q1 Q2 Q3. wp_step.
  apply wp_frame_alloc0; [by eapply maps_inv|done|]. intros f s1 Hf. pose proof (fp_avail _ _ _ Hf) as Hav.
  destruct (owns_fresh K pt L fs s s1 f Hm Ho Hf) as (Hm1 & Ho1 & Hfr).
  wp_step. eapply wp_mono; [|by apply (maps_map K pt L s1 v f perm)].
  intros [res pt1] s2 [Hot Hr]. pose proof (owns_only K pt (f :: fs) s1 pt1 s2 Ho1 Hot) as Ho2.
  pose proof (grew_page 256 K pt s f s1 pt1 s2 (mp_wf _ _ _ _ Hm) Hf Hot) as Hg.
  assert (Hcase : (∃ u, res = Ok u ∧ maps K pt1 ((v, (f, perm)) :: L) s2 ∧ fa_avail s1 - 2 ≤ fa_avail s2) ∨
    ∃ e, res = Err e ∧ (e = OutOfMemory ∧ fa_avail s < 3 ∨ e = AlreadyMapped ∧ v ∈ L.*1) ∧ maps K pt1 L s2).
  { destruct res as [[]|[]]; try contradiction; [left|right|right].
    - exists tt. split; [done|apply Hr].
    - exists AlreadyMapped. destruct Hr as [Hin Hm2]. split; [done|]. split; [by right|done].
    - exists OutOfMemory. destruct Hr as [Hm2 Hfew]. split; [done|]. split; [left; split; [done|lia]|done]. }
  destruct Hcase as [([] & -> & Hm2 & Hge)|(e & -> & He & Hm2)]; [apply Q3; [done..|lia]|].
  wp_step. eapply wp_mono; [|by apply (drop_one K pt1 L f fs s2)].
  cbv beta. intros _ s3 (Hm3 & Ho3 & Hu3 & Ha3). apply Q2; [done..|].
  pose proof (gw_fresh _ _ _ _ _ Hg f (list_elem_of_here f [])) as [Hfu Hft].
  constructor; try apply Hg; try (intros ? ?%elem_of_nil; done); try (intros ? ? ?%elem_of_nil; done).
  - intros q. rewrite Hu3, (gw_used _ _ _ _ _ Hg), list_elem_of_singleton, elem_of_nil.
    destruct (decide (q = f)) as [->|]; tauto.
  - intros q Hq Hqt. etransitivity; [by apply (gw_agree _ _ _ _ _ Hg)|]. apply Ha3, Hu3.
    split; [apply (gw_used _ _ _ _ _ Hg); by left|]. by intros ->.
Qed.

(** ** [map_into] on a framed region *)
Lemma map_into_framed n : ∀ K v stop r pt s L fs,
  n = Z.to_nat (stop - v) → 0 ≤ v ≤ stop → stop ≤ 2 ^ 26 →
  r_backing r = Framed → 0 ≤ r_perm r < 1024 →
  maps K pt (region_pages r ++ L) s → owns K pt (region_ppns r ++ fs) s →
  (∀ k, k ∈ (r_frames r).*1 → k < v) →
  wp (map_into_loop n v stop r pt) (λ '(res, (r', pt')) s', ∃ new,
    r' = with_frames (r_frames r ++ new) r ∧
    maps K pt' (region_pages r' ++ L) s' ∧ owns K pt' (region_ppns r' ++ fs) s' ∧
    grew pt s pt' s' (f_ppn <$> new.*2) ∧ (∀ f, f ∈ new.*2 → f_order f = 0) ∧
    match res with
    | Ok _ => new.*1 = seqZ v (stop - v) ∧ fa_avail s - 3 * (stop - v) ≤ fa_avail s'
    | Err e => ∃ k, 0 ≤ k < stop - v ∧ new.*1 = seqZ v k ∧
        (e = OutOfMemory ∧ fa_avail s < 3 * (k + 1) ∨ ∃ x, v ≤ x < stop ∧ x ∈ L.*1)
    end) s.
Proof.
  induction n as [|n IH]; intros K v stop r pt s L fs Hn Hv Hstop Hfr Hperm Hm Ho Hlt.
  { cbn [map_into_loop]. apply wp_ret. exists []. rewrite app_nil_r, with_frames_id.
    replace (stop - v) with 0 by lia. split_and!; try done; [eapply grew_refl, Hm|by intros ? ?%elem_of_nil|lia]. }
  cbn [map_into_loop]. destruct (Z.ltb_spec v stop); [|lia]. rewrite Hfr.
  assert (Hnone : ∀ e pt' s', (e = OutOfMemory ∧ fa_avail s < 3 ∨ ∃ x, v ≤ x < stop ∧ x ∈ L.*1) →
    maps K pt' (region_pages r ++ L) s' → owns K pt' (region_ppns r ++ fs) s' →
    grew pt s pt' s' [] → ∃ new, r = with_frames (r_frames r ++ new) r ∧
      maps K pt' (region_pages r ++ L) s' ∧ owns K pt' (region_ppns r ++ fs) s' ∧
      grew pt s pt' s' (f_ppn <$> new.*2) ∧ (∀ f, f ∈ new.*2 → f_order f = 0) ∧
      ∃ k, 0 ≤ k < stop - v ∧ new.*1 = seqZ v k ∧
        (e = OutOfMemory ∧ fa_avail s < 3 * (k + 1) ∨ ∃ x, v ≤ x < stop ∧ x ∈ L.*1)).
  { intros e pt' s' He Hm' Ho' Hg. exists []. rewrite app_nil_r, with_frames_id.
    split_and!; try done; [by intros ? ?%elem_of_nil|]. exists 0. split; [lia|done]. }
  apply (wp_map_fresh K pt (region_pages r ++ L) (region_ppns r ++ fs) s v (r_perm r)); [done|done| | | | |].
  - split; lia.
  - done.
  - intros Hz. apply wp_ret. apply Hnone; [left; split; [done|lia]|done..|]. eapply grew_refl, Hm.
  - intros e pt' s' He Hm' Ho' Hg. apply wp_ret. apply Hnone; [|done..].
    destruct He as [?|[-> Hin]]; [by left|right]. exists v. split; [lia|].
    rewrite fmap_app, region_pages_vpns, elem_of_app in Hin. destruct Hin as [Hin|Hin]; [apply Hlt in Hin; lia|done].
  - intros pt' s' f Hm' Ho' Hg Hge. wp_step. unfold insert_frame.
    rewrite (proj2 (bt_get_None v (r_frames r))); [|intros Hin; apply Hlt in Hin; lia].
    wp_step. apply wp_ret. apply wp_ret. rewrite bt_insert_last by done.
    wp_step. eapply wp_lift; [apply u64_add_ok; unfold U64; lia|].
    set (r1 := with_frames (r_frames r ++ [(v, mkFrame f 0)]) r).
    assert (Hp1 : region_pages r1 = region_pages r ++ [(v, (f, r_perm r))]).
    { unfold r1. by rewrite region_pages_app, with_frames_id. }
    assert (Hq1 : region_ppns r1 = region_ppns r ++ [f]).
    { unfold r1. by rewrite region_ppns_app, with_frames_id. }
    eapply wp_mono; [|apply (IH K (v + 1) stop r1 pt' s' L fs); [lia|lia|lia|done|done| | |]].
    + intros [res [r2 pt2]] s2 (new & -> & Hm2 & Ho2 & Hg2 & Hord & Hres).
      exists ((v, mkFrame f 0) :: new). cbn [r1 r_frames with_frames] in *.
      rewrite <- app_assoc in *. cbn [app] in *.
      split_and!; [done|done|done| | |].
      * cbn [fmap list_fmap]. exact (grew_trans _ _ _ _ _ _ [f] _ Hg Hg2).
      * intros f' [->|Hin]%elem_of_cons; [done|by apply Hord].
      * cbn [fmap list_fmap]. destruct res as [[]|e].
        -- destruct Hres as [-> ?]. rewrite (seqZ_cons v (stop - v)) by lia. split; [f_equal; f_equal; lia|lia].
        -- destruct Hres as (k & Hk & -> & He). exists (k + 1). split; [lia|]. split.
           { rewrite (seqZ_cons v (k + 1)) by lia. f_equal. f_equal; lia. }
           destruct He as [[-> ?]|(x & ? & ?)]; [left; split; [done|lia]|right]. exists x. split; [lia|done].
    + eapply maps_perm; [|exact Hm']. rewrite Hp1. solve_Permutation.
    + rewrite Hq1. destruct Ho' as [Hnd Hu Ht]. constructor.
      * eapply NoDup_Permutation_proper; [|exact Hnd]. solve_Permutation.
      * intros q Hq. apply Hu. set_solver.
      * intros q Hq. apply Ht. set_solver.
    + intros k. cbn [r1 r_frames with_frames]. rewrite fmap_app, elem_of_app.
      intros [Hin|Heq%list_elem_of_singleton]; [apply Hlt in Hin; lia|simpl in Heq; lia].
Qed.
End ops.
