(* ===== verification/SpaceOps.v ===== *)
(** * Operations on whole address spaces

    The invariant [space_ok] of a user address space, and [push], [drop] and
    [duplicate] against it. *)
From stdpp Require Import base numbers functions sets list.
From Stdlib Require Import Lia.
From S2P Require Import Prelude Memory Config Addr FrameIface.
From S2P Require Import PageTable PageTableInv PageTableWalk PageTableOps Space SpaceInv SpaceMap.

Definition sp_pages (sp : AddressSpace) : list (Z * (Z * Z)) := regions sp ≫= region_pages.
Definition sp_ppns (sp : AddressSpace) : list Z := regions sp ≫= region_ppns.

(** The bounds of a region, as [Region::new] leaves them. *)
Record region_shape (r : Region) : Prop := {
  rs_framed : r_backing r = Framed;
  rs_perm : 0 ≤ r_perm r < 1024;
  rs_start : (PAGE_SIZE | r_start r);
  rs_end : (PAGE_SIZE | r_end r);
  rs_range : 0 ≤ r_start r ≤ r_end r;
  rs_top : r_end r ≤ USER_MAX_ADDR;
}.

(** A mapped region: one single-frame handle per page, in page order. *)
Record region_ok (r : Region) : Prop := {
  ro_shape : region_shape r;
  ro_pages : (r_frames r).*1 = seqZ (vpn (r_start r)) (vpn (r_end r) - vpn (r_start r));
  ro_orders : ∀ f, f ∈ (r_frames r).*2 → f_order f = 0;
}.

Lemma region_shape_vpns r : region_shape r →
  0 ≤ vpn (r_start r) ≤ vpn (r_end r) ∧ vpn (r_end r) ≤ 2 ^ 26.
Proof.
  intros [_ _ [a Ha] [b Hb] Hr Ht]. rewrite !vpn_div, Ha, Hb, !Z.div_mul by done.
  rewrite Ha, Hb in *. unfold PAGE_SIZE, USER_MAX_ADDR in *. lia.
Qed.

Lemma region_ok_nodup r : region_ok r → NoDup (r_frames r).*1.
Proof. intros Hr. rewrite (ro_pages _ Hr). apply NoDup_seqZ. Qed.

Section ops.
Context {S : Type} `{FrameAllocator S, !FrameAllocatorLaws S}.
Implicit Types (s : S) (pt : PageTable) (K : Z → Prop) (L : list (Z * (Z * Z))) (sp : AddressSpace).

Record space_ok K sp s : Prop := {
  so_maps : maps K (table sp) (sp_pages sp) s;
  so_owns : owns K (table sp) (sp_ppns sp) s;
  so_regions : Forall region_ok (regions sp);
}.

(** ** Unmapping *)

Lemma only_tables_refl n K pt s : pt_wf n K pt s → only_tables pt s pt s.
Proof.
  intros Hwf. constructor; try done; [by left|]. intros q. pose proof (pt_wf_pages n K pt s q Hwf). tauto.
Qed.

Lemma unmap_loop_spec n : ∀ K pt (l : list (Z * (Z * Z))) L v stop s,
  n = Z.to_nat (stop - v) → l.*1 = seqZ v (stop - v) → 0 ≤ v → stop ≤ 2 ^ 26 → maps K pt (l ++ L) s →
  wp (unmap_loop n v stop pt) (λ _ s', maps K pt L s' ∧ only_tables pt s pt s') s.
Proof.
  induction n as [|n IH]; intros K pt l L v stop s Hn Hl Hv Hstop Hm; cbn [unmap_loop].
  - apply wp_ret. rewrite seqZ_nil in Hl by lia. apply fmap_nil_inv in Hl as ->.
    split; [done|]. eapply only_tables_refl, Hm.
  - destruct (Z.ltb_spec v stop); [|lia]. rewrite (seqZ_cons v) in Hl by lia.
    destruct l as [|[v' [p f]] l]; [discriminate Hl|]. injection Hl as -> Hl.
    change (list_fmap _ _ fst l) with l.*1 in Hl.
    wp_step. eapply wp_mono; [|by apply (maps_unmap K pt (l ++ L) s v p f)].
    cbv beta. intros r s1 (_ & Hot & Hm1).
    wp_step. eapply wp_lift; [apply u64_add_ok; unfold U64; lia|].
    eapply wp_mono; [|apply (IH K pt l L (v + 1) stop s1); [lia| |lia|lia|done]].
    + cbv beta. intros _ s2 [Hm2 Hot2]. split; [done|]. by eapply only_tables_trans.
    + rewrite Hl. f_equal; lia.
Qed.

Lemma unmap_from_spec K pt r L rest s :
  region_ok r → maps K pt (region_pages r ++ L) s → owns K pt (region_ppns r ++ rest) s →
  wp (unmap_from r pt) (λ _ s', maps K pt L s' ∧ owns K pt rest s' ∧
    (∀ q, fa_used s' q ↔ fa_used s q ∧ q ∉ region_ppns r) ∧
    (∀ q, fa_used s' q → q ∉ table_pages pt → agree (page q) (fa_mem s) (fa_mem s'))) s.
Proof.
  intros Hr Hm Ho. pose proof (region_shape_vpns r (ro_shape _ Hr)) as [Hv1 Hv2].
  unfold unmap_from. wp_step.
  eapply wp_mono; [|apply (unmap_loop_spec _ K pt (region_pages r) L); [done| |lia|lia|done]].
  2: { rewrite region_pages_vpns. apply Hr. }
  cbv beta. intros _ s1 [Hm1 Hot]. pose proof (owns_only K pt _ s pt s1 Ho Hot) as Ho1.
  eapply wp_mono; [|apply (drop_owned K pt L _ rest s1); [done|done|apply Hr]].
  cbv beta. intros _ s2 (Hm2 & Ho2 & Hu2 & Ha2). split_and!; [done|done| |].
  - intros q. rewrite Hu2, (ot_used _ _ _ _ Hot). pose proof (pt_wf_pages 256 K pt s q (mp_wf _ _ _ _ Hm)).
    unfold region_ppns. tauto.
  - intros q Hq Ht. etransitivity; [|by apply Ha2]. apply (ot_agree _ _ _ _ Hot); [|done].
    apply Hu2 in Hq as [Hq _]. apply (ot_used _ _ _ _ Hot) in Hq as [?|?]; done.
Qed.

Lemma unmap_regions_spec K pt l : ∀ L rest s,
  Forall region_ok l → maps K pt ((l ≫= region_pages) ++ L) s → owns K pt ((l ≫= region_ppns) ++ rest) s →
  wp (unmap_regions l pt) (λ _ s', maps K pt L s' ∧ owns K pt rest s' ∧
    (∀ q, fa_used s' q ↔ fa_used s q ∧ q ∉ l ≫= region_ppns) ∧
    (∀ q, fa_used s' q → q ∉ table_pages pt → agree (page q) (fa_mem s) (fa_mem s'))) s.
Proof.
  induction l as [|r l IH]; intros L rest s Hl Hm Ho; cbn [unmap_regions].
  - apply wp_ret. split_and!; [done|done| |done]. intros q. pose proof (not_elem_of_nil q). tauto.
  - apply Forall_cons in Hl as [Hr Hl]. cbn [mbind list_bind] in *. rewrite <- app_assoc in Hm, Ho.
    wp_step. eapply wp_mono; [|apply (unmap_from_spec K pt r _ _ s Hr Hm Ho)].
    cbv beta. intros _ s1 (Hm1 & Ho1 & Hu1 & Ha1).
    eapply wp_mono; [|by apply (IH L rest s1)].
    cbv beta. intros _ s2 (Hm2 & Ho2 & Hu2 & Ha2). split_and!; [done|done| |].
    + intros q. rewrite Hu2, Hu1, not_elem_of_app. tauto.
    + intros q Hq Ht. etransitivity; [|by apply Ha2]. apply Ha1; [|done]. by apply Hu2.
Qed.

(** Dropping a space, whose table may also hold the entries [L]. *)
Lemma AddressSpace_drop_spec K sp L rest s :
  Forall region_ok (regions sp) → maps K (table sp) (sp_pages sp ++ L) s →
  owns K (table sp) (sp_ppns sp ++ rest) s →
  wp (AddressSpace_drop sp) (λ _ s', fa_inv s' ∧
    (∀ q, fa_used s' q ↔ fa_used s q ∧ (q ∉ sp_ppns sp) ∧ q ∉ table_pages (table sp)) ∧
    (∀ q, fa_used s' q → agree (page q) (fa_mem s) (fa_mem s'))) s.
Proof.
  intros Hr Hm Ho. unfold AddressSpace_drop. wp_step.
  eapply wp_mono; [|by apply (unmap_regions_spec K (table sp) (regions sp) L rest s)].
  cbv beta. intros _ s1 (Hm1 & Ho1 & Hu1 & Ha1).
  eapply wp_mono; [|by apply (PageTable_drop_spec 256 K (table sp) s1), Hm1].
  cbv beta. intros _ s2 (Hinv & Hu2 & Ha2). split_and!; [done| |].
  - intros q. rewrite Hu2, Hu1. unfold sp_ppns. tauto.
  - intros q Hq. etransitivity; [|by apply Ha2]. apply Hu2 in Hq as [Hq Ht]. by apply Ha1.
Qed.

(** ** Mapping a region into a space *)

Lemma Region_new_shape start stop perm :
  0 ≤ start ≤ stop → stop ≤ USER_MAX_ADDR → 0 ≤ perm < 1024 →
  ∃ r, Region_new start stop Framed perm = Ret r ∧ region_shape r ∧ r_frames r = [] ∧ r_perm r = perm ∧
    r_start r = start - start `mod` PAGE_SIZE ∧ r_end r = div_ceil stop PAGE_SIZE * PAGE_SIZE.
Proof.
  intros Hs Ht Hp. unfold Region_new, USER_MAX_ADDR in *. rewrite align_up_ret by (unfold U64, PAGE_SIZE; lia).
  simpl. eexists. split; [done|]. assert (Hps : PAGE_SIZE = 4096) by done.
  pose proof (div_ceil_spec stop PAGE_SIZE ltac:(done)) as Hd.
  pose proof (Z.mod_pos_bound start PAGE_SIZE ltac:(done)). pose proof (Z.div_mod start PAGE_SIZE ltac:(done)).
  rewrite align_down_sub by (unfold U64; lia). split; [|done]. constructor; simpl.
  - done.
  - done.
  - exists (start `div` PAGE_SIZE). lia.
  - by eexists.
  - assert (0 ≤ start `div` PAGE_SIZE) by (apply Z.div_pos; lia). lia.
  - unfold USER_MAX_ADDR.
    pose proof (div_ceil_le stop PAGE_SIZE 0x4000000 ltac:(done) ltac:(lia)). lia.
Qed.

Definition region_size (r : Region) : Z := vpn (r_end r) - vpn (r_start r).

(** Each page takes at most three frames: itself and two tables. *)
Lemma map_into_full K pt r L fs s :
  region_shape r → r_frames r = [] → maps K pt L s → owns K pt fs s →
  wp (map_into r pt) (λ '(res, (r', pt')) s', ∃ new,
    r' = with_frames new r ∧ maps K pt' (region_pages r' ++ L) s' ∧ owns K pt' (region_ppns r' ++ fs) s' ∧
    grew pt s pt' s' (region_ppns r') ∧ (∀ f, f ∈ new.*2 → f_order f = 0) ∧
    match res with
    | Ok _ => region_ok r' ∧ fa_avail s - 3 * region_size r ≤ fa_avail s'
    | Err e => ∃ k, 0 ≤ k < region_size r ∧ new.*1 = seqZ (vpn (r_start r)) k ∧
        (e = OutOfMemory ∧ fa_avail s < 3 * (k + 1) ∨ ∃ x, vpn (r_start r) ≤ x < vpn (r_end r) ∧ x ∈ L.*1)
    end) s.
Proof.
  intros Hsh Hnil Hm Ho. pose proof (region_shape_vpns r Hsh) as [Hv1 Hv2]. unfold map_into.
  eapply wp_mono; [|apply (map_into_framed _ K (vpn (r_start r)) (vpn (r_end r)) r pt s L fs);
    [done|lia|lia|apply Hsh|apply Hsh| | |]].
  - intros [res [r' pt']] s' (new & -> & Hm' & Ho' & Hg & Hord & Hres). exists new. rewrite Hnil in *.
    split_and!; try done. destruct res as [[]|e]; [|done]. destruct Hres as [Hres ?]. split; [|done].
    constructor; [|done|done]. destruct Hsh. by constructor.
  - unfold region_pages. by rewrite Hnil.
  - unfold region_ppns. by rewrite Hnil.
  - rewrite Hnil. intros k Hk. by apply elem_of_nil in Hk.
Qed.

Lemma map_into_spec K pt r L fs s :
  region_shape r → r_frames r = [] → maps K pt L s → owns K pt fs s →
  wp (map_into r pt) (λ '(res, (r', pt')) s', ∃ new,
    r' = with_frames new r ∧ maps K pt' (region_pages r' ++ L) s' ∧ owns K pt' (region_ppns r' ++ fs) s' ∧
    grew pt s pt' s' (region_ppns r') ∧ (∀ f, f ∈ new.*2 → f_order f = 0) ∧
    (res = Ok tt → region_ok r')) s.
Proof.
  intros Hsh Hnil Hm Ho. eapply wp_mono; [|exact (map_into_full K pt r L fs s Hsh Hnil Hm Ho)].
  intros [res [r' pt']] s' (new & ? & ? & ? & ? & ? & Hres). exists new. split_and!; [done..|]. intros ->. apply Hres.
Qed.

Lemma sp_pages_push r sp : sp_pages (push_region r sp) = sp_pages sp ++ region_pages r.
Proof. unfold sp_pages. simpl. by rewrite bind_app; simpl; rewrite app_nil_r. Qed.
Lemma sp_ppns_push r sp : sp_ppns (push_region r sp) = sp_ppns sp ++ region_ppns r.
Proof. unfold sp_ppns. simpl. by rewrite bind_app; simpl; rewrite app_nil_r. Qed.

Lemma owns_perm K pt fs fs' s : fs ≡ₚ fs' → owns K pt fs s → owns K pt fs' s.
Proof.
  intros HP [Hnd Hu Ht]. constructor.
  - by rewrite <- HP.
  - intros q. rewrite <- HP. apply Hu.
  - intros q. rewrite <- HP. apply Ht.
Qed.

Lemma space_ok_push K sp r pt s :
  maps K pt (region_pages r ++ sp_pages sp) s → owns K pt (region_ppns r ++ sp_ppns sp) s →
  Forall region_ok (regions sp) → region_ok r → space_ok K (push_region r (with_table pt sp)) s.
Proof.
  intros Hm Ho Hrs Hr. constructor; simpl.
  - rewrite sp_pages_push. eapply maps_perm; [|exact Hm]. unfold sp_pages. simpl. solve_Permutation.
  - rewrite sp_ppns_push. eapply owns_perm; [|exact Ho]. unfold sp_ppns. simpl. solve_Permutation.
  - apply Forall_app. by split; [|constructor].
Qed.

(** What a [push] that failed leaves behind: the regions as they were, and entries
    for the [new] pages whose frames have gone back. *)
Definition push_failed K sp r s sp' s' (new : list (VirtPageNum * Frame)) : Prop :=
  regions sp' = regions sp ∧ maps K (table sp') (region_pages (with_frames new r) ++ sp_pages sp) s' ∧
  (∀ q, q ∈ f_ppn <$> new.*2 → ¬ fa_used s' q) ∧
  (∀ q, fa_used s' q ↔ fa_used s q ∨ q ∈ table_pages (table sp')) ∧
  (∀ q, fa_used s q → q ∉ table_pages (table sp) → agree (page q) (fa_mem s) (fa_mem s')).

(** What [push] leaves behind. *)
Lemma AS_push_full K sp r s :
  space_ok K sp s → region_shape r → r_frames r = [] →
  wp (AS_push sp r) (λ '(res, sp') s',
    match res with
    | Ok _ => ∃ new, let r' := with_frames new r in
        sp' = push_region r' (with_table (table sp') sp) ∧ space_ok K sp' s' ∧
        grew (table sp) s (table sp') s' (region_ppns r') ∧ fa_avail s - 3 * region_size r ≤ fa_avail s' ∧
        (∀ x, vpn (r_start r) ≤ x < vpn (r_end r) → x ∉ (sp_pages sp).*1)
    | Err e => ∃ new k, push_failed K sp r s sp' s' new ∧ 0 ≤ k < region_size r ∧ new.*1 = seqZ (vpn (r_start r)) k ∧
        (e = OutOfMemory ∧ fa_avail s < 3 * (k + 1) ∨ ∃ x, vpn (r_start r) ≤ x < vpn (r_end r) ∧ x ∈ (sp_pages sp).*1)
    end) s.
Proof.
  intros [Hm Ho Hrs] Hsh Hnil. unfold AS_push. wp_step.
  eapply wp_mono; [|by apply (map_into_full K (table sp) r (sp_pages sp) (sp_ppns sp) s)].
  intros [res [r' pt']] s1 (new & -> & Hm1 & Ho1 & Hg1 & Hord & Hres). destruct res as [[]|e].
  - destruct Hres as [Hres Hav]. apply wp_ret. exists new. cbn zeta. split_and!; [done|by apply space_ok_push|done|done|].
    intros x Hx. pose proof (mp_vpn _ _ _ _ Hm1) as Hnd. rewrite fmap_app in Hnd. apply NoDup_app in Hnd as (_ & Hnd & _).
    apply Hnd. rewrite region_pages_vpns, (ro_pages _ Hres). apply elem_of_seqZ. cbn [r_start r_end with_frames]. lia.
  - destruct Hres as (k & Hk & Hks & He). wp_step. unfold Region_drop.
    eapply wp_mono; [|apply (drop_owned K pt' _ _ (sp_ppns sp) s1 Hm1 Ho1 Hord)].
    cbv beta. intros _ s2 (Hm2 & Ho2 & Hu2 & Ha2). apply wp_ret. exists new, k. split; [|done].
    assert (Hused : ∀ q, fa_used s2 q ↔ fa_used s q ∨ q ∈ table_pages pt').
    { intros q. rewrite Hu2, (gw_used _ _ _ _ _ Hg1). unfold region_ppns. simpl.
      pose proof (gw_fresh _ _ _ _ _ Hg1 q) as Hf. unfold region_ppns in Hf. simpl in Hf.
      split; [tauto|]. intros [?|?]; (split; [tauto|]); intros Hin; apply Hf in Hin; tauto. }
    split_and!; [done|done| |exact Hused|].
    + intros q Hq [_ Hn]%Hu2. done.
    + intros q Hq Ht. etransitivity; [by apply (gw_agree _ _ _ _ _ Hg1)|]. apply Ha2, Hused. by left.
Qed.

(** Where nothing is mapped, only memory can run out. *)
Lemma AS_push_spec K sp r s :
  space_ok K sp s → region_shape r → r_frames r = [] →
  (∀ x, vpn (r_start r) ≤ x < vpn (r_end r) → x ∉ (sp_pages sp).*1) →
  wp (AS_push sp r) (λ '(res, sp') s',
    match res with
    | Ok _ => ∃ new, let r' := with_frames new r in
        sp' = push_region r' (with_table (table sp') sp) ∧ space_ok K sp' s' ∧
        grew (table sp) s (table sp') s' (region_ppns r') ∧ fa_avail s - 3 * region_size r ≤ fa_avail s'
    | Err e => e = OutOfMemory ∧ ∃ new k, push_failed K sp r s sp' s' new ∧ 0 ≤ k < region_size r ∧
        new.*1 = seqZ (vpn (r_start r)) k ∧ fa_avail s < 3 * (k + 1)
    end) s.
Proof.
  intros Hok Hsh Hnil Hfree. eapply wp_mono; [|by apply (AS_push_full K sp r s)].
  intros [[[]|e] sp'] s'; cbv beta iota; [intros (new & ? & ? & ? & ? & _); by exists new|].
  intros (new & k & Hf & Hk & Hks & [[-> Hfew]|(x & Hx & Hin)]); [|by apply Hfree in Hin].
  split; [done|]. exists new, k. done.
Qed.

(** ** A new space *)

Definition kernel_tables (kernel : AddressSpace) : Z → Prop := λ q, q ∈ table_pages (table kernel).

(** [sp] was created from [s]: empty, with the kernel half, in frames nobody held. *)
Record new_space (kernel : AddressSpace) s sp s' : Prop := {
  ns_regions : regions sp = [];
  ns_ok : space_ok (kernel_tables kernel) sp s';
  ns_kernel : pt_kernel (table kernel) s';
  ns_used : ∀ q, fa_used s' q ↔ fa_used s q ∨ q ∈ table_pages (table sp);
  ns_fresh : ∀ q, q ∈ table_pages (table sp) → ¬ fa_used s q;
  ns_agree : ∀ q, fa_used s q → agree (page q) (fa_mem s) (fa_mem s');
  ns_avail : fa_avail s' = fa_avail s - 1;
}.

Lemma kernel_tables_used kernel s q : pt_kernel (table kernel) s → kernel_tables kernel q → fa_used s q.
Proof. intros [role Hok] Hq. by apply (pt_frame_used 512 role (table kernel)). Qed.

Lemma pt_kernel_stable pt s s' : pt_kernel pt s → fa_inv s' →
  (∀ q, q ∈ table_pages pt → fa_used s' q ∧ agree (page q) (fa_mem s) (fa_mem s')) → pt_kernel pt s'.
Proof.
  intros [role Hok] Hinv Hst. exists role. apply (pt_ok_stable 512 role pt s); [done|done|].
  intros q pa Hq. apply Hst. pose proof (pt_path _ _ _ _ _ _ Hok Hq) as Hpb.
  apply (pt_frames _ _ _ _ Hok q pa Hq). destruct pa as [|i pa]; [done|].
  apply Forall_cons in Hpb as [Hi _]. simpl. unfold index_ok in Hi. lia.
Qed.

Lemma share_upper_half_avail pt kernel s : wlp (share_upper_half pt kernel) (λ _ s', fa_avail s' = fa_avail s) s.
Proof. unfold share_upper_half, update_mem. intros [] s' [= <-]. apply fa_avail_set. Qed.

Lemma wp_new_space kernel s {A} (none : ST S A) (some : AddressSpace → ST S A) (Q : A → S → Prop) :
  fa_inv s → pt_kernel (table kernel) s → (fa_avail s = 0 → wp none Q s) →
  (∀ sp s', new_space kernel s sp s' → wp (some sp) Q s') →
  wp (c ← AddressSpace_new;
      match c with
      | None => none
      | Some sp => _ ← map_kernel_half sp (Some kernel); some sp
      end) Q s.
Proof.
  intros Hinv Hk Hnone Hsome. unfold AddressSpace_new. wp_step. wp_step.
  apply (PageTable_new_spec 256); [lia|done|intros Hz; by apply wp_ret, Hnone|].
  intros pt s1 Hlow Hview Hf Hpages Hz. apply wp_ret. cbn [fmap option_fmap option_map].
  assert (HK : ∀ q, kernel_tables kernel q → fa_used s q) by (intros; by eapply kernel_tables_used).
  assert (Hdis : ∀ q, q ∈ table_pages pt → q ∉ table_pages (table kernel)).
  { intros q. rewrite Hpages. intros ->%list_elem_of_singleton Hin. by apply (fp_new _ _ _ Hf), HK. }
  assert (Hk1 : pt_kernel (table kernel) s1).
  { apply (pt_kernel_stable _ s); [done|apply Hf|]. intros q Hq%HK.
    split; [apply (fp_used _ _ _ Hf); by left|by apply (fp_agree _ _ _ Hf)]. }
  unfold map_kernel_half. wp_step. wp_step. eapply wp_lift; [done|]. wp_step. cbn [table].
  eapply wp_mono; [|apply wp_wlp_conj; [by apply (share_upper_half_spec pt (table kernel) s1)|apply share_upper_half_avail]].
  cbv beta. intros _ s2 [(Hwf2 & Hk2 & Hot & Hv2 & _) Hav2]. apply wp_ret, Hsome.
  assert (Hu2 : ∀ q, fa_used s2 q ↔ fa_used s q ∨ q ∈ table_pages pt).
  { intros q. rewrite (ot_used _ _ _ _ Hot), (fp_used _ _ _ Hf), Hpages, list_elem_of_singleton. tauto. }
  constructor; cbn [table]; try done.
  - constructor; [constructor|constructor|constructor]; cbn [table]; try done.
    + intros q Hq. split; [apply Hu2; left; by apply HK|]. intros Hin. by apply (Hdis q).
    + constructor.
    + by intros v p f ?%elem_of_nil.
    + by intros v p f ?%elem_of_nil.
    + intros v Hv _. rewrite Hv2, decide_False; [apply Hview|]. pose proof (user_owned v Hv) as Ho.
      destruct (indices v) as [|i rest]; cbn [nth owned] in *; lia.
    + constructor.
    + by intros q ?%elem_of_nil.
    + by intros q ?%elem_of_nil.
  - intros q. rewrite Hpages, list_elem_of_singleton. intros ->. apply Hf.
  - intros q Hq. etransitivity; [by apply (fp_agree _ _ _ Hf)|]. apply (ot_agree _ _ _ _ Hot).
    + apply (fp_used _ _ _ Hf). by left.
    + rewrite Hpages. intros ->%list_elem_of_singleton. by apply (fp_new _ _ _ Hf).
  - by rewrite Hav2, (fp_avail _ _ _ Hf).
Qed.

(** ** A space under construction *)

(** [sp] is being built from [s0] in frames nobody held; [L] are entries left in
    its table by a region that failed to map. *)
Record building K s0 L sp s : Prop := {
  bd_maps : maps K (table sp) (L ++ sp_pages sp) s;
  bd_owns : owns K (table sp) (sp_ppns sp) s;
  bd_regions : Forall region_ok (regions sp);
  bd_used : ∀ q, fa_used s q ↔ fa_used s0 q ∨ q ∈ table_pages (table sp) ∨ q ∈ sp_ppns sp;
  bd_fresh : ∀ q, q ∈ table_pages (table sp) ∨ q ∈ sp_ppns sp → ¬ fa_used s0 q;
  bd_agree : ∀ q, fa_used s0 q → agree (page q) (fa_mem s0) (fa_mem s);
}.

(** The state after giving up: as if construction had never begun. *)
Definition restored s0 s : Prop :=
  fa_inv s ∧ (∀ q, fa_used s q ↔ fa_used s0 q) ∧
  (∀ q, fa_used s0 q → agree (page q) (fa_mem s0) (fa_mem s)).

Lemma building_ok K s0 sp s : building K s0 [] sp s → space_ok K sp s.
Proof. intros []. by constructor. Qed.

Lemma new_space_building kernel s sp s' :
  new_space kernel s sp s' → building (kernel_tables kernel) s [] sp s'.
Proof.
  intros [Hr [Hm Ho Hrs] _ Hu Hf Ha]. assert (Hp : sp_ppns sp = []) by (unfold sp_ppns; by rewrite Hr).
  constructor; rewrite ?Hp in *; try done.
  - intros q. rewrite Hu. pose proof (not_elem_of_nil q). tauto.
  - intros q [?|?%elem_of_nil]; [by apply Hf|done].
Qed.

Lemma building_drop K s0 L sp s :
  building K s0 L sp s → wp (AddressSpace_drop sp) (λ _ s', restored s0 s') s.
Proof.
  intros [Hm Ho Hr Hu Hf Ha]. eapply wp_mono; [|apply (AddressSpace_drop_spec K sp L [] s Hr)].
  - cbv beta. intros _ s' (Hi & Hu' & Ha'). assert (Hus : ∀ q, fa_used s' q ↔ fa_used s0 q).
    { intros q. rewrite Hu', Hu. pose proof (Hf q). tauto. }
    split; [done|]. split; [done|]. intros q Hq. etransitivity; [by apply Ha|]. by apply Ha', Hus.
  - eapply maps_perm; [|exact Hm]. solve_Permutation.
  - by rewrite app_nil_r.
Qed.

(** A region that failed to map goes out of scope. *)
Lemma building_fail K s0 sp s pt1 s1 cp :
  building K s0 [] sp s → grew (table sp) s pt1 s1 (region_ppns cp) →
  maps K pt1 (region_pages cp ++ sp_pages sp) s1 → owns K pt1 (region_ppns cp ++ sp_ppns sp) s1 →
  (∀ f, f ∈ (r_frames cp).*2 → f_order f = 0) →
  wp (Region_drop cp) (λ _ s2, building K s0 (region_pages cp) (with_table pt1 sp) s2) s1.
Proof.
  intros [Hm Ho Hr Hu Hf Ha] Hg Hm1 Ho1 Hord. unfold Region_drop.
  eapply wp_mono; [|apply (drop_owned K pt1 _ _ (sp_ppns sp) s1 Hm1 Ho1 Hord)].
  cbv beta. intros _ s2 (Hm2 & Ho2 & Hu2 & Ha2).
  assert (Hus : ∀ q, fa_used s2 q ↔ fa_used s0 q ∨ q ∈ table_pages pt1 ∨ q ∈ sp_ppns sp).
  { intros q. rewrite Hu2, (gw_used _ _ _ _ _ Hg), Hu. pose proof (gw_sub _ _ _ _ _ Hg q).
    pose proof (gw_fresh _ _ _ _ _ Hg q) as Hfr. pose proof (Hu q). unfold region_ppns in *. tauto. }
  constructor; cbn [table regions with_table]; try done.
  - intros q Hq Hs0. assert (fa_used s q) by (apply Hu; by left). destruct Hq as [[?|?]%(gw_new _ _ _ _ _ Hg)|Hq]; [|done|].
    + apply (Hf q); tauto.
    + apply (Hf q); [by right|done].
  - intros q Hq. assert (fa_used s q) by (apply Hu; by left).
    etransitivity; [by apply Ha|]. etransitivity; [apply (gw_agree _ _ _ _ _ Hg); [done|pose proof (Hf q); tauto]|].
    apply Ha2, Hus. by left.
Qed.

(** A region that was mapped, and then written, joins the space. *)
Lemma building_push K s0 sp s pt1 s1 s2 cp :
  building K s0 [] sp s → grew (table sp) s pt1 s1 (region_ppns cp) →
  maps K pt1 (region_pages cp ++ sp_pages sp) s1 → owns K pt1 (region_ppns cp ++ sp_ppns sp) s1 →
  region_ok cp → fa_inv s2 → (∀ q, fa_used s2 q ↔ fa_used s1 q) →
  (∀ q, q ∉ region_ppns cp → agree (page q) (fa_mem s1) (fa_mem s2)) →
  building K s0 [] (push_region cp (with_table pt1 sp)) s2 ∧
  (∀ q, fa_used s0 q ∨ q ∈ sp_ppns sp → agree (page q) (fa_mem s) (fa_mem s2)).
Proof.
  intros [Hm Ho Hr Hu Hf Ha] Hg Hm1 Ho1 Hcp Hi2 Hu2 Ha2.
  assert (Hm2 : maps K pt1 (region_pages cp ++ sp_pages sp) s2).
  { eapply maps_stable; [exact Hm1|done|]. intros q Hq Huq. split; [by apply Hu2|]. apply Ha2. intros Hin.
    destruct (ow_tables _ _ _ _ Ho1 q) as [? ?]; [apply elem_of_app; by left|]. by destruct Hq. }
  assert (Ho2 : owns K pt1 (region_ppns cp ++ sp_ppns sp) s2).
  { destruct Ho1 as [? Hu1 ?]. constructor; [done| |done]. intros q Hq. by apply Hu2, Hu1. }
  assert (Hpush : ∀ q, q ∈ sp_ppns (push_region cp (with_table pt1 sp)) ↔ q ∈ sp_ppns sp ∨ q ∈ region_ppns cp).
  { intros q. rewrite sp_ppns_push. unfold sp_ppns. simpl. apply elem_of_app. }
  assert (Hkeep : ∀ q, fa_used s0 q ∨ q ∈ sp_ppns sp → agree (page q) (fa_mem s) (fa_mem s2)).
  { intros q Hq. assert (Hus : fa_used s q) by (apply Hu; tauto).
    etransitivity; [apply (gw_agree _ _ _ _ _ Hg q Hus)|apply Ha2].
    - destruct Hq as [Hq|Hq]; [pose proof (Hf q); tauto|]. by apply (ow_tables _ _ _ _ Ho).
    - intros Hin. by apply (gw_fresh _ _ _ _ _ Hg) in Hin as [? _]. }
  split; [|exact Hkeep]. destruct (space_ok_push K sp cp pt1 s2 Hm2 Ho2 Hr Hcp). constructor; try done.
  - intros q. rewrite Hu2, (gw_used _ _ _ _ _ Hg), Hu, Hpush. simpl. pose proof (gw_sub _ _ _ _ _ Hg q). tauto.
  - intros q. rewrite Hpush. simpl. intros Hq Huq. assert (Hus : fa_used s q) by (apply Hu; by left).
    destruct Hq as [[Hq|Hq]%(gw_new _ _ _ _ _ Hg)|[Hq|[Hq _]%(gw_fresh _ _ _ _ _ Hg)]]; [|done| |done];
      apply (Hf q); tauto.
  - intros q Hq. etransitivity; [by apply Ha|]. apply Hkeep. by left.
Qed.
End ops.
