(* ===== verification/SpaceFork.v ===== *)
(** * Duplicating an address space

    [duplicate] is the memory half of [fork]: same layout, fresh frames, same
    contents, nothing of the parent touched, and nothing leaked when it fails. *)
From stdpp Require Import base numbers functions sets list.
From Stdlib Require Import Lia.
From S2P Require Import Prelude Memory Config Addr FrameIface.
From S2P Require Import PageTable PageTableInv PageTableWalk PageTableOps Space SpaceInv SpaceMap SpaceOps.

(** Page [p'] in [m'] holds what page [p] held in [m]. *)
Definition page_copy (m : mem) (p : PhysPageNum) (m' : mem) (p' : PhysPageNum) : Prop :=
  ∀ d, 0 ≤ d < PAGE_SIZE → m' (page_base p' + d) = m (page_base p + d).

Lemma page_copy_agree m p m' m'' p' :
  agree (page p') m' m'' → page_copy m p m' p' → page_copy m p m'' p'.
Proof. intros Ha Hc d Hd. rewrite (Ha (page_base p' + d)); [by apply Hc|]. unfold page, span. lia. Qed.

Lemma page_copy_src m m0 p m' p' :
  agree (page p) m m0 → page_copy m0 p m' p' → page_copy m p m' p'.
Proof. intros Ha Hc d Hd. rewrite Hc, (Ha (page_base p + d)) by done || (unfold page, span; lia). done. Qed.

(** [r'] has the layout of [r] and, page by page, its contents. *)
Record region_copy (m : mem) (r : Region) (m' : mem) (r' : Region) : Prop := {
  rc_start : r_start r' = r_start r;
  rc_end : r_end r' = r_end r;
  rc_perm : r_perm r' = r_perm r;
  rc_pages : ∀ v f f', (v, f) ∈ r_frames r → (v, f') ∈ r_frames r' → page_copy m (f_ppn f) m' (f_ppn f');
}.

Lemma region_copy_agree m r m' m'' r' :
  (∀ q, q ∈ region_ppns r' → agree (page q) m' m'') → region_copy m r m' r' → region_copy m r m'' r'.
Proof.
  intros Ha [? ? ? Hp]. constructor; try done. intros v f f' Hf Hf'. eapply page_copy_agree; [|by eapply Hp].
  apply Ha. unfold region_ppns. apply list_elem_of_fmap_2, list_elem_of_fmap. by exists (v, f').
Qed.

Lemma region_ppns_inj r v f v' f' :
  NoDup (region_ppns r) → (v, f) ∈ r_frames r → (v', f') ∈ r_frames r → f_ppn f = f_ppn f' → v = v' ∧ f = f'.
Proof.
  unfold region_ppns. intros Hnd Hf Hf' He.
  apply list_elem_of_lookup in Hf as [i Hi]. apply list_elem_of_lookup in Hf' as [j Hj].
  assert (i = j) as <-.
  { apply (NoDup_lookup _ i j (f_ppn f) Hnd); rewrite !list_lookup_fmap; [by rewrite Hi|by rewrite Hj, He]. }
  rewrite Hi in Hj. by injection Hj.
Qed.

Lemma Forall2_weaken_in {A B} (P Q : A → B → Prop) l l' :
  Forall2 P l l' → (∀ x y, y ∈ l' → P x y → Q x y) → Forall2 Q l l'.
Proof.
  induction 1 as [|x y l l' Hxy H2 IH]; intros Hpq; [constructor|]. constructor.
  - apply Hpq; [apply list_elem_of_here|done].
  - apply IH. intros x' y' Hy. by apply Hpq, list_elem_of_further.
Qed.

Section fork.
Context {S : Type} `{FrameAllocator S, !FrameAllocatorLaws S}.
Implicit Types (s : S) (pt : PageTable) (K : Z → Prop) (sp : AddressSpace).

(** Writing anything into a handed-out page. *)
Lemma write_page s p m :
  fa_inv s → fa_used s p → (∀ a, ¬ page p a → m a = fa_mem s a) →
  let s' := fa_set_mem m s in
  fa_inv s' ∧ (∀ q, fa_used s' q ↔ fa_used s q) ∧ (∀ q, q ≠ p → agree (page q) (fa_mem s) (fa_mem s')).
Proof.
  intros Hinv Hu Hm. destruct (fa_write_ok s m Hinv) as [Hi Hus].
  { intros a Hne. exists p. split; [done|]. destruct (decide (page p a)) as [|Hp]; [done|].
    exfalso. by apply Hne, Hm. }
  split_and!; [done|done|]. intros q Hq a Ha. rewrite fa_mem_set. apply Hm. intros Hp.
  by apply Hq, (page_disjoint q p a).
Qed.

Lemma copy_page_spec s p q :
  fa_inv s → fa_used s p → fa_used s q → p ≠ q →
  let s' := fa_set_mem (copy (fa_mem s) (as_ptr p) (as_ptr q) PAGE_SIZE) s in
  fa_inv s' ∧ (∀ x, fa_used s' x ↔ fa_used s x) ∧
  (∀ x, x ≠ q → agree (page x) (fa_mem s) (fa_mem s')) ∧ page_copy (fa_mem s) p (fa_mem s') q.
Proof.
  intros Hinv Hp Hq Hne. pose proof (fa_used_range s p Hinv Hp). pose proof (fa_used_range s q Hinv Hq).
  cbn zeta. rewrite !as_ptr_eq by done.
  destruct (write_page s q (copy (fa_mem s) (p * PAGE_SIZE + VIRT_OFFSET) (q * PAGE_SIZE + VIRT_OFFSET) PAGE_SIZE) Hinv Hq)
    as (Hi & Hu & Ha).
  { intros a Hpa. unfold copy. unfold page, page_base, span in Hpa. case_bool; simpl; try done. lia. }
  split_and!; [done..|]. intros d Hd. rewrite fa_mem_set. unfold copy, page_base.
  case_bool; simpl; try lia. f_equal. lia.
Qed.

Lemma copy_pages_spec r src : ∀ s,
  fa_inv s → NoDup src.*1 → NoDup (r_frames r).*1 → NoDup (region_ppns r) →
  (∀ v, v ∈ src.*1 → v ∈ (r_frames r).*1) →
  (∀ q, q ∈ region_ppns r → fa_used s q) →
  (∀ f, f ∈ src.*2 → fa_used s (f_ppn f) ∧ f_ppn f ∉ region_ppns r) →
  wp (copy_pages src r) (λ res s', res = Some tt ∧ fa_inv s' ∧ (∀ q, fa_used s' q ↔ fa_used s q) ∧
    (∀ q, q ∉ region_ppns r → agree (page q) (fa_mem s) (fa_mem s')) ∧
    (∀ v f', v ∉ src.*1 → (v, f') ∈ r_frames r → agree (page (f_ppn f')) (fa_mem s) (fa_mem s')) ∧
    (∀ v f f', (v, f) ∈ src → (v, f') ∈ r_frames r →
       page_copy (fa_mem s) (f_ppn f) (fa_mem s') (f_ppn f'))) s.
Proof.
  induction src as [|[v f] src IH]; intros s Hinv Hnd Hndr Hndp Hsub Hown Hsrc; cbn [copy_pages].
  { apply wp_ret. split_and!; try done. intros v f f' Hin. by apply elem_of_nil in Hin. }
  rewrite fmap_cons in *. apply NoDup_cons in Hnd as [Hv Hnd]. simpl in Hv.
  assert (Hvr : v ∈ (r_frames r).*1) by apply Hsub, list_elem_of_here.
  apply list_elem_of_fmap in Hvr as ([v' dst] & Hv' & Hdst). simpl in Hv'. subst v'.
  rewrite (bt_get_Some v _ dst Hndr Hdst).
  assert (Hdp : f_ppn dst ∈ region_ppns r).
  { unfold region_ppns. apply list_elem_of_fmap_2, list_elem_of_fmap. by exists (v, dst). }
  destruct (Hsrc f ltac:(apply list_elem_of_here)) as [Hfu Hfr].
  destruct (copy_page_spec s (f_ppn f) (f_ppn dst) Hinv Hfu (Hown _ Hdp)) as (Hi1 & Hu1 & Ha1 & Hc1); [by intros Heq; rewrite Heq in Hfr|].
  wp_step. apply wp_update_mem. set (s1 := fa_set_mem _ s) in *.
  assert (Hout : ∀ q, q ∉ region_ppns r → agree (page q) (fa_mem s) (fa_mem s1)).
  { intros q Hq. apply Ha1. by intros ->. }
  eapply wp_mono; [|apply (IH s1); try done].
  - cbv beta. intros res s2 (-> & Hi2 & Hu2 & Ha2 & Hk2 & Hc2). split_and!; try done.
    + intros q. by rewrite Hu2, Hu1.
    + intros q Hq. etransitivity; [by apply Hout|by apply Ha2].
    + intros v' f' [Hne Hnin]%not_elem_of_cons Hf'. etransitivity; [|by eapply Hk2]. apply Ha1.
      intros He. apply Hne. by destruct (region_ppns_inj r v' f' v dst Hndp Hf' Hdst He).
    + intros v' f0 f' [[= -> ->]|Hin]%elem_of_cons Hf'.
      * assert (f' = dst) as ->.
        { pose proof (bt_get_Some v _ f' Hndr Hf') as Hg. rewrite (bt_get_Some v _ dst Hndr Hdst) in Hg. by injection Hg. }
        eapply page_copy_agree; [by eapply Hk2|done].
      * eapply page_copy_src; [|by eapply Hc2]. apply Hout, Hsrc, list_elem_of_further, list_elem_of_fmap.
        by exists (v', f0).
  - intros v' Hv'. by apply Hsub, list_elem_of_further.
  - intros q Hq. apply Hu1. by apply Hown.
  - intros f' Hf'. destruct (Hsrc f' ltac:(by apply list_elem_of_further)) as [? ?]. split; [by apply Hu1|done].
Qed.

(** ** The clone under construction *)

Record cloning K sp0 s0 (todo : list Region) child s : Prop := {
  cl_build : building K s0 [] child s;
  cl_copied : ∃ done, regions sp0 = done ++ todo ∧
    Forall2 (λ r r', region_copy (fa_mem s0) r (fa_mem s) r') done (regions child);
}.

Lemma Region_new_same r : region_ok r →
  ∃ cp, Region_new (r_start r) (r_end r) Framed (r_perm r) = Ret cp ∧ region_shape cp ∧ r_frames cp = [] ∧
    r_perm cp = r_perm r ∧ r_start cp = r_start r ∧ r_end cp = r_end r.
Proof.
  intros [[_ Hp [a Ha] [b Hb] Hr Ht] _ _].
  destruct (Region_new_shape (r_start r) (r_end r) (r_perm r) Hr Ht Hp) as (cp & He & Hs & Hf & Hpm & Hst & Hen).
  exists cp. split_and!; try done.
  - rewrite Hst, Ha, Z.mod_mul by done. lia.
  - rewrite Hen, Hb. f_equal. unfold div_ceil, PAGE_SIZE. Z.div_mod_to_equations. lia.
Qed.

(** One more region mapped and copied. *)
Lemma cloning_step K sp0 s0 region todo child s pt1 s1 s2 cp :
  space_ok K sp0 s0 → cloning K sp0 s0 (region :: todo) child s →
  grew (table child) s pt1 s1 (region_ppns cp) →
  maps K pt1 (region_pages cp ++ sp_pages child) s1 → owns K pt1 (region_ppns cp ++ sp_ppns child) s1 →
  region_ok cp → r_start cp = r_start region → r_end cp = r_end region → r_perm cp = r_perm region →
  fa_inv s2 → (∀ q, fa_used s2 q ↔ fa_used s1 q) →
  (∀ q, q ∉ region_ppns cp → agree (page q) (fa_mem s1) (fa_mem s2)) →
  (∀ v f f', (v, f) ∈ r_frames region → (v, f') ∈ r_frames cp →
     page_copy (fa_mem s1) (f_ppn f) (fa_mem s2) (f_ppn f')) →
  cloning K sp0 s0 todo (push_region cp (with_table pt1 child)) s2.
Proof.
  intros Hsp [Hb (dn & Hdone & H2)] Hg Hm1 Ho1 Hcp Hst Hen Hpm Hi2 Hu2 Ha2 Hcopy.
  destruct (building_push K s0 child s pt1 s1 s2 cp Hb Hg Hm1 Ho1 Hcp Hi2 Hu2 Ha2) as [Hb2 Hkeep].
  constructor; [done|].
  - exists (dn ++ [region]). split; [by rewrite <- app_assoc|]. simpl. apply Forall2_app; [|constructor; [|constructor]].
    + eapply Forall2_weaken_in; [exact H2|]. intros r r' Hin Hrc. eapply region_copy_agree; [|exact Hrc].
      intros q Hq. apply Hkeep. right. unfold sp_ppns. apply list_elem_of_bind. by exists r'.
    + constructor; try done. intros v f f' Hf Hf'. eapply page_copy_src; [|by eapply Hcopy].
      assert (Hfu : fa_used s0 (f_ppn f)).
      { apply (ow_used _ _ _ _ (so_owns _ _ _ Hsp)). unfold sp_ppns. apply list_elem_of_bind. exists region.
        split; [apply list_elem_of_fmap_2, list_elem_of_fmap; by exists (v, f)|]. rewrite Hdone. set_solver. }
      etransitivity; [by apply (bd_agree _ _ _ _ _ Hb)|].
      apply (gw_agree _ _ _ _ _ Hg); [apply (bd_used _ _ _ _ _ Hb); by left|].
      pose proof (bd_fresh _ _ _ _ _ Hb (f_ppn f)). tauto.
Qed.

Lemma duplicate_regions_spec K sp0 s0 todo : ∀ child s,
  space_ok K sp0 s0 → cloning K sp0 s0 todo child s →
  wp (duplicate_regions todo child) (λ r s', match r with
    | Some child' => cloning K sp0 s0 [] child' s'
    | None => restored s0 s'
    end) s.
Proof.
  induction todo as [|region todo IH]; intros child s Hsp Hc; cbn [duplicate_regions]; [by apply wp_ret|].
  pose proof Hc as [Hb (dn & Hdone & H2)]. pose proof (building_ok _ _ _ _ Hb) as [Hcm Hco Hcr].
  pose proof (so_regions _ _ _ Hsp) as Hall. rewrite Hdone in Hall.
  apply Forall_app in Hall as [Hdn [Hr Htodo]%Forall_cons].
  rewrite (rs_framed _ (ro_shape _ Hr)).
  destruct (Region_new_same region Hr) as (cp & Hnew & Hsh & Hnil & Hpm & Hst & Hen).
  wp_step. eapply wp_lift; [exact Hnew|].
  wp_step. eapply wp_mono; [|by apply (map_into_spec K (table child) cp (sp_pages child) (sp_ppns child) s)].
  intros [res [cp1 pt1]] s1 (new & -> & Hm1 & Ho1 & Hg & Hord & Hres). cbn zeta.
  destruct res as [[]|e].
  2: { wp_step. eapply wp_mono; [|by apply (building_fail K s0 child s pt1 s1 (with_frames new cp))].
       cbv beta. intros _ s2 Hb2. wp_step. eapply wp_mono; [|exact (building_drop _ _ _ _ _ Hb2)].
       cbv beta. intros _ s3 Hs3. by apply wp_ret. }
  specialize (Hres eq_refl).
  assert (Hown1 : ∀ q, q ∈ region_ppns (with_frames new cp) → fa_used s1 q).
  { intros q Hq. apply (ow_used _ _ _ _ Ho1), elem_of_app. by left. }
  wp_step. eapply wp_mono; [|apply (copy_pages_spec (with_frames new cp) (r_frames region) s1)].
  - cbv beta. intros r s2 (-> & Hi2 & Hu2 & Ha2 & _ & Hc2). apply IH; [done|].
    eapply (cloning_step K sp0 s0 region todo child s pt1 s1 s2); try done; by destruct Hres.
  - by eapply maps_inv.
  - by apply region_ok_nodup.
  - by apply region_ok_nodup.
  - pose proof (ow_nodup _ _ _ _ Ho1) as Hnd. by apply NoDup_app in Hnd as (? & _).
  - intros v. rewrite (ro_pages _ Hr), (ro_pages _ Hres). simpl. by rewrite Hst, Hen.
  - done.
  - intros f Hf.
    assert (Hfu : fa_used s0 (f_ppn f)).
    { apply (ow_used _ _ _ _ (so_owns _ _ _ Hsp)). unfold sp_ppns. apply list_elem_of_bind. exists region.
      split; [by apply list_elem_of_fmap_2|]. rewrite Hdone. set_solver. }
    assert (Hfs : fa_used s (f_ppn f)) by (apply (bd_used _ _ _ _ _ Hb); by left).
    split; [apply (gw_used _ _ _ _ _ Hg); by left|].
    intros Hin. by apply (gw_fresh _ _ _ _ _ Hg) in Hin as [? _].
Qed.

(** The kernel's space, as [KERNEL_SPACE] holds it, and its tables. *)
Lemma duplicate_spec kernel sp s :
  let K := kernel_tables kernel in
  space_ok K sp s → pt_kernel (table kernel) s →
  wp (duplicate sp (Some kernel)) (λ r s', match r with
    | Some child => cloning K sp s [] child s'
    | None => restored s s'
    end) s.
Proof.
  intros K Hsp Hk. pose proof (maps_inv _ _ _ _ (so_maps _ _ _ Hsp)) as Hinv.
  unfold duplicate. apply (wp_new_space kernel); [done|done| |].
  { intros _. apply wp_ret. by split_and!. }
  intros child s' Hn. apply duplicate_regions_spec; [done|]. constructor; [by apply new_space_building|].
  exists []. split; [done|]. rewrite (ns_regions _ _ _ _ Hn). constructor.
Qed.
End fork.
