(* ===== verification/SpaceUser.v ===== *)
(** * User memory as flat bytes

    [umem] is the byte a user address holds, read off the regions and memory.
    [copy_from_user], [copy_to_user] and [read_cstr] are proved against it: the
    walks, the page-sized chunks and the direct map disappear. *)
From stdpp Require Import base numbers functions sets list.
From coqutil Require Import Byte.
From Stdlib Require Import Lia.
From S2P Require Import Prelude Memory Config Addr FrameIface.
From S2P Require Import PageTable PageTableInv PageTableWalk PageTableOps Space SpaceInv SpaceMap SpaceOps SpaceFork.

(** The kernel address of user address [a], from the regions alone. *)
Definition user_addr (sp : AddressSpace) (a : VirtAddr) : option Z :=
  match bt_get (vpn a) (sp_pages sp) with
  | Some (p, _) => Some (page_base p + a `mod` PAGE_SIZE)
  | None => None
  end.
Definition umem (sp : AddressSpace) (m : mem) (a : VirtAddr) : option byte := m <$> user_addr sp a.

(** [a] lies in a page of a region that user code may write. *)
Definition writable (sp : AddressSpace) (a : VirtAddr) : bool :=
  match bt_get (vpn a) (sp_pages sp) with
  | Some (_, f) => contains f (Z.lor Flags.WRITE Flags.USER)
  | None => false
  end.

(** What [copy_from_user] asks of an address: it lies below [USER_MAX_ADDR] in a
    mapped page.  The page's flags play no part. *)
Definition user_mapped (sp : AddressSpace) (a : Z) : bool :=
  (a <? USER_MAX_ADDR) && match bt_get (vpn a) (sp_pages sp) with Some _ => true | None => false end.
Definition can_write (sp : AddressSpace) (a : Z) : bool := (a <? USER_MAX_ADDR) && writable sp a.

(** ** Arithmetic of a chunk *)

Lemma vpn_add a i : 0 ≤ i → a `mod` PAGE_SIZE + i < PAGE_SIZE → vpn (a + i) = vpn a.
Proof. intros. rewrite !vpn_div. unfold PAGE_SIZE in *. Z.div_mod_to_equations. lia. Qed.

Lemma mod_add a i : 0 ≤ i → a `mod` PAGE_SIZE + i < PAGE_SIZE → (a + i) `mod` PAGE_SIZE = a `mod` PAGE_SIZE + i.
Proof. intros. unfold PAGE_SIZE in *. Z.div_mod_to_equations. lia. Qed.

Lemma vpn_split a b : vpn a = vpn b → a - a `mod` PAGE_SIZE = b - b `mod` PAGE_SIZE.
Proof. rewrite !vpn_div. unfold PAGE_SIZE. intros. Z.div_mod_to_equations. lia. Qed.

Lemma user_vpn_addr a : 0 ≤ a < USER_MAX_ADDR → user_vpn (vpn a).
Proof. intros. unfold user_vpn. rewrite vpn_div. unfold PAGE_SIZE, USER_MAX_ADDR in *. Z.div_mod_to_equations. lia. Qed.

Lemma slice_length {A} (l : list A) from n :
  0 ≤ from → 0 ≤ n → from + n ≤ Z.of_nat (length l) → length (slice l from n) = Z.to_nat n.
Proof. intros. unfold slice. rewrite length_take, length_drop. lia. Qed.

Lemma slice_lookup {A} (l : list A) from n (i : nat) :
  0 ≤ from → Z.of_nat i < n → slice l from n !! i = l !! (Z.to_nat from + i)%nat.
Proof. intros. unfold slice. rewrite lookup_take_lt by lia. apply lookup_drop. Qed.

(** VALID, ACCESSED and DIRTY do not matter to the permission test. *)
Lemma contains_leaf f : contains (leaf_flags f) (Z.lor Flags.WRITE Flags.USER) = contains f (Z.lor Flags.WRITE Flags.USER).
Proof.
  unfold contains, leaf_flags. f_equal. change (Z.lor Flags.WRITE Flags.USER) with 20.
  rewrite !Z.land_lor_distr_l. change (Z.land Flags.VALID 20) with 0. change (Z.land Flags.ACCESSED 20) with 0.
  change (Z.land Flags.DIRTY 20) with 0. by rewrite !Z.lor_0_r.
Qed.

Section user.
Context {S : Type} `{FrameAllocator S, !FrameAllocatorLaws S}.
Implicit Types (s : S) (K : Z → Prop) (sp : AddressSpace).

Lemma sp_pages_ppns sp : (sp_pages sp).*2.*1 = sp_ppns sp.
Proof.
  unfold sp_pages, sp_ppns. induction (regions sp) as [|r l IH]; [done|]. cbn. rewrite !fmap_app, IH. f_equal.
  unfold region_pages, region_ppns. rewrite <- !list_fmap_compose. by apply list_fmap_ext.
Qed.

Lemma page_in_ppns sp v p f : (v, (p, f)) ∈ sp_pages sp → p ∈ sp_ppns sp.
Proof.
  intros Hin. rewrite <- sp_pages_ppns. apply list_elem_of_fmap. exists (p, f). split; [done|].
  apply list_elem_of_fmap. by exists (v, (p, f)).
Qed.

(** Distinct user pages have distinct frames. *)
Lemma sp_page_inj K sp s v p f v' f' :
  space_ok K sp s → (v, (p, f)) ∈ sp_pages sp → (v', (p, f')) ∈ sp_pages sp → v = v'.
Proof.
  intros Hok Hi Hj. pose proof (ow_nodup _ _ _ _ (so_owns _ _ _ Hok)) as Hnd. rewrite <- sp_pages_ppns in Hnd.
  apply list_elem_of_lookup in Hi as [i Hi]. apply list_elem_of_lookup in Hj as [j Hj].
  assert (i = j) as <-.
  { apply (NoDup_lookup _ i j p Hnd); rewrite !list_lookup_fmap; [by rewrite Hi|by rewrite Hj]. }
  rewrite Hi in Hj. by injection Hj.
Qed.

Lemma sp_get K sp s v x : space_ok K sp s → bt_get v (sp_pages sp) = Some x ↔ (v, x) ∈ sp_pages sp.
Proof. intros Hok. split; [apply bt_get_In|]. apply bt_get_Some, (mp_vpn _ _ _ _ (so_maps _ _ _ Hok)). Qed.

(** The table agrees with the regions. *)
Lemma sp_view K sp s v : space_ok K sp s → user_vpn v →
  view (table sp) s v = (λ x, Pte_new x.1 (leaf_flags x.2)) <$> bt_get v (sp_pages sp).
Proof.
  intros Hok Hv. destruct (bt_get v (sp_pages sp)) as [[p f]|] eqn:Hg; simpl.
  - apply (mp_page _ _ _ _ (so_maps _ _ _ Hok)). by apply (sp_get K sp s).
  - apply (mp_none _ _ _ _ (so_maps _ _ _ Hok)); [done|]. by apply bt_get_None.
Qed.

Lemma user_addr_inj K sp s a b x :
  space_ok K sp s → user_addr sp a = Some x → user_addr sp b = Some x → a = b.
Proof.
  intros Hok. unfold user_addr.
  destruct (bt_get (vpn a) (sp_pages sp)) as [[p f]|] eqn:Ha; [|done].
  destruct (bt_get (vpn b) (sp_pages sp)) as [[p' f']|] eqn:Hb; [|done]. intros [= <-] [= He].
  pose proof (Z.mod_pos_bound a PAGE_SIZE ltac:(done)). pose proof (Z.mod_pos_bound b PAGE_SIZE ltac:(done)).
  assert (p' = p) as -> by (unfold page_base, PAGE_SIZE in *; lia).
  apply (sp_get K sp s _ _ Hok) in Ha. apply (sp_get K sp s _ _ Hok) in Hb.
  pose proof (sp_page_inj K sp s _ _ _ _ _ Hok Ha Hb) as Hv. apply vpn_split in Hv. lia.
Qed.

(** [space_ok] only looks at tables: writes to user frames keep it. *)
Lemma space_ok_write K sp s m :
  space_ok K sp s → (∀ a, m a ≠ fa_mem s a → ∃ q, q ∈ sp_ppns sp ∧ page q a) →
  let s' := fa_set_mem m s in
  space_ok K sp s' ∧ (∀ q, fa_used s' q ↔ fa_used s q) ∧
  (∀ q, q ∉ sp_ppns sp → agree (page q) (fa_mem s) (fa_mem s')).
Proof.
  intros [Hm Ho Hr] Hw. destruct (fa_write_ok s m (maps_inv _ _ _ _ Hm)) as [Hi Hu].
  { intros a Hne. destruct (Hw a Hne) as (q & Hq & Hp). exists q. split; [by apply (ow_used _ _ _ _ Ho)|done]. }
  assert (Ha : ∀ q, q ∉ sp_ppns sp → agree (page q) (fa_mem s) (fa_mem (fa_set_mem m s))).
  { intros q Hq a Hp. rewrite fa_mem_set. destruct (decide (m a = fa_mem s a)) as [|Hne]; [done|].
    destruct (Hw a Hne) as (q' & Hq' & Hp'). by rewrite (page_disjoint q q' a Hp Hp') in Hq. }
  split_and!; [|done|done]. constructor; [| |done].
  - eapply maps_stable; [done..|]. intros q Hq Huq. split; [by apply Hu|]. apply Ha. intros Hin.
    destruct (ow_tables _ _ _ _ Ho q Hin) as [? ?]. by destruct Hq.
  - destruct Ho as [? Hou ?]. constructor; [done| |done]. intros q Hq. by apply Hu, Hou.
Qed.

(** ** One chunk *)

(** What the walks of the copy functions return at [va]. *)
Lemma chunk_translate K sp s va :
  space_ok K sp s → 0 ≤ va < USER_MAX_ADDR →
  match bt_get (vpn va) (sp_pages sp) with
  | None => translate_addr (table sp) va s = Ret (None, s) ∧ translate (table sp) (vpn va) s = Ret (None, s)
  | Some (p, f) => ∃ pa,
      translate_addr (table sp) va s = Ret (Some pa, s) ∧
      to_virt pa = Ret (page_base p + va `mod` PAGE_SIZE) ∧
      translate (table sp) (vpn va) s = Ret (Some (Pte_new p (leaf_flags f)), s) ∧
      Pte_flags (Pte_new p (leaf_flags f)) = leaf_flags f
  end.
Proof.
  intros Hok Hva. pose proof (sp_view K sp s (vpn va) Hok (user_vpn_addr va Hva)) as Hv.
  pose proof (translate_run (table sp) (vpn va) s) as Ht. fold (view (table sp) s (vpn va)) in Ht. rewrite Hv in Ht.
  unfold translate_addr, mbind, ST_bind. rewrite Ht.
  destruct (bt_get (vpn va) (sp_pages sp)) as [[p f]|] eqn:Hg; cbn [fmap option_fmap option_map fst snd] in *; [|done].
  apply (sp_get K sp s _ _ Hok) in Hg.
  destruct (mp_range _ _ _ _ (so_maps _ _ _ Hok) _ _ _ Hg) as (_ & Hp & Hf).
  pose proof (leaf_flags_range f Hf) as Hlf. pose proof (Z.mod_pos_bound va PAGE_SIZE ltac:(done)).
  rewrite Pte_new_ppn, base_addr_eq, page_offset_mod by lia.
  rewrite u64_add_ok by (unfold U64, PAGE_SIZE in *; lia). eexists. split; [done|].
  split_and!; [|done|by apply Pte_new_flags; [lia|]].
  unfold to_virt. rewrite u64_add_ok by (unfold U64, PAGE_SIZE, VIRT_OFFSET in *; lia). f_equal.
  unfold page_base. lia.
Qed.

(** ** Writing *)

(** The bytes [[va, va+n)] of one page, stored. *)
Lemma store_chunk K sp s va p f bs :
  space_ok K sp s → 0 ≤ va → bt_get (vpn va) (sp_pages sp) = Some (p, f) →
  va `mod` PAGE_SIZE + Z.of_nat (length bs) ≤ PAGE_SIZE →
  let s' := fa_set_mem (store_bytes (fa_mem s) (page_base p + va `mod` PAGE_SIZE) bs) s in
  space_ok K sp s' ∧ (∀ q, fa_used s' q ↔ fa_used s q) ∧
  (∀ q, q ∉ sp_ppns sp → agree (page q) (fa_mem s) (fa_mem s')) ∧
  (∀ a, 0 ≤ a → umem sp (fa_mem s') a =
     if decide (va ≤ a < va + Z.of_nat (length bs)) then bs !! Z.to_nat (a - va) else umem sp (fa_mem s) a).
Proof.
  intros Hok Hva Hg Hfit. pose proof Hg as Hin. apply (sp_get K sp s _ _ Hok) in Hin.
  pose proof (Z.mod_pos_bound va PAGE_SIZE ltac:(done)) as Hmod.
  destruct (space_ok_write K sp s (store_bytes (fa_mem s) (page_base p + va `mod` PAGE_SIZE) bs) Hok) as (Hok' & Hu & Ha).
  { intros a Hne. exists p. split; [by eapply page_in_ppns|].
    destruct (decide (span (page_base p + va `mod` PAGE_SIZE) (Z.of_nat (length bs)) a)) as [Hs|Hs].
    - unfold page, span in *. lia.
    - by rewrite store_bytes_out in Hne. }
  split_and!; [done..|]. intros a Ha0. rewrite fa_mem_set. unfold umem. case_decide as Hd.
  - assert (Hv : vpn a = vpn va).
    { replace a with (va + (a - va)) by lia. apply vpn_add; lia. }
    assert (Hx : user_addr sp a = Some (page_base p + va `mod` PAGE_SIZE + Z.of_nat (Z.to_nat (a - va)))).
    { unfold user_addr. rewrite Hv, Hg. f_equal. replace a with (va + (a - va)) at 1 by lia.
      rewrite mod_add by lia. lia. }
    rewrite Hx. destruct (lookup_lt_is_Some_2 bs (Z.to_nat (a - va))) as [b Hb]; [lia|].
    cbn [fmap option_fmap option_map]. by rewrite (store_bytes_in _ _ _ _ _ Hb), Hb.
  - destruct (user_addr sp a) as [x|] eqn:Hx; [|done]. cbn [fmap option_fmap option_map]. f_equal.
    apply store_bytes_out. intros Hs. apply Hd.
    assert (Hx' : user_addr sp (va + (x - (page_base p + va `mod` PAGE_SIZE))) = Some x).
    { unfold span in Hs. unfold user_addr. rewrite vpn_add, Hg, mod_add by lia. f_equal. lia. }
    rewrite (user_addr_inj K sp s _ _ _ Hok Hx Hx'). unfold span in Hs. lia.
Qed.

Lemma can_write_page sp va i : 0 ≤ i → va `mod` PAGE_SIZE + i < PAGE_SIZE →
  writable sp (va + i) = writable sp va.
Proof. intros. unfold writable. by rewrite vpn_add. Qed.

(** From offset [copied] on, a prefix of [src] has been stored: all of it on
    success, up to the first byte the user could not write on failure. *)
Definition stored K sp (src : list byte) addr copied s (r : option unit) s' : Prop := ∃ k,
  copied ≤ k ≤ Z.of_nat (length src) ∧ space_ok K sp s' ∧ (∀ q, fa_used s' q ↔ fa_used s q) ∧
  (∀ q, q ∉ sp_ppns sp → agree (page q) (fa_mem s) (fa_mem s')) ∧
  (∀ a, 0 ≤ a → umem sp (fa_mem s') a =
     if decide (addr + copied ≤ a < addr + k) then src !! Z.to_nat (a - addr) else umem sp (fa_mem s) a) ∧
  (∀ i, copied ≤ i < k → can_write sp (addr + i) = true) ∧
  match r with
  | Some _ => k = Z.of_nat (length src)
  | None => k < Z.of_nat (length src) ∧ can_write sp (addr + k) = false
  end.

Lemma stored_stop K sp src addr copied s r :
  space_ok K sp s → 0 ≤ copied ≤ Z.of_nat (length src) →
  match r with
  | Some _ => copied = Z.of_nat (length src)
  | None => copied < Z.of_nat (length src) ∧ can_write sp (addr + copied) = false
  end → stored K sp src addr copied s r s.
Proof.
  intros Hok Hc Hr. exists copied. split_and!; try done; try lia.
  intros a _. by rewrite decide_False by lia.
Qed.

Lemma copy_to_loop_spec K sp src fuel : ∀ addr copied s,
  space_ok K sp s → 0 ≤ addr → 0 ≤ copied ≤ Z.of_nat (length src) →
  (Z.to_nat (Z.of_nat (length src) - copied) ≤ fuel)%nat →
  wp (copy_to_loop fuel sp addr copied src) (λ r s', stored K sp src addr copied s r s') s.
Proof.
  induction fuel as [|fuel IH]; intros addr copied s Hok Ha Hc Hf; cbn [copy_to_loop].
  { apply wp_ret, stored_stop; [done|done|lia]. }
  set (len := Z.of_nat (length src)) in *.
  destruct (Z.ltb_spec copied len) as [Hlt|]; [|apply wp_ret, stored_stop; [done|done|fold len; lia]].
  unfold checked_add. destruct (Z.ltb_spec (addr + copied) U64) as [Hov|Hov].
  2: { apply wp_ret, stored_stop; [done..|]. split; [done|]. unfold can_write.
       rewrite (proj2 (Z.ltb_ge _ _)); [done|]. unfold U64, USER_MAX_ADDR in *. lia. }
  set (va := addr + copied) in *. destruct (Z.leb_spec USER_MAX_ADDR va) as [Hmax|Hmax].
  { apply wp_ret, stored_stop; [done..|]. split; [done|]. unfold can_write.
    by rewrite (proj2 (Z.ltb_ge _ _)). }
  pose proof (chunk_translate K sp s va Hok ltac:(lia)) as Htr.
  destruct (bt_get (vpn va) (sp_pages sp)) as [[p f]|] eqn:Hg.
  2: { destruct Htr as [_ Ht]. wp_step. eapply wp_of_run; [exact Ht|]. apply wp_ret, stored_stop; [done..|].
       split; [done|]. fold va. unfold can_write, writable. by rewrite Hg, andb_false_r. }
  destruct Htr as (pa & Hta & Htv & Ht & Hfl). wp_step. eapply wp_of_run; [exact Ht|]. cbv beta iota. rewrite Hfl, contains_leaf.
  destruct (contains f (Z.lor Flags.WRITE Flags.USER)) eqn:Hperm; cbn [negb].
  2: { apply wp_ret, stored_stop; [done..|]. split; [done|]. fold va. unfold can_write, writable. rewrite Hg, Hperm.
       apply andb_false_r. }
  wp_step. eapply wp_of_run; [exact Hta|]. cbv beta iota. wp_step. eapply wp_lift; [exact Htv|].
  rewrite page_offset_mod. pose proof (Z.mod_pos_bound va PAGE_SIZE ltac:(done)) as Hmod.
  set (n := Z.min (PAGE_SIZE - va `mod` PAGE_SIZE) (len - copied)).
  assert (Hn : 0 < n ∧ n ≤ len - copied ∧ va `mod` PAGE_SIZE + n ≤ PAGE_SIZE) by (unfold n; lia).
  assert (Hlen : length (slice src copied n) = Z.to_nat n) by (apply slice_length; fold len; lia).
  wp_step. apply wp_update_mem.
  destruct (store_chunk K sp s va p f (slice src copied n) Hok ltac:(lia) Hg) as (Hok1 & Hu1 & Ha1 & Hm1); [rewrite Hlen; lia|].
  eapply wp_mono; [|apply (IH addr (copied + n) _ Hok1); [done|lia|lia]].
  cbv beta. intros r s2 (k & Hk & Hok2 & Hu2 & Ha2 & Hm2 & Hw2 & Hr). exists k. split_and!; try done; try lia.
  - intros q. by rewrite Hu2, Hu1.
  - intros q Hq. etransitivity; [by apply Ha1|by apply Ha2].
  - intros a Ha0. rewrite Hm2, Hm1, Hlen by done.
    destruct (decide (addr + (copied + n) ≤ a < addr + k)); [by rewrite decide_True by lia|].
    destruct (decide (va ≤ a < va + Z.of_nat (Z.to_nat n))) as [Hin|Hin].
    + rewrite decide_True by (unfold va in *; lia). rewrite slice_lookup by (unfold va in *; lia). f_equal. unfold va in *. lia.
    + rewrite decide_False; [done|]. unfold va in *. lia.
  - intros i Hi. destruct (decide (copied + n ≤ i)) as [|Hlo]; [apply Hw2; lia|].
    unfold can_write. replace (addr + i) with (va + (i - copied)) by (unfold va; lia).
    rewrite can_write_page by lia. unfold writable. rewrite Hg, Hperm, andb_true_r. apply Z.ltb_lt.
    assert (USER_MAX_ADDR = PAGE_SIZE * 0x4000000) by done. Z.div_mod_to_equations. unfold PAGE_SIZE in *. lia.
Qed.

(** ** Reading *)

Lemma user_mapped_page sp va i : 0 ≤ i → va `mod` PAGE_SIZE + i < PAGE_SIZE → va < USER_MAX_ADDR →
  user_mapped sp (va + i) = user_mapped sp va.
Proof.
  intros Hi Hp Hm. unfold user_mapped. rewrite vpn_add by done. f_equal. apply eq_true_iff_eq. rewrite !Z.ltb_lt.
  assert (USER_MAX_ADDR = PAGE_SIZE * 0x4000000) by done. unfold PAGE_SIZE in *. Z.div_mod_to_equations. lia.
Qed.

(** From offset [copied] on, [dst'] is [dst] overwritten with user bytes. *)
Definition loaded sp (m : mem) addr copied (dst : list byte) (r : option unit) (dst' : list byte) : Prop := ∃ k,
  copied ≤ k ≤ Z.of_nat (length dst) ∧ length dst' = length dst ∧
  (∀ i, 0 ≤ i < Z.of_nat (length dst) → dst' !! Z.to_nat i =
     if decide (copied ≤ i < k) then umem sp m (addr + i) else dst !! Z.to_nat i) ∧
  (∀ i, copied ≤ i < k → user_mapped sp (addr + i) = true) ∧
  match r with
  | Some _ => k = Z.of_nat (length dst)
  | None => k < Z.of_nat (length dst) ∧ user_mapped sp (addr + k) = false
  end.

Lemma loaded_stop sp m addr copied dst r :
  0 ≤ copied ≤ Z.of_nat (length dst) →
  match r with
  | Some _ => copied = Z.of_nat (length dst)
  | None => copied < Z.of_nat (length dst) ∧ user_mapped sp (addr + copied) = false
  end → loaded sp m addr copied dst r dst.
Proof.
  intros Hc Hr. exists copied. split_and!; try done; try lia.
  intros i _. by rewrite decide_False by lia.
Qed.

Lemma load_bytes_lookup m a n (i : nat) : (i < n)%nat → load_bytes m a n !! i = Some (m (a + Z.of_nat i)).
Proof. intros Hi. unfold load_bytes. by rewrite list_lookup_fmap, lookup_seq_lt. Qed.

(** The splice the loop performs on [dst]. *)
Lemma splice_lookup {A} (dst bytes : list A) copied n i :
  0 ≤ copied → 0 ≤ n → copied + n ≤ Z.of_nat (length dst) → length bytes = Z.to_nat n →
  0 ≤ i < Z.of_nat (length dst) →
  (take (Z.to_nat copied) dst ++ bytes ++ drop (Z.to_nat (copied + n)) dst) !! Z.to_nat i =
    if decide (copied ≤ i < copied + n) then bytes !! Z.to_nat (i - copied) else dst !! Z.to_nat i.
Proof.
  intros Hc Hn Hlen Hb Hi. destruct (decide (i < copied)).
  { rewrite lookup_app_l by (rewrite length_take; lia). rewrite lookup_take_lt by lia. by rewrite decide_False by lia. }
  rewrite lookup_app_r by (rewrite length_take; lia). rewrite length_take.
  destruct (decide (i < copied + n)).
  - rewrite decide_True by lia. rewrite lookup_app_l by lia. f_equal. lia.
  - rewrite decide_False by lia. rewrite lookup_app_r by lia. rewrite lookup_drop. f_equal. lia.
Qed.

Lemma copy_from_loop_run K sp fuel : ∀ addr copied dst s,
  space_ok K sp s → 0 ≤ addr → 0 ≤ copied ≤ Z.of_nat (length dst) →
  (Z.to_nat (Z.of_nat (length dst) - copied) ≤ fuel)%nat →
  ∃ r dst', copy_from_loop fuel sp addr copied dst s = Ret ((r, dst'), s) ∧
    loaded sp (fa_mem s) addr copied dst r dst'.
Proof.
  induction fuel as [|fuel IH]; intros addr copied dst s Hok Ha Hc Hf; cbn [copy_from_loop].
  { exists (Some tt), dst. split; [done|]. apply loaded_stop; [done|lia]. }
  set (len := Z.of_nat (length dst)) in *.
  assert (Hno : copied < len → user_mapped sp (addr + copied) = false →
    ∃ r dst', (mret (None, dst) : ST S (option unit * list byte)) s = Ret ((r, dst'), s) ∧ loaded sp (fa_mem s) addr copied dst r dst').
  { intros. exists None, dst. split; [done|]. by apply loaded_stop. }
  destruct (Z.ltb_spec copied len) as [Hlt|].
  2: { exists (Some tt), dst. split; [done|]. apply loaded_stop; [done|fold len; lia]. }
  unfold checked_add. destruct (Z.ltb_spec (addr + copied) U64) as [Hov|Hov].
  2: { apply Hno; [done|]. unfold user_mapped. rewrite (proj2 (Z.ltb_ge _ _)); [done|]. unfold U64, USER_MAX_ADDR in *. lia. }
  set (va := addr + copied) in *. destruct (Z.leb_spec USER_MAX_ADDR va) as [Hmax|Hmax].
  { apply Hno; [done|]. unfold user_mapped. by rewrite (proj2 (Z.ltb_ge _ _)). }
  pose proof (chunk_translate K sp s va Hok ltac:(lia)) as Htr.
  unfold mbind, ST_bind. destruct (bt_get (vpn va) (sp_pages sp)) as [[p f]|] eqn:Hg.
  2: { destruct Htr as [-> _]. apply Hno; [done|]. unfold user_mapped. by rewrite Hg, andb_false_r. }
  destruct Htr as (pa & -> & Htv & _). unfold lift. rewrite Htv. unfold get.
  rewrite page_offset_mod. pose proof (Z.mod_pos_bound va PAGE_SIZE ltac:(done)) as Hmod.
  set (n := Z.min (PAGE_SIZE - va `mod` PAGE_SIZE) (len - copied)).
  assert (Hn : 0 < n ∧ n ≤ len - copied ∧ va `mod` PAGE_SIZE + n ≤ PAGE_SIZE) by (unfold n; lia).
  set (bytes := load_bytes (fa_mem s) (page_base p + va `mod` PAGE_SIZE) (Z.to_nat n)).
  assert (Hb : length bytes = Z.to_nat n) by apply load_bytes_length.
  assert (Hsp : ∀ i, 0 ≤ i < len → _) by
    (intros i Hi; exact (splice_lookup dst bytes copied n i ltac:(lia) ltac:(lia) ltac:(fold len; lia) Hb Hi)).
  set (dst1 := take _ dst ++ _) in *.
  assert (Hl1 : length dst1 = length dst) by (unfold dst1; rewrite !length_app, length_take, length_drop; lia).
  assert (Hread : user_mapped sp va = true) by (unfold user_mapped; rewrite Hg, andb_true_r; by apply Z.ltb_lt).
  destruct (IH addr (copied + n) dst1 s Hok Ha) as (r & dst' & Hrun & k & Hk & Hl' & Hd' & Hr' & Hres); rewrite ?Hl1; fold len; [lia|lia|].
  exists r, dst'. split; [exact Hrun|]. exists k. rewrite Hl1 in Hk, Hl', Hd', Hres. fold len in Hk, Hd', Hres |- *.
  split_and!; try done; try lia.
  - intros i Hi. rewrite Hd', Hsp by done.
    destruct (decide (copied + n ≤ i < k)); [by rewrite decide_True by lia|].
    destruct (decide (copied ≤ i < copied + n)) as [Hin|Hin]; [|by rewrite decide_False by lia].
    rewrite decide_True by lia. unfold bytes. rewrite load_bytes_lookup by lia. unfold umem, user_addr.
    replace (addr + i) with (va + (i - copied)) by (unfold va; lia). rewrite vpn_add, Hg, mod_add by lia.
    cbn [fmap option_fmap option_map]. do 2 f_equal. lia.
  - intros i Hi. destruct (decide (copied + n ≤ i)) as [|Hlo]; [apply Hr'; lia|].
    replace (addr + i) with (va + (i - copied)) by (unfold va; lia). by rewrite user_mapped_page by lia.
Qed.

(** Reading a string from flat memory. *)
Fixpoint cstr (fuel : nat) (sp : AddressSpace) (m : mem) (addr : Z) (acc : list byte) : option (list byte) :=
  match fuel with
  | O => None
  | Datatypes.S fuel =>
      if user_mapped sp addr then
        match umem sp m addr with
        | Some b => if byte.unsigned b =? 0 then Some acc else cstr fuel sp m (addr + 1) (acc ++ [b])
        | None => None
        end
      else None
  end.

Lemma read_cstr_run K sp fuel : ∀ addr i acc s,
  space_ok K sp s → 0 ≤ addr → 0 ≤ i →
  read_cstr_loop fuel sp addr i acc s =
    Ret (match cstr fuel sp (fa_mem s) (addr + i) acc with
         | Some bs => if utf8_valid bs then Some bs else None
         | None => None
         end, s).
Proof.
  induction fuel as [|fuel IH]; intros addr i acc s Hok Ha Hi; [done|]. cbn [read_cstr_loop cstr].
  unfold checked_add. destruct (Z.ltb_spec (addr + i) U64) as [Hov|Hov].
  2: { unfold user_mapped. rewrite (proj2 (Z.ltb_ge _ _)); [done|]. unfold U64, USER_MAX_ADDR in *. lia. }
  destruct (copy_from_loop_run K sp 1 (addr + i) 0 [x00] s Hok ltac:(lia) ltac:(simpl; lia) ltac:(simpl; lia))
    as (r & dst & Hrun & k & Hk & Hl & Hd & Hr & Hres).
  unfold mbind, ST_bind, copy_from_user. change (length [x00]) with 1%nat in *. rewrite Hrun.
  specialize (Hd 0 ltac:(lia)). replace (addr + i + 0) with (addr + i) in * by lia.
  destruct r as [[]|].
  - subst k. specialize (Hr 0 ltac:(lia)). replace (addr + i + 0) with (addr + i) in Hr by lia. rewrite Hr.
    rewrite decide_True in Hd by lia. rewrite <- Hd. destruct dst as [|b [|? ?]]; [done| |done]. simpl lookup.
    cbv iota beta. destruct (byte.unsigned b =? 0); [done|]. rewrite IH by (done || lia).
    by replace (addr + (i + 1)) with (addr + i + 1) by lia.
  - destruct Hres as [Hk1 Hcr]. assert (k = 0) as -> by lia. replace (addr + i + 0) with (addr + i) in Hcr by lia.
    by rewrite Hcr.
Qed.
End user.
