(* ===== verification/SpaceWrite.v ===== *)
(** * Filling a region

    [push], [push_with_offset] and [write_data] seen from flat user memory: the
    new region appears zero-filled, then holds the data. *)
From stdpp Require Import base numbers functions sets list.
From coqutil Require Import Byte.
From Stdlib Require Import Lia.
From S2P Require Import Prelude Memory Config Addr FrameIface.
From S2P Require Import PageTable PageTableInv PageTableWalk PageTableOps.
From S2P Require Import Space SpaceInv SpaceMap SpaceOps SpaceFork SpaceUser.

Lemma bt_get_app {A} k (l1 l2 : list (Z * A)) :
  bt_get k (l1 ++ l2) = match bt_get k l1 with Some x => Some x | None => bt_get k l2 end.
Proof. induction l1 as [|[k' x] l1 IH]; simpl; [done|]. by destruct (k =? k'). Qed.

Lemma region_pages_get r v p f :
  bt_get v (region_pages r) = Some (p, f) → ∃ fr, (v, fr) ∈ r_frames r ∧ p = f_ppn fr ∧ f = r_perm r.
Proof.
  intros Hg%bt_get_In. unfold region_pages in Hg. apply list_elem_of_fmap in Hg as ([v' fr] & [= -> -> ->] & Hin).
  by exists fr.
Qed.

Lemma region_pages_range r a : region_ok r →
  r_start r ≤ a < r_end r ↔ vpn a ∈ (region_pages r).*1.
Proof.
  intros Hr. rewrite region_pages_vpns, (ro_pages _ Hr), elem_of_seqZ, !vpn_div.
  destruct (ro_shape _ Hr) as [_ _ [x ->] [y ->] _ _]. rewrite !Z.div_mul by done.
  unfold PAGE_SIZE. Z.div_mod_to_equations. lia.
Qed.

Section write.
Context {S : Type} `{FrameAllocator S, !FrameAllocatorLaws S}.
Implicit Types (s : S) (K : Z → Prop) (sp : AddressSpace).

Lemma user_addr_ppn sp a x : user_addr sp a = Some x → ∃ q, q ∈ sp_ppns sp ∧ page q x.
Proof.
  unfold user_addr. destruct (bt_get (vpn a) (sp_pages sp)) as [[p f]|] eqn:Hg; [|done]. intros [= <-].
  exists p. split; [by eapply page_in_ppns, bt_get_In|].
  pose proof (Z.mod_pos_bound a PAGE_SIZE ltac:(done)). unfold page, span. lia.
Qed.

Lemma umem_agree sp m m' a :
  (∀ q, q ∈ sp_ppns sp → agree (page q) m m') → umem sp m' a = umem sp m a.
Proof.
  intros Ha. unfold umem. destruct (user_addr sp a) as [x|] eqn:Hx; [|done]. simpl. f_equal.
  destruct (user_addr_ppn _ _ _ Hx) as (q & Hq & Hp). by apply (Ha q).
Qed.

(** A page of a region of the space, as the space sees it. *)
Lemma region_page_sp K sp s r v f :
  space_ok K sp s → r ∈ regions sp → (v, f) ∈ r_frames r → bt_get v (sp_pages sp) = Some (f_ppn f, r_perm r).
Proof.
  intros Hok Hr Hf. apply (sp_get K sp s _ _ Hok). unfold sp_pages. apply list_elem_of_bind. exists r.
  split; [|done]. unfold region_pages. apply list_elem_of_fmap. by exists (v, f).
Qed.

(** Flat memory after a region was mapped. *)
Lemma umem_push K sp r pt s s' :
  let sp' := push_region r (with_table pt sp) in
  space_ok K sp s → space_ok K sp' s' → grew (table sp) s pt s' (region_ppns r) →
  ∀ a, 0 ≤ a → umem sp' (fa_mem s') a =
    if decide (r_start r ≤ a < r_end r) then Some x00 else umem sp (fa_mem s) a.
Proof.
  intros sp' Hok Hok' Hg a Ha. pose proof (so_regions _ _ _ Hok') as Hro. apply Forall_app in Hro as [_ Hro].
  apply Forall_cons in Hro as [Hro _]. pose proof (region_pages_range r a Hro) as Hrange.
  assert (Hpg : sp_pages sp' = sp_pages sp ++ region_pages r) by (unfold sp'; by rewrite sp_pages_push).
  pose proof (mp_vpn _ _ _ _ (so_maps _ _ _ Hok')) as Hnd. rewrite Hpg, fmap_app in Hnd.
  apply NoDup_app in Hnd as (_ & Hnd & _). pose proof (Z.mod_pos_bound a PAGE_SIZE ltac:(done)) as Hmod.
  unfold umem, user_addr. rewrite Hpg, bt_get_app.
  destruct (bt_get (vpn a) (sp_pages sp)) as [[p f]|] eqn:Hold.
  - apply bt_get_In in Hold. pose proof (page_in_ppns _ _ _ _ Hold) as Hp. rewrite decide_False.
    + simpl. f_equal. apply (gw_agree _ _ _ _ _ Hg p);
        [by apply (ow_used _ _ _ _ (so_owns _ _ _ Hok))|by apply (ow_tables _ _ _ _ (so_owns _ _ _ Hok))|].
      unfold page, span. lia.
    + rewrite Hrange. apply Hnd, list_elem_of_fmap. by exists (vpn a, (p, f)).
  - destruct (bt_get (vpn a) (region_pages r)) as [[p f]|] eqn:Hnew.
    + pose proof (bt_get_In _ _ _ Hnew) as Hin.
      rewrite decide_True by (apply Hrange, list_elem_of_fmap; by exists (vpn a, (p, f))).
      simpl. f_equal. apply (gw_zero _ _ _ _ _ Hg p); [|unfold page, span; lia].
      apply region_pages_get in Hnew as (fr & Hin' & -> & _).
      unfold region_ppns. apply list_elem_of_fmap_2, list_elem_of_fmap. by exists (vpn a, fr).
    + apply bt_get_None in Hnew. by rewrite decide_False by (by rewrite Hrange).
Qed.

Lemma store_chunk_page s va p bs :
  va `mod` PAGE_SIZE + Z.of_nat (length bs) ≤ PAGE_SIZE →
  ∀ q, q ≠ p → agree (page q) (fa_mem s)
    (fa_mem (fa_set_mem (store_bytes (fa_mem s) (page_base p + va `mod` PAGE_SIZE) bs) s)).
Proof.
  intros Hfit q Hq a Ha. rewrite fa_mem_set. apply store_bytes_out. intros Hs. apply Hq, (page_disjoint q p a Ha).
  pose proof (Z.mod_pos_bound va PAGE_SIZE ltac:(done)). unfold page, span in *. lia.
Qed.

(** [data] is stored from flat address [va] on. *)
Definition written K sp (r : Region) va (data : list byte) s s' : Prop :=
  space_ok K sp s' ∧ (∀ q, fa_used s' q ↔ fa_used s q) ∧
  (∀ q, q ∉ region_ppns r → agree (page q) (fa_mem s) (fa_mem s')) ∧
  (∀ a, 0 ≤ a → umem sp (fa_mem s') a =
     if decide (va ≤ a < va + Z.of_nat (length data)) then data !! Z.to_nat (a - va) else umem sp (fa_mem s) a).

Lemma written_nil K sp r va s : space_ok K sp s → written K sp r va [] s s.
Proof. intros Hok. split_and!; try done. intros a _. by rewrite decide_False by (simpl; lia). Qed.

(** Every page number of a mapped region has a frame. *)
Lemma region_frame r v : region_ok r → vpn (r_start r) ≤ v < vpn (r_end r) → ∃ f, (v, f) ∈ r_frames r.
Proof.
  intros Hr Hv. assert (Hin : v ∈ (r_frames r).*1) by (rewrite (ro_pages _ Hr); apply elem_of_seqZ; lia).
  apply list_elem_of_fmap in Hin as ([v' f] & -> & Hin). by exists f.
Qed.

Lemma write_data_loop_spec K sp r data fuel : ∀ pos done s,
  space_ok K sp s → r ∈ regions sp → region_ok r → 0 ≤ pos → 0 ≤ done ≤ Z.of_nat (length data) →
  r_start r + pos + (Z.of_nat (length data) - done) ≤ r_end r →
  (Z.to_nat (Z.of_nat (length data) - done) ≤ fuel)%nat →
  wp (write_data_loop fuel r pos done data)
    (λ _ s', written K sp r (r_start r + pos) (drop (Z.to_nat done) data) s s') s.
Proof.
  induction fuel as [|fuel IH]; intros pos done s Hok Hin Hr Hpos Hd Hfit Hfuel; cbn [write_data_loop].
  { apply wp_ret. rewrite drop_ge by lia. by apply written_nil. }
  set (len := Z.of_nat (length data)) in *. destruct (Z.ltb_spec done len) as [Hlt|].
  2: { apply wp_ret. rewrite drop_ge by lia. by apply written_nil. }
  pose proof (ro_shape _ Hr) as [_ _ [x Hx] [y Hy] Hrange Htop].
  set (va := r_start r + pos) in *. assert (Hva : 0 ≤ va < U64) by (unfold va, U64, USER_MAX_ADDR in *; lia).
  wp_step. eapply wp_lift; [apply u64_add_ok; lia|]. fold va.
  assert (Hmo : pos `mod` PAGE_SIZE = va `mod` PAGE_SIZE).
  { unfold va. rewrite Hx, Z.add_comm. by rewrite Z.mod_add by done. }
  rewrite Hmo. pose proof (Z.mod_pos_bound va PAGE_SIZE ltac:(done)) as Hmod.
  set (n := Z.min (PAGE_SIZE - va `mod` PAGE_SIZE) (len - done)).
  assert (Hn : 0 < n ∧ n ≤ len - done ∧ va `mod` PAGE_SIZE + n ≤ PAGE_SIZE) by (unfold n; lia).
  destruct (region_frame r (vpn va) Hr) as [f Hf].
  { rewrite !vpn_div, Hx, Hy, !Z.div_mul by done. unfold va in *. rewrite Hx, Hy in *.
    unfold PAGE_SIZE in *. Z.div_mod_to_equations. lia. }
  rewrite (bt_get_Some _ _ f (region_ok_nodup _ Hr) Hf). wp_step. eapply wp_lift; [done|]. wp_step. apply wp_update_mem.
  set (bs := slice data done n). assert (Hbs : length bs = Z.to_nat n) by (apply slice_length; fold len; lia).
  pose proof (region_page_sp K sp s r _ f Hok Hin Hf) as Hg.
  destruct (store_chunk K sp s va (f_ppn f) (r_perm r) bs Hok ltac:(lia) Hg) as (Hok1 & Hu1 & _ & Hm1); [lia|].
  pose proof (store_chunk_page s va (f_ppn f) bs ltac:(lia)) as Ha1.
  assert (Hp : 0 ≤ f_ppn f < 2 ^ 26).
  { apply (sp_get K sp s _ _ Hok) in Hg. by apply (mp_range _ _ _ _ (so_maps _ _ _ Hok) _ _ _ Hg). }
  rewrite as_ptr_eq by exact Hp. change (f_ppn f * PAGE_SIZE + VIRT_OFFSET) with (page_base (f_ppn f)). set (s1 := fa_set_mem _ s) in *.
  wp_step. eapply wp_lift; [apply u64_add_ok; unfold va, U64, USER_MAX_ADDR in *; lia|].
  eapply wp_mono; [|apply (IH (pos + n) (done + n) s1 Hok1 Hin Hr); unfold va in *; fold len; lia].
  cbv beta. intros _ s2 (Hok2 & Hu2 & Ha2 & Hm2). split_and!.
  - exact Hok2.
  - intros q. by rewrite Hu2, Hu1.
  - intros q Hq. etransitivity; [apply Ha1|by apply Ha2]. intros ->. apply Hq. unfold region_ppns.
    apply list_elem_of_fmap_2, list_elem_of_fmap. by exists (vpn va, f).
  - intros a Ha. rewrite Hm2, Hm1, Hbs, !length_drop by done. replace (r_start r + (pos + n)) with (va + n) by (unfold va; lia).
    destruct (decide (va + n ≤ a < va + n + Z.of_nat (length data - Z.to_nat (done + n)))) as [Hi|Hi].
    + rewrite decide_True by lia. rewrite !lookup_drop. f_equal. lia.
    + destruct (decide (va ≤ a < va + Z.of_nat (Z.to_nat n))) as [Hj|Hj].
      * rewrite decide_True by lia. unfold bs. rewrite slice_lookup, lookup_drop by lia. done.
      * rewrite decide_False by lia. done.
Qed.

Lemma write_data_loop_avail r data fuel : ∀ pos done s,
  wlp (write_data_loop fuel r pos done data) (λ _ s', fa_avail s' = fa_avail s) s.
Proof.
  induction fuel as [|fuel IH]; intros pos done s; cbn [write_data_loop]; [by apply wlp_ret|].
  destruct (done <? _); [|by apply wlp_ret]. wlp_steps. unfold update_mem. intros ? ? [= <- <-]. wlp_steps.
  eapply wlp_mono; [|apply IH]. cbv beta. intros _ s' ->. by rewrite fa_avail_set.
Qed.

(** [push_with_offset] on a space under construction. *)
Lemma push_with_offset_spec K s0 sp r off data s :
  building K s0 [] sp s → region_shape r → r_frames r = [] → 0 ≤ off →
  r_start r + off + Z.of_nat (length data) ≤ r_end r →
  wp (push_with_offset sp r off data) (λ '(res, sp') s',
    match res with
    | Ok _ => building K s0 [] sp' s' ∧ ∃ new, regions sp' = regions sp ++ [with_frames new r] ∧
        fa_avail s - 3 * region_size r ≤ fa_avail s' ∧
        (∀ a, r_start r ≤ a < r_end r → umem sp (fa_mem s) a = None) ∧
        (∀ a, 0 ≤ a → umem sp' (fa_mem s') a =
           if decide (r_start r + off ≤ a < r_start r + off + Z.of_nat (length data))
           then data !! Z.to_nat (a - (r_start r + off))
           else if decide (r_start r ≤ a < r_end r) then Some x00 else umem sp (fa_mem s) a)
    | Err e => (e = OutOfMemory ∧ fa_avail s < 3 * region_size r ∨ ∃ x, vpn (r_start r) ≤ x < vpn (r_end r) ∧ x ∈ (sp_pages sp).*1) ∧
        ∃ L, building K s0 L sp' s'
    end) s.
Proof.
  intros Hb Hsh Hnil Hoff Hfit. pose proof (building_ok _ _ _ _ Hb) as Hok. unfold push_with_offset. wp_step.
  eapply wp_mono; [|by apply (map_into_full K (table sp) r (sp_pages sp) (sp_ppns sp) s); [| |apply Hok|apply Hok]].
  intros [res [r' pt']] s1 (new & -> & Hm1 & Ho1 & Hg & Hord & Hres). destruct res as [[]|e].
  2: { wp_step. destruct Hres as (k & Hk & _ & He). eapply wp_mono; [|by apply (building_fail K s0 sp s pt' s1 (with_frames new r))].
       cbv beta. intros _ s2 Hb2. apply wp_ret.
       split; [destruct He as [[-> ?]|He]; [left; split; [done|lia]|by right]|]. by exists (region_pages (with_frames new r)). }
  destruct Hres as [Hres Hav]. set (r' := with_frames new r) in *. set (sp' := push_region r' (with_table pt' sp)).
  pose proof (space_ok_push K sp r' pt' s1 Hm1 Ho1 (so_regions _ _ _ Hok) Hres) as Hok1. fold sp' in Hok1.
  wp_step. eapply wp_mono; [|apply wp_wlp_conj;
    [apply (write_data_loop_spec K sp' r' data (length data) off 0 s1 Hok1)|apply write_data_loop_avail]].
  - cbv beta. rewrite drop_0. intros _ s2 [(Hok2 & Hu2 & Ha2 & Hm2) Hav2]. apply wp_ret.
    pose proof (maps_inv _ _ _ _ (so_maps _ _ _ Hok2)) as Hi2.
    destruct (building_push K s0 sp s pt' s1 s2 r' Hb Hg Hm1 Ho1 Hres Hi2 Hu2 Ha2) as [Hb2 _]. split; [exact Hb2|].
    exists new. split_and!; [done|by rewrite Hav2| |].
    + intros a Ha. apply (region_pages_range r' a Hres) in Ha. unfold umem, user_addr.
      pose proof (mp_vpn _ _ _ _ Hm1) as Hnd. rewrite fmap_app in Hnd. apply NoDup_app in Hnd as (_ & Hnd & _).
      rewrite (proj2 (bt_get_None (vpn a) (sp_pages sp))); [done|by apply Hnd].
    + intros a Ha. change (r_start r') with (r_start r) in Hm2. rewrite Hm2 by done. case_decide; [done|].
      by apply (umem_push K sp r' pt' s s1).
  - unfold sp'. simpl. apply elem_of_app. right. apply list_elem_of_here.
  - exact Hres.
  - exact Hoff.
  - lia.
  - simpl. lia.
  - lia.
Qed.
End write.
