(* ===== verification/SpaceProps.v ===== *)
(** * Theorems about address spaces

    User memory behaves as the flat byte map [umem]: the copy functions, [fork]'s
    duplication and destruction, over any frame allocator that satisfies the
    interface. *)
From stdpp Require Import base numbers functions sets list.
From coqutil Require Import Byte.
From Stdlib Require Import Lia.
From S2P Require Frame.
From S2P Require Import Prelude Memory Config Addr FrameIface FrameProps.
From S2P Require Import PageTable PageTableInv PageTableWalk PageTableOps PageTableProps.
From S2P Require Import Space SpaceInv SpaceMap SpaceOps SpaceFork SpaceUser SpaceWrite.

(** ** The child's pages against the parent's *)

(** Page [v] of the two page lists: both unmapped, or both mapped with the same
    permissions and contents. *)
Definition same_page (m m' : mem) (o o' : option (Z * Z)) : Prop :=
  match o, o' with
  | Some (p, f), Some (p', f') => f' = f ∧ page_copy m p m' p'
  | None, None => True
  | _, _ => False
  end.

Lemma region_copy_same m r m' r' v :
  region_ok r → region_ok r' → region_copy m r m' r' →
  same_page m m' (bt_get v (region_pages r)) (bt_get v (region_pages r')).
Proof.
  intros Hr Hr' [Hs He Hp Hc].
  assert (Hv : (region_pages r').*1 = (region_pages r).*1)
    by (rewrite !region_pages_vpns, (ro_pages _ Hr), (ro_pages _ Hr'); by rewrite Hs, He).
  destruct (bt_get v (region_pages r)) as [[p f]|] eqn:Hg, (bt_get v (region_pages r')) as [[p' f']|] eqn:Hg'.
  - apply region_pages_get in Hg as (fr & Hin & -> & ->). apply region_pages_get in Hg' as (fr' & Hin' & -> & ->).
    split; [done|by eapply Hc].
  - apply bt_get_None in Hg'. rewrite Hv in Hg'. apply Hg'. apply bt_get_In in Hg.
    apply list_elem_of_fmap. by exists (v, (p, f)).
  - apply bt_get_None in Hg. rewrite <- Hv in Hg. apply Hg. apply bt_get_In in Hg'.
    apply list_elem_of_fmap. by exists (v, (p', f')).
  - done.
Qed.

Lemma regions_copy_same m l m' l' v :
  Forall region_ok l → Forall region_ok l' → Forall2 (λ r r', region_copy m r m' r') l l' →
  same_page m m' (bt_get v (l ≫= region_pages)) (bt_get v (l' ≫= region_pages)).
Proof.
  intros Hl Hl' HF. induction HF as [|r r' l l' Hc HF IH]; [done|].
  apply Forall_cons in Hl as [Hr Hl]. apply Forall_cons in Hl' as [Hr' Hl'].
  cbn [mbind list_bind]. rewrite !bt_get_app. pose proof (region_copy_same m r m' r' v Hr Hr' Hc) as Hs.
  destruct (bt_get v (region_pages r)) as [[p f]|], (bt_get v (region_pages r')) as [[p' f']|]; try done. by apply IH.
Qed.

Section theorems.
Context {S : Type} `{FrameAllocator S, !FrameAllocatorLaws S}.
Implicit Types (s : S) (K : Z → Prop) (sp : AddressSpace).


Lemma space_ok_stable K sp s s' :
  space_ok K sp s → fa_inv s' →
  (∀ q, fa_used s q → fa_used s' q ∧ agree (page q) (fa_mem s) (fa_mem s')) → space_ok K sp s'.
Proof.
  intros [Hm [Hnd Hu Ht] Hr] Hinv Hst. constructor; [|constructor|done].
  - apply (maps_stable K (table sp) (sp_pages sp) s s' Hm Hinv). intros q _. apply Hst.
  - done.
  - intros q Hq. by apply Hst, Hu.
  - exact Ht.
Qed.

Lemma copy_to_user_stored K sp addr src s :
  space_ok K sp s → 0 ≤ addr →
  wp (copy_to_user sp addr src) (λ r s', stored K sp src addr 0 s r s') s.
Proof. intros Hok Ha. apply copy_to_loop_spec; [done|done|lia|lia]. Qed.

Lemma copy_from_user_loaded K sp addr dst s :
  space_ok K sp s → 0 ≤ addr →
  ∃ r dst', copy_from_user sp addr dst s = Ret ((r, dst'), s) ∧ loaded sp (fa_mem s) addr 0 dst r dst'.
Proof. intros Hok Ha. apply (copy_from_loop_run K sp); [done|done|lia|lia]. Qed.

(** C15: writing user memory.  [copy_to_user] never panics.  It writes the longest
    prefix of [src] whose target bytes all lie below [USER_MAX_ADDR] in pages
    mapped writable for user mode, succeeds exactly when that is all of it, and
    those bytes of flat user memory are the only ones that change: no page
    outside the space's own frames, in particular no kernel page, no page table
    and no other process's page, is touched. *)
Theorem copy_to_user_correct K sp addr src s :
  space_ok K sp s → 0 ≤ addr →
  ∃ r s' k, copy_to_user sp addr src s = Ret (r, s') ∧
    0 ≤ k ≤ Z.of_nat (length src) ∧ space_ok K sp s' ∧ (∀ q, fa_used s' q ↔ fa_used s q) ∧
    (∀ q, q ∉ sp_ppns sp → agree (page q) (fa_mem s) (fa_mem s')) ∧
    (∀ a, 0 ≤ a → umem sp (fa_mem s') a =
       if decide (addr ≤ a < addr + k) then src !! Z.to_nat (a - addr) else umem sp (fa_mem s) a) ∧
    (∀ i, 0 ≤ i < k → can_write sp (addr + i) = true) ∧
    match r with
    | Some _ => k = Z.of_nat (length src)
    | None => k < Z.of_nat (length src) ∧ can_write sp (addr + k) = false
    end.
Proof.
  intros Hok Ha. destruct (wp_run _ _ _ (copy_to_user_stored K sp addr src s Hok Ha)) as (r & s' & Hr & k & Hst).
  exists r, s', k. split; [exact Hr|]. rewrite Z.add_0_r in Hst. exact Hst.
Qed.

(** C16: reading user memory.  [copy_from_user] never panics, changes no memory,
    and fills the destination with the bytes flat user memory holds, for the
    longest prefix whose source bytes all lie below [USER_MAX_ADDR] in mapped
    pages; it succeeds exactly when that is all of it.  The flags of those pages
    do not matter: unlike [copy_to_user] it does not ask whether user code could
    have made the access, so a page mapped for execution only is read too. *)
Theorem copy_from_user_correct K sp addr dst s :
  space_ok K sp s → 0 ≤ addr →
  ∃ r dst' k, copy_from_user sp addr dst s = Ret ((r, dst'), s) ∧
    0 ≤ k ≤ Z.of_nat (length dst) ∧ length dst' = length dst ∧
    (∀ i, 0 ≤ i < Z.of_nat (length dst) → dst' !! Z.to_nat i =
       if decide (0 ≤ i < k) then umem sp (fa_mem s) (addr + i) else dst !! Z.to_nat i) ∧
    (∀ i, 0 ≤ i < k → user_mapped sp (addr + i) = true) ∧
    match r with
    | Some _ => k = Z.of_nat (length dst)
    | None => k < Z.of_nat (length dst) ∧ user_mapped sp (addr + k) = false
    end.
Proof.
  intros Hok Ha. destruct (copy_from_user_loaded K sp addr dst s Hok Ha) as (r & dst' & Hr & k & Hl).
  by exists r, dst', k.
Qed.

Lemma can_write_mapped sp a : can_write sp a = true → user_mapped sp a = true.
Proof.
  unfold can_write, user_mapped, writable. rewrite !andb_true_iff. intros [? Hw]. split; [done|].
  by destruct (bt_get (vpn a) (sp_pages sp)).
Qed.

(** a buffer copied out to user memory and read back is the same buffer. *)
Theorem copy_roundtrip K sp addr src dst s s' :
  space_ok K sp s → 0 ≤ addr → length dst = length src →
  copy_to_user sp addr src s = Ret (Some tt, s') →
  copy_from_user sp addr dst s' = Ret ((Some tt, src), s').
Proof.
  intros Hok Ha Hlen Hrun. pose proof (copy_to_user_stored K sp addr src s Hok Ha) as Hst.
  unfold wp in Hst. rewrite Hrun in Hst. destruct Hst as (k & _ & Hok' & _ & _ & Hmem & Hw & ->).
  destruct (copy_from_user_loaded K sp addr dst s' Hok' Ha) as (r & dst' & -> & k & Hk & Hl & Hd & Hrd & Hres).
  rewrite Hlen in *. set (n := Z.of_nat (length src)) in *.
  assert (r = Some tt ∧ k = n) as [-> ->].
  { destruct r as [[]|]; [done|]. destruct Hres as [Hlt Hno].
    rewrite (can_write_mapped _ _ (Hw k ltac:(lia))) in Hno. done. }
  do 3 f_equal. apply list_eq. intros i. destruct (decide (Z.of_nat i < n)) as [Hi|Hi].
  - specialize (Hd (Z.of_nat i) ltac:(lia)). rewrite Nat2Z.id, decide_True, Hmem, decide_True in Hd by lia.
    rewrite Hd. f_equal. lia.
  - rewrite !lookup_ge_None_2; [done|lia..].
Qed.

(** [read_cstr] is the flat-memory string read: starting at [addr] it
    collects bytes up to the first NUL among the first [max] bytes, and returns
    them when all of them were mapped and they are valid UTF-8. *)
Theorem read_cstr_correct K sp addr max s :
  space_ok K sp s → 0 ≤ addr →
  read_cstr sp addr max s =
    Ret (match cstr (Z.to_nat max) sp (fa_mem s) addr [] with
         | Some bs => if utf8_valid bs then Some bs else None
         | None => None
         end, s).
Proof.
  intros Hok Ha. unfold read_cstr. rewrite (read_cstr_run K) by (done || lia). by rewrite Z.add_0_r.
Qed.

(** The child of a fork under construction has the parent's flat memory. *)
Lemma duplicate_mem kernel sp s :
  let K := kernel_tables kernel in
  space_ok K sp s → pt_kernel (table kernel) s →
  wp (duplicate sp (Some kernel)) (λ r s', match r with
    | Some child => building K s [] child s' ∧ (∀ a, umem child (fa_mem s') a = umem sp (fa_mem s) a) ∧
        (∀ a, can_write child a = can_write sp a)
    | None => restored s s'
    end) s.
Proof.
  intros K Hok Hk. eapply wp_mono; [|by apply duplicate_spec]. intros [child|] s'; [|done].
  intros [Hb (dn & Hdn & HF)]. rewrite app_nil_r in Hdn. subst dn. split; [exact Hb|].
  assert (Hpage : ∀ a, same_page (fa_mem s) (fa_mem s') (bt_get (vpn a) (sp_pages sp)) (bt_get (vpn a) (sp_pages child)))
    by (intros a; apply regions_copy_same; [apply Hok|apply (building_ok _ _ _ _ Hb)|done]).
  split; intros a; specialize (Hpage a); unfold umem, user_addr, can_write, writable;
    destruct (bt_get (vpn a) (sp_pages sp)) as [[p f]|], (bt_get (vpn a) (sp_pages child)) as [[p' f']|]; try done; destruct Hpage as [-> Hp].
  - simpl. f_equal. apply Hp, Z.mod_pos_bound. done.
  - done.
Qed.

(** C8: duplicating an address space.  It never panics and never changes the
    parent.  A child has the parent's flat memory and write permissions at every
    address, and shares no byte with it; when memory runs out everything that
    was allocated on the way has been given back. *)
Theorem duplicate_correct kernel sp s :
  let K := kernel_tables kernel in
  space_ok K sp s → pt_kernel (table kernel) s →
  ∃ r s', duplicate sp (Some kernel) s = Ret (r, s') ∧ space_ok K sp s' ∧
    (∀ a, umem sp (fa_mem s') a = umem sp (fa_mem s) a) ∧
    match r with
    | Some child => space_ok K child s' ∧
        (∀ a, umem child (fa_mem s') a = umem sp (fa_mem s) a) ∧
        (∀ a, can_write child a = can_write sp a) ∧
        (∀ a b x, user_addr child a = Some x → user_addr sp b = Some x → False) ∧
        (∀ q, fa_used s' q ↔ fa_used s q ∨ q ∈ table_pages (table child) ∨ q ∈ sp_ppns child)
    | None => ∀ q, fa_used s' q ↔ fa_used s q
    end.
Proof.
  intros K Hok Hk. destruct (wp_run _ _ _ (duplicate_mem kernel sp s Hok Hk)) as (r & s' & Hr & Hpost).
  exists r, s'. split; [exact Hr|]. pose proof (ow_used _ _ _ _ (so_owns _ _ _ Hok)) as Hused.
  destruct r as [child|].
  - destruct Hpost as (Hb & Hmem & Hcw). pose proof (building_ok _ _ _ _ Hb) as Hc.
    destruct Hb as [_ _ _ Hu Hf Ha]. split_and!; [|intros a; apply umem_agree; intros q Hq%Hused; by apply Ha|done..| |done].
    + apply (space_ok_stable K sp s s' Hok); [apply (maps_inv _ _ _ _ (so_maps _ _ _ Hc))|].
      intros q Hq. split; [apply Hu; by left|by apply Ha].
    + intros a b x (q & Hq & Hp)%user_addr_ppn (q' & Hq' & Hp')%user_addr_ppn.
      apply (Hf q); [by right|]. rewrite <- (page_disjoint q' q x) by done. by apply Hused.
  - destruct Hpost as (Hinv & Hu & Ha). split_and!; [|intros a; apply umem_agree; intros q Hq%Hused; by apply Ha|exact Hu].
    apply (space_ok_stable K sp s s' Hok Hinv). intros q Hq. split; [by apply Hu|by apply Ha].
Qed.

(** after a fork neither side can be seen by the other: whatever is written
    through the child's address space, the parent's memory stays as it was at
    the time of the fork, and the other way round. *)
Theorem duplicate_isolates kernel sp s child s1 addr src :
  let K := kernel_tables kernel in
  space_ok K sp s → pt_kernel (table kernel) s → 0 ≤ addr →
  duplicate sp (Some kernel) s = Ret (Some child, s1) →
  (∃ r s2, copy_to_user child addr src s1 = Ret (r, s2) ∧ ∀ a, umem sp (fa_mem s2) a = umem sp (fa_mem s) a) ∧
  (∃ r s2, copy_to_user sp addr src s1 = Ret (r, s2) ∧ ∀ a, umem child (fa_mem s2) a = umem child (fa_mem s1) a).
Proof.
  intros K Hok Hk Ha Hrun. pose proof (duplicate_spec kernel sp s Hok Hk) as Hd. unfold wp in Hd.
  rewrite Hrun in Hd. destruct Hd as [Hb _]. pose proof (building_ok _ _ _ _ Hb) as Hc.
  destruct Hb as [_ _ _ Hu Hf Hag].
  pose proof (ow_used _ _ _ _ (so_owns _ _ _ Hok)) as Hused.
  assert (Hok1 : space_ok K sp s1).
  { apply (space_ok_stable K sp s s1 Hok); [apply (maps_inv _ _ _ _ (so_maps _ _ _ Hc))|].
    intros q Hq. split; [apply Hu; by left|by apply Hag]. }
  split.
  - destruct (wp_run _ _ _ (copy_to_user_stored K child addr src s1 Hc Ha)) as (r & s2 & Hr & k & _ & _ & _ & Hm & _).
    exists r, s2. split; [exact Hr|]. intros a. apply umem_agree. intros q Hq. etransitivity; [by apply Hag, Hused|].
    apply Hm. intros Hin. apply (Hf q); [by right|by apply Hused].
  - destruct (wp_run _ _ _ (copy_to_user_stored K sp addr src s1 Hok1 Ha)) as (r & s2 & Hr & k & _ & _ & _ & Hm & _).
    exists r, s2. split; [exact Hr|]. intros a. apply umem_agree. intros q Hq.
    apply Hm. intros Hin. apply (Hf q); [by right|by apply Hused].
Qed.

(** C35: dropping an address space returns exactly its frames and its tables,
    never the kernel's tables, and touches no page that stays in use. *)
Theorem AddressSpace_drop_correct K sp s :
  space_ok K sp s →
  ∃ s', AddressSpace_drop sp s = Ret (tt, s') ∧ fa_inv s' ∧
    (∀ q, fa_used s' q ↔ fa_used s q ∧ (q ∉ sp_ppns sp) ∧ q ∉ table_pages (table sp)) ∧
    (∀ q, K q → fa_used s' q) ∧
    (∀ q, fa_used s' q → agree (page q) (fa_mem s) (fa_mem s')).
Proof.
  intros [Hm Ho Hr]. destruct (wp_run _ _ _ (AddressSpace_drop_spec K sp [] [] s Hr ltac:(by rewrite app_nil_r) ltac:(by rewrite app_nil_r)))
    as ([] & s' & Hrun & Hinv & Hu & Ha).
  exists s'. split_and!; [done|done|done| |done].
  intros q Hq. apply Hu. destruct (mp_K _ _ _ _ Hm q Hq). split_and!; [done| |done].
  intros Hin. by apply (ow_tables _ _ _ _ Ho q).
Qed.

(** adding a region to a space where it does not overlap.  [push] either
    succeeds, and the space gains exactly that region, zero-filled, in frames
    nobody held, while the rest of flat memory is unchanged; or it reports that
    memory ran out, and the space keeps its regions. *)
Theorem push_correct K sp r s :
  space_ok K sp s → region_shape r → r_frames r = [] →
  (∀ x, vpn (r_start r) ≤ x < vpn (r_end r) → x ∉ (sp_pages sp).*1) →
  ∃ res sp' s', AS_push sp r s = Ret ((res, sp'), s') ∧
    match res with
    | Ok _ => ∃ new, regions sp' = regions sp ++ [with_frames new r] ∧ space_ok K sp' s' ∧
        (∀ a, 0 ≤ a → umem sp' (fa_mem s') a =
           if decide (r_start r ≤ a < r_end r) then Some x00 else umem sp (fa_mem s) a)
    | Err e => e = OutOfMemory ∧ regions sp' = regions sp
    end.
Proof.
  intros Hok Hsh Hnil Hfree.
  destruct (wp_run _ _ _ (AS_push_spec K sp r s Hok Hsh Hnil Hfree)) as ([res sp'] & s' & Hr & Hpost).
  exists res, sp', s'. split; [exact Hr|]. destruct res as [[]|e]; [|destruct Hpost as (-> & new & k & [Hrs _] & _); by split].
  destruct Hpost as (new & Hsp & Hok' & Hg & _). exists new. cbn zeta in Hsp. split_and!; [by rewrite Hsp|done|].
  rewrite Hsp in Hok' |- *. exact (umem_push K sp (with_frames new r) _ s s' Hok Hok' Hg).
Qed.
End theorems.

(** ** A concrete space

    A kernel table, then a user space with the two pages from [0x10000] on, built
    by the code on the booted machine, whole or nearly full. *)
Definition user_rw : Z := Z.lor Flags.RW Flags.USER.

Fixpoint drain (orders : list Z) : ST Frame.PhysMem unit :=
  match orders with
  | [] => mret tt
  | k :: orders => _ ← frame_alloc k; drain orders
  end.

Definition demo_region : Region := mkRegion 0x10000 0x12000 Framed user_rw [].
Definition demo_build : ST Frame.PhysMem (option (AddressSpace * AddressSpace)) :=
  k ← PageTable_new;
  match k with
  | None => mret None
  | Some kpt =>
      c ← AddressSpace_new;
      match c with
      | None => mret None
      | Some sp =>
          _ ← map_kernel_half sp (Some (mkAS kpt []));
          '(res, sp) ← AS_push sp demo_region;
          mret (match res with Ok _ => Some (mkAS kpt [], sp) | Err _ => None end)
      end
  end.

Lemma drain_inv orders : ∀ s, Forall (λ k, 0 ≤ k) orders → fa_inv s → wp (drain orders) (λ _ s', fa_inv s') s.
Proof.
  induction orders as [|k orders IH]; intros s Hk Hi; cbn [drain]; [by apply wp_ret|].
  apply Forall_cons in Hk as [Hk Hks]. wp_step. unfold frame_alloc. wp_step.
  eapply wp_mono; [|by apply (fa_alloc_ok s k)]. cbv beta. intros [p|] s1 Hp; apply wp_ret, IH; try done; [apply Hp|by subst].
Qed.

Lemma demo_region_shape : region_shape demo_region.
Proof. split; cbn; try done; [by exists 16|by exists 18]. Qed.

Lemma demo_build_ok s : fa_inv s →
  wp demo_build (λ r s', match r with
    | Some (kernel, sp) => space_ok (kernel_tables kernel) sp s' ∧ pt_kernel (table kernel) s' ∧
        ∃ fs, regions sp = [with_frames fs demo_region]
    | None => True
    end) s.
Proof.
  intros Hi. unfold demo_build. wp_step. apply (PageTable_new_spec 512); [lia|done|intros _; by apply wp_ret|].
  intros kpt s1 Hk%pt_low_kernel _ Hf _ _. set (kernel := mkAS kpt []).
  apply (wp_new_space kernel); [apply Hf|done|intros _; by apply wp_ret|]. intros sp s2 [Hr Hok Hk2 Hu _ _ _].
  wp_step. eapply wp_mono; [|apply (AS_push_spec (kernel_tables kernel) sp demo_region s2 Hok demo_region_shape); [done|]].
  2: { intros x _. unfold sp_pages. rewrite Hr. apply not_elem_of_nil. }
  intros [[[]|e] sp'] s3; [|intros _; by apply wp_ret]. intros (new & Hsp & Hok3 & Hg & _). apply wp_ret.
  split_and!; [done| |exists new; rewrite Hsp; simpl; by rewrite Hr].
  apply (pt_kernel_stable _ s2); [done|apply (maps_inv _ _ _ _ (so_maps _ _ _ Hok3))|]. intros q Hq.
  pose proof (mp_K _ _ _ _ (so_maps _ _ _ Hok) q Hq) as [HK Ht].
  split; [apply (gw_used _ _ _ _ _ Hg); by left|by apply (gw_agree _ _ _ _ _ Hg)].
Qed.

Definition demo_space : option (AddressSpace * AddressSpace) * Frame.PhysMem :=
  run_or (demo_build boot_state) None boot_state.
Definition no_space : AddressSpace := mkAS (mkPT 0 []) [].
Definition demo_kernel_sp : AddressSpace := (default (no_space, no_space) demo_space.1).1.
Definition demo_sp : AddressSpace := (default (no_space, no_space) demo_space.1).2.
Definition demo_st : Frame.PhysMem := demo_space.2.

Lemma demo_ok : space_ok (kernel_tables demo_kernel_sp) demo_sp demo_st ∧ pt_kernel (table demo_kernel_sp) demo_st ∧
  ∃ fs, regions demo_sp = [with_frames fs demo_region].
Proof.
  assert (Hs : match demo_build boot_state with Ret (Some _, _) => true | _ => false end = true)
    by (vm_compute; reflexivity).
  pose proof (demo_build_ok boot_state boot_frame_inv) as Hw.
  unfold demo_sp, demo_kernel_sp, demo_st, demo_space. unfold wp in Hw.
  by destruct (demo_build boot_state) as [[[[k sp]|] s]|].
Qed.
#[global] Opaque demo_space.

Abbreviation demo_K := (kernel_tables demo_kernel_sp).
(** Three bytes across the page boundary. *)
Definition demo_msg : list byte := [Init.Byte.x68; Init.Byte.x65; Init.Byte.x79].

Lemma copy_to_user_correct_witness :
  ∃ r s', copy_to_user demo_sp 0x10ffe demo_msg demo_st = Ret (r, s') ∧ space_ok demo_K demo_sp s'.
Proof.
  destruct (copy_to_user_correct demo_K demo_sp 0x10ffe demo_msg demo_st (proj1 demo_ok) ltac:(lia))
    as (r & s' & k & Hr & _ & Hok & _).
  exists r, s'. split; [exact Hr|exact Hok].
Defined.

Lemma copy_from_user_correct_witness :
  ∃ r dst', copy_from_user demo_sp 0x10ffe [x00; x00; x00] demo_st = Ret ((r, dst'), demo_st) ∧ length dst' = 3%nat.
Proof.
  destruct (copy_from_user_correct demo_K demo_sp 0x10ffe [x00; x00; x00] demo_st (proj1 demo_ok) ltac:(lia))
    as (r & dst' & k & Hr & _ & Hl & _).
  exists r, dst'. split; [exact Hr|exact Hl].
Defined.

Definition demo_copied : Frame.PhysMem := (run_or (copy_to_user demo_sp 0x10ffe demo_msg demo_st) None demo_st).2.
Lemma demo_copied_run : copy_to_user demo_sp 0x10ffe demo_msg demo_st = Ret (Some tt, demo_copied).
Proof.
  assert (Hok : match copy_to_user demo_sp 0x10ffe demo_msg demo_st with Ret (Some _, _) => true | _ => false end = true)
    by (vm_compute; reflexivity).
  unfold demo_copied. by destruct (copy_to_user demo_sp 0x10ffe demo_msg demo_st) as [[[[]|] s]|].
Qed.
#[global] Opaque demo_copied.

Lemma copy_roundtrip_witness :
  copy_from_user demo_sp 0x10ffe [x00; x00; x00] demo_copied = Ret ((Some tt, demo_msg), demo_copied).
Proof.
  apply (copy_roundtrip demo_K demo_sp 0x10ffe demo_msg [x00; x00; x00] demo_st demo_copied);
    [apply demo_ok|lia|done|exact demo_copied_run].
Defined.

Lemma read_cstr_correct_witness :
  read_cstr demo_sp 0x10ffe 256 demo_st =
    Ret (match cstr 256 demo_sp (fa_mem demo_st) 0x10ffe [] with
         | Some bs => if utf8_valid bs then Some bs else None
         | None => None
         end, demo_st).
Proof. apply (read_cstr_correct demo_K demo_sp 0x10ffe 256 demo_st); [apply demo_ok|lia]. Defined.

Lemma duplicate_correct_witness :
  ∃ r s', duplicate demo_sp (Some demo_kernel_sp) demo_st = Ret (r, s') ∧ space_ok demo_K demo_sp s'.
Proof.
  destruct (duplicate_correct demo_kernel_sp demo_sp demo_st) as (r & s' & Hr & Hok & _); [apply demo_ok..|].
  exists r, s'. split; [exact Hr|exact Hok].
Defined.

Definition demo_fork : option AddressSpace * Frame.PhysMem :=
  run_or (duplicate demo_sp (Some demo_kernel_sp) demo_st) None demo_st.
Definition demo_child : AddressSpace := default no_space demo_fork.1.
Lemma demo_fork_run : duplicate demo_sp (Some demo_kernel_sp) demo_st = Ret (Some demo_child, demo_fork.2).
Proof.
  assert (Hok : match duplicate demo_sp (Some demo_kernel_sp) demo_st with Ret (Some _, _) => true | _ => false end = true)
    by (vm_compute; reflexivity).
  unfold demo_child, demo_fork. by destruct (duplicate demo_sp (Some demo_kernel_sp) demo_st) as [[[c|] s]|].
Qed.
#[global] Opaque demo_fork.

Lemma duplicate_isolates_witness :
  ∃ r s2, copy_to_user demo_child 0x10000 demo_msg demo_fork.2 = Ret (r, s2) ∧
    ∀ a, umem demo_sp (fa_mem s2) a = umem demo_sp (fa_mem demo_st) a.
Proof.
  destruct (duplicate_isolates demo_kernel_sp demo_sp demo_st demo_child demo_fork.2 0x10000 demo_msg) as [Hw _];
    [apply demo_ok|apply demo_ok|lia|exact demo_fork_run|exact Hw].
Defined.

Lemma AddressSpace_drop_correct_witness :
  ∃ s', AddressSpace_drop demo_sp demo_st = Ret (tt, s') ∧ ∀ q, demo_K q → fa_used s' q.
Proof.
  destruct (AddressSpace_drop_correct demo_K demo_sp demo_st (proj1 demo_ok)) as (s' & Hr & _ & _ & Hk & _).
  exists s'. split; [exact Hr|exact Hk].
Defined.

(** A second region, next to the first. *)
Definition demo_stack : Region := mkRegion 0x20000 0x30000 Framed user_rw [].
Lemma demo_stack_shape : region_shape demo_stack.
Proof. split; cbn; try done; [by exists 32|by exists 48]. Qed.

Lemma demo_stack_free sp s K fs : space_ok K sp s → regions sp = [with_frames fs demo_region] →
  ∀ x, vpn (r_start demo_stack) ≤ x < vpn (r_end demo_stack) → x ∉ (sp_pages sp).*1.
Proof.
  intros Hok Hr x Hx. pose proof (so_regions _ _ _ Hok) as HF. unfold sp_pages. rewrite Hr in *.
  apply Forall_cons in HF as [Hro _]. cbn [mbind list_bind]. rewrite app_nil_r, region_pages_vpns, (ro_pages _ Hro), elem_of_seqZ.
  change (vpn (r_start demo_stack)) with 32 in Hx. change (vpn (r_start (with_frames fs demo_region))) with 16.
  change (vpn (r_end (with_frames fs demo_region))) with 18. lia.
Qed.

Lemma push_correct_witness :
  ∃ res sp' s', AS_push demo_sp demo_stack demo_st = Ret ((res, sp'), s') ∧
    match res with Ok _ => space_ok demo_K sp' s' | Err e => e = OutOfMemory end.
Proof.
  destruct demo_ok as (Hok & _ & fs & Hr).
  destruct (push_correct demo_K demo_sp demo_stack demo_st Hok demo_stack_shape eq_refl (demo_stack_free _ _ _ _ Hok Hr))
    as (res & sp' & s' & Hrun & Hpost).
  exists res, sp', s'. split; [exact Hrun|]. destruct res as [[]|e]; [|apply Hpost].
  destruct Hpost as (new & _ & Hok' & _). exact Hok'.
Defined.

(** ** Running out of memory half way *)

(** All but eight of the machine's frames are taken. *)
Definition drained : Frame.PhysMem :=
  (run_or (drain (replicate 30 10 ++ [9; 8; 7; 6; 5; 4; 3]) boot_state) tt boot_state).2.

Definition low_space : option (AddressSpace * AddressSpace) * Frame.PhysMem := run_or (demo_build drained) None drained.
Definition low_sp : AddressSpace := (default (no_space, no_space) low_space.1).2.

Lemma drained_inv : fa_inv drained.
Proof.
  pose proof (drain_inv (replicate 30 10 ++ [9; 8; 7; 6; 5; 4; 3]) boot_state) as Hw. unfold wp in Hw. unfold drained.
  destruct (drain (replicate 30 10 ++ [9; 8; 7; 6; 5; 4; 3]) boot_state) as [[[] s]|]; simpl.
  - apply Hw; [|exact boot_frame_inv]. cbn; repeat constructor; lia.
  - exact boot_frame_inv.
Qed.
#[global] Opaque drained.

Lemma low_ok : ∃ kernel fs, space_ok (kernel_tables kernel) low_sp low_space.2 ∧ regions low_sp = [with_frames fs demo_region].
Proof.
  assert (Hs : match demo_build drained with Ret (Some _, _) => true | _ => false end = true)
    by (vm_compute; reflexivity).
  pose proof (demo_build_ok drained drained_inv) as Hw. unfold low_sp, low_space, wp in *.
  destruct (demo_build drained) as [[[[k sp]|] s]|]; try done. destruct Hw as (Hok & _ & fs & Hr). by exists k, fs.
Qed.
#[global] Opaque low_space.

(** [push] reported failure but page [0x20] translates, writable, afterwards. *)
Definition dangles (o : outcome ((result MapError unit * AddressSpace) * Frame.PhysMem)) : bool :=
  match o with
  | Ret ((Err OutOfMemory, sp'), s') =>
      match translate (table sp') 0x20 s' with
      | Ret (Some e, _) => contains (Pte_flags e) (Z.lor Flags.WRITE Flags.USER)
      | _ => false
      end
  | _ => false
  end.

Lemma low_push_true : dangles (AS_push low_sp demo_stack low_space.2) = true.
Proof. vm_compute. reflexivity. Qed.

Lemma low_push_run : ∃ sp' s' e,
  AS_push low_sp demo_stack low_space.2 = Ret ((Err OutOfMemory, sp'), s') ∧
  view (table sp') s' 0x20 = Some e ∧ contains (Pte_flags e) (Z.lor Flags.WRITE Flags.USER) = true.
Proof.
  pose proof low_push_true as Hd.
  destruct (AS_push low_sp demo_stack low_space.2) as [[[[[]|[]] sp'] s']|]; try discriminate Hd.
  exists sp', s'. cbn [dangles] in Hd. rewrite translate_run in Hd. unfold view.
  destruct (tr _ _ _) as [e|]; [|discriminate Hd]. exists e. split; [reflexivity|]. split; [reflexivity|exact Hd].
Qed.

Section failure.
Context {S : Type} `{FrameAllocator S, !FrameAllocatorLaws S}.
Implicit Types (s : S) (K : Z → Prop) (sp : AddressSpace).

(** C40: a failed [push] is not undone.  When [push] of a framed region onto any
    well-formed space reports that memory ran out, the frames of the [k] pages
    it had mapped have gone back to the allocator, but their entries are still
    in the table: each of those pages translates, with the region's permissions,
    to a frame that nobody holds, and only the rest of the region is unmapped.
    [k] is at least one as soon as three frames were free to begin with, so for
    a writable region user code can then write a frame that is free. *)
Theorem push_failure_dangles K sp r s sp' s' :
  space_ok K sp s → region_shape r → r_frames r = [] →
  (∀ x, vpn (r_start r) ≤ x < vpn (r_end r) → x ∉ (sp_pages sp).*1) →
  AS_push sp r s = Ret ((Err OutOfMemory, sp'), s') →
  ∃ k, 0 ≤ k < vpn (r_end r) - vpn (r_start r) ∧ (3 ≤ fa_avail s → 1 ≤ k) ∧
    (∀ v, vpn (r_start r) ≤ v < vpn (r_start r) + k → ∃ e, view (table sp') s' v = Some e ∧
       Pte_flags e = leaf_flags (r_perm r) ∧ ¬ fa_used s' (Pte_ppn e)) ∧
    (∀ v, vpn (r_start r) + k ≤ v < vpn (r_end r) → view (table sp') s' v = None).
Proof.
  intros Hok Hsh Hnil Hdis Hrun. pose proof (AS_push_spec K sp r s Hok Hsh Hnil Hdis) as Hw.
  unfold wp in Hw. rewrite Hrun in Hw. destruct Hw as (_ & new & k & (_ & Hm & Hfree & _) & Hk & Hnew & Hfew).
  unfold region_size in Hk. pose proof (region_shape_vpns r Hsh) as [Hr1 Hr2].
  exists k. split_and!; [lia|lia|lia| |].
  - intros v Hv. assert (Hin : v ∈ new.*1) by (rewrite Hnew; apply elem_of_seqZ; lia).
    apply list_elem_of_fmap in Hin as ([v' fr] & Heq & Hin). simpl in Heq. subst v'.
    assert (HinL : (v, (f_ppn fr, r_perm r)) ∈ region_pages (with_frames new r) ++ sp_pages sp).
    { apply elem_of_app. left. apply list_elem_of_fmap. by exists (v, fr). }
    destruct (mp_range _ _ _ _ Hm _ _ _ HinL) as (_ & Hp & Hf). pose proof (leaf_flags_range _ Hf) as Hlf.
    exists (Pte_new (f_ppn fr) (leaf_flags (r_perm r))). split; [by apply (mp_page _ _ _ _ Hm)|].
    split; [by apply Pte_new_flags; [lia|]|]. rewrite Pte_new_ppn by (lia || done). apply Hfree.
    apply list_elem_of_fmap_2, list_elem_of_fmap. by exists (v, fr).
  - intros v Hv. apply (mp_none _ _ _ _ Hm); [unfold user_vpn; lia|].
    rewrite fmap_app, elem_of_app, region_pages_vpns. cbn [r_frames with_frames]. rewrite Hnew, elem_of_seqZ.
    intros [?|Hin]; [lia|]. apply (Hdis v); [lia|done].
Qed.
End failure.

(** On the nearly full machine: after the failed [push] user code can write page
    [0x20], whose frame is free. *)
Lemma push_failure_dangles_witness : ∃ sp' s' e,
  AS_push low_sp demo_stack low_space.2 = Ret ((Err OutOfMemory, sp'), s') ∧
  view (table sp') s' 0x20 = Some e ∧ contains (Pte_flags e) (Z.lor Flags.WRITE Flags.USER) = true ∧
  ¬ fa_used s' (Pte_ppn e).
Proof.
  destruct low_ok as (kernel & fs & Hok & Hr). destruct low_push_run as (sp' & s' & e & Hrun & Hv & Hc).
  exists sp', s', e. split; [exact Hrun|]. split; [exact Hv|]. split; [exact Hc|].
  destruct (push_failure_dangles _ _ _ _ _ _ Hok demo_stack_shape eq_refl (demo_stack_free _ _ _ _ Hok Hr) Hrun)
    as (k & Hk & _ & Hpages & Hrest).
  change (vpn (r_start demo_stack)) with 32 in *. change (vpn (r_end demo_stack)) with 48 in *.
  destruct (decide (1 ≤ k)) as [H1|H1].
  - destruct (Hpages 0x20 ltac:(lia)) as (e' & He & _ & Hfree). rewrite Hv in He. injection He as <-. exact Hfree.
  - pose proof (Hrest 0x20 ltac:(lia)) as Hn. rewrite Hv in Hn. discriminate Hn.
Defined.
