(* ===== verification/KernelMap.v ===== *)
(** * The address translation of the hardware, and linear mappings

    [hw] is the Sv39 walk of the MMU, which stops at the first leaf, so that it
    covers the superpages of the kernel's own space.  [kmap] says that a table
    translates exactly the pages of the direct map that [F] gives permissions
    to.  The lemmas say what one [map_at_level], with a page of either size,
    does to such a table. *)
From stdpp Require Import base numbers functions sets list.
From Stdlib Require Import Lia.
From S2P Require Import Prelude Memory Config Addr FrameIface PageTable PageTableInv PageTableWalk PageTableOps.

(** ** The walk of the MMU *)

(** The leaf a walk ends at and the indices it did not consume. *)
Fixpoint hw (m : mem) (idxs : list Z) (t : PhysPageNum) : option (Pte * list Z) :=
  match idxs with
  | [] => None
  | i :: rest =>
      let e := ent m t i in
      if is_leaf e then Some (e, rest)
      else if is_valid e then hw m rest (Pte_ppn e) else None
  end.

(** The number of a page among the [2^27] of the address space. *)
Fixpoint num (idxs : list Z) : Z :=
  match idxs with
  | [] => 0
  | i :: rest => i * 512 ^ Z.of_nat (length rest) + num rest
  end.

(** Where the page lands, with the flags of the leaf; a superpage that is not
    aligned to its size faults. *)
Definition hw_page (m : mem) (idxs : list Z) (t : PhysPageNum) : option (PhysPageNum * PteFlags) :=
  match hw m idxs t with
  | Some (e, rest) =>
      if Pte_ppn e `mod` 512 ^ Z.of_nat (length rest) =? 0
      then Some (Pte_ppn e + num rest, Pte_flags e) else None
  | None => None
  end.

(** Translation of a virtual address under a value of [satp]: Sv39 only, and
    only addresses that extend bit 38. *)
Definition hw_addr (m : mem) (satp va : Z) : option (PhysAddr * PteFlags) :=
  if (Z.shiftr satp 60 =? 8) && ((va <? 2 ^ 38) || (U64 - 2 ^ 38 <=? va)) then
    match hw_page m (indices (vpn va)) (Z.land satp (2 ^ 44 - 1)) with
    | Some (p, f) => Some (p * PAGE_SIZE + page_offset va, f)
    | None => None
    end
  else None.

Lemma is_leaf_valid e : is_leaf e = true → is_valid e = true.
Proof. unfold is_leaf. by intros [? _]%andb_true_iff. Qed.

Lemma interior_split e : interior e = true ↔ is_leaf e = false ∧ is_valid e = true.
Proof. unfold interior. rewrite andb_true_iff, negb_true_iff. tauto. Qed.

Lemma leaf_flags_rwx p f : 0 ≤ p < 2 ^ 44 → 0 ≤ f < 1024 → intersects f Flags.RWX = true →
  is_leaf (Pte_new p (leaf_flags f)) = true.
Proof.
  intros Hp Hf Hx. unfold is_leaf. rewrite is_valid_leaf by done. simpl.
  rewrite Pte_new_flags by (done || by apply leaf_flags_range). revert Hx. unfold intersects.
  rewrite !negb_true_iff, !Z.eqb_neq. intros Hx Hz. apply Hx. apply Z.bits_inj'. intros j Hj.
  apply (f_equal (λ x, Z.testbit x j)) in Hz. revert Hz. unfold leaf_flags.
  rewrite !Z.land_spec, !Z.lor_spec, Z.bits_0. destruct (Z.testbit f j); [|done]. by simpl.
Qed.

(** A walk that finds no leaf crosses no superpage. *)
Lemma hw_clear m idxs : ∀ k t, hw m idxs t = None → clear m idxs k t.
Proof.
  induction idxs as [|i rest IH]; intros [|k] t Hh; try done. simpl in *.
  destruct (is_leaf (ent m t i)); [done|]. split; [done|]. intros Hv. rewrite Hv in Hh. by apply IH.
Qed.

(** ** Page numbers *)

Lemma num_bound idxs : Forall index_ok idxs → 0 ≤ num idxs < 512 ^ Z.of_nat (length idxs).
Proof.
  induction 1 as [|i rest Hi _ IH]; [done|]. simpl num. cbn [length]. rewrite Nat2Z.inj_succ, Z.pow_succ_r by lia.
  unfold index_ok in Hi. set (W := 512 ^ _) in *. nia.
Qed.

Lemma num_app pa pb : num (pa ++ pb) = num pa * 512 ^ Z.of_nat (length pb) + num pb.
Proof.
  induction pa as [|i pa IH]; [done|]. simpl. rewrite IH, length_app, Nat2Z.inj_add, Z.pow_add_r by lia. lia.
Qed.

Lemma num_inj pa pb : length pa = length pb → Forall index_ok pa → Forall index_ok pb → num pa = num pb → pa = pb.
Proof.
  revert pb. induction pa as [|i pa IH]; intros [|j pb] Hl Ha Hb Hn; try done. simpl in Hl, Hn. injection Hl as Hl.
  apply Forall_cons in Ha as [Hi Ha]. apply Forall_cons in Hb as [Hj Hb]. rewrite Hl in Hn.
  pose proof (num_bound pa Ha) as B1. pose proof (num_bound pb Hb) as B2. rewrite Hl in B1.
  set (W := 512 ^ _) in *. assert (i = j) as -> by nia. f_equal. apply IH; [done..|nia].
Qed.

(** The pages below a prefix are an aligned run. *)
Lemma num_prefix pa idxs : Forall index_ok pa → Forall index_ok idxs → (length pa ≤ length idxs)%nat →
  let W := 512 ^ Z.of_nat (length idxs - length pa) in
  pa `prefix_of` idxs ↔ num pa * W ≤ num idxs < num pa * W + W.
Proof.
  intros Ha Hx Hl W. split.
  - intros [pb ->]. apply Forall_app in Hx as [_ Hb]. pose proof (num_bound pb Hb) as B. rewrite num_app.
    unfold W. rewrite length_app, Nat.add_comm, Nat.add_sub. lia.
  - intros Hn. rewrite <- (take_drop (length pa) idxs) in Hn, Hx |- *. apply Forall_app in Hx as [Ht Hd].
    set (tk := take _ idxs) in *. set (dr := drop _ idxs) in *. assert (Htl : length tk = length pa) by (apply length_take_le; lia).
    assert (Hdl : (length dr = length idxs - length pa)%nat) by apply length_drop.
    rewrite num_app, Hdl in Hn. fold W in Hn. pose proof (num_bound dr Hd) as B. rewrite Hdl in B. fold W in B.
    replace tk with pa; [by exists dr|]. apply num_inj; [done..|]. nia.
Qed.

Lemma num_indices v : 0 ≤ v → num (indices v) = v `mod` 2 ^ 27.
Proof.
  intros Hv. unfold indices. rewrite !land_1ff, !Z.shiftr_div_pow2 by lia. simpl num.
  cbn [length]. change (512 ^ Z.of_nat 2) with 262144. change (512 ^ Z.of_nat 1) with 512.
  change (512 ^ Z.of_nat 0) with 1. change (2 ^ 18) with 262144. change (2 ^ 9) with 512. change (2 ^ 27) with 134217728.
  Z.div_mod_to_equations. lia.
Qed.

(** The virtual page of physical page [p] in the direct map. *)
Definition linear (p : PhysPageNum) : VirtPageNum := p + Z.shiftr VIRT_OFFSET PAGE_SHIFT.

Lemma num_linear p : 0 ≤ p < 2 ^ 26 → num (indices (linear p)) = 2 ^ 26 + p.
Proof.
  intros Hp. unfold linear. change (Z.shiftr VIRT_OFFSET PAGE_SHIFT) with (2 ^ 52 - 2 ^ 26).
  rewrite num_indices by lia. Z.div_mod_to_equations. lia.
Qed.

(** The path of an aligned block of the direct map. *)
Section block.
Context (p : Z) (k : nat).
Abbreviation W := (512 ^ Z.of_nat (2 - k)).
Abbreviation tk := (take (Datatypes.S k) (indices (linear p))).
Context (Hk : (k ≤ 2)%nat) (Hd : (W | p)) (H0 : 0 ≤ p) (Htop : p + W ≤ 2 ^ 26).

Lemma block_start : num tk * W = 2 ^ 26 + p.
Proof.
  destruct (indices_ok (linear p)) as [Hix Hl]. assert (HW : 0 < W) by (apply Z.pow_pos_nonneg; lia).
  pose proof (num_linear p ltac:(lia)) as Hn. rewrite <- (take_drop (Datatypes.S k) (indices (linear p))) in Hn.
  pose proof (num_bound (drop (Datatypes.S k) (indices (linear p))) (Forall_drop _ _ _ Hix)) as B.
  rewrite length_drop, Hl in B. rewrite num_app, length_drop, Hl in Hn.
  replace (3 - Datatypes.S k)%nat with (2 - k)%nat in * by lia.
  assert (Hdv : (W | 2 ^ 26 + p)).
  { apply Z.divide_add_r; [|done]. exists (2 ^ 26 `div` W). assert (k = 0 ∨ k = 1 ∨ k = 2)%nat as [-> |[-> | ->]] by lia; done. }
  destruct Hdv as [d Hd']. rewrite Hd' in Hn |- *. set (w := W) in *. set (x := num tk) in *. clear -B Hn HW. assert (x = d) as -> by nia. done.
Qed.

Lemma block_path idxs' : Forall index_ok idxs' → length idxs' = 3%nat →
  tk `prefix_of` idxs' ↔ p ≤ num idxs' - 2 ^ 26 < p + W.
Proof.
  intros Hix' Hl'. destruct (indices_ok (linear p)) as [Hix Hl].
  rewrite num_prefix; [|by apply Forall_take|done|rewrite length_take; lia]. rewrite length_take, Hl, Hl'.
  replace (3 - Datatypes.S k `min` 3)%nat with (2 - k)%nat by lia. rewrite block_start. lia.
Qed.

Lemma block_low idxs' : length idxs' = 3%nat →
  tk `prefix_of` idxs' → p + num (drop (Datatypes.S k) idxs') = num idxs' - 2 ^ 26.
Proof.
  destruct (indices_ok (linear p)) as [Hix Hl]. intros Hl' [rest ->].
  assert (Htl : length tk = Datatypes.S k) by (rewrite length_take; lia).
  rewrite length_app, Htl in Hl'. rewrite <- Htl at 1. rewrite drop_app_length, num_app.
  replace (length rest) with (2 - k)%nat by lia. rewrite block_start. lia.
Qed.
End block.

Section map.
Context {S : Type} `{FrameAllocator S, !FrameAllocatorLaws S}.
Implicit Types (s : S) (role : Z → option (list Z)) (pt : PageTable).

Lemma hw_reach n role pt s t pa idxs :
  pt_ok n role pt s → role t = Some pa →
  hw (fa_mem s) (pa ++ idxs) (root pt) = hw (fa_mem s) idxs t.
Proof.
  intros Hok. revert t idxs. induction pa as [|i pa IH] using rev_ind; intros t idxs Ht.
  - by apply (pt_root _ _ _ _ Hok) in Ht as ->.
  - destruct (pt_parent _ _ _ _ Hok _ _ _ Ht) as (Hi & t' & Ht' & [Hl Hv]%interior_split & Hp).
    rewrite <- app_assoc, (IH t' ([i] ++ idxs) Ht'). simpl. by rewrite Hl, Hv, Hp.
Qed.

(** Memory that agrees on the tables translates alike. *)
Lemma hw_stable n role pt s m' idxs :
  pt_ok n role pt s → (∀ q pa, role q = Some pa → agree (page q) (fa_mem s) m') →
  Forall index_ok idxs → length idxs = 3%nat →
  hw m' idxs (root pt) = hw (fa_mem s) idxs (root pt).
Proof.
  intros Hok Hst Hix Hl.
  assert (Hgen : ∀ idxs q pa, role q = Some pa → (length pa + length idxs = 3)%nat → Forall index_ok idxs →
    hw m' idxs q = hw (fa_mem s) idxs q); [|apply (Hgen idxs (root pt) []); [by apply (pt_root _ _ _ _ Hok)|done|done]].
  clear idxs Hix Hl. induction idxs as [|i idxs IH]; intros q pa Hq Hlen Hx; [done|]. apply Forall_cons in Hx as [Hi Hx]. simpl.
  rewrite (ent_agree (fa_mem s) m' q i) by (done || by eapply pt_page || by eapply Hst).
  destruct (is_leaf (ent (fa_mem s) q i)) eqn:Hlf; [done|]. destruct (is_valid (ent (fa_mem s) q i)) eqn:Hv; [|done].
  destruct idxs as [|j idxs]; [done|]. apply (IH _ (pa ++ [i])); [|rewrite length_app; simpl in *; lia|done].
  apply (pt_child _ _ _ _ Hok); [done|simpl in *; lia|done|by apply interior_split].
Qed.

(** A walk ends at a leaf exactly where a table on its way holds one. *)
Lemma hw_leaf n role pt s idxs e rest :
  pt_ok n role pt s → Forall index_ok idxs → length idxs = 3%nat →
  hw (fa_mem s) idxs (root pt) = Some (e, rest) ↔
  ∃ q pa i, idxs = pa ++ i :: rest ∧ role q = Some pa ∧ ent (fa_mem s) q i = e ∧ is_leaf e = true.
Proof.
  intros Hok Hix Hl. split.
  - assert (Hgen : ∀ tl q pa, role q = Some pa → idxs = pa ++ tl → hw (fa_mem s) tl q = Some (e, rest) →
      ∃ q pa i, idxs = pa ++ i :: rest ∧ role q = Some pa ∧ ent (fa_mem s) q i = e ∧ is_leaf e = true).
    { induction tl as [|i tl IH]; intros q pa Hq Heq Hh; [done|]. simpl in Hh.
      destruct (is_leaf (ent (fa_mem s) q i)) eqn:Hlf; [injection Hh as <- <-; eauto 10|].
      destruct (is_valid (ent (fa_mem s) q i)) eqn:Hv; [|done]. destruct tl as [|j tl]; [done|].
      assert (Hlt : (length pa < 2)%nat) by (rewrite Heq, length_app in Hl; simpl in Hl; lia).
      apply (IH (Pte_ppn (ent (fa_mem s) q i)) (pa ++ [i])); [|by rewrite <- app_assoc|done].
      apply (pt_child _ _ _ _ Hok); [done..| |by apply interior_split].
      rewrite Heq in Hix. apply Forall_app in Hix as [_ Hix]. by apply Forall_cons in Hix as [? _]. }
    intros Hh. apply (Hgen idxs (root pt) []); [by apply (pt_root _ _ _ _ Hok)|done|done].
  - intros (q & pa & i & -> & Hq & He & Hlf). rewrite (hw_reach n role pt s q pa) by done. simpl. by rewrite He, Hlf.
Qed.

Lemma hw_grown n role pt s role' pt' s' idxs :
  pt_ok n role pt s → grown n role pt s role' pt' s' → Forall index_ok idxs → length idxs = 3%nat →
  hw (fa_mem s') idxs (root pt') = hw (fa_mem s) idxs (root pt).
Proof.
  intros Hok Hg Hix Hl. apply option_eq. intros [e rest].
  rewrite (hw_leaf n role' pt' s' idxs), (hw_leaf n role pt s idxs) by (done || apply Hg).
  assert (Hio : ∀ pa i, idxs = pa ++ i :: rest → index_ok i).
  { intros pa i ->. apply Forall_app in Hix as [_ Hix]. by apply Forall_cons in Hix as [? _]. }
  split; intros (q & pa & i & Heq & Hq & He & Hlf); exists q, pa, i;
    destruct (gr_leaf _ _ _ _ _ _ _ Hg q pa i e (Hio _ _ Heq) Hlf); naive_solver.
Qed.

(** ** Storing a leaf in an invalid entry, at any level *)
Section store.
Context (n : Z) (role : Z → option (list Z)) (pt : PageTable) (s : S) (t : Z) (pa : list Z) (i v : Z).
Context (Hok : pt_ok n role pt s) (Ht : role t = Some pa) (Hi : index_ok i) (Hv : 0 ≤ v < U64)
  (Hlf : is_leaf v = true) (Hinv : is_valid (ent (fa_mem s) t i) = false).

Lemma store_ent q pb j : role q = Some pb → index_ok j →
  ent (fa_mem (write_ent s t i v)) q j = if decide (t = q ∧ i = j) then v else ent (fa_mem s) q j.
Proof. intros Hq Hj. rewrite write_ent_mem. apply ent_store; [by eapply pt_page|by eapply pt_page|done..]. Qed.

Lemma store_ok : pt_ok n role pt (write_ent s t i v).
Proof.
  destruct (write_ent_inv s t i v (pt_inv _ _ _ _ Hok) (pt_used _ _ _ _ Hok _ _ Ht) Hi) as [Hin Hus].
  pose proof store_ent as Hent. destruct Hok as [? ? ? ? ? ? ? Hu Hd Hc Hpar]. constructor; try done.
  - intros p pb Hp. apply Hus. eauto.
  - intros p pb j Hp Hl Hj. rewrite (Hent p pb j) by done. case_decide; [|by apply Hc].
    intros [Hx _]%interior_split. by rewrite Hlf in Hx.
  - intros p pb j Hp. destruct (Hpar _ _ _ Hp) as (Hj & t' & Ht' & Hx & He). split; [done|].
    exists t'. rewrite (Hent t' pb j) by done. rewrite decide_False; [done|]. intros [<- <-].
    apply interior_split in Hx as [_ Hx]. by rewrite Hinv in Hx.
Qed.

Lemma store_hw idxs : Forall index_ok idxs → length idxs = 3%nat →
  hw (fa_mem (write_ent s t i v)) idxs (root pt) =
    if decide (pa ++ [i] `prefix_of` idxs) then Some (v, drop (Datatypes.S (length pa)) idxs)
    else hw (fa_mem s) idxs (root pt).
Proof.
  intros Hix Hl. case_decide as Hp.
  - destruct Hp as [rest ->]. rewrite <- app_assoc in *. rewrite (hw_leaf n role pt) by (done || apply store_ok).
    exists t, pa, i. split_and!; [|done| |done]; simpl.
    + f_equal. f_equal. rewrite drop_app_ge by lia. by replace (Datatypes.S (length pa) - length pa)%nat with 1%nat by lia.
    + rewrite (store_ent t pa i) by done. by rewrite decide_True.
  - apply option_eq. intros [e rest]. rewrite (hw_leaf n role pt _ _ _ _ store_ok), (hw_leaf n role pt s) by done.
    assert (Hx : ∀ q pb j, idxs = pb ++ j :: rest → role q = Some pb →
      ent (fa_mem (write_ent s t i v)) q j = ent (fa_mem s) q j).
    { intros q pb j Heq Hq. rewrite (store_ent q pb j); [|done|].
      - rewrite decide_False; [done|]. intros [<- <-]. apply Hp. rewrite Ht in Hq. injection Hq as <-.
        exists rest. by rewrite <- app_assoc.
      - rewrite Heq in Hix. apply Forall_app in Hix as [_ Hix]. by apply Forall_cons in Hix as [? _]. }
    split; intros (q & pb & j & Heq & Hq & He & Hf); exists q, pb, j; specialize (Hx q pb j Heq Hq); split_and!; congruence.
Qed.

Lemma store_tr idxs e : Forall index_ok idxs → length idxs = 3%nat →
  tr (fa_mem (write_ent s t i v)) idxs (root pt) = Some e →
  is_leaf e = true ∨ tr (fa_mem s) idxs (root pt) = Some e.
Proof.
  intros Hix Hl. destruct (decide (pa ++ [i] `prefix_of` idxs)) as [[rest ->]|Hp].
  - rewrite <- app_assoc, (tr_reach n role pt _ t pa) by (done || apply store_ok). simpl.
    rewrite (store_ent t pa i), decide_True by done. destruct rest as [|j rest].
    + unfold filter_valid. rewrite (is_leaf_valid _ Hlf). intros [= <-]. by left.
    + unfold interior. by rewrite Hlf, andb_false_r.
  - rewrite write_ent_mem, (tr_off n role pt s t pa i v idxs Hok Ht Hi Hv (root pt) []); [by right| |simpl; lia|done|done].
    by apply (pt_root _ _ _ _ Hok).
Qed.
End store.

(** ** Tables that hold a linear mapping

    [F] gives the permissions of physical page [p] at its address in the direct
    map, [A] the paths its tables may be on. *)
Record kmap (A : list Z → Prop) (F : Z → option PteFlags) role pt s : Prop := {
  km_ok : pt_ok 512 role pt s;
  km_page : ∀ idxs, Forall index_ok idxs → length idxs = 3%nat →
    hw_page (fa_mem s) idxs (root pt) =
      (λ f, (num idxs - 2 ^ 26, leaf_flags f)) <$> F (num idxs - 2 ^ 26);
  km_none : ∀ idxs, Forall index_ok idxs → length idxs = 3%nat →
    F (num idxs - 2 ^ 26) = None → hw (fa_mem s) idxs (root pt) = None;
  (** Valid entries of the bottom level are leaves. *)
  km_bottom : ∀ idxs e, Forall index_ok idxs → length idxs = 3%nat →
    tr (fa_mem s) idxs (root pt) = Some e → is_leaf e = true;
  (** No table of the bottom level is empty. *)
  km_full : ∀ q i j, role q = Some [i; j] →
    ∃ k, index_ok k ∧ is_Some (hw (fa_mem s) [i; j; k] (root pt));
  km_path : ∀ q pa, role q = Some pa → A pa;
}.

Lemma kmap_mapped A F role pt s idxs :
  kmap A F role pt s → Forall index_ok idxs → length idxs = 3%nat →
  is_Some (hw (fa_mem s) idxs (root pt)) → is_Some (F (num idxs - 2 ^ 26)).
Proof.
  intros Hk Hix Hl [x Hx]. destruct (F (num idxs - 2 ^ 26)) eqn:HF; [done|].
  by rewrite (km_none _ _ _ _ _ Hk) in Hx.
Qed.

(** Growing the tree of tables leaves the mapping alone; the tables of the
    bottom level it adds are still empty. *)
Lemma kmap_grown_page A F role pt s role' pt' s' idxs :
  kmap A F role pt s → grown 512 role pt s role' pt' s' → Forall index_ok idxs → length idxs = 3%nat →
  hw_page (fa_mem s') idxs (root pt') = hw_page (fa_mem s) idxs (root pt).
Proof. intros Hk Hg Hix Hl. unfold hw_page. by rewrite (hw_grown 512 role pt s role' pt' s') by (done || apply Hk). Qed.

(** The entry for a block none of whose pages is mapped is invalid. *)
Lemma kmap_slot_free A F role pt s role' pt' s' idxs k q i :
  kmap A F role pt s → grown 512 role pt s role' pt' s' →
  (∀ p pb, role' p = Some pb → role p = Some pb ∨ pb `prefix_of` take k idxs) →
  Forall index_ok idxs → length idxs = 3%nat → (1 ≤ k ≤ 2)%nat →
  role' q = Some (take k idxs) → idxs !! k = Some i →
  (∀ idxs', Forall index_ok idxs' → length idxs' = 3%nat →
     take (Datatypes.S k) idxs `prefix_of` idxs' → F (num idxs' - 2 ^ 26) = None) →
  is_valid (ent (fa_mem s') q i) = false.
Proof.
  intros Hk Hg Hpth Hix Hl Hk12 Hq Hi HF. pose proof (gr_ok _ _ _ _ _ _ _ Hg) as Hok'.
  destruct (is_valid (ent (fa_mem s') q i)) eqn:Hv; [exfalso|done].
  assert (Hio : index_ok i) by (by eapply Forall_lookup_1).
  pose proof (take_S_r _ _ _ Hi) as Htk.
  assert (Hnone : ∀ idxs', Forall index_ok idxs' → length idxs' = 3%nat →
    take (Datatypes.S k) idxs `prefix_of` idxs' → hw (fa_mem s') idxs' (root pt') = None).
  { intros idxs' Hix' Hl' Hp. rewrite (hw_grown 512 role pt s role' pt' s') by (done || apply Hk).
    by apply (km_none _ _ _ _ _ Hk), HF. }
  assert (Hlf : is_leaf (ent (fa_mem s') q i) = false).
  { destruct (is_leaf (ent (fa_mem s') q i)) eqn:Hlf; [exfalso|done].
    assert (Hpre : take (Datatypes.S k) idxs `prefix_of` idxs) by (exists (drop (Datatypes.S k) idxs); by rewrite take_drop).
    pose proof (Hnone idxs Hix Hl Hpre) as Hn.
    rewrite <- (take_drop_middle idxs k i Hi), (hw_reach 512 role' pt' s' q) in Hn by done.
    simpl in Hn. by rewrite Hlf in Hn. }
  assert (Hk2 : k = 2%nat ∨ k = 1%nat) by lia. destruct Hk2 as [-> | ->].
  - assert (Htr : tr (fa_mem s') idxs (root pt) = Some (ent (fa_mem s') q i)).
    { rewrite <- (gr_root _ _ _ _ _ _ _ Hg). rewrite <- (take_drop_middle idxs 2 i Hi).
      rewrite (tr_reach 512 role' pt' s' q) by done. rewrite drop_ge by lia. simpl. unfold filter_valid. by rewrite Hv. }
    rewrite (gr_tr _ _ _ _ _ _ _ Hg) in Htr by done. apply (km_bottom _ _ _ _ _ Hk) in Htr; [|done..]. congruence.
  - destruct idxs as [|a [|b [|c []]]]; try done. simpl in Hi, Hq, Htk. injection Hi as ->.
    assert (Hr : role' (Pte_ppn (ent (fa_mem s') q i)) = Some [a; i]).
    { apply (pt_child _ _ _ _ Hok' q [a]); [done|simpl; lia|done|by apply interior_split]. }
    apply Hpth in Hr as [Hr|Hr%prefix_length]; [|simpl in Hr; lia].
    destruct (km_full _ _ _ _ _ Hk _ _ _ Hr) as (x & Hx & Hm). inversion_clear Hix as [|? ? Ha Hix']. inversion_clear Hix' as [|? ? Hb Hix''].
    assert (Hix3 : Forall index_ok [a; i; x]) by auto using Forall_nil_2, Forall_cons_2.
    destruct (kmap_mapped A F role pt s [a; i; x] Hk Hix3 eq_refl Hm) as [f Hf].
    rewrite HF in Hf; [done|done|done|]. by exists [x].
Qed.

(** The mapping with the block of [W] pages from [p] added. *)
Definition add_block (p W : Z) (f : PteFlags) (F : Z → option PteFlags) : Z → option PteFlags :=
  λ x, if decide (p ≤ x < p + W) then Some f else F x.

(** Storing the leaf of a block in the free entry the walk returned. *)
Lemma kmap_store A F role pt s role' pt' s' p f k q i :
  let idxs := indices (linear p) in
  let W := 512 ^ Z.of_nat (2 - k) in
  kmap A F role pt s → grown 512 role pt s role' pt' s' →
  (∀ p pb, role' p = Some pb → role p = Some pb ∨ pb `prefix_of` take k idxs) →
  (1 ≤ k ≤ 2)%nat → (W | p) → 0 ≤ p → p + W ≤ 2 ^ 26 → 0 ≤ f < 1024 → intersects f Flags.RWX = true →
  (∀ j, (j ≤ k)%nat → A (take j idxs)) →
  role' q = Some (take k idxs) → idxs !! k = Some i →
  is_valid (ent (fa_mem s') q i) = false →
  kmap A (add_block p W f F) role' pt' (write_ent s' q i (Pte_new p (leaf_flags f))).
Proof.
  intros idxs W Hk Hg Hpth Hk12 Hd H0 Htop Hf Hrwx HA Hq Hi Hfree.
  destruct (indices_ok (linear p)) as [Hix Hl]. fold idxs in Hix, Hl.
  assert (HW : 0 < W) by (apply Z.pow_pos_nonneg; lia). assert (Hio : index_ok i) by (by eapply Forall_lookup_1).
  pose proof (gr_ok _ _ _ _ _ _ _ Hg) as Hok'. pose proof (take_S_r _ _ _ Hi) as Htk.
  pose proof (leaf_flags_range f Hf) as Hlf. set (e := Pte_new p (leaf_flags f)).
  assert (He : 0 ≤ e < U64) by (apply Pte_new_range; lia).
  assert (Hle : is_leaf e = true) by (apply leaf_flags_rwx; [lia|done..]).
  assert (Hlen : length (take k idxs) = k) by (apply length_take_le; lia).
  assert (Hhw : ∀ idxs', Forall index_ok idxs' → length idxs' = 3%nat →
    hw (fa_mem (write_ent s' q i e)) idxs' (root pt') =
      if decide (p ≤ num idxs' - 2 ^ 26 < p + W) then Some (e, drop (Datatypes.S k) idxs')
      else hw (fa_mem s) idxs' (root pt)).
  { intros idxs' Hix' Hl'. rewrite (store_hw 512 role' pt' s' q (take k idxs) i e) by done.
    rewrite Hlen, (hw_grown 512 role pt s role' pt' s'), <- Htk by (done || apply Hk).
    pose proof (block_path p k ltac:(lia) Hd H0 Htop idxs' Hix' Hl') as Hbp. fold idxs in Hbp.
    do 2 case_decide; (done || tauto). }
  constructor.
  - by apply (store_ok 512 role' pt' s' q (take k idxs) i e).
  - intros idxs' Hix' Hl'. unfold hw_page. rewrite Hhw by done. unfold add_block. case_decide as Hin.
    + cbv beta match. rewrite length_drop, Hl'. replace (3 - Datatypes.S k)%nat with (2 - k)%nat by lia. fold W. unfold e.
      rewrite Pte_new_ppn, Pte_new_flags by (done || lia). rewrite (proj2 (Z.mod_divide p W ltac:(lia)) Hd). simpl.
      rewrite block_low; [done|lia|done..|]. by apply block_path; [lia|..].
    + exact (km_page _ _ _ _ _ Hk idxs' Hix' Hl').
  - intros idxs' Hix' Hl'. rewrite Hhw by done. unfold add_block. case_decide; [done|]. by apply (km_none _ _ _ _ _ Hk).
  - intros idxs' e' Hix' Hl' [?|Ht]%(store_tr 512 role' pt' s' q (take k idxs) i e); try done.
    rewrite (gr_root _ _ _ _ _ _ _ Hg), (gr_tr _ _ _ _ _ _ _ Hg) in Ht by done. by apply (km_bottom _ _ _ _ _ Hk idxs').
  - intros q' a b Hr. pose proof (pt_path _ _ _ _ _ _ Hok' Hr) as Hab. apply Hpth in Hr as [Hr|Hr].
    + destruct (km_full _ _ _ _ _ Hk _ _ _ Hr) as (c & Hc & Hm). exists c. split; [done|].
      rewrite Hhw; [case_decide; [by eexists|done]| |done]. apply (Forall_app_2 _ [a; b] [c]); [done|by apply Forall_singleton].
    + assert (k = 2%nat) as -> by (apply prefix_length in Hr; rewrite Hlen in Hr; simpl in Hr; lia).
      apply prefix_length_eq in Hr; [|rewrite Hlen; simpl; lia]. exists i. split; [done|].
      replace [a; b; i] with idxs; [|by rewrite <- (take_drop_middle idxs 2 i Hi), <- Hr, drop_ge by lia].
      rewrite Hhw, decide_True; [by eexists| |done..]. unfold idxs. rewrite num_linear by lia. lia.
  - intros q' pb [Hr|[rest Hr]]%Hpth; [by apply (km_path _ _ _ _ _ Hk _ _ Hr)|].
    replace pb with (take (length pb) idxs); [apply HA; apply (f_equal length) in Hr; rewrite length_app in Hr; lia|].
    rewrite <- (take_drop k idxs), Hr, <- app_assoc. by rewrite take_app_length.
Qed.

(** ** One leaf, of either size *)

(** What is left and what the table has taken add up. *)
Definition budget pt s : Z := fa_avail s + table_frames pt.

Lemma kmap_grown_fail A F role pt s role' pt' s' idxs k :
  kmap A F role pt s → grown 512 role pt s role' pt' s' → (k ≤ 2)%nat →
  (∀ p pb, role' p = Some pb → role p = Some pb ∨ pb `prefix_of` take k idxs) →
  (∀ j, (j ≤ k)%nat → A (take j idxs)) →
  ∀ q pa, role' q = Some pa → A pa.
Proof.
  intros Hk Hg Hk2 Hpth HA q pb [Hr|[rest Hr]]%Hpth; [by apply (km_path _ _ _ _ _ Hk _ _ Hr)|].
  replace pb with (take (length pb) idxs).
  - apply HA. apply (f_equal length) in Hr. rewrite length_app, length_take in Hr. lia.
  - rewrite <- (take_drop k idxs), Hr, <- app_assoc. by rewrite take_app_length.
Qed.

Lemma owned_512 pa : Forall index_ok pa → owned 512 pa.
Proof. destruct 1 as [|a ? Ha]; [done|]. apply Ha. Qed.

Lemma kmap_map A F role pt s p f k :
  let W := 512 ^ Z.of_nat (2 - k) in
  kmap A F role pt s → (1 ≤ k ≤ 2)%nat → (W | p) → 0 ≤ p → p + W ≤ 2 ^ 26 →
  0 ≤ f < 1024 → intersects f Flags.RWX = true →
  (∀ x, p ≤ x < p + W → F x = None) → (∀ j, (j ≤ k)%nat → A (take j (indices (linear p)))) →
  wp (map_at_level pt (linear p) p f (Z.of_nat k)) (λ '(r, pt') s', ∃ role',
    budget pt' s' = budget pt s ∧ only_tables pt s pt' s' ∧
    match r with
    | Ok _ => kmap A (add_block p W f F) role' pt' s'
    | Err OutOfMemory => fa_avail s' = 0 ∧ pt_ok 512 role' pt' s' ∧ ∀ q pa, role' q = Some pa → A pa
    | Err _ => False
    end) s.
Proof.
  intros W Hk Hk12 Hd H0 Htop Hf Hrwx HF HA. destruct (indices_ok (linear p)) as [Hix Hl].
  assert (HW : 0 < W) by (apply Z.pow_pos_nonneg; lia).
  pose proof (proj2 (pt_root _ _ _ _ (km_ok _ _ _ _ _ Hk) (root pt)) eq_refl) as Hroot.
  assert (HFn : ∀ idxs', Forall index_ok idxs' → length idxs' = 3%nat →
     take (Datatypes.S k) (indices (linear p)) `prefix_of` idxs' → F (num idxs' - 2 ^ 26) = None).
  { intros idxs' Hix' Hl' Hp. apply HF. by apply (block_path p k); [lia|..]. }
  unfold map_at_level, walk_create_to. wp_step.
  assert (Hlv : ∃ z, level_page_size (Z.of_nat k) = Ret z) by (assert (k = 1 ∨ k = 2)%nat as [-> | ->] by lia; by eexists).
  destruct Hlv as [z Hz]. eapply wp_lift; [exact Hz|]. wp_step.
  eapply wp_mono; [|apply (walk_create_spec 512 (indices (linear p)) [] (root pt) k pt s role);
    [apply Hk|done|simpl; lia|done| |lia|]].
  2: { by apply owned_512. }
  2: { apply hw_clear, (km_none _ _ _ _ _ Hk); [done..|]. apply HFn; [done..|].
       exists (drop (Datatypes.S k) (indices (linear p))). by rewrite take_drop. }
  intros [r pt1] s1 (role1 & Hg & Hpth & Hr). simpl app in Hpth. pose proof (gr_ok _ _ _ _ _ _ _ Hg) as Hok1.
  pose proof (gr_avail _ _ _ _ _ _ _ Hg) as Hb. pose proof (grown_only _ _ _ _ _ _ _ Hg) as Hot.
  destruct r as [a|].
  2: { apply wp_ret. destruct Hr as [Hr _]. exists role1. split_and!; [done..|]. eapply (kmap_grown_fail A F role pt s role1 pt1 s1 _ k); try done; lia. }
  destruct Hr as (_ & q & i & Hq & Hi & ->). simpl app in Hq. assert (Hio : index_ok i) by (by eapply Forall_lookup_1).
  wp_step. apply wp_read64. fold (ent (fa_mem s1) q i).
  rewrite (kmap_slot_free A F role pt s role1 pt1 s1 (indices (linear p)) k q i) by done.
  wp_step. apply wp_update_mem. apply wp_ret. change (fa_set_mem _ s1) with (write_ent s1 q i (Pte_new p (leaf_flags f))).
  exists role1. split; [|split].
  - unfold budget, write_ent. by rewrite fa_avail_set.
  - eapply only_tables_trans; [done|]. apply (write_ent_only 512 role1 pt1 s1 q (take k (indices (linear p)))); try done.
    by apply owned_512, Forall_take.
  - apply (kmap_store A F role pt s role1 pt1 s1 p f k q i); try done.
    by apply (kmap_slot_free A F role pt s role1 pt1 s1 (indices (linear p)) k q i).
Qed.
End map.
