(* ===== verification/KernelSpace.v ===== *)
(** * Building the kernel's address space

    [init_kernel_space] maps the sections of the image, the memory above it and
    the devices, each at its place in the direct map.  The regions are disjoint
    and the tables they need are few, so no step can fail while that many frames
    are left. *)
From stdpp Require Import base numbers functions sets list.
From Stdlib Require Import Lia.
From S2P Require Import Prelude Memory Config Addr FrameIface PageTable PageTableInv PageTableWalk PageTableOps Space KernelMap.

Section loop.
Context {S : Type} `{FrameAllocator S, !FrameAllocatorLaws S}.
Implicit Types (s : S) (role : Z → option (list Z)) (pt : PageTable).

Lemma kmap_ext A F G role pt s : (∀ x, F x = G x) → kmap A F role pt s → kmap A G role pt s.
Proof.
  intros He [? Hp Hn ? ? ?]. constructor; try done.
  - intros. by rewrite Hp, He.
  - intros ? ? ? Hf. apply Hn; [done..|]. by rewrite He.
Qed.

Lemma add_block_join p W b f F x : 0 ≤ W → p + W ≤ b →
  add_block (p + W) (b - (p + W)) f (add_block p W f F) x = add_block p (b - p) f F x.
Proof. intros. unfold add_block. repeat case_decide; (done || lia). Qed.

Lemma add_block_none p W b f F x : (∀ x, p ≤ x < b → F x = None) → 0 ≤ W → p + W ≤ x < b → add_block p W f F x = None.
Proof. intros HF ? Hx. unfold add_block. rewrite decide_False by lia. apply HF. lia. Qed.

(** The outcome of an operation that adds the block to the mapping. *)
Definition mapped A (F : Z → option PteFlags) pt s (res : result MapError unit) pt' s' : Prop :=
  ∃ role', budget pt' s' = budget pt s ∧ only_tables pt s pt' s' ∧
    match res with
    | Ok _ => kmap A F role' pt' s'
    | Err OutOfMemory => fa_avail s' = 0 ∧ pt_ok 512 role' pt' s' ∧ ∀ q pa, role' q = Some pa → A pa
    | Err _ => False
    end.

Lemma mapped_trans A F pt s pt1 s1 res pt2 s2 :
  budget pt1 s1 = budget pt s → only_tables pt s pt1 s1 →
  mapped A F pt1 s1 res pt2 s2 → mapped A F pt s res pt2 s2.
Proof.
  intros Hb Ho (role & Hb' & Ho' & Hr). exists role. split; [congruence|]. split; [by eapply only_tables_trans|done].
Qed.

Lemma linear_offset p : 0 ≤ p → linear p -! Z.shiftr VIRT_OFFSET PAGE_SHIFT = Ret p.
Proof. intros Hp. unfold linear. rewrite u64_sub_ok by lia. f_equal. lia. Qed.

Lemma linear_add p n : p + n ≤ 2 ^ 26 → linear p +! n = Ret (linear (p + n)).
Proof.
  intros Hp. unfold linear. change (Z.shiftr VIRT_OFFSET PAGE_SHIFT) with (2 ^ 52 - 2 ^ 26).
  rewrite u64_add_ok by (unfold U64; lia). f_equal. lia.
Qed.

Lemma linear_le p q : (linear p <=? linear q) = (p <=? q).
Proof. unfold linear. destruct (Z.leb_spec p q); [apply Z.leb_le|apply Z.leb_gt]; lia. Qed.
Lemma linear_lt p q : (linear p <? linear q) = (p <? q).
Proof. unfold linear. destruct (Z.ltb_spec p q); [apply Z.ltb_lt|apply Z.ltb_ge]; lia. Qed.

(** A superpage is used only where one fits. *)
Lemma wp_fits p b (Q : bool → S → Prop) s : 0 ≤ p < b → b ≤ 2 ^ 26 →
  (∀ big : bool, (big = true → (512 | p) ∧ p + 512 ≤ b) → Q big s) →
  wp (fits_superpage (linear p) p (linear b)) Q s.
Proof.
  intros Hp Hb HQ. unfold fits_superpage. change (SUPERPAGE_SIZE `div` PAGE_SIZE) with 512.
  destruct (is_multiple_of (linear p) 512 && is_multiple_of p 512) eqn:Hm; [|apply wp_ret; by apply HQ].
  apply andb_true_iff in Hm as [_ Hm%Z.eqb_eq]. apply Z.mod_divide in Hm; [|done].
  assert (Hp' : p + 512 ≤ 2 ^ 26).
  { destruct Hm as [d ->]. change (2 ^ 26) with (131072 * 512) in *. lia. }
  wp_step. eapply wp_lift; [by apply linear_add|]. apply wp_ret. apply HQ. rewrite linear_le. intros Hle%Z.leb_le. done.
Qed.

Lemma map_linear_loop A r fuel : ∀ p b F role pt s,
  kmap A F role pt s → r_backing r = Linear → 0 ≤ r_perm r < 1024 → intersects (r_perm r) Flags.RWX = true →
  0 ≤ p ≤ b → b ≤ 2 ^ 26 → (Z.to_nat (b - p) ≤ fuel)%nat →
  (∀ x, p ≤ x < b → F x = None ∧ ∀ j, (j ≤ 2)%nat → A (take j (indices (linear x)))) →
  wp (map_into_loop fuel (linear p) (linear b) r pt) (λ '(res, (r', pt')) s',
    r' = r ∧ mapped A (add_block p (b - p) (r_perm r) F) pt s res pt' s') s.
Proof.
  induction fuel as [|fuel IH]; intros p b F role pt s Hk Hlin Hf Hrwx Hp Hb Hfuel HF.
  { apply wp_ret. split; [done|]. exists role. split_and!; [done|eapply grown_only, grown_refl, Hk|].
    eapply kmap_ext; [|done]. intros x. unfold add_block. rewrite decide_False by lia. done. }
  cbn [map_into_loop]. rewrite linear_lt. destruct (Z.ltb_spec p b) as [Hlt|Hge].
  2: { apply wp_ret. split; [done|]. exists role. split_and!; [done|eapply grown_only, grown_refl, Hk|].
    eapply kmap_ext; [|done]. intros x. unfold add_block. rewrite decide_False by lia. done. }
  rewrite Hlin. wp_step. eapply wp_lift; [apply linear_offset; lia|]. wp_step. apply wp_fits; [lia..|].
  assert (Hstep : ∀ k, (1 ≤ k ≤ 2)%nat → let W := 512 ^ Z.of_nat (2 - k) in (W | p) → p + W ≤ b →
    wp (map_at_level pt (linear p) p (r_perm r) (Z.of_nat k)) (λ '(res, pt1) s1,
      match res with
      | Ok _ => wp (map_into_loop fuel (linear (p + W)) (linear b) r pt1) (λ '(res, (r', pt')) s',
          r' = r ∧ mapped A (add_block p (b - p) (r_perm r) F) pt s res pt' s') s1
      | Err e => mapped A (add_block p (b - p) (r_perm r) F) pt s (Err e) pt1 s1
      end) s).
  { intros k Hk12 W Hd HW. assert (HW0 : 0 < W) by (apply Z.pow_pos_nonneg; lia).
    eapply wp_mono; [|apply (kmap_map A F role pt s p (r_perm r) k); try done; try lia; [intros x Hx; apply HF; fold W in Hx; lia|intros j Hj; apply HF; lia]].
    intros [res pt1] s1 (role1 & Hb1 & Ho1 & Hr). destruct res as [[]|e]; [|by exists role1].
    eapply wp_mono; [|apply (IH _ b _ role1 pt1 s1 Hr); try done; try lia].
    - intros [res [r' pt']] s' [-> Hm]. split; [done|]. eapply mapped_trans; [done..|].
      destruct Hm as (role' & ? & ? & Hm). exists role'. split_and!; [done..|]. destruct res as [[]|]; [|done].
      eapply kmap_ext; [|done]. intros x. apply add_block_join; lia.
    - intros x Hx. split; [|apply HF; lia]. eapply add_block_none; [intros y Hy; by apply HF|lia|done]. }
  intros [] Hbig.
  - destruct (Hbig eq_refl) as [Hd Hle]. wp_step. eapply wp_mono; [|apply (Hstep 1%nat); [lia|done|done]].
    intros [[[]|e] pt1] s1 Hr; [|by apply wp_ret]. wp_step.
    change (SUPERPAGE_SIZE `div` PAGE_SIZE) with 512. eapply wp_lift; [apply linear_add; lia|]. exact Hr.
  - wp_step. eapply wp_mono; [|apply (Hstep 2%nat); [lia|apply Z.divide_1_l|change (512 ^ Z.of_nat (2 - 2)) with 1; lia]].
    intros [[[]|e] pt1] s1 Hr; [|by apply wp_ret]. wp_step. eapply wp_lift; [unfold next; apply linear_add; lia|]. exact Hr.
Qed.

(** ** How many tables there can be *)

(** A path leads to one table. *)
Lemma role_inj n role pt s pa : pt_ok n role pt s → ∀ p q, role p = Some pa → role q = Some pa → p = q.
Proof.
  intros Hok. induction pa as [|i pa IH] using rev_ind; intros p q Hp Hq.
  - apply (pt_root _ _ _ _ Hok) in Hp, Hq. congruence.
  - destruct (pt_parent _ _ _ _ Hok _ _ _ Hp) as (_ & t & Ht & _ & <-).
    destruct (pt_parent _ _ _ _ Hok _ _ _ Hq) as (_ & t' & Ht' & _ & <-). by rewrite (IH t t' Ht Ht').
Qed.

Lemma table_frames_bound n role pt s L :
  pt_ok n role pt s → (∀ q pa, role q = Some pa → pa ∈ L) → table_frames pt ≤ Z.of_nat (length L).
Proof.
  intros Hok HL. set (path := λ q, default [] (role q)).
  assert (Hsome : ∀ q, q ∈ table_pages pt → role q = Some (path q)).
  { intros q Hq. destruct (pt_total _ _ _ _ Hok q Hq) as [pa Hpa]. unfold path. by rewrite Hpa. }
  assert (Hnd : NoDup (path <$> table_pages pt)).
  { pose proof (pt_nodup _ _ _ _ Hok) as Hn. fold (table_pages pt) in Hn. revert Hsome Hn.
    induction (table_pages pt) as [|q l IH]; intros Hs Hn; [constructor|]. apply NoDup_cons in Hn as [Hq Hn].
    rewrite fmap_cons. apply NoDup_cons. split; [|apply IH; [intros; apply Hs; by right|done]].
    intros (q' & Heq & Hq')%list_elem_of_fmap. assert (q = q') as ->; [|done].
    apply (role_inj n role pt s (path q)); [done|apply Hs; by left|rewrite Heq; apply Hs; by right]. }
  assert (Hsub : path <$> table_pages pt ⊆+ L).
  { apply NoDup_submseteq; [done|]. intros pa (q & -> & Hq)%list_elem_of_fmap. by eapply HL, Hsome. }
  apply submseteq_length in Hsub. unfold table_pages in Hsub. rewrite !length_fmap in Hsub. unfold table_frames. lia.
Qed.

(** ** Pushing linear regions *)

(** The space under construction, and the frames it was given. *)
Record laid_out (L : list (list Z)) (B : Z) (F : Z → option PteFlags) (sp : AddressSpace) s : Prop := {
  bd_map : ∃ role, kmap (λ pa, pa ∈ L) F role (table sp) s;
  bd_budget : budget (table sp) s = B;
}.

(** A run of pages [a .. b) to map with [f], none of which is mapped yet. *)
Definition placeable (L : list (list Z)) (F : Z → option PteFlags) (a b : Z) (f : PteFlags) : Prop :=
  0 ≤ a ≤ b ∧ b < 2 ^ 26 - 1 ∧ 0 ≤ f < 1024 ∧ intersects f Flags.RWX = true ∧
  ∀ x, a ≤ x < b → F x = None ∧ ∀ j, (j ≤ 2)%nat → take j (indices (linear x)) ∈ L.

Definition linear_region (a b : Z) (f : PteFlags) : Region := mkRegion (page_base a) (page_base b) Linear f [].

Lemma page_base_region a b f : 0 ≤ a < 2 ^ 26 → 0 ≤ b < 2 ^ 26 - 1 →
  Region_new (page_base a) (page_base b) Linear f = Ret (linear_region a b f).
Proof.
  intros Ha Hb. unfold Region_new. unfold page_base, PAGE_SIZE, VIRT_OFFSET, U64 in *.
  rewrite align_down_aligned, align_up_ret; unfold PAGE_SIZE, U64; try lia.
  - cbn. unfold linear_region, page_base, PAGE_SIZE, VIRT_OFFSET. do 2 f_equal. unfold div_ceil. Z.div_mod_to_equations. lia.
  - exists (a + 0xffffffc000000). lia.
Qed.

Lemma vpn_page_base a : 0 ≤ a → vpn (page_base a) = linear a.
Proof.
  intros Ha. unfold vpn, linear, page_base. rewrite !Z.shiftr_div_pow2 by done. change (2 ^ PAGE_SHIFT) with 4096.
  unfold PAGE_SIZE, VIRT_OFFSET. Z.div_mod_to_equations. lia.
Qed.

Lemma push_linear_spec L B F sp s a b f :
  laid_out L B F sp s → Z.of_nat (length L) < B → placeable L F a b f →
  wp (push_linear sp (page_base a) (page_base b) f) (λ sp' s',
    laid_out L B (add_block a (b - a) f F) sp' s' ∧
    only_tables (table sp) s (table sp') s' ∧
    regions sp' = regions sp ++ [linear_region a b f]) s.
Proof.
  intros [[role Hk] HB] HL (Hab & Htop & Hf & Hrwx & HF). unfold push_linear. wp_step.
  eapply wp_lift; [apply page_base_region; lia|]. unfold AS_push. wp_steps. unfold map_into. simpl r_start. simpl r_end.
  rewrite !vpn_page_base by lia.
  eapply wp_mono; [|apply (map_linear_loop (λ pa, pa ∈ L) (linear_region a b f) _ a b F role); try done; unfold linear; lia].
  intros [res [r' pt']] s' [-> (role' & Hb & Ho & Hr)]. destruct res as [[]|e].
  - wp_steps. apply wp_ret. apply wp_ret. split; [|done]. split; [by exists role'|]. simpl. by rewrite Hb.
  - exfalso. destruct e; try done. destruct Hr as (Hz & Hok & HA). pose proof (table_frames_bound _ _ _ _ L Hok HA).
    unfold budget in *. lia.
Qed.

(** ** Lists of runs *)
Fixpoint add_blocks (l : list (Z * Z * PteFlags)) (F : Z → option PteFlags) : Z → option PteFlags :=
  match l with
  | [] => F
  | (a, b, f) :: l => add_blocks l (add_block a (b - a) f F)
  end.

Fixpoint placeables (L : list (list Z)) (F : Z → option PteFlags) (l : list (Z * Z * PteFlags)) : Prop :=
  match l with
  | [] => True
  | (a, b, f) :: l => placeable L F a b f ∧ placeables L (add_block a (b - a) f F) l
  end.

Definition at_pages (l : list (Z * Z * PteFlags)) : list (VirtAddr * VirtAddr * PteFlags) :=
  (λ '(a, b, f), (page_base a, page_base b, f)) <$> l.

Lemma page_base_eqb a b : (page_base a =? page_base b) = (a =? b).
Proof. unfold page_base, PAGE_SIZE. destruct (Z.eqb_spec a b); [apply Z.eqb_eq|apply Z.eqb_neq]; lia. Qed.

Lemma laid_out_ext L B F G sp s : (∀ x, F x = G x) → laid_out L B F sp s → laid_out L B G sp s.
Proof. intros He [[role Hk] HB]. split; [|done]. exists role. by eapply kmap_ext. Qed.

Lemma laid_out_refl L B F sp s : laid_out L B F sp s → only_tables (table sp) s (table sp) s.
Proof. intros [[role Hk] _]. eapply grown_only, grown_refl, Hk. Qed.

Lemma push_sections_spec L B l : Z.of_nat (length L) < B → ∀ F sp s,
  laid_out L B F sp s → placeables L F l →
  wp (push_sections sp (at_pages l)) (λ sp' s',
    laid_out L B (add_blocks l F) sp' s' ∧ only_tables (table sp) s (table sp') s') s.
Proof.
  intros HL. induction l as [|[[a b] f] l IH]; intros F sp s Hb Hp.
  { apply wp_ret. split; [done|by eapply laid_out_refl]. }
  destruct Hp as [Hp Hps]. cbn [at_pages fmap list_fmap push_sections]. rewrite page_base_eqb.
  destruct (Z.eqb_spec a b) as [->|Hne].
  - apply IH; [|done]. eapply laid_out_ext; [|done]. intros x. unfold add_block. by rewrite decide_False by lia.
  - wp_step. eapply wp_mono; [|by apply push_linear_spec]. cbv beta. intros sp1 s1 (Hb1 & Ho1 & _).
    eapply wp_mono; [|by apply IH]. cbv beta. intros sp2 s2 [Hb2 Ho2]. split; [done|by eapply only_tables_trans].
Qed.

Lemma push_mmio_spec L B l : Z.of_nat (length L) < B → ∀ F sp s,
  laid_out L B F sp s → placeables L F ((λ '(a, b), (a, b, Z.lor Flags.RW Flags.GLOBAL)) <$> l) →
  wp (push_mmio sp ((λ '(a, b), (a * PAGE_SIZE, (b - a) * PAGE_SIZE)) <$> l)) (λ sp' s',
    laid_out L B (add_blocks ((λ '(a, b), (a, b, Z.lor Flags.RW Flags.GLOBAL)) <$> l) F) sp' s' ∧
    only_tables (table sp) s (table sp') s') s.
Proof.
  intros HL. induction l as [|[a b] l IH]; intros F sp s Hb Hp.
  { apply wp_ret. split; [done|by eapply laid_out_refl]. }
  destruct Hp as [Hp Hps]. pose proof Hp as (? & ? & _). cbn [fmap list_fmap push_mmio].
  wp_step. eapply wp_lift; [apply u64_add_ok; unfold PAGE_SIZE, VIRT_OFFSET, U64; lia|].
  wp_step. eapply wp_lift; [apply u64_add_ok; unfold PAGE_SIZE, VIRT_OFFSET, U64; lia|].
  wp_step. eapply wp_lift; [apply u64_add_ok; unfold PAGE_SIZE, VIRT_OFFSET, U64; lia|].
  change (a * PAGE_SIZE + VIRT_OFFSET) with (page_base a).
  replace (a * PAGE_SIZE + (b - a) * PAGE_SIZE + VIRT_OFFSET) with (page_base b) by (unfold page_base; lia).
  wp_step. eapply wp_mono; [|by apply push_linear_spec]. cbv beta. intros sp1 s1 (Hb1 & Ho1 & _).
  eapply wp_mono; [|by apply IH]. cbv beta. intros sp2 s2 [Hb2 Ho2]. split; [done|by eapply only_tables_trans].
Qed.

Fixpoint perm_at (l : list (Z * Z * PteFlags)) (x : Z) : option PteFlags :=
  match l with
  | [] => None
  | (a, b, f) :: l => if decide (a ≤ x < b) then Some f else perm_at l x
  end.

Lemma add_blocks_at L l : ∀ F x, placeables L F l →
  add_blocks l F x = match perm_at l x with Some f => Some f | None => F x end.
Proof.
  assert (Hpre : ∀ l F x g, placeables L F l → F x = Some g → perm_at l x = None).
  { clear l. induction l as [|[[a b] f] l IH]; intros F x g Hp HF; [done|]. destruct Hp as [(? & ? & ? & ? & Hp) Hps]. simpl.
    destruct (decide (a ≤ x < b)) as [Hx|Hx]; [by rewrite (proj1 (Hp x Hx)) in HF|].
    apply (IH (add_block a (b - a) f F) x g); [done|]. unfold add_block. by rewrite decide_False by lia. }
  induction l as [|[[a b] f] l IH]; intros F x Hp; [done|]. pose proof Hp as [_ Hps]. simpl. rewrite IH by done.
  unfold add_block at 1. case_decide as Hx; (case_decide; [|lia || done]); [|lia].
  rewrite (Hpre l _ x f Hps); [done|]. unfold add_block. by rewrite decide_True by lia.
Qed.

Lemma perm_at_pages l a o : 0 ≤ o < PAGE_SIZE → perm_at (at_pages l) (page_base a + o) = perm_at l a.
Proof.
  intros Ho. induction l as [|[[b c] f] l IH]; [done|]. cbn. unfold page_base, PAGE_SIZE in *.
  repeat case_decide; (done || lia).
Qed.
End loop.
