(* ===== verification/KernelSpaceProps.v ===== *)
(** * The kernel's address space is the one the code describes

    After [init_kernel_space] the MMU translates exactly the image, the memory
    above it and the devices, each linearly and with its permissions. *)
From stdpp Require Import base numbers functions sets list.
From Stdlib Require Import Lia.
From S2P Require Import Prelude Memory Config Addr FrameIface PageTable PageTableInv PageTableWalk PageTableOps Space KernelMap KernelSpace FrameProps.
From S2P Require Frame.

(** ** The image *)

(** The symbols of kernel/linker.ld: the bounds of the sections, in the high
    half, and the end of the image. *)
Record Image := mkImage {
  im_text : VirtAddr * VirtAddr;
  im_rodata : VirtAddr * VirtAddr;
  im_data : VirtAddr * VirtAddr;
  im_bss : VirtAddr * VirtAddr;
  im_end : VirtAddr;
}.

Definition DRAM_END : PhysAddr := DRAM_BASE + DRAM_SIZE.

Definition bounds (img : Image) : list VirtAddr :=
  [(im_text img).1; (im_text img).2; (im_rodata img).1; (im_rodata img).2; (im_data img).1; (im_data img).2;
   (im_bss img).1; (im_bss img).2; im_end img].

Fixpoint ascending (l : list Z) : Prop :=
  match l with
  | x :: ((y :: _) as l) => x ≤ y ∧ ascending l
  | _ => True
  end.

(** What the link script arranges: the image starts at the load address, its
    sections follow one another, each bound is page aligned, and DRAM holds
    it. *)
Definition linked_image (img : Image) : Prop :=
  (im_text img).1 = KERNEL_PHYS_BASE + VIRT_OFFSET ∧
  Forall (λ a, (PAGE_SIZE | a)) (bounds img) ∧
  ascending (bounds img ++ [DRAM_END + VIRT_OFFSET]).

(** What is mapped where: first match. *)
Definition kernel_regions (img : Image) : list (VirtAddr * VirtAddr * PteFlags) :=
  [((im_text img).1, (im_text img).2, Z.lor Flags.RX Flags.GLOBAL);
   ((im_rodata img).1, (im_rodata img).2, Z.lor Flags.READ Flags.GLOBAL);
   ((im_data img).1, (im_data img).2, Z.lor Flags.RW Flags.GLOBAL);
   ((im_bss img).1, (im_bss img).2, Z.lor Flags.RW Flags.GLOBAL);
   (im_end img, DRAM_END + VIRT_OFFSET, Z.lor Flags.RW Flags.GLOBAL)] ++
  ((λ '(dev, size), (dev + VIRT_OFFSET, dev + size + VIRT_OFFSET, Z.lor Flags.RW Flags.GLOBAL)) <$> MMIO_REGIONS).

(** ** The tables needed *)

(** The root, one table for the first gigabyte and one for that of DRAM, and at
    the bottom one for each 2 MiB of DRAM and of device memory. *)
Definition kernel_paths : list (list Z) :=
  [[]; [256]; [258]] ++ ((λ j, [256; j]) <$> [0; 16; 96; 97; 98; 128]) ++ ((λ j, [258; j]) <$> seqZ 0 64).

Lemma indices_linear x : 0 ≤ x < 2 ^ 26 →
  indices (linear x) = [256 + x `div` 2 ^ 18; (x `div` 512) `mod` 512; x `mod` 512].
Proof.
  intros Hx. unfold indices, linear. change (Z.shiftr VIRT_OFFSET PAGE_SHIFT) with (2 ^ 52 - 2 ^ 26).
  rewrite !land_1ff, !Z.shiftr_div_pow2 by lia. change (2 ^ 18) with 262144. change (2 ^ 9) with 512.
  f_equal; [|f_equal; [|f_equal]].
  - replace (x + (2 ^ 52 - 2 ^ 26)) with (x + (2 ^ 34 - 2 ^ 8) * 262144) by lia. rewrite Z.div_add by lia.
    Z.div_mod_to_equations. lia.
  - replace (x + (2 ^ 52 - 2 ^ 26)) with (x + (2 ^ 43 - 2 ^ 17) * 512) by lia. rewrite Z.div_add by lia.
    replace (2 ^ 43 - 2 ^ 17) with ((2 ^ 34 - 2 ^ 8) * 512) by lia. by rewrite Z.mod_add by lia.
  - replace (x + (2 ^ 52 - 2 ^ 26)) with (x + (2 ^ 43 - 2 ^ 17) * 512) by lia. by rewrite Z.mod_add by lia.
Qed.

Lemma path_table x i j : 0 ≤ x < 2 ^ 26 → x `div` 2 ^ 18 = i → (x `div` 512) `mod` 512 = j →
  [256 + i] ∈ kernel_paths → [256 + i; j] ∈ kernel_paths →
  ∀ n, (n ≤ 2)%nat → take n (indices (linear x)) ∈ kernel_paths.
Proof.
  intros Hx Hi Hj H1 H2 n Hn. rewrite indices_linear, Hi, Hj by done.
  assert (n = 0 ∨ n = 1 ∨ n = 2)%nat as [-> |[-> | ->]] by lia; [|done..]. by left.
Qed.

Lemma dram_tables x : 0x80000 ≤ x < 0x88000 → ∀ n, (n ≤ 2)%nat → take n (indices (linear x)) ∈ kernel_paths.
Proof.
  intros Hx. apply (path_table x 2 (x `div` 512 - 1024)); [lia|Z.div_mod_to_equations; lia..| |].
  - do 2 right. by left.
  - do 3 right. apply elem_of_app. right. apply list_elem_of_fmap. eexists. split; [done|].
    apply elem_of_seqZ. Z.div_mod_to_equations. lia.
Qed.

Lemma mmio_tables x j : j ∈ [0; 16; 96; 97; 98; 128] → x `div` 512 = j →
  ∀ n, (n ≤ 2)%nat → take n (indices (linear x)) ∈ kernel_paths.
Proof.
  intros Hj Hx. assert (0 ≤ j < 512).
  { revert j Hj Hx. intros j. rewrite !elem_of_cons, elem_of_nil. lia. }
  apply (path_table x 0 j); [Z.div_mod_to_equations; lia..| |].
  - do 1 right. by left.
  - do 3 right. apply elem_of_app. left. apply list_elem_of_fmap. by exists j.
Qed.

(** ** The image in pages *)
Definition KRX : PteFlags := Z.lor Flags.RX Flags.GLOBAL.
Definition KR : PteFlags := Z.lor Flags.READ Flags.GLOBAL.
Definition KRW : PteFlags := Z.lor Flags.RW Flags.GLOBAL.

Definition mmio_pages : list (Z * Z) :=
  [(0x100, 0x101); (0x2000, 0x2010); (0xc000, 0xc600); (0x10000, 0x10001); (0x10001, 0x10009)].

Definition page_image (a : list Z) : Image :=
  let b i := page_base (nth i a 0) in
  mkImage (b 0%nat, b 1%nat) (b 2%nat, b 3%nat) (b 4%nat, b 5%nat) (b 6%nat, b 7%nat) (b 8%nat).

Definition image_runs (a : list Z) : list (Z * Z * PteFlags) :=
  let b i := nth i a 0 in
  [(b 0%nat, b 1%nat, KRX); (b 2%nat, b 3%nat, KR); (b 4%nat, b 5%nat, KRW); (b 6%nat, b 7%nat, KRW)].
Definition window_run (a : list Z) : Z * Z * PteFlags := (nth 8 a 0, 0x88000, KRW).
Definition mmio_runs : list (Z * Z * PteFlags) := (λ '(a, b), (a, b, KRW)) <$> mmio_pages.

Definition page_bounds (a : list Z) : Prop :=
  length a = 9%nat ∧ nth 0 a 0 = 0x80200 ∧ ascending (a ++ [0x88000]).

Lemma ascending_base l : ascending (page_base <$> l) → ascending l.
Proof.
  induction l as [|x [|y l] IH]; [done..|]. cbn. intros [Hx Hl]. split; [|by apply IH].
  unfold page_base, PAGE_SIZE in Hx. lia.
Qed.

Lemma linked_image_pages img : linked_image img → ∃ a, page_bounds a ∧ img = page_image a.
Proof.
  intros (Hs & Hal & Hasc). destruct img as [[t0 t1] [r0 r1] [d0 d1] [b0 b1] ke]. unfold bounds in *. cbn [im_text im_rodata im_data im_bss im_end fst snd app] in *.
  set (pg := λ x, (x - VIRT_OFFSET) `div` PAGE_SIZE).
  assert (Hpg : ∀ x, (PAGE_SIZE | x) → page_base (pg x) = x).
  { intros x [q ->]. unfold pg, page_base, PAGE_SIZE, VIRT_OFFSET. Z.div_mod_to_equations. lia. }
  rewrite !Forall_cons in Hal. destruct_and!.
  exists (pg <$> [t0; t1; r0; r1; d0; d1; b0; b1; ke]). split; [split_and!|].
  - done.
  - rewrite Hs. done.
  - apply ascending_base. cbn [fmap list_fmap app]. rewrite !Hpg by done. exact Hasc.
  - unfold page_image. cbn. by rewrite !Hpg.
Qed.

Lemma kernel_regions_pages a :
  kernel_regions (page_image a) = at_pages (image_runs a ++ [window_run a] ++ mmio_runs).
Proof. done. Qed.

Lemma placeables_app L l1 l2 : ∀ F,
  placeables L F (l1 ++ l2) ↔ placeables L F l1 ∧ placeables L (add_blocks l1 F) l2.
Proof. induction l1 as [|[[a b] f] l1 IH]; intros F; [naive_solver|]. cbn. rewrite IH. tauto. Qed.

(** Runs above everything mapped so far. *)
Lemma placeable_above L F a b f : 0 ≤ a ≤ b → b < 2 ^ 26 - 1 → 0 ≤ f < 1024 → intersects f Flags.RWX = true →
  (∀ x, a ≤ x → F x = None) → (∀ x, a ≤ x < b → ∀ j, (j ≤ 2)%nat → take j (indices (linear x)) ∈ L) →
  placeable L F a b f.
Proof. intros ? ? ? ? HF HL. split_and!; try done; try lia. intros x Hx. split; [apply HF; lia|by apply HL]. Qed.

Lemma add_block_above a b f F : (∀ x, a ≤ x → F x = None) → ∀ c, b ≤ c → a ≤ c → ∀ x, c ≤ x → add_block a (b - a) f F x = None.
Proof. intros HF c Hb Ha x Hx. unfold add_block. rewrite decide_False by lia. apply HF. lia. Qed.

Lemma add_block_low a b f F k : k ≤ a → (∀ x, x < k → F x = None) → ∀ x, x < k → add_block a (b - a) f F x = None.
Proof. intros Ha HF x Hx. unfold add_block. rewrite decide_False by lia. by apply HF. Qed.

Lemma image_placeable a : page_bounds a →
  placeables kernel_paths (λ _, None) (image_runs a ++ [window_run a] ++ mmio_runs).
Proof.
  intros (Hl & H0 & Hasc). destruct a as [|a0 [|a1 [|a2 [|a3 [|a4 [|a5 [|a6 [|a7 [|a8 []]]]]]]]]]; try done.
  cbn in H0, Hasc. subst a0. destruct_and!. rewrite app_assoc, placeables_app. split.
  - assert (HD : ∀ c d, 0x80200 ≤ c → d ≤ 0x88000 → ∀ x, c ≤ x < d →
      ∀ j, (j ≤ 2)%nat → take j (indices (linear x)) ∈ kernel_paths) by (intros; apply dram_tables; lia).
    cbn. split_and!; ((apply placeable_above; [lia|lia|done|done| |apply HD; lia]) || done);
      repeat (apply add_block_above; [|lia..]); done.
  - set (G := add_blocks _ _). assert (HG : ∀ x, x < 0x80200 → G x = None).
    { unfold G. cbn. repeat (apply add_block_low; [lia|]). done. }
    assert (Hrun : ∀ c d F, 0 ≤ c ≤ d → d < 0x80200 → (∀ x, x < 0x80200 → c ≤ x → F x = None) →
      (∀ x, c ≤ x < d → x `div` 512 ∈ [0; 16; 96; 97; 98; 128]) → placeable kernel_paths F c d KRW).
    { intros c d F ? ? HF HT. split_and!; try done; try lia. intros x Hx. split; [apply HF; lia|].
      by apply (mmio_tables x (x `div` 512)); [apply HT|]. }
    assert (Hnext : ∀ c d F, c ≤ d → (∀ x, x < 0x80200 → c ≤ x → F x = None) →
      ∀ e, d ≤ e → ∀ x, x < 0x80200 → e ≤ x → add_block c (d - c) KRW F x = None).
    { intros c d F ? HF e He x ? ?. unfold add_block. rewrite decide_False by lia. apply HF; lia. }
    cbn. split_and!; try done; apply Hrun; try lia.
    all: try (intros x Hx; rewrite !elem_of_cons; Z.div_mod_to_equations; lia).
    all: repeat (apply Hnext; [lia| |lia]); auto.
Qed.

Section init.
Context {S : Type} `{FrameAllocator S, !FrameAllocatorLaws S}.
Implicit Types (s : S).

(** A table with nothing in it. *)
Lemma laid_out_new L pt s s' : [] ∈ L →
  pt_low 512 pt s' → fresh_page s s' (root pt) → table_pages pt = [root pt] →
  (∀ i, index_ok i → ent (fa_mem s') (root pt) i = 0) →
  laid_out L (fa_avail s) (λ _, None) (mkAS pt []) s'.
Proof.
  intros HL (role & Hok & _) Hf Hpg Hz.
  assert (Hroot : ∀ q pa, role q = Some pa → q = root pt ∧ pa = []).
  { intros q pa Hq. assert (Hin : q ∈ table_pages pt).
    { apply (pt_frames _ _ _ _ Hok q pa Hq), owned_512. by eapply pt_path. }
    rewrite Hpg in Hin. apply list_elem_of_singleton in Hin as ->. split; [done|].
    pose proof (proj2 (pt_root _ _ _ _ Hok _) eq_refl). congruence. }
  assert (Hhw : ∀ idxs, Forall index_ok idxs → hw (fa_mem s') idxs (root pt) = None).
  { intros [|i idxs] Hix; [done|]. apply Forall_cons in Hix as [Hi _]. simpl. by rewrite Hz. }
  split; [exists role; constructor; simpl|].
  - done.
  - intros idxs Hix _. unfold hw_page. by rewrite Hhw.
  - intros idxs Hix _ _. by apply Hhw.
  - intros [|i [|j idxs]] e Hix _; [done|..]; apply Forall_cons in Hix as [Hi _]; simpl; by rewrite Hz.
  - intros q i j [_ ?]%Hroot. done.
  - by intros q pa [_ ->]%Hroot.
  - unfold budget, table_frames. rewrite (fp_avail _ _ _ Hf). apply (f_equal length) in Hpg.
    unfold table_pages in Hpg. rewrite length_fmap in Hpg. simpl in *. lia.
Qed.

(** The MMU under the token of a table that holds the linear mapping. *)
Lemma token_root pt : 0 ≤ root pt < 2 ^ 44 → Z.shiftr (token pt) 60 = 8 ∧ Z.land (token pt) (2 ^ 44 - 1) = root pt.
Proof.
  intros Hr. unfold token. rewrite Z.shiftl_mul_pow2, lor_add by lia. change (2 ^ 44 - 1) with (Z.ones 44).
  rewrite Z.shiftr_div_pow2, Z.land_ones by lia. split; Z.div_mod_to_equations; lia.
Qed.

Lemma laid_out_hw L B F sp s va : laid_out L B F sp s → (∀ x, x < 0 → F x = None) → 0 ≤ va < U64 →
  hw_addr (fa_mem s) (AS_token sp) va =
    if decide (VIRT_OFFSET ≤ va)
    then (λ f, (va - VIRT_OFFSET, leaf_flags f)) <$> F ((va - VIRT_OFFSET) `div` PAGE_SIZE)
    else None.
Proof.
  intros [[role Hk] _] Hneg Hva. pose proof (km_ok _ _ _ _ _ Hk) as Hok.
  pose proof (proj2 (pt_root _ _ _ _ Hok _) eq_refl) as Hroot. pose proof (proj1 (pt_page _ _ _ _ _ _ Hok Hroot)) as Hr.
  unfold hw_addr, AS_token. destruct (token_root (table sp)) as [-> ->]; [lia|]. simpl.
  destruct (indices_ok (vpn va)) as [Hix Hl]. rewrite (km_page _ _ _ _ _ Hk), num_indices, vpn_div, page_offset_mod by (done || (rewrite vpn_div; unfold PAGE_SIZE; Z.div_mod_to_equations; lia)).
  unfold VIRT_OFFSET, PAGE_SIZE, U64 in *. case_decide as Hv.
  - rewrite (proj2 (orb_true_iff _ _)) by (right; apply Z.leb_le; lia).
    replace ((va `div` 4096) `mod` 2 ^ 27 - 2 ^ 26) with ((va - 0xffffffc000000000) `div` 4096).
    + destruct (F _); [|done]. simpl. do 2 f_equal. Z.div_mod_to_equations. lia.
    + Z.div_mod_to_equations. lia.
  - destruct (Z.ltb_spec va (2 ^ 38)) as [Hlow|Hmid]; [|by rewrite (proj2 (Z.leb_gt _ _)) by lia].
    simpl. rewrite Hneg; [done|]. Z.div_mod_to_equations. lia.
Qed.

(** The frames the space took were free, and nothing handed out was written. *)
Record took_tables pt s s' : Prop := {
  tt_used : ∀ q, fa_used s' q ↔ fa_used s q ∨ q ∈ table_pages pt;
  tt_free : ∀ q, q ∈ table_pages pt → ¬ fa_used s q;
  tt_agree : ∀ q, fa_used s q → agree (page q) (fa_mem s) (fa_mem s');
}.

Lemma took_only pt s s1 pt' s' :
  fresh_page s s1 (root pt) → table_pages pt = [root pt] → only_tables pt s1 pt' s' → took_tables pt' s s'.
Proof.
  intros Hf Hpg Ho. assert (Hin : ∀ q, q ∈ table_pages pt ↔ q = root pt) by (intros; by rewrite Hpg, list_elem_of_singleton).
  constructor.
  - intros q. rewrite (ot_used _ _ _ _ Ho), (fp_used _ _ _ Hf). pose proof (ot_sub _ _ _ _ Ho q) as Hs. rewrite Hin in Hs. tauto.
  - intros q [->%Hin|Hq]%(ot_new _ _ _ _ Ho); [apply Hf|]. intros Hu. apply Hq, (fp_used _ _ _ Hf). by left.
  - intros q Hq. etransitivity; [by apply (fp_agree _ _ _ Hf)|]. apply (ot_agree _ _ _ _ Ho).
    + apply (fp_used _ _ _ Hf). by left.
    + intros ->%Hin. by apply (fp_new _ _ _ Hf).
Qed.

Definition init_image (img : Image) : ST S (AddressSpace * Z) :=
  init_kernel_space (im_text img) (im_rodata img) (im_data img) (im_bss img) (im_end img).

Definition kernel_map (a : list Z) : Z → option PteFlags :=
  add_blocks (image_runs a ++ [window_run a] ++ mmio_runs) (λ _, None).

Lemma add_blocks_app l1 l2 : ∀ F, add_blocks (l1 ++ l2) F = add_blocks l2 (add_blocks l1 F).
Proof. induction l1 as [|[[a b] f] l1 IH]; intros F; [done|]. cbn. by rewrite IH. Qed.

Lemma init_image_spec a s : page_bounds a → fa_inv s → Z.of_nat (length kernel_paths) < fa_avail s →
  wp (init_image (page_image a)) (λ '(sp, satp) s',
    satp = AS_token sp ∧ laid_out kernel_paths (fa_avail s) (kernel_map a) sp s' ∧
    took_tables (table sp) s s') s.
Proof.
  intros Ha Hi Hav. pose proof (image_placeable a Ha) as Hp. rewrite !placeables_app in Hp. destruct Hp as (Hp1 & Hp2 & Hp3).
  assert (Hke : 0 ≤ nth 8 a 0 ≤ 0x88000) by (destruct Hp2 as [[? _] _]; cbn in *; lia).
  unfold init_image, init_kernel_space, AddressSpace_new. wp_steps.
  apply (PageTable_new_spec 512); [lia|done|intros; exfalso; simpl in *; lia|].
  intros pt s1 Hlow _ Hf Hpg Hz. apply wp_ret. wp_step. eapply wp_lift; [done|]. wp_step.
  eapply wp_mono; [|apply (push_sections_spec kernel_paths (fa_avail s) (image_runs a) Hav (λ _, None) (mkAS pt []) s1); [|done]].
  2: { apply laid_out_new; [by left|done..]. }
  cbv beta. intros sp2 s2 [Hb2 Ho2]. wp_step.
  eapply wp_lift; [apply u64_sub_ok; unfold page_image, page_base, PAGE_SIZE; simpl; lia|]. wp_step.
  eapply wp_lift; [apply u64_add_ok; unfold page_image, page_base, PAGE_SIZE, VIRT_OFFSET, U64; simpl; lia|].
  replace (im_end (page_image a) - VIRT_OFFSET + VIRT_OFFSET) with (page_base (nth 8 a 0)) by (simpl; lia).
  wp_step. eapply wp_lift; [by apply u64_add_ok|]. change (DRAM_BASE + DRAM_SIZE + VIRT_OFFSET) with (page_base 0x88000).
  wp_step. eapply wp_mono; [|apply (push_linear_spec kernel_paths (fa_avail s) _ sp2 s2 _ _ _ Hb2 Hav), Hp2].
  cbv beta. intros sp3 s3 (Hb3 & Ho3 & _). wp_step.
  eapply wp_mono; [|apply (push_mmio_spec kernel_paths (fa_avail s) mmio_pages Hav _ sp3 s3 Hb3)].
  2: { exact Hp3. }
  cbv beta. intros sp4 s4 [Hb4 Ho4]. apply wp_ret. split; [done|]. split.
  - unfold kernel_map. rewrite !add_blocks_app. exact Hb4.
  - eapply took_only; [done..|]. eapply only_tables_trans; [exact Ho2|]. by eapply only_tables_trans.
Qed.

Lemma kernel_map_neg a x : page_bounds a → x < 0 → kernel_map a x = None.
Proof.
  intros Ha Hx. unfold kernel_map. rewrite (add_blocks_at kernel_paths) by by apply image_placeable.
  pose proof (image_placeable a Ha) as Hp. revert Hp. generalize (λ _ : Z, @None PteFlags) as F.
  induction (image_runs a ++ _) as [|[[b c] f] l IH]; intros F Hp; [done|]. destruct Hp as [(? & _) Hp]. cbn.
  rewrite decide_False by lia. by eapply IH.
Qed.

Lemma laid_out_kernel a L B sp s va : page_bounds a → laid_out L B (kernel_map a) sp s → 0 ≤ va < U64 →
  hw_addr (fa_mem s) (AS_token sp) va =
    (λ f, (va - VIRT_OFFSET, leaf_flags f)) <$> perm_at (kernel_regions (page_image a)) va.
Proof.
  intros Ha Hb Hva. rewrite (laid_out_hw L B (kernel_map a)) by (done || (intros; by apply kernel_map_neg)).
  rewrite kernel_regions_pages. pose proof (image_placeable a Ha) as Hp.
  set (pg := (va - VIRT_OFFSET) `div` PAGE_SIZE). set (o := (va - VIRT_OFFSET) `mod` PAGE_SIZE).
  assert (Ho : 0 ≤ o < PAGE_SIZE) by (apply Z.mod_pos_bound; done).
  replace va with (page_base pg + o) at 3.
  2: { unfold page_base, pg, o, PAGE_SIZE. Z.div_mod_to_equations. lia. }
  rewrite perm_at_pages by done.
  assert (Heq : kernel_map a pg = perm_at (image_runs a ++ [window_run a] ++ mmio_runs) pg).
  { unfold kernel_map. rewrite (add_blocks_at kernel_paths) by done. by destruct (perm_at _ _). }
  rewrite <- Heq. case_decide; [done|]. rewrite kernel_map_neg; [done..|].
  unfold pg, PAGE_SIZE. Z.div_mod_to_equations. lia.
Qed.

(** C9: [init_kernel_space] returns when 74 frames are left; the MMU then maps
    each section of the image, the memory above it and each device window to
    itself minus the offset of the direct map, with the permissions the code
    names, and no other address; the tables are frames that were free, and no
    page in use was written. *)
Theorem init_kernel_space_correct img s :
  linked_image img → fa_inv s → 73 < fa_avail s →
  ∃ sp s', init_image img s = Ret ((sp, AS_token sp), s') ∧ pt_kernel (table sp) s' ∧
    (∀ va, 0 ≤ va < U64 → hw_addr (fa_mem s') (AS_token sp) va =
       (λ f, (va - VIRT_OFFSET, leaf_flags f)) <$> perm_at (kernel_regions img) va) ∧
    took_tables (table sp) s s' ∧ fa_avail s' + table_frames (table sp) = fa_avail s.
Proof.
  intros (a & Ha & ->)%linked_image_pages Hi Hav.
  destruct (wp_run _ _ _ (init_image_spec a s Ha Hi ltac:(done))) as ([sp satp] & s' & Hrun & -> & Hb & Ht).
  exists sp, s'. split_and!; [done| |intros va Hva; by eapply laid_out_kernel|done|by destruct Hb].
  destruct Hb as [[role Hk] _]. exists role. apply Hk.
Qed.

(** Every region has one of three permissions. *)
Lemma kernel_perm_cases img va f : perm_at (kernel_regions img) va = Some f →
  (f = KRX ∧ (im_text img).1 ≤ va < (im_text img).2) ∨
  (f = KR ∧ (im_rodata img).1 ≤ va < (im_rodata img).2) ∨
  (f = KRW ∧ ¬ ((im_text img).1 ≤ va < (im_text img).2) ∧ ¬ ((im_rodata img).1 ≤ va < (im_rodata img).2)).
Proof.
  unfold kernel_regions. cbn [app perm_at]. case_decide as Ht; [intros [= <-]; by left|].
  case_decide as Hr; [intros [= <-]; right; by left|]. intros Hp. right. right. split_and!; [|done..].
  revert Hp. repeat (case_decide; [by intros [= <-]|]). generalize MMIO_REGIONS as l.
  induction l as [|[dev size] l IH]; [done|]. cbn. case_decide; [by intros [= <-]|done].
Qed.

(** C10: in the kernel's space no page is both writable and executable, none is
    open to user mode, only the code is executable, and neither the code nor the
    constants are writable. *)
Theorem kernel_space_protected img s sp satp s' va pa f :
  linked_image img → fa_inv s → 73 < fa_avail s → init_image img s = Ret ((sp, satp), s') →
  0 ≤ va < U64 → hw_addr (fa_mem s') satp va = Some (pa, f) →
  intersects f Flags.USER = false ∧ contains f (Z.lor Flags.WRITE Flags.EXEC) = false ∧
  (intersects f Flags.EXEC = true ↔ (im_text img).1 ≤ va < (im_text img).2) ∧
  (intersects f Flags.WRITE = true →
     ¬ ((im_text img).1 ≤ va < (im_text img).2) ∧ ¬ ((im_rodata img).1 ≤ va < (im_rodata img).2)).
Proof.
  intros Hl Hi Hav Hrun Hva Hhw. pose proof Hl as (_ & _ & Hasc).
  assert (Hord : (im_text img).2 ≤ (im_rodata img).1) by (cbn in Hasc; tauto).
  destruct (linked_image_pages img Hl) as (a & Ha & ->).
  pose proof (init_image_spec a s Ha Hi ltac:(done)) as Hw. unfold wp in Hw. rewrite Hrun in Hw.
  destruct Hw as (-> & Hb & _). rewrite (laid_out_kernel a _ _ sp s' va Ha Hb Hva) in Hhw.
  destruct (perm_at _ va) as [g|] eqn:Hg; [|done]. injection Hhw as <- <-. apply kernel_perm_cases in Hg.
  destruct Hg as [[-> ?]|[[-> ?]|(-> & ? & ?)]]; (split; [done|]; split; [done|]; split; [|done]); split; (done || lia).
Qed.
End init.

(** ** An image of 0xc2000 bytes *)
Definition demo_link : Image :=
  let v p := page_base p in
  mkImage (v 0x80200, v 0x80220) (v 0x80220, v 0x80228) (v 0x80228, v 0x80229) (v 0x80229, v 0x802c2) (v 0x802c2).

Lemma demo_linked : linked_image demo_link.
Proof.
  split; [done|]. split; [|cbn; split_and!; (done || by apply Z.leb_le)]. unfold bounds.
  repeat (apply Forall_cons; split; [by apply Z.mod_divide|]). apply Forall_nil_2.
Qed.

Lemma boot_frames : fa_inv boot_state ∧ 73 < fa_avail boot_state.
Proof. split; [split; [apply boot_held|]|]; [by apply Z.mod_divide|by vm_compute]. Qed.

Lemma init_kernel_space_correct_witness :
  ∃ sp s', init_image demo_link boot_state = Ret ((sp, AS_token sp), s') ∧
    hw_addr (Frame.pm_mem s') (AS_token sp) (0xffffffc080228010) = Some (0x80228010, leaf_flags KRW).
Proof.
  destruct boot_frames as [Hi Hav].
  destruct (init_kernel_space_correct demo_link boot_state demo_linked Hi Hav) as (sp & s' & Hrun & _ & Hhw & _).
  exists sp, s'. split; [exact Hrun|]. etransitivity; [apply (Hhw 0xffffffc080228010); unfold U64; lia|reflexivity].
Defined.

Lemma kernel_space_protected_witness :
  ∃ sp satp s', init_image demo_link boot_state = Ret ((sp, satp), s') ∧
    ∀ pa f, hw_addr (Frame.pm_mem s') satp 0xffffffc080228010 = Some (pa, f) → intersects f Flags.EXEC ≠ true.
Proof.
  destruct boot_frames as [Hi Hav]. destruct (linked_image_pages demo_link demo_linked) as (a & Ha & Heq).
  destruct (wp_run _ _ _ (init_image_spec a boot_state Ha Hi Hav)) as ([sp satp] & s' & Hrun & _). rewrite <- Heq in Hrun.
  exists sp, satp, s'. split; [exact Hrun|]. intros pa f Hf Hx.
  destruct (kernel_space_protected demo_link boot_state sp satp s' 0xffffffc080228010 pa f demo_linked Hi Hav Hrun) as (_ & _ & Hex & _);
    [unfold U64; lia|exact Hf|]. apply Hex in Hx. revert Hx. cbn. unfold page_base, PAGE_SIZE, VIRT_OFFSET. lia.
Defined.
