(* ===== verification/Entry.v ===== *)
(** * The boot trampoline (kernel/src/entry.S)

    The instructions between OpenSBI's jump to [_entry] and the call of [kmain],
    on a hart with the MMU of [KernelMap].  A code address is a line of the
    listing and the distance of the running copy from its link address, so
    [lla] gives a physical address before the jump and a virtual one after it.
    A fetch the MMU does not allow, or that lands elsewhere than on the line,
    is a fault. *)
From stdpp Require Import base numbers list.
From Stdlib Require Import Lia.
From S2P Require Import Prelude Memory Config Addr FrameIface PageTable PageTableInv KernelMap.

(** ** Registers, symbols, instructions *)
Module reg.
Definition zero : Z := 0.
Definition ra : Z := 1.
Definition sp : Z := 2.
Definition tp : Z := 4.
Definition t0 : Z := 5.
Definition t1 : Z := 6.
Definition fp : Z := 8.
Definition a0 : Z := 10.
Definition a1 : Z := 11.
End reg.
Import reg.

Inductive symbol := boot_stack_top | boot_table | entry_high | bss_start | bss_end.

Inductive insn :=
| mv (rd rs : Z)
| lla (rd : Z) (s : symbol)
| li (rd v : Z)
| mul (rd r1 r2 : Z)
| sub (rd r1 r2 : Z)
| add (rd r1 r2 : Z)
| or (rd r1 r2 : Z)
| srli (rd rs n : Z)
| addi (rd rs n : Z)
| sd (rs base : Z)
| csrw_satp (rs : Z)
| sfence
| bnez (rs : Z) (l : nat)
| bgeu (r1 r2 : Z) (l : nat)
| bltu (r1 r2 : Z) (l : nat)
| j (l : nat)
| jr (rs : Z)
| call_kmain
| wfi.

Definition L_entry_high : nat := 18.
Definition L_1 : nat := 21.
Definition L_2 : nat := 24.
Definition L_call : nat := 27.
Definition L_secondary_park : nat := 28.

(** The listing, one line per instruction. *)
Definition entry : list insn :=
  [mv tp a0;
   lla sp boot_stack_top;
   li t0 BOOT_STACK_SIZE;
   mul t1 a0 t0;
   sub sp sp t1;
   bnez a0 L_secondary_park;
   lla t0 boot_table;
   srli t0 t0 12;
   li t1 (Z.shiftl 8 60);
   or t0 t0 t1;
   sfence;
   csrw_satp t0;
   sfence;
   li t1 VIRT_OFFSET;
   add sp sp t1;
   lla t0 entry_high;
   add t0 t0 t1;
   jr t0;
   (* _entry_high: *)
   lla t0 bss_start;
   lla t1 bss_end;
   bgeu t0 t1 L_2;
   (* 1: *)
   sd zero t0;
   addi t0 t0 8;
   bltu t0 t1 L_1;
   (* 2: *)
   mv fp zero;
   mv ra zero;
   mv a0 tp;
   call_kmain;
   (* secondary_park: *)
   wfi;
   j L_secondary_park].

(** [boot_page_table]: eight entries that count, the rest zero. *)
Definition boot_page_table : list Z :=
  [0xe7; 0; 0x200000ef; 0x300000ef] ++ replicate 252 0 ++
  [0xe7; 0; 0x200000ef; 0x300000ef] ++ replicate 252 0.

(** ** The hart *)

Record state := mkSt { x : Z → Z; satp : Z; ram : mem; line : nat; high : bool }.

Definition rd (s : state) (r : Z) : Z := if r =? 0 then 0 else x s r.
Definition wr (r v : Z) (s : state) : state :=
  if r =? 0 then s
  else mkSt (λ r', if r' =? r then v else x s r') (satp s) (ram s) (line s) (high s).
Definition goto (l : nat) (s : state) : state := mkSt (x s) (satp s) (ram s) l (high s).
Definition next_line (s : state) : state := goto (S (line s)) s.

(** [run n]: still running, handed over to [kmain], or stopped at a fault. *)
Inductive result := Running (s : state) | Called (s : state) | Fault.

Section machine.
(** Where the link script puts the symbols and the lines of the listing. *)
Context (sym : symbol → Z) (place : nat → Z).

(** How far the running copy is from its link address. *)
Definition rel (s : state) : Z := if high s then 0 else - VIRT_OFFSET.

(** With translation off an address is physical. *)
Definition translate (s : state) (va : Z) : option (Z * PteFlags) :=
  if satp s =? 0 then Some (va, Flags.RWX) else hw_addr (ram s) (satp s) va.

(** The fetch of the current line. *)
Definition fetch (s : state) : option insn :=
  match translate s (place (line s) + rel s) with
  | Some (pa, f) =>
      if intersects f Flags.EXEC && (pa =? place (line s) - VIRT_OFFSET) then entry !! line s else None
  | None => None
  end.

(** A store of eight bytes; memory is indexed by the direct map. *)
Definition store (s : state) (va v : Z) : option state :=
  match translate s va with
  | Some (pa, f) =>
      if intersects f Flags.WRITE
      then Some (mkSt (x s) (satp s) (store64 (ram s) (pa + VIRT_OFFSET) v) (line s) (high s)) else None
  | None => None
  end.

(** The line at an address, and in which half the address is. *)
Definition decode (a : Z) : option (nat * bool) :=
  let hi := VIRT_OFFSET <=? a in
  l ← snd <$> List.find (λ '(p, _), p =? (if hi then a else a + VIRT_OFFSET)) ((λ l, (place l, l)) <$> seq 0 (length entry));
  Some (l, hi).

Definition exec (i : insn) (s : state) : result :=
  let bin r f := Running (next_line (wr r f s)) in
  let branch (c : bool) l := Running (if c then goto l s else next_line s) in
  match i with
  | mv d r => bin d (rd s r)
  | lla d y => bin d (sym y + rel s)
  | li d v => bin d v
  | mul d a b => bin d ((rd s a * rd s b) `mod` U64)
  | sub d a b => bin d ((rd s a - rd s b) `mod` U64)
  | add d a b => bin d ((rd s a + rd s b) `mod` U64)
  | or d a b => bin d (Z.lor (rd s a) (rd s b))
  | srli d r n => bin d (Z.shiftr (rd s r) n)
  | addi d r n => bin d ((rd s r + n) `mod` U64)
  | sd r b => match store s (rd s b) (rd s r) with Some s => Running (next_line s) | None => Fault end
  | csrw_satp r => Running (next_line (mkSt (x s) (rd s r) (ram s) (line s) (high s)))
  | sfence | wfi => Running (next_line s)
  | bnez r l => branch (negb (rd s r =? 0)) l
  | bgeu a b l => branch (rd s b <=? rd s a) l
  | bltu a b l => branch (rd s a <? rd s b) l
  | j l => Running (goto l s)
  | jr r =>
      match decode (rd s r) with
      | Some (l, hi) => Running (mkSt (x s) (satp s) (ram s) l hi)
      | None => Fault
      end
  | call_kmain => Called s
  end.

Definition step (s : state) : result := match fetch s with Some i => exec i s | None => Fault end.

Fixpoint run (n : nat) (s : state) : result :=
  match n with
  | O => Running s
  | S n => match step s with Running s' => run n s' | r => r end
  end.
End machine.

(** What OpenSBI hands over: translation off, the hart id and the device tree
    in the argument registers. *)
Definition handed_over (hart dtb : Z) (x0 : Z → Z) (m : mem) : state :=
  mkSt (λ r, if r =? a0 then hart else if r =? a1 then dtb else x0 r) 0 m 0 false.
