(* ===== verification/EntryProps.v ===== *)
(** * The trampoline reaches [kmain] in the high half

    The static table of entry.S as the MMU reads it, the run of the boot hart
    from OpenSBI's jump to the call of [kmain], and where the others end up. *)
From stdpp Require Import base numbers sets list.
From coqutil Require Import Byte LittleEndianList.
From Stdlib Require Import Lia.
From S2P Require Import Prelude Memory Config Addr FrameIface PageTable PageTableInv KernelMap KernelSpaceProps Entry.
Import reg.

(** ** The boot table *)

(** The two windows: devices without execute permission, DRAM with all. *)
Definition boot_window (p : Z) : option PteFlags :=
  if decide (0 ≤ p < 2 ^ 30) then Some 0xe7 else if decide (2 ^ 31 ≤ p < 2 ^ 32) then Some 0xef else None.

(** Each window at its own address and in the high half. *)
Definition boot_map (va : Z) : option (PhysAddr * PteFlags) :=
  if decide (va < 2 ^ 38) then (λ f, (va, f)) <$> boot_window va
  else if decide (VIRT_OFFSET ≤ va) then (λ f, (va - VIRT_OFFSET, f)) <$> boot_window (va - VIRT_OFFSET)
  else None.

Definition boot_token (t : PhysPageNum) : Z := Z.lor t (Z.shiftl 8 60).

Definition table_at (m : mem) (t : PhysPageNum) : Prop :=
  ∀ i, index_ok i → ent m t i = nth (Z.to_nat i) boot_page_table 0.

Definition boot_entry (i : Z) : Z :=
  match i with 0 | 256 => 0xe7 | 2 | 258 => 0x200000ef | 3 | 259 => 0x300000ef | _ => 0 end.

Lemma boot_entries i : index_ok i → nth (Z.to_nat i) boot_page_table 0 = boot_entry i.
Proof.
  intros Hi. assert (Hall : Forall (λ i, nth (Z.to_nat i) boot_page_table 0 = boot_entry i) (seqZ 0 512)).
  { apply (bool_decide_eq_true_1 _). vm_compute. reflexivity. }
  rewrite Forall_forall in Hall. apply Hall, elem_of_seqZ. unfold index_ok in Hi. lia.
Qed.

(** The page of index [i] of the root is the whole gigabyte. *)
Lemma boot_hw_page m t a b c : table_at m t → Forall index_ok [a; b; c] →
  hw_page m [a; b; c] t =
    match boot_entry a with 0 => None | e => Some (Pte_ppn e + (b * 512 + c), Pte_flags e) end.
Proof.
  intros Ht Hix. pose proof Hix as [Ha _]%Forall_cons. unfold hw_page. cbn [hw]. rewrite (Ht a Ha), (boot_entries a Ha).
  assert (Hcase : boot_entry a = 0 ∨ boot_entry a = 0xe7 ∨ boot_entry a = 0x200000ef ∨ boot_entry a = 0x300000ef).
  { unfold boot_entry. repeat case_match; tauto. }
  assert (Hleaf : ∀ e, is_leaf e = true → Pte_ppn e `mod` 512 ^ 2 = 0 →
    (match (if is_leaf e then Some (e, [b; c]) else if is_valid e then hw m [b; c] (Pte_ppn e) else None) with
     | Some (e, rest) => if Pte_ppn e `mod` 512 ^ Z.of_nat (length rest) =? 0 then Some (Pte_ppn e + num rest, Pte_flags e) else None
     | None => None end) = Some (Pte_ppn e + (b * 512 + c), Pte_flags e)).
  { intros e -> Hal. change (Z.of_nat (length [b; c])) with 2. rewrite Hal. cbn [num length].
    change (512 ^ Z.of_nat 1) with 512. change (512 ^ Z.of_nat 0) with 1. by rewrite Z.mul_1_r, Z.add_0_r. }
  destruct Hcase as [-> |[-> |[-> | ->]]]; [done|..]; by apply Hleaf.
Qed.

Lemma boot_entry_0 i : i ∉ [0; 2; 3; 256; 258; 259] → boot_entry i = 0.
Proof.
  intros Hi. destruct (boot_entry i) eqn:He; [done|..]; (exfalso; apply Hi; unfold boot_entry in He;
    repeat case_match; try done; set_solver).
Qed.

(** The gigabyte [g] of either half. *)
Lemma boot_window_entry g r : 0 ≤ g < 256 → 0 ≤ r < 2 ^ 30 → ∀ i, i = g ∨ i = 256 + g →
  match boot_entry i with 0 => None | e => Some (Pte_ppn e * 4096 + r, Pte_flags e) end =
    (λ f, (g * 2 ^ 30 + r, f)) <$> boot_window (g * 2 ^ 30 + r).
Proof.
  intros Hg Hr i Hi. unfold boot_window. destruct (decide (g ∈ [0; 2; 3])) as [Hin|Hin].
  - rewrite !elem_of_cons, elem_of_nil in Hin.
    assert (Hi' : (i = 0 ∨ i = 256) ∧ g = 0 ∨ (i = 2 ∨ i = 258) ∧ g = 2 ∨ (i = 3 ∨ i = 259) ∧ g = 3) by lia.
    destruct Hi' as [[Hi' ->]|[[Hi' ->]|[Hi' ->]]].
    + rewrite decide_True by lia. destruct Hi' as [-> | ->]; done.
    + rewrite decide_False, decide_True by lia. destruct Hi' as [-> | ->]; cbn; do 2 f_equal; lia.
    + rewrite decide_False, decide_True by lia. destruct Hi' as [-> | ->]; cbn; do 2 f_equal; lia.
  - rewrite !elem_of_cons, elem_of_nil in Hin. rewrite boot_entry_0 by (rewrite !elem_of_cons, elem_of_nil; lia).
    by rewrite !decide_False by lia.
Qed.

Lemma boot_hw m t va : table_at m t → 0 ≤ t < 2 ^ 26 → 0 ≤ va < U64 → hw_addr m (boot_token t) va = boot_map va.
Proof.
  intros Ht Hr Hva. unfold hw_addr.
  destruct (token_root (mkPT t [])) as [Hmode Hroot]; [simpl; lia|]. unfold token in Hmode, Hroot. simpl root in *.
  unfold boot_token. rewrite Z.lor_comm, Hmode, Hroot. cbn [Z.eqb Pos.eqb andb].
  assert (Hidx : indices (vpn va) = [(va `div` 2 ^ 30) `mod` 512; (va `div` 2 ^ 21) `mod` 512; (va `div` 2 ^ 12) `mod` 512]).
  { unfold indices, vpn, PAGE_SHIFT. rewrite !land_1ff, !Z.shiftr_shiftr, !Z.shiftr_div_pow2 by lia. done. }
  pose proof (proj1 (indices_ok (vpn va))) as Hix. rewrite Hidx in Hix |- *. rewrite (boot_hw_page m t _ _ _ Ht Hix).
  set (g := va `div` 2 ^ 30). set (r := va `mod` 2 ^ 30).
  assert (Hr30 : 0 ≤ r < 2 ^ 30) by (apply Z.mod_pos_bound; lia).
  assert (Hgr : va = g * 2 ^ 30 + r) by (unfold g, r; pose proof (Z.div_mod va (2 ^ 30)); lia).
  assert (Hoff : ((va `div` 2 ^ 21) `mod` 512 * 512 + (va `div` 2 ^ 12) `mod` 512) * 4096 + page_offset va = r).
  { rewrite page_offset_mod. unfold r, PAGE_SIZE. clear. change (2 ^ 12) with 4096. change (2 ^ 21) with 2097152. change (2 ^ 30) with 1073741824.
    Z.div_mod_to_equations. lia. }
  assert (Hw : ∀ i, match match boot_entry i with 0 => None | e => Some (Pte_ppn e + ((va `div` 2 ^ 21) `mod` 512 * 512 + (va `div` 2 ^ 12) `mod` 512), Pte_flags e) end with
     | Some (p, f) => Some (p * PAGE_SIZE + page_offset va, f) | None => None end =
     match boot_entry i with 0 => None | e => Some (Pte_ppn e * 4096 + r, Pte_flags e) end).
  { intros i. unfold PAGE_SIZE. destruct (boot_entry i); [done|..]; do 2 f_equal; lia. }
  rewrite Hw. unfold boot_map. unfold U64, VIRT_OFFSET in *. destruct (decide (va < 2 ^ 38)) as [Hlo|Hlo].
  - rewrite (proj2 (Z.ltb_lt _ _) Hlo). cbn [orb]. rewrite Z.mod_small by lia.
    rewrite (boot_window_entry g r) by lia. by rewrite <- Hgr.
  - rewrite (proj2 (Z.ltb_ge va (2 ^ 38))) by lia. cbn [orb].
    destruct (decide (0xffffffc000000000 ≤ va)) as [Hhi|Hhi].
    + rewrite (proj2 (Z.leb_le _ va)) by lia. set (g' := g - (2 ^ 34 - 256)).
      assert (Hgm : g `mod` 512 = 256 + g') by (unfold g'; Z.div_mod_to_equations; lia).
      rewrite Hgm, (boot_window_entry g' r) by (unfold g'; lia). replace (va - 0xffffffc000000000) with (g' * 2 ^ 30 + r) by (unfold g'; lia). done.
    + rewrite (proj2 (Z.leb_gt _ va)) by lia. done.
Qed.

(** ** Running the listing *)

(** What the link script arranges: the code and the data lie in DRAM, the
    table is a page below the zeroed section, whose ends are aligned. *)
Record linked_entry (sym : symbol → Z) (place : nat → Z) : Prop := {
  le_place : ∀ l, (l < 30)%nat → KERNEL_PHYS_BASE + VIRT_OFFSET ≤ place l < DRAM_END + VIRT_OFFSET;
  le_inj : ∀ l l', (l < 30)%nat → (l' < 30)%nat → place l = place l' → l = l';
  le_high : place L_entry_high = sym entry_high;
  le_table : KERNEL_PHYS_BASE + VIRT_OFFSET ≤ sym boot_table ∧ (PAGE_SIZE | sym boot_table) ∧
    sym boot_table + PAGE_SIZE ≤ sym bss_start;
  le_stack : sym bss_start + MAX_HARTS * BOOT_STACK_SIZE ≤ sym boot_stack_top ≤ sym bss_end;
  le_bss : (8 | sym bss_start) ∧ (8 | sym bss_end) ∧ sym bss_end ≤ DRAM_END + VIRT_OFFSET;
}.

Section run.
Context (sym : symbol → Z) (place : nat → Z) (Hlk : linked_entry sym place).

Definition table_page : PhysPageNum := (sym boot_table - VIRT_OFFSET) `div` PAGE_SIZE.

Lemma table_page_eq : sym boot_table = page_base table_page ∧ 0 ≤ table_page < 2 ^ 26.
Proof.
  destruct (le_table _ _ Hlk) as (H1 & [q Hq] & H2). destruct (le_stack _ _ Hlk) as [H3 H4]. destruct (le_bss _ _ Hlk) as (_ & _ & H5).
  unfold table_page, page_base. rewrite Hq in *.
  change (MAX_HARTS * BOOT_STACK_SIZE) with 262144 in H3. change DRAM_END with 0x88000000 in H5.
  unfold KERNEL_PHYS_BASE, VIRT_OFFSET, PAGE_SIZE in *. split; Z.div_mod_to_equations; lia.
Qed.

(** The table as the image has it. *)
Definition table_loaded (m : mem) : Prop :=
  ∀ i, index_ok i → load64 m (sym boot_table + 8 * i) = nth (Z.to_nat i) boot_page_table 0.

Lemma table_loaded_at m : table_loaded m → table_at m table_page.
Proof. destruct table_page_eq as [He Hr]. intros Ht i Hi. unfold ent. rewrite as_ptr_eq by done. rewrite <- (Ht i Hi), He. done. Qed.

(** Translation off and running low, or the boot table active. *)
Definition fetchable (s : state) : Prop :=
  (satp s = 0 ∧ high s = false) ∨ (satp s = boot_token table_page ∧ table_loaded (ram s)).

Lemma boot_token_ne : (boot_token table_page =? 0) = false.
Proof.
  destruct table_page_eq as [_ Hr]. apply Z.eqb_neq. intros Hz. destruct (token_root (mkPT table_page [])) as [Hm _]; [simpl; lia|].
  unfold token, boot_token in *. simpl in Hm. rewrite Z.lor_comm, Hz in Hm. done.
Qed.

(** Anything in DRAM is reachable, in both halves. *)
Lemma translate_dram s va pa : fetchable s → satp s ≠ 0 → 2 ^ 31 ≤ pa < 2 ^ 32 → va = pa ∨ va = pa + VIRT_OFFSET →
  translate s va = Some (pa, 0xef).
Proof.
  intros [[? _]|[Hs Ht]] Hne Hpa Hva; [done|]. unfold translate. rewrite Hs, boot_token_ne. destruct table_page_eq as [_ Hr].
  rewrite (boot_hw _ table_page) by (by apply table_loaded_at || done || (unfold U64, VIRT_OFFSET in *; lia)).
  unfold boot_map, boot_window, VIRT_OFFSET in *. destruct Hva as [-> | ->].
  - rewrite decide_True, decide_False, decide_True by lia. done.
  - rewrite decide_False, decide_True, decide_False, decide_True by lia. cbn. do 2 f_equal. lia.
Qed.

Lemma fetch_ok s : fetchable s → (line s < 30)%nat → fetch place s = entry !! line s.
Proof.
  intros Hf Hl. pose proof (le_place _ _ Hlk _ Hl) as Hp. change DRAM_END with 0x88000000 in Hp. unfold KERNEL_PHYS_BASE in Hp. unfold fetch.
  destruct (decide (satp s = 0)) as [Hz|Hz].
  - assert (Hh : high s = false). { destruct Hf as [[_ ?]|[Hs _]]; [done|]. pose proof boot_token_ne as Hb. by rewrite <- Hs, Hz in Hb. }
    unfold translate. rewrite Hz. cbn [Z.eqb]. unfold rel. rewrite Hh. rewrite (proj2 (Z.eqb_eq _ _)) by lia. done.
  - rewrite (translate_dram s _ (place (line s) - VIRT_OFFSET)); [|done|done|lia|unfold rel; destruct (high s); [right|left]; lia].
    by rewrite Z.eqb_refl.
Qed.

Lemma run_step n s i : fetchable s → entry !! line s = Some i →
  run sym place (S n) s = match exec sym place i s with Running s' => run sym place n s' | r => r end.
Proof.
  intros Hf Hi. cbn [run]. unfold step. rewrite fetch_ok, Hi; [done|done|]. apply lookup_lt_Some in Hi. exact Hi.
Qed.

Lemma entry_run_app n m s : run sym place (n + m) s = match run sym place n s with Running s' => run sym place m s' | r => r end.
Proof. revert s. induction n as [|n IH]; intros s; [done|]. cbn [Nat.add run]. destruct (step sym place s); [apply IH|done..]. Qed.

(** Some number of instructions from [s] give a result with [Q]. *)
Definition ends (s : state) (Q : result → Prop) : Prop := ∃ n, Q (run sym place n s).

Lemma ends_step s i Q : fetchable s → entry !! line s = Some i →
  match exec sym place i s with Running s' => ends s' Q | r => Q r end → ends s Q.
Proof.
  intros Hf Hi He. destruct (exec sym place i s) as [s'|s'|] eqn:Hx.
  - destruct He as [n Hn]. exists (S n). by rewrite (run_step n s i Hf Hi), Hx.
  - exists 1%nat. by rewrite (run_step 0 s i Hf Hi), Hx.
  - exists 1%nat. by rewrite (run_step 0 s i Hf Hi), Hx.
Qed.

(** ** Clearing the zeroed section *)
Lemma table_loaded_store m a v : sym boot_table + PAGE_SIZE ≤ a → table_loaded m → table_loaded (store64 m a v).
Proof.
  intros Ha Ht i Hi. rewrite <- (Ht i Hi). apply load_store64_ne. unfold index_ok, PAGE_SIZE in *. lia.
Qed.

Lemma bss_iter s Q : fetchable s → satp s ≠ 0 → line s = L_1 → high s = true →
  sym bss_start ≤ rd s t0 → rd s t0 + 8 ≤ sym bss_end →
  (∀ s', fetchable s' → satp s' = satp s → high s' = true → line s' = (if rd s t0 + 8 <? rd s t1 then L_1 else L_2) →
     rd s' t0 = rd s t0 + 8 → (∀ r, r ≠ t0 → rd s' r = rd s r) →
     (∀ y, ram s' y = if decide (rd s t0 ≤ y < rd s t0 + 8) then x00 else ram s y) → ends s' Q) →
  ends s Q.
Proof.
  destruct (le_table _ _ Hlk) as (H1 & _ & H2). destruct (le_stack _ _ Hlk) as [H3 H4]. destruct (le_bss _ _ Hlk) as (_ & _ & H5).
  change DRAM_END with 0x88000000 in H5. unfold KERNEL_PHYS_BASE in H1. unfold PAGE_SIZE in H2.
  intros Hf Hs Hl Hh Hlo Hhi HQ. set (a := rd s t0) in *.
  assert (Hst : store s a 0 = Some (mkSt (x s) (satp s) (store64 (ram s) a 0) (line s) (high s))).
  { unfold store. rewrite (translate_dram s a (a - VIRT_OFFSET)); [|done|done|unfold VIRT_OFFSET in *; lia|right; lia].
    replace (a - VIRT_OFFSET + VIRT_OFFSET) with a by lia. done. }
  assert (Hf' : ∀ x' l, fetchable (mkSt x' (satp s) (store64 (ram s) a 0) l true)).
  { intros x' l. destruct Hf as [[? _]|[Hs' Ht]]; [done|]. right. split; [done|]. apply table_loaded_store; [unfold PAGE_SIZE; lia|done]. }
  eapply ends_step; [done|by rewrite Hl|]. cbn [exec]. fold a. change (rd s zero) with 0. rewrite Hst, Hl, Hh. cbn [next_line goto line x satp ram high].
  eapply ends_step; [apply Hf'|reflexivity|]. cbn [exec].
  change (rd (mkSt (x s) _ _ _ _) t0) with a. rewrite (Z.mod_small (a + 8)) by (unfold U64, VIRT_OFFSET in *; lia).
  set (x' := λ r, if r =? 5 then a + 8 else x s r). change (ends (mkSt x' (satp s) (store64 (ram s) a 0) 23 true) Q).
  eapply ends_step; [apply Hf'|reflexivity|].
  change (ends (if a + 8 <? rd s t1 then mkSt x' (satp s) (store64 (ram s) a 0) L_1 true else mkSt x' (satp s) (store64 (ram s) a 0) L_2 true) Q).
  assert (Hx' : ∀ l, let s' := mkSt x' (satp s) (store64 (ram s) a 0) l true in
    (∀ r, r ≠ t0 → rd s' r = rd s r) ∧ (∀ y, ram s' y = if decide (a ≤ y < a + 8) then x00 else ram s y)).
  { intros l s'. split.
    - intros r Hr. unfold rd, s', x'. cbn [x]. destruct (Z.eqb_spec r 0); [done|]. by rewrite (proj2 (Z.eqb_neq r 5)).
    - intros y. cbn [ram s']. case_decide as Hy; [|by rewrite store64_out by (unfold span; lia)].
      unfold store64. replace y with (a + Z.of_nat (Z.to_nat (y - a))) by lia. apply store_bytes_in.
      change (le_split 8 0) with (replicate 8 x00). apply lookup_replicate. split; [done|lia]. }
  destruct (a + 8 <? rd s t1); apply HQ; try done; apply Hx'.
Qed.

Lemma bss_loop k : ∀ s Q, fetchable s → satp s ≠ 0 → line s = L_1 → high s = true →
  sym bss_start ≤ rd s t0 → rd s t1 = sym bss_end → rd s t1 = rd s t0 + 8 * Z.of_nat (S k) →
  (∀ s', fetchable s' → satp s' = satp s → line s' = L_2 → high s' = true →
     (∀ r, r ≠ t0 → rd s' r = rd s r) →
     (∀ y, ram s' y = if decide (rd s t0 ≤ y < rd s t1) then x00 else ram s y) → ends s' Q) →
  ends s Q.
Proof.
  induction k as [|k IH]; intros s Q Hf Hs Hl Hh Hlo Ht1 Hk HQ; apply bss_iter; try done; try lia;
    intros s1 Hf1 Hs1 Hh1 Hl1 Ha1 Hr1 Hm1; pose proof (Hr1 t1 ltac:(done)) as Ht.
  - rewrite (proj2 (Z.ltb_ge _ _)) in Hl1 by lia. apply HQ; try done. intros y. rewrite Hm1. repeat case_decide; (done || lia).
  - rewrite (proj2 (Z.ltb_lt _ _)) in Hl1 by lia. apply IH; try done; try congruence; try lia.
    intros s2 Hf2 Hs2 Hl2 Hh2 Hr2 Hm2. apply HQ; try done; [congruence| |].
    + intros r Hr. by rewrite Hr2, Hr1.
    + intros y. rewrite Hm2, Hm1, Ha1, Ht. repeat case_decide; (done || lia).
Qed.

(** ** The jump to the high half *)
Lemma decode_place l : (l < 30)%nat → decode place (place l) = Some (l, true).
Proof.
  intros Hl. pose proof (le_place _ _ Hlk l Hl) as Hp. unfold decode. rewrite (proj2 (Z.leb_le _ _)) by (unfold KERNEL_PHYS_BASE in Hp; lia).
  change (length entry) with 30%nat.
  assert (Hf : ∀ ls, (∀ l', l' ∈ ls → (l' < 30)%nat) → l ∈ ls →
    snd <$> List.find (λ '(p, _), p =? place l) ((λ l, (place l, l)) <$> ls) = Some l).
  { induction ls as [|l' ls IH]; intros Hb Hin; [by apply elem_of_nil in Hin|]. cbn. destruct (Z.eqb_spec (place l') (place l)) as [He|He].
    - cbn. f_equal. apply (le_inj _ _ Hlk); [apply Hb; by left|done|done].
    - apply IH; [intros; apply Hb; by right|]. apply elem_of_cons in Hin as [->|]; done. }
  rewrite Hf; [done| |].
  - intros l' [_ ?]%elem_of_seq. lia.
  - apply elem_of_seq. lia.
Qed.

Ltac low := eapply ends_step; [left; by split|reflexivity|]; cbn [exec].

(** The first lines, on every hart. *)
Lemma entry_prefix hart dtb x0 m Q : 0 ≤ hart < MAX_HARTS →
  (∀ s, satp s = 0 → high s = false → ram s = m → line s = 5%nat →
     rd s a0 = hart → rd s a1 = dtb → rd s tp = hart →
     rd s sp = sym boot_stack_top - VIRT_OFFSET - hart * BOOT_STACK_SIZE → ends s Q) →
  ends (handed_over hart dtb x0 m) Q.
Proof.
  unfold MAX_HARTS. intros Hh HQ. do 5 low. apply HQ; try done.
  destruct (le_table _ _ Hlk) as (H1 & _ & H2). destruct (le_stack _ _ Hlk) as [H3 H4]. destruct (le_bss _ _ Hlk) as (_ & _ & H5).
  change DRAM_END with 0x88000000 in H5. unfold KERNEL_PHYS_BASE in H1. change (MAX_HARTS * BOOT_STACK_SIZE) with 262144 in H3.
  unfold PAGE_SIZE in H2.
  match goal with |- ?l = _ => change l with ((sym boot_stack_top + - VIRT_OFFSET - (hart * 65536) `mod` U64) `mod` U64) end.
  change BOOT_STACK_SIZE with 65536. rewrite (Z.mod_small (hart * 65536)) by (unfold U64; lia).
  rewrite Z.mod_small by (unfold U64; lia). lia.
Qed.

(** From the branch to the high half. *)
Lemma entry_switch s Q : satp s = 0 → high s = false → table_loaded (ram s) → line s = 5%nat → rd s a0 = 0 →
  rd s sp = sym boot_stack_top - VIRT_OFFSET →
  (∀ s', satp s' = boot_token table_page → high s' = true → ram s' = ram s → line s' = L_entry_high →
     (∀ r, r ≠ t0 → r ≠ t1 → r ≠ sp → rd s' r = rd s r) → rd s' sp = sym boot_stack_top → ends s' Q) →
  ends s Q.
Proof.
  intros Hs Hh Ht Hl Ha Hsp HQ. destruct s as [xs sa mm ln hi]. cbn [satp high ram line] in *. subst sa hi ln.
  pose proof (le_stack _ _ Hlk) as [Hst _]. destruct (le_table _ _ Hlk) as (H1 & _ & H2). destruct (le_stack _ _ Hlk) as [H3 H4]. destruct (le_bss _ _ Hlk) as (_ & _ & H5).
  change DRAM_END with 0x88000000 in H5. unfold KERNEL_PHYS_BASE in H1. unfold PAGE_SIZE in H2. change (MAX_HARTS * BOOT_STACK_SIZE) with 262144 in H3.
  eapply ends_step; [left; by split|reflexivity|]. cbn [exec]. rewrite Ha. cbn [Z.eqb negb]. do 6 low.
  match goal with |- ends (next_line (mkSt ?x' ?t _ _ _)) _ => set (x1 := x'); replace t with (boot_token table_page) end.
  2: { unfold boot_token, table_page. cbn. by rewrite Z.shiftr_div_pow2. }
  assert (Hf : ∀ x l h, fetchable (mkSt x (boot_token table_page) mm l h)) by (intros; by right).
  do 5 (eapply ends_step; [apply Hf|reflexivity|]; cbn [exec]).
  eapply ends_step; [apply Hf|reflexivity|]. cbn [exec].
  assert (Hhi : (sym entry_high + - VIRT_OFFSET + VIRT_OFFSET) `mod` U64 = place L_entry_high).
  { pose proof (le_place _ _ Hlk L_entry_high ltac:(unfold L_entry_high; lia)) as Hp. change DRAM_END with 0x88000000 in Hp.
    rewrite <- (le_high _ _ Hlk). unfold KERNEL_PHYS_BASE in Hp. rewrite Z.mod_small by (unfold VIRT_OFFSET, U64 in *; lia). lia. }
  match goal with |- match (match decode place ?a with _ => _ end) with _ => _ end =>
    change a with ((sym entry_high + - VIRT_OFFSET + VIRT_OFFSET) `mod` U64) end.
  rewrite Hhi, decode_place by (unfold L_entry_high; lia). apply HQ; try done.
  - intros r Hr0 Hr1 Hr2. unfold rd. destruct (Z.eqb_spec r 0); [done|]. unfold x1. cbn.
    rewrite !(proj2 (Z.eqb_neq r _)) by done. done.
  - match goal with |- ?l = _ => change l with ((rd (mkSt xs 0 mm 5 false) sp + VIRT_OFFSET) `mod` U64) end.
    rewrite Hsp, Z.mod_small by (unfold VIRT_OFFSET, U64 in *; lia). lia.
Qed.

(** From the high half to the call. *)
Lemma entry_clear s Q : satp s = boot_token table_page → high s = true → table_loaded (ram s) → line s = L_entry_high →
  (∀ s', satp s' = boot_token table_page → high s' = true → table_loaded (ram s') → line s' = L_call →
     (∀ r, r ≠ t0 → r ≠ t1 → r ≠ fp → r ≠ ra → r ≠ a0 → rd s' r = rd s r) →
     rd s' a0 = rd s tp → rd s' fp = 0 → rd s' ra = 0 →
     (∀ y, ram s' y = if decide (sym bss_start ≤ y < sym bss_end) then x00 else ram s y) → Q (Called s')) →
  ends s Q.
Proof.
  intros Hs Hh Ht Hl HQ. destruct s as [xs sa mm ln hi]. cbn [satp high ram line] in *. subst sa hi ln.
  destruct (le_stack _ _ Hlk) as [H3 H4]. destruct (le_bss _ _ Hlk) as ([b0 Hb0] & [b1 Hb1] & _).
  change (MAX_HARTS * BOOT_STACK_SIZE) with 262144 in H3.
  assert (Hf : ∀ x l, fetchable (mkSt x (boot_token table_page) mm l true)) by (intros; by right).
  do 2 (eapply ends_step; [apply Hf|reflexivity|]; cbn [exec]).
  set (xs' := λ r, if r =? 6 then sym bss_end + 0 else if r =? 5 then sym bss_start + 0 else xs r).
  change (ends (mkSt xs' (boot_token table_page) mm 20 true) Q).
  assert (H0 : rd (mkSt xs' (boot_token table_page) mm 20 true) t0 = sym bss_start) by (cbn; lia).
  assert (H1 : rd (mkSt xs' (boot_token table_page) mm 20 true) t1 = sym bss_end) by (cbn; lia).
  eapply ends_step; [apply Hf|reflexivity|]. cbn [exec]. rewrite H0, H1, (proj2 (Z.leb_gt _ _)) by lia.
  change (ends (mkSt xs' (boot_token table_page) mm L_1 true) Q).
  apply (bss_loop (Z.to_nat (b1 - b0 - 1))); [apply Hf| |done|done|change (rd _ t0) with (sym bss_start + 0); lia| | |].
  - pose proof boot_token_ne as Hb. cbn [satp]. by apply Z.eqb_neq in Hb.
  - cbn. lia.
  - change (rd _ t0) with (sym bss_start + 0). change (rd _ t1) with (sym bss_end + 0). lia.
  - intros s2 Hf2 Hs2 Hl2 Hh2 Hr2 Hm2. destruct s2 as [x2 sa2 m2 ln2 hi2]. cbn [satp high ram line] in *. subst sa2 hi2 ln2.
    assert (Ht2 : table_loaded m2).
    { destruct Hf2 as [[Hz _]|[_ ?]]; [|done]. pose proof boot_token_ne as Hb. cbn in Hz. by rewrite Hz in Hb. }
    assert (Hf' : ∀ x l, fetchable (mkSt x (boot_token table_page) m2 l true)) by (intros; by right).
    do 3 (eapply ends_step; [apply Hf'|reflexivity|]; cbn [exec]).
    eapply ends_step; [apply Hf'|reflexivity|]. cbn [exec].
    match goal with |- Q (Called ?s) => set (s3 := s) end.
    assert (Hx3 : ∀ r, r ≠ fp → r ≠ ra → r ≠ a0 → rd s3 r = rd (mkSt x2 (boot_token table_page) m2 L_2 true) r).
    { intros r R1 R2 R3. unfold rd, s3. destruct (Z.eqb_spec r 0); [done|]. cbn. by rewrite !(proj2 (Z.eqb_neq r _)). }
    apply HQ; try done.
    + intros r R0 R1 R2 R3 R4. rewrite Hx3, (Hr2 r R0) by done. unfold rd, xs'. destruct (Z.eqb_spec r 0); [done|]. cbn.
      by rewrite !(proj2 (Z.eqb_neq r _)).
    + change (rd s3 a0) with (rd (mkSt x2 (boot_token table_page) m2 L_2 true) tp). by rewrite (Hr2 tp).
    + intros y. change (ram s3 y) with (m2 y). rewrite (Hm2 y). change (rd _ t0) with (sym bss_start + 0). change (rd _ t1) with (sym bss_end + 0).
      by rewrite !Z.add_0_r.
Qed.
End run.

(** C26: on the boot hart the trampoline reaches the call of [kmain]: after
    finitely many instructions, none of which faults, the hart executes in the
    high half under the static table, which maps the two windows at their own
    addresses and in the high half and nothing else; the stack pointer is the
    top of the boot stack, the arguments are the hart id and the device tree, the
    frame pointer and return address are zero, the zeroed section is zero, and no
    other byte of memory has changed. *)
Theorem entry_reaches_kmain sym place dtb x0 m :
  linked_entry sym place → table_loaded sym m →
  ∃ n s, run sym place n (handed_over 0 dtb x0 m) = Called s ∧ line s = L_call ∧ high s = true ∧
    rd s a0 = 0 ∧ rd s a1 = dtb ∧ rd s tp = 0 ∧ rd s sp = sym boot_stack_top ∧ rd s fp = 0 ∧ rd s ra = 0 ∧
    satp s = boot_token (table_page sym) ∧
    (∀ va, 0 ≤ va < U64 → hw_addr (ram s) (satp s) va = boot_map va) ∧
    (∀ y, ram s y = if decide (sym bss_start ≤ y < sym bss_end) then x00 else m y).
Proof.
  intros Hlk Ht.
  assert (He : ends sym place (handed_over 0 dtb x0 m) (λ r, ∃ s, r = Called s ∧ line s = L_call ∧ high s = true ∧
    rd s a0 = 0 ∧ rd s a1 = dtb ∧ rd s tp = 0 ∧ rd s sp = sym boot_stack_top ∧ rd s fp = 0 ∧ rd s ra = 0 ∧
    satp s = boot_token (table_page sym) ∧ (∀ va, 0 ≤ va < U64 → hw_addr (ram s) (satp s) va = boot_map va) ∧
    (∀ y, ram s y = if decide (sym bss_start ≤ y < sym bss_end) then x00 else m y))).
  2: { destruct He as (n & s & Hn & Hs). by exists n, s. }
  apply (entry_prefix sym place Hlk 0); [unfold MAX_HARTS; lia|]. intros s1 S1 S2 S3 S4 S5 S6 S7 S8.
  apply (entry_switch sym place Hlk); try done; [by rewrite S3|rewrite S8; lia|]. intros s2 T1 T2 T3 T4 T5 T6. rewrite S3 in T3.
  apply (entry_clear sym place Hlk); try done; [by rewrite T3|]. intros s3 U1 U2 U3 U4 U5 U6 U7 U8 U9.
  exists s3. rewrite T3 in U9. split_and!; try done.
  - by rewrite U6, T5.
  - by rewrite U5, T5.
  - by rewrite U5, T5.
  - by rewrite U5.
  - intros va Hva. rewrite U1. apply boot_hw; [by apply (table_loaded_at sym place Hlk)|apply (table_page_eq sym place Hlk)|done].
Qed.

(** A parked hart stays where it is. *)
Lemma parked sym place n : linked_entry sym place → ∀ s, satp s = 0 → high s = false → line s ∈ [28; 29]%nat →
  ∃ s', run sym place n s = Running s' ∧ line s' ∈ [28; 29]%nat ∧ satp s' = 0 ∧ ram s' = ram s ∧ x s' = x s.
Proof.
  intros Hlk. induction n as [|n IH]; intros s Hs Hh Hl; [by exists s|].
  assert (Hf : fetchable sym s) by (by left). destruct s as [xs sa mm ln hi]. cbn [satp high line] in *. subst sa hi.
  assert (Hc : ln = 28%nat ∨ ln = 29%nat) by (rewrite !elem_of_cons, elem_of_nil in Hl; tauto).
  destruct Hc as [-> | ->].
  - rewrite (run_step sym place Hlk n _ wfi Hf eq_refl). cbn [exec]. destruct (IH (mkSt xs 0 mm 29 false)) as (s' & H1 & H2); [done|done|set_solver|]. by exists s'.
  - rewrite (run_step sym place Hlk n _ (j L_secondary_park) Hf eq_refl). cbn [exec]. destruct (IH (mkSt xs 0 mm 28 false)) as (s' & H1 & H2); [done|done|set_solver|]. by exists s'.
Qed.

(** Every other hart parks: after six instructions it is in the wait loop, with
    translation off, and it never writes memory. *)
Theorem secondary_harts_park sym place hart dtb x0 m n :
  linked_entry sym place → 0 < hart < MAX_HARTS →
  ∃ s, run sym place (6 + n) (handed_over hart dtb x0 m) = Running s ∧ line s ∈ [28; 29]%nat ∧ satp s = 0 ∧ ram s = m.
Proof.
  intros Hlk Hh. set (s0 := handed_over hart dtb x0 m).
  assert (Hb : (rd s0 a0 =? 0) = false) by (apply Z.eqb_neq; cbn; lia).
  change (6 + n)%nat with (S (S (S (S (S (S n)))))).
  do 5 (erewrite run_step; [|done|left; by split|reflexivity]; cbn [exec]).
  erewrite run_step; [|done|left; by split|reflexivity]. cbn [exec].
  match goal with |- context [rd ?s a0 =? 0] => change (rd s a0) with (rd s0 a0); set (s5 := s) end. rewrite Hb. cbn [negb].
  destruct (parked sym place n Hlk (goto L_secondary_park s5)) as (s & H1 & H2 & H3 & H4 & _); [done|done|unfold L_secondary_park; cbn; set_solver|].
  by exists s.
Qed.

(** ** A placement *)
Definition demo_sym (y : symbol) : Z :=
  match y with
  | boot_stack_top => page_base 0x80229 + MAX_HARTS * BOOT_STACK_SIZE
  | boot_table => page_base 0x80228
  | entry_high => page_base 0x80200 + 72
  | bss_start => page_base 0x80229
  | bss_end => page_base 0x802c2
  end.
Definition demo_place (l : nat) : Z := page_base 0x80200 + 4 * Z.of_nat l.
Definition demo_ram : mem :=
  foldr (λ i m, store64 m (page_base 0x80228 + 8 * i) (boot_entry i)) (λ _, x00) [0; 2; 3; 256; 258; 259].

Lemma demo_entry : linked_entry demo_sym demo_place.
Proof.
  split; unfold demo_sym, demo_place, page_base, PAGE_SIZE, VIRT_OFFSET, KERNEL_PHYS_BASE, DRAM_END, DRAM_BASE, DRAM_SIZE, MAX_HARTS, BOOT_STACK_SIZE;
    [intros; lia|intros; lia|done| |lia|].
  - split; [lia|]. split; [exists 0xffffffc080228; lia|lia].
  - split; [by apply Z.mod_divide|]. split; [by apply Z.mod_divide|lia].
Qed.

Lemma demo_table : table_loaded demo_sym demo_ram.
Proof.
  assert (Hall : Forall (λ i, load64 demo_ram (demo_sym boot_table + 8 * i) = boot_entry i) (seqZ 0 512)).
  { apply (bool_decide_eq_true_1 _). vm_compute. reflexivity. }
  intros i Hi. rewrite (boot_entries i Hi). rewrite Forall_forall in Hall. apply Hall, elem_of_seqZ. unfold index_ok in Hi. lia.
Qed.

Lemma entry_reaches_kmain_witness :
  ∃ n s, run demo_sym demo_place n (handed_over 0 0x82200000 (λ _, 0) demo_ram) = Called s ∧ high s = true ∧ rd s a1 = 0x82200000.
Proof.
  destruct (entry_reaches_kmain demo_sym demo_place 0x82200000 (λ _, 0) demo_ram demo_entry demo_table)
    as (n & s & Hr & _ & Hh & _ & Ha & _). exists n, s. split; [exact Hr|]. split; [exact Hh|exact Ha].
Defined.
