(* ===== verification/Loader.v ===== *)
(** * The ELF loader (kernel/src/loader.rs)

    [load] parses an untrusted image and builds an address space holding its
    segments.  A failure is a [LoadError] value; the address space under
    construction is dropped on the way out.  Arithmetic is checked as in the
    source: plain additions panic, [checked_add] reports. *)
From stdpp Require Import base numbers functions sets list.
From coqutil Require Import Byte Word.LittleEndianList.
From S2P Require Import Prelude Memory Config Addr FrameIface PageTable Space.

Module LoadError.
Inductive t := Truncated | BadMagic | WrongFormat | BadAddress | BadSegment | OutOfMemory.
End LoadError.

Definition ELF_MAGIC : list Z := [0x7f; 69; 76; 70].
Definition ELFCLASS64 : Z := 2.
Definition ELFDATA2LSB : Z := 1.
Definition ET_EXEC : Z := 2.
Definition EM_RISCV : Z := 243.
Definition PT_LOAD : Z := 1.
Definition PF_X : Z := 1.
Definition PF_W : Z := 2.
Definition PF_R : Z := 4.

(** A computation that may panic or fail, and Rust's [?] on it. *)
Abbreviation fallible A := (outcome (result LoadError.t A)).
Definition try_bind {A B} (m : fallible A) (k : A → fallible B) : fallible B :=
  match m with Ret (Ok a) => k a | Ret (Err e) => Ret (Err e) | Panic => Panic end.
Notation "x ←? m ; k" := (try_bind m (λ x, k)) (at level 20, m at level 100, k at level 200, right associativity).
Definition err {A} (e : LoadError.t) : fallible A := Ret (Err e).
Definition ok {A} (a : A) : fallible A := Ret (Ok a).
Definition ok_or {A} (o : option A) (e : LoadError.t) : fallible A :=
  match o with Some a => ok a | None => err e end.

(** [read_int!] for an [n]-byte integer. *)
Definition read_int (n : nat) (data : list byte) (offset : Z) : fallible Z :=
  stop ←? ok_or (checked_add offset (Z.of_nat n)) LoadError.Truncated;
  if Z.of_nat (length data) <? stop then err LoadError.Truncated
  else ok (le_combine (slice data offset (Z.of_nat n))).

(** The header fields [load] uses. *)
Record Ehdr := mkEhdr { e_entry : Z; e_phoff : Z; e_phentsize : Z; e_phnum : Z }.

Definition read_header (image : list byte) : fallible Ehdr :=
  if Z.of_nat (length image) <? 64 then err LoadError.Truncated else
  if negb (bool_decide ((byte.unsigned <$> take 4 image) = ELF_MAGIC)) then err LoadError.BadMagic else
  class ← arr_get image 4;
  data ← arr_get image 5;
  if negb (byte.unsigned class =? ELFCLASS64) || negb (byte.unsigned data =? ELFDATA2LSB)
  then err LoadError.WrongFormat else
  e_type ←? read_int 2 image 16;
  e_machine ←? read_int 2 image 18;
  if negb (e_type =? ET_EXEC) || negb (e_machine =? EM_RISCV) then err LoadError.WrongFormat else
  entry ←? read_int 8 image 24;
  phoff ←? read_int 8 image 32;
  phentsize ←? read_int 2 image 54;
  phnum ←? read_int 2 image 56;
  ok (mkEhdr entry phoff phentsize phnum).

(** A [PT_LOAD] header that passed the checks. *)
Record Segment := mkSegment {
  seg_vaddr : Z;
  seg_end : Z;
  seg_perm : PteFlags;
  seg_data : list byte;
}.

Definition segment_perm (p_flags : Z) : PteFlags :=
  let perm := Flags.USER in
  let perm := if Z.land p_flags PF_R =? 0 then perm else Z.lor perm Flags.READ in
  let perm := if Z.land p_flags PF_W =? 0 then perm else Z.lor perm Flags.WRITE in
  if Z.land p_flags PF_X =? 0 then perm else Z.lor perm Flags.EXEC.

(** The program header at [ph]; [None] when it is not loadable. *)
Definition read_segment (image : list byte) (ph : Z) : fallible (option Segment) :=
  p_type ←? read_int 4 image ph;
  if negb (p_type =? PT_LOAD) then ok None else
  o ← ph +! 4; p_flags ←? read_int 4 image o;
  o ← ph +! 8; p_offset ←? read_int 8 image o;
  o ← ph +! 16; p_vaddr ←? read_int 8 image o;
  o ← ph +! 32; p_filesz ←? read_int 8 image o;
  o ← ph +! 40; p_memsz ←? read_int 8 image o;
  if p_memsz <? p_filesz then err LoadError.BadSegment else
  stop ←? ok_or (checked_add p_vaddr p_memsz) LoadError.BadAddress;
  if (USER_MAX_ADDR <? stop) || (p_vaddr <? PAGE_SIZE) then err LoadError.BadAddress else
  file_end ←? ok_or (checked_add p_offset p_filesz) LoadError.Truncated;
  if Z.of_nat (length image) <? file_end then err LoadError.Truncated else
  ok (Some (mkSegment p_vaddr stop (segment_perm p_flags) (slice image p_offset p_filesz))).

Record LoadedImage := mkLoaded { li_space : AddressSpace; li_entry : Z; li_brk : Z }.

Section load.
Context {S : Type} `{FrameAllocator S}.

(** The loop over the program headers, from header [i]. *)
Fixpoint load_loop (fuel : nat) (image : list byte) (h : Ehdr) (i : Z) (sp : AddressSpace) (brk : Z)
    : ST S (result LoadError.t (AddressSpace * Z)) :=
  match fuel with
  | O => mret (Ok (sp, brk))
  | Datatypes.S fuel =>
      if i <? e_phnum h then
        off ← lift (i *! e_phentsize h);
        ph ← lift (e_phoff h +! off);
        r ← lift (read_segment image ph);
        match r with
        | Err e => AddressSpace_drop sp;; mret (Err e)
        | Ok None => load_loop fuel image h (i + 1) sp brk
        | Ok (Some seg) =>
            region ← lift (Region_new (seg_vaddr seg) (seg_end seg) Framed (seg_perm seg));
            '(res, sp) ← push_with_offset sp region (seg_vaddr seg `mod` PAGE_SIZE) (seg_data seg);
            match res with
            | Err _ => AddressSpace_drop sp;; mret (Err LoadError.OutOfMemory)
            | Ok _ =>
                top ← lift (next_multiple_of (seg_end seg) PAGE_SIZE);
                load_loop fuel image h (i + 1) sp (Z.max brk top)
            end
        end
      else mret (Ok (sp, brk))
  end.

Definition load (kernel : option AddressSpace) (image : list byte) : ST S (result LoadError.t LoadedImage) :=
  h ← lift (read_header image);
  match h with
  | Err e => mret (Err e)
  | Ok h =>
      c ← AddressSpace_new;
      match c with
      | None => mret (Err LoadError.OutOfMemory)
      | Some sp =>
          _ ← map_kernel_half sp kernel;
          r ← load_loop (Z.to_nat (e_phnum h)) image h 0 sp 0;
          match r with
          | Err e => mret (Err e)
          | Ok (sp, brk) =>
              if brk =? 0 then AddressSpace_drop sp;; mret (Err LoadError.BadSegment)
              else mret (Ok (mkLoaded sp (e_entry h) brk))
          end
      end
  end.
End load.
