(* ===== verification/LoaderProps.v ===== *)
(** * Theorems about the ELF loader

    For every byte string [load] returns: either an address space whose flat
    memory is exactly the image's segments, or an error with every frame given
    back. *)
From stdpp Require Import base numbers functions sets list.
From coqutil Require Import Byte Word.LittleEndianList.
From Stdlib Require Import Lia.
From S2P Require Frame.
From S2P Require Import Prelude Memory Config Addr FrameIface FrameProps.
From S2P Require Import PageTable PageTableInv PageTableWalk PageTableOps PageTableProps.
From S2P Require Import Space SpaceInv SpaceMap SpaceOps SpaceFork SpaceUser SpaceWrite Loader.

(** ** Parsing never panics *)

(** [m] does not panic, and a value it returns satisfies [P]. *)
Definition sat {A} (m : fallible A) (P : A → Prop) : Prop :=
  match m with Ret (Ok a) => P a | Ret (Err _) => True | Panic => False end.

Lemma sat_bind {A B} (m : fallible A) (k : A → fallible B) P : sat m (λ a, sat (k a) P) → sat (try_bind m k) P.
Proof. unfold sat, try_bind. by destruct m as [[]|]. Qed.

Lemma sat_mono {A} (m : fallible A) (P Q : A → Prop) : (∀ a, P a → Q a) → sat m P → sat m Q.
Proof. unfold sat. intros HPQ. destruct m as [[]|]; auto. Qed.

Lemma sat_add {A} x y (k : Z → fallible A) P : x + y < U64 → sat (k (x + y)) P → sat (o ← x +! y; k o) P.
Proof. intros Hlt Hk. by rewrite u64_add_ok. Qed.

Lemma sat_ok_or {A} (o : option A) e : sat (ok_or o e) (λ a, o = Some a).
Proof. by destruct o. Qed.

Lemma sat_read_int n data off : 0 ≤ off → sat (read_int n data off) (λ v, off + Z.of_nat n ≤ Z.of_nat (length data) ∧ 0 ≤ v < 2 ^ (8 * Z.of_nat n)).
Proof.
  intros Ho. unfold read_int. apply sat_bind. eapply sat_mono; [|apply sat_ok_or]. intros stop Hs. unfold checked_add in Hs.
  destruct (off + Z.of_nat n <? U64); [|done]. injection Hs as <-.
  destruct (Z.ltb_spec (Z.of_nat (length data)) (off + Z.of_nat n)); [done|]. split; [lia|].
  pose proof (le_combine_bound (slice data off (Z.of_nat n))) as Hb. rewrite slice_length, Nat2Z.id in Hb by lia. exact Hb.
Qed.

(** What the checks on a program header establish. *)
Record segment_ok (seg : Segment) : Prop := {
  sg_low : PAGE_SIZE ≤ seg_vaddr seg;
  sg_high : seg_end seg ≤ USER_MAX_ADDR;
  sg_fit : seg_vaddr seg + Z.of_nat (length (seg_data seg)) ≤ seg_end seg;
  sg_perm : 0 ≤ seg_perm seg < 1024;
}.

Lemma segment_perm_range f : 0 ≤ segment_perm f < 1024.
Proof. unfold segment_perm. do 3 case_match; vm_compute; split; (discriminate || done). Qed.

Lemma sat_read_segment image ph :
  0 ≤ ph → Z.of_nat (length image) < 2 ^ 63 →
  sat (read_segment image ph) (λ o, ph + 4 ≤ Z.of_nat (length image) ∧ ∀ seg, o = Some seg → segment_ok seg).
Proof.
  intros Hph Hlen. unfold read_segment.
  apply sat_bind. eapply sat_mono; [|by apply sat_read_int]. intros p_type [Hin _].
  destruct (p_type =? PT_LOAD); cbn [negb]; [|by split].
  assert (Hlim : ph + 48 < U64) by (unfold U64; lia).
  apply sat_add; [lia|]. apply sat_bind. eapply sat_mono; [|apply sat_read_int; lia]. intros p_flags [_ Hfl].
  apply sat_add; [lia|]. apply sat_bind. eapply sat_mono; [|apply sat_read_int; lia]. intros p_offset [_ Hoff].
  apply sat_add; [lia|]. apply sat_bind. eapply sat_mono; [|apply sat_read_int; lia]. intros p_vaddr [_ Hva].
  apply sat_add; [lia|]. apply sat_bind. eapply sat_mono; [|apply sat_read_int; lia]. intros p_filesz [_ Hfs].
  apply sat_add; [lia|]. apply sat_bind. eapply sat_mono; [|apply sat_read_int; lia]. intros p_memsz [_ Hms].
  destruct (Z.ltb_spec p_memsz p_filesz); [done|].
  apply sat_bind. eapply sat_mono; [|apply sat_ok_or]. intros stop Hs. unfold checked_add in Hs.
  destruct (p_vaddr + p_memsz <? U64); [|done]. injection Hs as <-.
  destruct (Z.ltb_spec USER_MAX_ADDR (p_vaddr + p_memsz)); [done|]. destruct (Z.ltb_spec p_vaddr PAGE_SIZE); [done|]. cbn [orb].
  apply sat_bind. eapply sat_mono; [|apply sat_ok_or]. intros fe Hs. unfold checked_add in Hs.
  destruct (p_offset + p_filesz <? U64); [|done]. injection Hs as <-.
  destruct (Z.ltb_spec (Z.of_nat (length image)) (p_offset + p_filesz)); [done|].
  split; [lia|]. intros seg [= <-]. constructor; cbn [seg_vaddr seg_end seg_perm seg_data]; [lia|lia| |apply segment_perm_range].
  rewrite slice_length by lia. lia.
Qed.

Lemma sat_read_header image :
  sat (read_header image) (λ h, 0 ≤ e_phoff h < U64 ∧ 0 ≤ e_phentsize h < 2 ^ 16 ∧ 0 ≤ e_phnum h < 2 ^ 16 ∧ 0 ≤ e_entry h < U64).
Proof.
  unfold read_header. destruct (Z.ltb_spec (Z.of_nat (length image)) 64) as [|Hlen]; [done|].
  destruct (negb _); [done|].
  destruct (lookup_lt_is_Some_2 image 4) as [b4 H4]; [lia|]. destruct (lookup_lt_is_Some_2 image 5) as [b5 H5]; [lia|].
  unfold arr_get. cbn [Z.ltb Z.compare]. change (Z.to_nat 4) with 4%nat. change (Z.to_nat 5) with 5%nat. rewrite H4, H5.
  cbn [expect mbind outcome_bind]. destruct (_ || _); [done|].
  do 2 (apply sat_bind; eapply sat_mono; [|apply sat_read_int; lia]; intros ? _). destruct (_ || _); [done|].
  apply sat_bind. eapply sat_mono; [|apply sat_read_int; lia]. intros entry [_ Hen].
  apply sat_bind. eapply sat_mono; [|apply sat_read_int; lia]. intros phoff [_ Hoff].
  apply sat_bind. eapply sat_mono; [|apply sat_read_int; lia]. intros phentsize [_ Hes].
  apply sat_bind. eapply sat_mono; [|apply sat_read_int; lia]. intros phnum [_ Hnum].
  change (8 * Z.of_nat 8) with 64 in *. change (8 * Z.of_nat 2) with 16 in *. split_and!; (apply Hoff || apply Hes || apply Hnum || apply Hen).
Qed.

(** ** Segments in memory *)

(** The pages of a segment, and the byte each of their addresses holds. *)
Definition seg_lo (seg : Segment) : Z := seg_vaddr seg - seg_vaddr seg `mod` PAGE_SIZE.
Definition seg_hi (seg : Segment) : Z := div_ceil (seg_end seg) PAGE_SIZE * PAGE_SIZE.
Definition seg_byte (seg : Segment) (a : VirtAddr) : byte :=
  if decide (seg_vaddr seg ≤ a) then default x00 (seg_data seg !! Z.to_nat (a - seg_vaddr seg)) else x00.
Definition page_perm (sp : AddressSpace) (a : VirtAddr) : option PteFlags := snd <$> bt_get (vpn a) (sp_pages sp).

(** Every page of the segment is mapped with its permissions and contents. *)
Definition segment_in (sp : AddressSpace) (m : mem) (seg : Segment) : Prop :=
  ∀ a, seg_lo seg ≤ a < seg_hi seg → umem sp m a = Some (seg_byte seg a) ∧ page_perm sp a = Some (seg_perm seg).

Section loader.
Context {S : Type} `{FrameAllocator S, !FrameAllocatorLaws S}.
Implicit Types (s : S) (K : Z → Prop) (sp : AddressSpace).

(** Header [j] of the image. *)
Definition header (image : list byte) (h : Ehdr) (j : Z) : fallible (option Segment) :=
  read_segment image (e_phoff h + j * e_phentsize h).

(** The first [n] headers are loaded into [sp], and nothing else is. *)
Record holds (image : list byte) (h : Ehdr) (n : Z) sp (brk : Z) (m : mem) : Prop := {
  ho_segs : ∀ j, 0 ≤ j < n → ∃ o, header image h j = Ret (Ok o) ∧
    ∀ seg, o = Some seg → segment_ok seg ∧ segment_in sp m seg ∧ seg_hi seg ≤ brk;
  ho_only : ∀ a, 0 ≤ a → umem sp m a ≠ None → ∃ j seg, 0 ≤ j < n ∧
    header image h j = Ret (Ok (Some seg)) ∧ seg_lo seg ≤ a < seg_hi seg;
  ho_brk : (PAGE_SIZE | brk) ∧ 0 ≤ brk ≤ USER_MAX_ADDR;
  ho_tight : brk = 0 ∨ ∃ j seg, 0 ≤ j < n ∧ header image h j = Ret (Ok (Some seg)) ∧ brk = seg_hi seg;
}.

Lemma holds_skip image h n sp brk m :
  0 ≤ n → holds image h n sp brk m → header image h n = Ret (Ok None) → holds image h (n + 1) sp brk m.
Proof.
  intros H0n [Hs Ho Hb Ht] Hn. constructor; [|intros a Ha Hu; destruct (Ho a Ha Hu) as (j & seg & ? & ?); exists j, seg; split; [lia|done]|done|].
  2: { destruct Ht as [->|(j & seg & ? & ?)]; [by left|right; exists j, seg; split; [lia|done]]. }
  intros j Hj. destruct (decide (j = n)) as [->|]; [|apply Hs; lia]. by exists None.
Qed.

Lemma page_perm_umem sp m a : page_perm sp a = None ↔ umem sp m a = None.
Proof. unfold page_perm, umem, user_addr. by destruct (bt_get (vpn a) (sp_pages sp)) as [[]|]. Qed.

Lemma seg_bounds seg : segment_ok seg → 0 ≤ seg_lo seg ≤ seg_vaddr seg ∧ seg_end seg ≤ seg_hi seg ≤ USER_MAX_ADDR ∧ (PAGE_SIZE | seg_hi seg).
Proof.
  intros [Hl Hh Hf _]. unfold seg_lo, seg_hi. pose proof (div_ceil_spec (seg_end seg) PAGE_SIZE ltac:(done)).
  pose proof (Z.mod_pos_bound (seg_vaddr seg) PAGE_SIZE ltac:(done)).
  assert (USER_MAX_ADDR = 0x4000000 * PAGE_SIZE) by done.
  pose proof (div_ceil_le (seg_end seg) PAGE_SIZE 0x4000000 ltac:(done) ltac:(lia)). unfold PAGE_SIZE in *.
  split_and!; try lia. by exists (div_ceil (seg_end seg) 4096).
Qed.

(** One more segment: [sp'] is [sp] with the segment's region. *)
Lemma holds_push image h n sp brk m seg r sp' m' :
  0 ≤ n → holds image h n sp brk m → header image h n = Ret (Ok (Some seg)) → segment_ok seg →
  r_start r = seg_lo seg → r_end r = seg_hi seg → r_perm r = seg_perm seg → region_ok r →
  sp_pages sp' = sp_pages sp ++ region_pages r →
  (∀ a, r_start r ≤ a < r_end r → umem sp m a = None) →
  (∀ a, 0 ≤ a → umem sp' m' a =
     if decide (r_start r + seg_vaddr seg `mod` PAGE_SIZE ≤ a < r_start r + seg_vaddr seg `mod` PAGE_SIZE + Z.of_nat (length (seg_data seg)))
     then seg_data seg !! Z.to_nat (a - (r_start r + seg_vaddr seg `mod` PAGE_SIZE))
     else if decide (r_start r ≤ a < r_end r) then Some x00 else umem sp m a) →
  holds image h (n + 1) sp' (Z.max brk (seg_hi seg)) m'.
Proof.
  intros H0n [Hs Ho [Hb1 Hb2] Ht] Hn Hok Hst Hen Hpm Hro Hpg Hfree Hmem.
  destruct (seg_bounds seg Hok) as (Hlo & Hhi & Hdiv). pose proof (sg_fit _ Hok) as Hfit.
  replace (r_start r + seg_vaddr seg `mod` PAGE_SIZE) with (seg_vaddr seg) in Hmem by (rewrite Hst; unfold seg_lo; lia).
  rewrite Hst, Hen in *.
  assert (Hnew : segment_in sp' m' seg).
  { intros a Ha. split.
    - rewrite Hmem by lia. unfold seg_byte. destruct (decide (seg_vaddr seg ≤ a)).
      + destruct (decide (a < seg_vaddr seg + Z.of_nat (length (seg_data seg)))).
        * rewrite decide_True by lia.
          destruct (lookup_lt_is_Some_2 (seg_data seg) (Z.to_nat (a - seg_vaddr seg))) as [b ->]; [lia|done].
        * rewrite decide_False, decide_True by lia. by rewrite lookup_ge_None_2 by lia.
      + by rewrite decide_False, decide_True by lia.
    - unfold page_perm. rewrite Hpg, bt_get_app. pose proof (Hfree a Ha) as Hf. apply page_perm_umem in Hf.
      unfold page_perm in Hf. destruct (bt_get (vpn a) (sp_pages sp)); [done|].
      rewrite <- Hst, <- Hen in Ha. apply (region_pages_range r a Hro) in Ha.
      destruct (bt_get (vpn a) (region_pages r)) as [[p f]|] eqn:Hg; [|by apply bt_get_None in Hg].
      apply region_pages_get in Hg as (_ & _ & _ & ->). simpl. by rewrite Hpm. }
  assert (Hold : ∀ a, 0 ≤ a → umem sp m a ≠ None → umem sp' m' a = umem sp m a ∧ page_perm sp' a = page_perm sp a).
  { intros a Ha Hu. assert (Hout : ¬ (seg_lo seg ≤ a < seg_hi seg)) by (intros Hin; by apply Hu, Hfree).
    split; [by rewrite Hmem, !decide_False by lia|]. unfold page_perm. rewrite Hpg, bt_get_app.
    destruct (bt_get (vpn a) (sp_pages sp)) eqn:Hg; [done|]. exfalso. apply Hu. unfold umem, user_addr. by rewrite Hg. }
  constructor.
  - intros j Hj. destruct (decide (j = n)) as [->|].
    + exists (Some seg). split; [done|]. intros ? [= <-]. split_and!; [done|done|lia].
    + destruct (Hs j ltac:(lia)) as (o & Hh & Hseg). exists o. split; [done|]. intros seg' Heq.
      destruct (Hseg seg' Heq) as (Hok' & Hin & Hle). split_and!; [done| |lia]. intros a Ha. destruct (Hin a Ha) as [Hu Hp].
      destruct (seg_bounds seg' Hok') as [Hlo' _]. destruct (Hold a ltac:(lia)) as [-> ->]; [by rewrite Hu|done].
  - intros a Ha. destruct (decide (seg_lo seg ≤ a < seg_hi seg)) as [Hin|Hout].
    + intros _. exists n, seg. split; [lia|done].
    + rewrite Hmem, !decide_False by lia. intros Hu. destruct (Ho a Ha Hu) as (j & seg' & ? & ?). exists j, seg'. split; [lia|done].
  - split; [|lia]. destruct (Z.max_spec brk (seg_hi seg)) as [[_ ->]|[_ ->]]; done.
  - destruct (Z.max_spec brk (seg_hi seg)) as [[_ ->]|[_ ->]]; [right; exists n, seg; split; [lia|done]|].
    destruct Ht as [->|(j & seg' & ? & ?)]; [by left|right; exists j, seg'; split; [lia|done]].
Qed.

Lemma next_multiple_seg seg : segment_ok seg → next_multiple_of (seg_end seg) PAGE_SIZE = Ret (seg_hi seg).
Proof.
  intros Hok. destruct (seg_bounds seg Hok) as (_ & Hhi & _). pose proof (sg_low _ Hok). pose proof (sg_fit _ Hok).
  unfold next_multiple_of. pose proof (Z.mod_pos_bound (seg_end seg) PAGE_SIZE ltac:(done)) as Hm.
  pose proof (Z.div_mod (seg_end seg) PAGE_SIZE ltac:(done)) as Hd.
  assert (Heq : seg_hi seg = seg_end seg + (PAGE_SIZE - seg_end seg `mod` PAGE_SIZE) `mod` PAGE_SIZE).
  { unfold seg_hi, div_ceil, PAGE_SIZE in *. Z.div_mod_to_equations. lia. }
  destruct (seg_end seg `mod` PAGE_SIZE) as [|r|r] eqn:Hr; [|rewrite u64_add_ok|lia].
  - rewrite Heq. f_equal. change ((PAGE_SIZE - 0) `mod` PAGE_SIZE) with 0. lia.
  - rewrite Heq, Z.mod_small by lia. done.
  - unfold U64, USER_MAX_ADDR, PAGE_SIZE in *. lia.
Qed.

(** *** When loading cannot fail *)

(** Every header is acceptable, no two segments share a page, and there is one. *)
Record loadable (image : list byte) (h : Ehdr) : Prop := {
  la_parse : ∀ j, 0 ≤ j < e_phnum h → ∃ o, header image h j = Ret (Ok o);
  la_apart : ∀ i j seg seg' a, 0 ≤ i < j → j < e_phnum h →
    header image h i = Ret (Ok (Some seg)) → header image h j = Ret (Ok (Some seg')) →
    seg_lo seg ≤ a < seg_hi seg → ¬ seg_lo seg' ≤ a < seg_hi seg';
  la_some : ∃ j seg, 0 ≤ j < e_phnum h ∧ header image h j = Ret (Ok (Some seg)) }.

(** The pages of [n] segments from header [i] on. *)
Fixpoint segment_pages (image : list byte) (h : Ehdr) (n : nat) (i : Z) : Z :=
  match n with
  | O => 0
  | Datatypes.S n =>
      match header image h i with
      | Ret (Ok (Some seg)) => vpn (seg_hi seg) - vpn (seg_lo seg)
      | _ => 0
      end + segment_pages image h n (i + 1)
  end.
Definition image_pages (image : list byte) (h : Ehdr) : Z := segment_pages image h (Z.to_nat (e_phnum h)) 0.

Lemma segment_pages_step image h i : 0 ≤ i < e_phnum h →
  segment_pages image h (Z.to_nat (e_phnum h - i)) i =
    match header image h i with Ret (Ok (Some seg)) => vpn (seg_hi seg) - vpn (seg_lo seg) | _ => 0 end +
    segment_pages image h (Z.to_nat (e_phnum h - (i + 1))) (i + 1).
Proof. intros Hi. by replace (Z.to_nat (e_phnum h - i)) with (Datatypes.S (Z.to_nat (e_phnum h - (i + 1)))) by lia. Qed.

Lemma segment_pages_nonneg image h n : ∀ i, Z.of_nat (length image) < 2 ^ 63 → 0 ≤ i → 0 ≤ e_phoff h → 0 ≤ e_phentsize h →
  0 ≤ segment_pages image h n i.
Proof.
  induction n as [|n IH]; intros i Hlen Hi Ho Hs; cbn [segment_pages]; [done|]. pose proof (IH (i + 1) Hlen ltac:(lia) Ho Hs).
  pose proof (sat_read_segment image (e_phoff h + i * e_phentsize h) ltac:(nia) Hlen) as Hsat. fold (header image h i) in Hsat.
  destruct (header image h i) as [[[seg|]|e]|]; try lia. destruct Hsat as [_ Hok]. specialize (Hok seg eq_refl).
  destruct (seg_bounds seg Hok) as (? & ? & _). pose proof (sg_fit _ Hok). rewrite !vpn_div.
  pose proof (Z.div_le_mono (seg_lo seg) (seg_hi seg) PAGE_SIZE ltac:(done) ltac:(lia)). lia.
Qed.

(** A page of the segment that is mapped already belongs to an earlier segment. *)
Lemma holds_page image h n sp brk m seg x : holds image h n sp brk m → segment_ok seg →
  vpn (seg_lo seg) ≤ x < vpn (seg_hi seg) → x ∈ (sp_pages sp).*1 →
  ∃ j seg' a, 0 ≤ j < n ∧ header image h j = Ret (Ok (Some seg')) ∧ seg_lo seg' ≤ a < seg_hi seg' ∧ seg_lo seg ≤ a < seg_hi seg.
Proof.
  intros Hh Hok Hx Hin. destruct (seg_bounds seg Hok) as (Hlo & Hhi & [y Hy]).
  assert (Ha : seg_lo seg ≤ x * PAGE_SIZE < seg_hi seg).
  { unfold seg_lo in *. rewrite !vpn_div, Hy, Z.div_mul in Hx by done. rewrite Hy. unfold PAGE_SIZE in *. Z.div_mod_to_equations. lia. }
  destruct (ho_only _ _ _ _ _ _ Hh (x * PAGE_SIZE)) as (j & seg' & Hj & Hs & Hr); [lia| |by exists j, seg', (x * PAGE_SIZE)].
  unfold umem, user_addr. rewrite vpn_div, Z.div_mul by done. intros Hn. revert Hin. apply bt_get_None.
  by destruct (bt_get x (sp_pages sp)) as [[]|].
Qed.

Lemma load_loop_full K s0 image h fuel : ∀ i sp brk s,
  Z.of_nat (length image) < 2 ^ 63 → 0 ≤ e_phoff h < U64 → 0 ≤ e_phentsize h < 2 ^ 16 → e_phnum h < 2 ^ 16 →
  0 ≤ i ≤ e_phnum h → (Z.to_nat (e_phnum h - i) ≤ fuel)%nat → (0 < i → e_phoff h < 2 ^ 63) →
  building K s0 [] sp s → holds image h i sp brk (fa_mem s) →
  wp (load_loop fuel image h i sp brk) (λ r s', match r with
    | Ok (sp', brk') => building K s0 [] sp' s' ∧ holds image h (e_phnum h) sp' brk' (fa_mem s') ∧
        fa_avail s - 3 * segment_pages image h (Z.to_nat (e_phnum h - i)) i ≤ fa_avail s'
    | Err _ => restored s0 s' ∧
        (loadable image h → fa_avail s < 3 * segment_pages image h (Z.to_nat (e_phnum h - i)) i)
    end) s.
Proof.
  induction fuel as [|fuel IH]; intros i sp brk s Hlen Hoff Hes Hnum Hi Hfuel Hpos Hb Hh; cbn [load_loop].
  { apply wp_ret. replace (e_phnum h) with i by lia. rewrite Z.sub_diag. change (Z.to_nat 0) with O. cbn [segment_pages]. split_and!; [done|done|lia]. }
  destruct (Z.ltb_spec i (e_phnum h)) as [Hlt|].
  2: { apply wp_ret. replace (e_phnum h) with i by lia. rewrite Z.sub_diag. change (Z.to_nat 0) with O. cbn [segment_pages]. split_and!; [done|done|lia]. }
  rewrite segment_pages_step by lia.
  pose proof (segment_pages_nonneg image h (Z.to_nat (e_phnum h - (i + 1))) (i + 1) Hlen ltac:(lia) ltac:(lia) ltac:(lia)) as Hrest.
  assert (Hprod : 0 ≤ i * e_phentsize h < 2 ^ 32) by nia.
  assert (Hph : e_phoff h + i * e_phentsize h < U64).
  { destruct (decide (i = 0)) as [->|]; [lia|]. pose proof (Hpos ltac:(lia)). unfold U64 in *. lia. }
  wp_step. eapply wp_lift; [unfold u64_mul; rewrite (proj2 (Z.ltb_lt _ _)) by (unfold U64; lia); done|].
  wp_step. eapply wp_lift; [by apply u64_add_ok|]. fold (header image h i).
  pose proof (sat_read_segment image (e_phoff h + i * e_phentsize h) ltac:(lia) Hlen) as Hsat. fold (header image h i) in Hsat.
  destruct (header image h i) as [[o|e]|] eqn:Hhd; [| |done]; wp_step; (eapply wp_lift; [done|]); cbv beta iota.
  2: { wp_step. eapply wp_mono; [|exact (building_drop _ _ _ _ _ Hb)]. cbv beta. intros _ s1 Hs1. apply wp_ret.
       split; [done|]. intros Hl. destruct (la_parse _ _ Hl i ltac:(lia)) as [o Ho]. rewrite Hhd in Ho. discriminate Ho. }
  destruct Hsat as [Hin Hok]. destruct o as [seg|].
  2: { apply IH; [done|done|done|done|lia|lia|intros; lia|done|apply holds_skip; [lia|done|done]]. }
  specialize (Hok seg eq_refl). pose proof (seg_bounds seg Hok) as (Hlo & Hhi & _).
  pose proof (sg_fit _ Hok) as Hfit. pose proof (sg_high _ Hok) as Hhigh.
  destruct (Region_new_shape (seg_vaddr seg) (seg_end seg) (seg_perm seg)) as (r & Hr & Hsh & Hnil & Hpm & Hst & Hen); [lia|lia|apply Hok|].
  fold (seg_lo seg) in Hst. fold (seg_hi seg) in Hen.
  wp_step. eapply wp_lift; [exact Hr|]. pose proof (Z.mod_pos_bound (seg_vaddr seg) PAGE_SIZE ltac:(done)) as Hmod.
  wp_step. eapply wp_mono; [|apply (push_with_offset_spec K s0 sp r (seg_vaddr seg `mod` PAGE_SIZE) (seg_data seg) s Hb Hsh Hnil)].
  2: { lia. }
  2: { rewrite Hst, Hen. unfold seg_lo. lia. }
  intros [res sp1] s1 Hpost. destruct res as [[]|e].
  2: { destruct Hpost as (He & L & Hb1). wp_step. eapply wp_mono; [|exact (building_drop _ _ _ _ _ Hb1)].
       cbv beta. intros _ s2 Hs2. apply wp_ret. split; [done|]. intros Hl. unfold region_size in He. rewrite Hst, Hen in He.
       destruct He as [[_ Hfew]|(x & Hx & Hin2)]; [lia|]. exfalso.
       destruct (holds_page image h i sp brk (fa_mem s) seg x Hh Hok Hx Hin2) as (j & seg' & a & Hj & Hs' & Ha' & Ha).
       by apply (la_apart _ _ Hl j i seg' seg a). }
  destruct Hpost as (Hb1 & new & Hrs & Hav & Hfree & Hmem). wp_step. eapply wp_lift; [by apply next_multiple_seg|].
  unfold region_size in Hav. rewrite Hst, Hen in Hav.
  eapply wp_mono; [|apply IH; [done|done|done|done|lia|lia|intros; lia|done|]].
  { intros [[sp2 brk2]|e] s2; cbv beta iota; [intros (? & ? & ?); split_and!; [done|done|lia]|].
    intros [? Hl]. split; [done|]. intros Hl'. specialize (Hl Hl'). lia. }
  pose proof (bd_regions _ _ _ _ _ Hb1) as Hro. rewrite Hrs in Hro. apply Forall_app in Hro as [_ [Hro _]%Forall_cons].
  apply (holds_push image h i sp brk (fa_mem s) seg (with_frames new r)); try done; [lia|].
  unfold sp_pages. rewrite Hrs, bind_app. simpl. by rewrite app_nil_r.
Qed.

Lemma load_full kernel image s :
  fa_inv s → pt_kernel (table kernel) s → Z.of_nat (length image) < 2 ^ 63 →
  wp (load (Some kernel) image) (λ r s', match r with
    | Ok img => ∃ h, read_header image = Ret (Ok h) ∧ li_entry img = e_entry h ∧
        building (kernel_tables kernel) s [] (li_space img) s' ∧ li_brk img ≠ 0 ∧
        holds image h (e_phnum h) (li_space img) (li_brk img) (fa_mem s') ∧
        fa_avail s - (1 + 3 * image_pages image h) ≤ fa_avail s'
    | Err _ => restored s s' ∧
        ∀ h, read_header image = Ret (Ok h) → loadable image h → fa_avail s < 1 + 3 * image_pages image h
    end) s.
Proof.
  intros Hinv Hk Hlen. unfold load. pose proof (sat_read_header image) as Hsat. unfold sat in Hsat.
  assert (Hself : restored s s) by by split_and!.
  destruct (read_header image) as [[h|e]|]; [| |done]; wp_step; (eapply wp_lift; [done|]); cbv beta iota.
  2: { by apply wp_ret. }
  destruct Hsat as (Hoff & Hes & Hnum & _).
  pose proof (segment_pages_nonneg image h (Z.to_nat (e_phnum h)) 0 Hlen ltac:(lia) ltac:(lia) ltac:(lia)) as Hpg.
  fold (image_pages image h) in Hpg.
  apply (wp_new_space kernel); [done|done|intros Hz; apply wp_ret; split; [done|]; intros h' [= <-] _; lia|].
  intros sp s1 Hn. pose proof (ns_avail _ _ _ _ Hn) as Hav1. pose proof (new_space_building _ _ _ _ Hn) as Hb.
  wp_step. eapply wp_mono; [|apply (load_loop_full (kernel_tables kernel) s image h); [done|done|done|lia|lia|lia|lia|exact Hb|]].
  - cbv beta. rewrite Z.sub_0_r. fold (image_pages image h). intros [[sp2 brk]|e] s2 Hpost.
    2: { destruct Hpost as [Hr Hfew]. apply wp_ret. split; [done|]. intros h' [= <-] Hl. specialize (Hfew Hl). lia. }
    destruct Hpost as (Hb2 & Hh2 & Hav2).
    destruct (Z.eqb_spec brk 0) as [Hz|Hne]; [|apply wp_ret; exists h; split_and!; first [done|cbn; lia]].
    wp_step. eapply wp_mono; [|exact (building_drop _ _ _ _ _ Hb2)]. cbv beta. intros _ s3 Hs3. apply wp_ret. split; [done|].
    intros h' [= <-] Hl. exfalso. destruct (la_some _ _ Hl) as (j & seg & Hj & Hs).
    destruct (ho_segs _ _ _ _ _ _ Hh2 j Hj) as (o & Ho & Hseg). rewrite Hs in Ho. injection Ho as <-.
    destruct (Hseg seg eq_refl) as (Hok & _ & Hle). destruct (seg_bounds seg Hok) as (? & ? & _). pose proof (sg_low _ Hok).
    pose proof (sg_fit _ Hok). unfold PAGE_SIZE in *. lia.
  - constructor; [intros; lia| |split; [by exists 0|done]|by left].
    intros a _. unfold umem, user_addr, sp_pages. by rewrite (ns_regions _ _ _ _ Hn).
Qed.

Lemma load_spec kernel image s :
  fa_inv s → pt_kernel (table kernel) s → Z.of_nat (length image) < 2 ^ 63 →
  wp (load (Some kernel) image) (λ r s', match r with
    | Ok img => ∃ h, read_header image = Ret (Ok h) ∧ li_entry img = e_entry h ∧
        building (kernel_tables kernel) s [] (li_space img) s' ∧ li_brk img ≠ 0 ∧
        holds image h (e_phnum h) (li_space img) (li_brk img) (fa_mem s')
    | Err _ => restored s s'
    end) s.
Proof.
  intros Hinv Hk Hlen. eapply wp_mono; [|exact (load_full kernel image s Hinv Hk Hlen)].
  intros [img|e] s'; cbv beta iota; [intros (h & ? & ? & ? & ? & ? & _); by exists h|by intros [? _]].
Qed.

(** C4: loading an executable.  Whatever the bytes of the image, [load] returns.
    On success every program header was well formed; each loadable segment's
    pages hold the segment's file bytes with zeros around them and carry its
    permissions; nothing else is mapped; the break is page-aligned above every
    segment; the frames used are new ones and no page in use was touched.  On
    failure the frame allocator is as before and no page in use was touched. *)
Theorem load_correct kernel image s :
  fa_inv s → pt_kernel (table kernel) s → Z.of_nat (length image) < 2 ^ 63 →
  ∃ r s', load (Some kernel) image s = Ret (r, s') ∧
    (∀ q, fa_used s q → fa_used s' q ∧ agree (page q) (fa_mem s) (fa_mem s')) ∧
    match r with
    | Ok img => ∃ h, read_header image = Ret (Ok h) ∧ li_entry img = e_entry h ∧
        space_ok (kernel_tables kernel) (li_space img) s' ∧
        holds image h (e_phnum h) (li_space img) (li_brk img) (fa_mem s') ∧
        (∀ q, fa_used s' q ↔ fa_used s q ∨ q ∈ table_pages (table (li_space img)) ∨ q ∈ sp_ppns (li_space img))
    | Err _ => ∀ q, fa_used s' q ↔ fa_used s q
    end.
Proof.
  intros Hinv Hk Hlen. destruct (wp_run _ _ _ (load_spec kernel image s Hinv Hk Hlen)) as (r & s' & Hr & Hpost).
  exists r, s'. split; [exact Hr|]. destruct r as [img|e].
  - destruct Hpost as (h & Hh & He & Hb & _ & Hho). pose proof (building_ok _ _ _ _ Hb) as Hok.
    destruct Hb as [_ _ _ Hu _ Ha]. split; [intros q Hq; split; [apply Hu; by left|by apply Ha]|]. by exists h.
  - destruct Hpost as (_ & Hu & Ha). split; [intros q Hq; split; [by apply Hu|by apply Ha]|done].
Qed.

(** the layout a loaded program relies on.  The entry point and break come
    from the image; page zero is never mapped, so null dereferences fault; and
    nothing is mapped at or above the break, which lies in user space, so the
    heap can grow from there. *)
Theorem load_layout kernel image s img s' :
  fa_inv s → pt_kernel (table kernel) s → Z.of_nat (length image) < 2 ^ 63 →
  load (Some kernel) image s = Ret (Ok img, s') →
  0 < li_brk img ≤ USER_MAX_ADDR ∧ (PAGE_SIZE | li_brk img) ∧
  ∀ a, 0 ≤ a → umem (li_space img) (fa_mem s') a ≠ None → PAGE_SIZE ≤ a < li_brk img.
Proof.
  intros Hinv Hk Hlen Hrun. pose proof (load_spec kernel image s Hinv Hk Hlen) as Hw. unfold wp in Hw. rewrite Hrun in Hw.
  destruct Hw as (h & _ & _ & _ & Hne & [Hs Ho [Hd Hb]]). split_and!; [lia|lia|done|].
  intros a Ha Hu. destruct (Ho a Ha Hu) as (j & seg & Hj & Hh & Hin). destruct (Hs j Hj) as (o & Hh' & Hseg).
  rewrite Hh in Hh'. injection Hh' as <-. destruct (Hseg seg eq_refl) as (Hok & _ & Hle). pose proof (sg_low _ Hok) as Hl.
  unfold seg_lo, PAGE_SIZE in *. pose proof (Z.mod_pos_bound (seg_vaddr seg) 4096 ltac:(lia)). Z.div_mod_to_equations. lia.
Qed.
End loader.

(** ** Witnesses: a one-segment executable on the booted machine *)

Definition le (n : nat) (v : Z) : list byte := le_split n v.
Definition demo_image : list byte :=
  (byte.of_Z <$> [0x7f; 69; 76; 70; 2; 1; 1; 0; 0; 0; 0; 0; 0; 0; 0; 0]) ++
  le 2 2 ++ le 2 243 ++ le 4 1 ++ le 8 0x10000 ++ le 8 64 ++ le 8 0 ++ le 4 0 ++ le 2 64 ++ le 2 56 ++ le 2 1 ++ le 6 0 ++
  le 4 1 ++ le 4 5 ++ le 8 120 ++ le 8 0x10000 ++ le 8 0 ++ le 8 4 ++ le 8 0x1800 ++ le 8 0x1000 ++ le 4 0x13.

(** The kernel table, alone. *)
Definition demo_kimage : AddressSpace := mkAS demo_pt [].
Lemma demo_kimage_kernel : fa_inv demo_s ∧ pt_kernel (table demo_kimage) demo_s.
Proof.
  assert (Hsome : match PageTable_new boot_state with Ret (Some _, _) => true | _ => false end = true)
    by (vm_compute; reflexivity).
  pose proof (PageTable_new_spec 512 boot_state
    (λ r s, match r with Some pt => fa_inv s ∧ pt_kernel pt s | None => True end)) as Hw.
  with_strategy transparent [demo_start] unfold demo_kimage, demo_pt, demo_s, demo_start. cbn [table]. unfold wp in Hw.
  destruct (PageTable_new boot_state) as [[[pt|] s]|]; [|done..]. simpl.
  apply Hw; [lia|exact boot_frame_inv|done|]. intros pt' s' Hl _ Hf _ _. split; [apply Hf|by apply pt_low_kernel].
Qed.

Definition demo_load : result LoadError.t LoadedImage * Frame.PhysMem :=
  run_or (load (Some demo_kimage) demo_image demo_s) (Err LoadError.OutOfMemory) demo_s.
Definition demo_loaded : LoadedImage :=
  match demo_load.1 with Ok img => img | Err _ => mkLoaded demo_kimage 0 0 end.

Lemma demo_load_run : load (Some demo_kimage) demo_image demo_s = Ret (Ok demo_loaded, demo_load.2).
Proof.
  assert (Hok : match load (Some demo_kimage) demo_image demo_s with Ret (Ok _, _) => true | _ => false end = true)
    by (vm_compute; reflexivity).
  unfold demo_loaded, demo_load. by destruct (load (Some demo_kimage) demo_image demo_s) as [[[img|] s]|].
Qed.
#[global] Opaque demo_load.

Lemma demo_image_length : Z.of_nat (length demo_image) < 2 ^ 63.
Proof. vm_compute. reflexivity. Qed.

Lemma load_correct_witness :
  space_ok (kernel_tables demo_kimage) (li_space demo_loaded) demo_load.2.
Proof.
  destruct demo_kimage_kernel as [Hi Hk].
  destruct (load_correct demo_kimage demo_image demo_s Hi Hk demo_image_length) as (r & s' & Hr & _ & Hpost).
  rewrite demo_load_run in Hr. destruct (Ret_inj _ _ _ _ Hr) as [<- <-]. destruct Hpost as (h & _ & _ & Hok & _). exact Hok.
Defined.

Lemma load_layout_witness : 0 < li_brk demo_loaded ≤ USER_MAX_ADDR.
Proof.
  destruct demo_kimage_kernel as [Hi Hk].
  destruct (load_layout demo_kimage demo_image demo_s demo_loaded demo_load.2 Hi Hk demo_image_length demo_load_run) as [Hb _].
  exact Hb.
Defined.
