(* ===== verification/Heap.v ===== *)
(** * The kernel heap (kernel/src/mm/heap.rs)

    A size-class allocator over the frame allocator: each class keeps a free
    list threaded through the free blocks' first words.  The [SpinLock] is held
    for the whole of each operation, so operations are atomic steps on
    [HeapInner] and the frame state. *)
From stdpp Require Import base numbers functions list.
From S2P Require Frame.
From S2P Require Import Prelude Memory Config Addr FrameIface.

Definition CLASS_SIZES : list Z := [8; 16; 32; 64; 128; 256; 512; 1024; 2048].
Definition NUM_CLASSES : Z := 9.
Definition MAX_CLASS_SIZE : Z := 2048.

Record HeapInner := mkHeap {
  h_free : list Z;      (** head of each class's list; 0 is null *)
  allocated : Z;
  reserved : Z;
}.

Definition HeapInner_new : HeapInner := mkHeap (replicate 9 0) 0 0.

(** [iter().position(p)], counting from [i]. *)
Fixpoint position (p : Z → bool) (l : list Z) (i : Z) : option Z :=
  match l with
  | [] => None
  | x :: l => if p x then Some i else position p l (i + 1)
  end.

(** A [Layout] is its size and alignment. *)
Definition class_for (size align : Z) : option Z :=
  let need := Z.max size align in
  if MAX_CLASS_SIZE <? need then None else position (λ s, need <=? s) CLASS_SIZES 0.

Section heap.
Context {S : Type} `{FrameAllocator S}.

Definition HS : Type := HeapInner * S.
Definition frames {A} (m : ST S A) : ST HS A := λ '(h, s),
  match m s with Ret (a, s') => Ret (a, (h, s')) | Panic => Panic end.
Definition heap : ST HS HeapInner := λ '(h, s), Ret (h, (h, s)).
Definition set_heap (h : HeapInner) : ST HS unit := λ '(_, s), Ret (tt, (h, s)).

Definition set_free (class head : Z) : ST HS unit :=
  h ← heap;
  l ← lift (arr_set (h_free h) class head);
  set_heap (mkHeap l (allocated h) (reserved h)).
Definition add_allocated (n : Z) : ST HS unit :=
  h ← heap; a ← lift (allocated h +! n); set_heap (mkHeap (h_free h) a (reserved h)).
Definition sub_allocated (n : Z) : ST HS unit :=
  h ← heap; a ← lift (allocated h -! n); set_heap (mkHeap (h_free h) a (reserved h)).
Definition add_reserved (n : Z) : ST HS unit :=
  h ← heap; r ← lift (reserved h +! n); set_heap (mkHeap (h_free h) (allocated h) r).
Definition sub_reserved (n : Z) : ST HS unit :=
  h ← heap; r ← lift (reserved h -! n); set_heap (mkHeap (h_free h) (allocated h) r).

(** Blocks [n-1] down to [0] of the frame at [base], pushed on [head]. *)
Fixpoint refill_loop (n : nat) (base size head : Z) : ST S Z :=
  match n with
  | O => mret head
  | Datatypes.S i =>
      let block := base + Z.of_nat i * size in
      write64 block head;;
      refill_loop i base size block
  end.

Definition refill (class : Z) : ST HS bool :=
  size ← lift (arr_get CLASS_SIZES class);
  r ← frames (fa_alloc 0);
  match r with
  | None => mret false
  | Some ppn =>
      add_reserved PAGE_SIZE;;
      h ← heap;
      head ← lift (arr_get (h_free h) class);
      head ← frames (refill_loop (Z.to_nat (PAGE_SIZE `div` size)) (as_ptr ppn) size head);
      set_free class head;;
      mret true
  end.

Definition alloc (size align : Z) : ST HS Z :=
  match class_for size align with
  | None =>
      if PAGE_SIZE <? align then mret 0 else
      let order := Frame.order_for (div_ceil size PAGE_SIZE) in
      r ← frames (fa_alloc order);
      match r with
      | Some ppn =>
          n ← lift (PAGE_SIZE <<! order);
          add_allocated n;;
          add_reserved n;;
          mret (as_ptr ppn)
      | None => mret 0
      end
  | Some class =>
      h ← heap;
      head ← lift (arr_get (h_free h) class);
      ok ← (if head =? 0 then refill class else mret true);
      if negb ok then mret 0 else
      h ← heap;
      block ← lift (arr_get (h_free h) class);
      next ← frames (read64 block);
      set_free class next;;
      size ← lift (arr_get CLASS_SIZES class);
      add_allocated size;;
      mret block
  end.

Definition dealloc (ptr size align : Z) : ST HS unit :=
  match class_for size align with
  | None =>
      let order := Frame.order_for (div_ceil size PAGE_SIZE) in
      n ← lift (PAGE_SIZE <<! order);
      sub_allocated n;;
      sub_reserved n;;
      pa ← lift (to_phys ptr);
      frames (fa_free (ppn pa) order)
  | Some class =>
      h ← heap;
      head ← lift (arr_get (h_free h) class);
      frames (write64 ptr head);;
      set_free class ptr;;
      size ← lift (arr_get CLASS_SIZES class);
      sub_allocated size
  end.

Definition stats : ST HS (Z * Z) := h ← heap; mret (allocated h, reserved h).
End heap.
