(* ===== verification/HeapInv.v ===== *)
(** * The heap's invariant

    Ghost state names the pages the heap has carved into blocks, the free list
    of each class, the small blocks handed out and the large runs handed out.
    [heap_ok] ties it to [HeapInner] and memory. *)
From stdpp Require Import base numbers functions sets list.
From Stdlib Require Import Lia.
From S2P Require Frame.
From S2P Require Import Prelude Memory Config Addr FrameIface Heap.

Definition class_size (c : Z) : Z := 8 * 2 ^ c.

Lemma class_cases c : 0 ≤ c < 9 → c ∈ seqZ 0 9.
Proof. intros. apply elem_of_seqZ. lia. Qed.

(** Case analysis on a class index. *)
Ltac class_split c :=
  assert (c = 0 ∨ c = 1 ∨ c = 2 ∨ c = 3 ∨ c = 4 ∨ c = 5 ∨ c = 6 ∨ c = 7 ∨ c = 8) as Hcases by lia;
  destruct Hcases as [->|[->|[->|[->|[->|[->|[->|[->| ->]]]]]]]].

Lemma class_size_get c : 0 ≤ c < 9 → arr_get CLASS_SIZES c = Ret (class_size c).
Proof. intros Hc. class_split c; reflexivity. Qed.

Lemma class_size_page c : 0 ≤ c < 9 → 8 ≤ class_size c ≤ 2048 ∧ PAGE_SIZE `div` class_size c * class_size c = PAGE_SIZE.
Proof. intros Hc. class_split c; vm_compute; split_and!; (discriminate || reflexivity). Qed.

Lemma class_size_inj c c' : 0 ≤ c < 9 → 0 ≤ c' < 9 → class_size c = class_size c' → c = c'.
Proof. unfold class_size. intros Hc Hc' He. apply (Z.pow_inj_r 2); lia. Qed.

(** Decide the first comparison of the goal. *)
Ltac leb_split := match goal with |- context [?a <=? ?b] => destruct (Z.leb_spec a b) end.

Lemma class_for_Some size align c :
  class_for size align = Some c → 0 ≤ c < 9 ∧ size ≤ class_size c ∧ align ≤ class_size c.
Proof.
  unfold class_for. destruct (Z.ltb_spec MAX_CLASS_SIZE (Z.max size align)); [done|]. cbn [position CLASS_SIZES].
  repeat (leb_split; [intros [= <-]; unfold class_size; simpl; lia|]). done.
Qed.

Lemma class_for_None size align : class_for size align = None → 2048 < Z.max size align.
Proof.
  unfold class_for. destruct (Z.ltb_spec MAX_CLASS_SIZE (Z.max size align)); [done|]. cbn [position CLASS_SIZES].
  repeat (leb_split; [done|]). unfold MAX_CLASS_SIZE in *. lia.
Qed.

(** ** Sums *)
Definition sumZ (l : list Z) : Z := foldr Z.add 0 l.

Lemma sumZ_app l l' : sumZ (l ++ l') = sumZ l + sumZ l'.
Proof. induction l as [|x l IH]; simpl; [done|]. unfold sumZ in *. simpl. lia. Qed.

#[export] Instance sumZ_perm : Proper ((≡ₚ) ==> (=)) sumZ.
Proof. intros l l' HP. induction HP; simpl; unfold sumZ in *; simpl; lia. Qed.

Lemma sumZ_nonneg l : Forall (λ x, 0 ≤ x) l → 0 ≤ sumZ l.
Proof. induction 1; simpl; unfold sumZ in *; simpl; lia. Qed.

Lemma sumZ_const {A} (l : list A) k : sumZ ((λ _, k) <$> l) = k * Z.of_nat (length l).
Proof. induction l as [|x l IH]; [unfold sumZ; simpl; lia|]. change (sumZ (k :: ((λ _, k) <$> l)) = k * Z.of_nat (length (x :: l))). unfold sumZ in *. cbn [foldr length]. lia. Qed.

Lemma nodup_bound (l : list Z) n : NoDup l → (∀ x, x ∈ l → 0 ≤ x < n) → Z.of_nat (length l) ≤ Z.max 0 n.
Proof.
  intros Hnd Hr. assert (Hsub : l ⊆+ seqZ 0 n).
  { apply NoDup_submseteq; [done|]. intros x Hx. apply elem_of_seqZ. specialize (Hr x Hx). lia. }
  apply submseteq_length in Hsub. rewrite length_seqZ in Hsub. lia.
Qed.

(** ** Blocks and lists *)
Definition blocks (p c : Z) : list Z :=
  (λ i, page_base p + i * class_size c) <$> seqZ 0 (PAGE_SIZE `div` class_size c).
Definition all_blocks (carved : list (Z * Z)) : list (Z * Z) :=
  carved ≫= λ pc, (λ b, (pc.2, b)) <$> blocks pc.1 pc.2.
Definition tagged (F : Z → list Z) : list (Z * Z) := seqZ 0 9 ≫= λ c, (λ b, (c, b)) <$> F c.

Fixpoint chain (m : mem) (head : Z) (l : list Z) : Prop :=
  match l with
  | [] => head = 0
  | b :: l => head = b ∧ b ≠ 0 ∧ chain m (load64 m b) l
  end.

Lemma chain_agree m m' l : ∀ head,
  (∀ b, b ∈ l → agree (span b 8) m m') → chain m head l → chain m' head l.
Proof.
  induction l as [|b l IH]; intros head Ha; simpl; [done|]. intros (-> & Hb & Hc). split_and!; [done|done|].
  rewrite (load64_ext m m') by (apply Ha, list_elem_of_here). apply IH; [|done].
  intros b' Hb'. by apply Ha, list_elem_of_further.
Qed.

Lemma elem_of_blocks b p c : 0 ≤ c < 9 →
  b ∈ blocks p c ↔ ∃ i, 0 ≤ i < PAGE_SIZE `div` class_size c ∧ b = page_base p + i * class_size c.
Proof.
  intros Hc. unfold blocks. rewrite list_elem_of_fmap. split.
  - intros (i & -> & Hi%elem_of_seqZ). exists i. split; [lia|done].
  - intros (i & Hi & ->). exists i. split; [done|]. apply elem_of_seqZ. lia.
Qed.

(** A block lies in its page. *)
Lemma block_page b p c x : 0 ≤ c < 9 → b ∈ blocks p c → span b (class_size c) x → page p x.
Proof.
  intros Hc (i & Hi & ->)%elem_of_blocks Hs; [|done]. destruct (class_size_page c Hc) as [Hsz Hdiv].
  unfold page, span in *. nia.
Qed.

Lemma blocks_nodup p c : 0 ≤ c < 9 → NoDup (blocks p c).
Proof.
  intros Hc. unfold blocks. apply NoDup_fmap_2_strong; [|apply NoDup_seqZ].
  destruct (class_size_page c Hc) as [Hsz _]. intros i j _ _ He. nia.
Qed.

Lemma elem_of_heap_blocks carved c b :
  (c, b) ∈ all_blocks carved ↔ ∃ p, (p, c) ∈ carved ∧ b ∈ blocks p c.
Proof.
  unfold all_blocks. rewrite list_elem_of_bind. split.
  - intros ([p c'] & Hin & Hpc). apply list_elem_of_fmap in Hin as (b' & [= -> ->] & Hb). by exists p.
  - intros (p & Hpc & Hb). exists (p, c). split; [|done]. apply list_elem_of_fmap. by exists b.
Qed.

(** Distinct blocks do not overlap. *)
Lemma blocks_disjoint carved c b c' b' x :
  NoDup carved.*1 → (∀ p c, (p, c) ∈ carved → 0 ≤ c < 9) →
  (c, b) ∈ all_blocks carved → (c', b') ∈ all_blocks carved →
  span b (class_size c) x → span b' (class_size c') x → c = c' ∧ b = b'.
Proof.
  intros Hnd Hcl (p & Hp & Hb)%elem_of_heap_blocks (p' & Hp' & Hb')%elem_of_heap_blocks Hx Hx'.
  pose proof (Hcl _ _ Hp) as Hc. pose proof (Hcl _ _ Hp') as Hc'.
  assert (p = p') as <-.
  { apply (page_disjoint p p' x); [exact (block_page b p c x Hc Hb Hx)|exact (block_page b' p' c' x Hc' Hb' Hx')]. }
  assert (c = c') as <-.
  { apply list_elem_of_lookup in Hp as [i Hi]. apply list_elem_of_lookup in Hp' as [j Hj].
    assert (i = j) as <- by (apply (NoDup_lookup _ i j p Hnd); rewrite list_lookup_fmap; [by rewrite Hi|by rewrite Hj]).
    rewrite Hi in Hj. by injection Hj. }
  split; [done|]. destruct (class_size_page c Hc) as [Hsz _].
  apply elem_of_blocks in Hb as (i & Hi & ->); [|done]. apply elem_of_blocks in Hb' as (j & Hj & ->); [|done].
  unfold span in *. assert (i = j) as -> by nia. done.
Qed.

Lemma all_blocks_nodup carved :
  NoDup carved.*1 → (∀ p c, (p, c) ∈ carved → 0 ≤ c < 9) → NoDup (all_blocks carved).
Proof.
  induction carved as [|[p c] carved IH]; simpl; intros Hnd Hcl; [constructor|].
  apply NoDup_cons in Hnd as [Hp Hnd]. assert (Hc : 0 ≤ c < 9) by (apply (Hcl p), list_elem_of_here).
  apply NoDup_app. split_and!.
  - by apply (NoDup_fmap_2 (λ b, (c, b))), blocks_nodup.
  - intros [c1 b1] (b & [= -> ->] & Hb)%list_elem_of_fmap (p' & Hp' & Hb')%elem_of_heap_blocks.
    assert (p = p') as <-.
    { destruct (class_size_page c Hc) as [Hsz _].
      assert (Hs : span b (class_size c) b) by (unfold span; lia).
      exact (page_disjoint p p' b (block_page b p c b Hc Hb Hs) (block_page b p' c b Hc Hb' Hs)). }
    apply Hp, list_elem_of_fmap. by exists (p, c).
  - apply IH; [done|]. intros p' c' Hin. by eapply Hcl, list_elem_of_further.
Qed.

Lemma tagged_insert F c l : 0 ≤ c < 9 →
  ∃ rest, tagged F ≡ₚ ((λ b, (c, b)) <$> F c) ++ rest ∧ tagged (<[c := l]> F) ≡ₚ ((λ b, (c, b)) <$> l) ++ rest.
Proof.
  intros Hc. destruct (list_elem_of_split _ _ (class_cases c Hc)) as (l1 & l2 & Heq).
  pose proof (NoDup_seqZ 0 9) as Hnd. rewrite Heq in Hnd. apply NoDup_app in Hnd as (_ & Hn1 & [Hn2 _]%NoDup_cons).
  assert (Hsame : ∀ l0, c ∉ l0 → (l0 ≫= λ x, (λ b, (x, b)) <$> <[c := l]> F x) = l0 ≫= λ x, (λ b, (x, b)) <$> F x).
  { intros l0 Hn. induction l0 as [|x l0 IH]; [done|]. apply not_elem_of_cons in Hn as [Hx Hn].
    cbn. rewrite IH by done. by rewrite fn_lookup_insert_ne. }
  exists ((l1 ≫= λ x, (λ b, (x, b)) <$> F x) ++ (l2 ≫= λ x, (λ b, (x, b)) <$> F x)).
  unfold tagged. rewrite Heq, !bind_app. cbn [mbind list_bind]. rewrite (Hsame l1), (Hsame l2), fn_lookup_insert.
  - split; solve_Permutation.
  - done.
  - intros Hin. by apply (Hn1 c Hin), list_elem_of_here.
Qed.

Lemma tagged_swap F c l X Y : 0 ≤ c < 9 →
  ((λ b, (c, b)) <$> l) ++ X ≡ₚ ((λ b, (c, b)) <$> F c) ++ Y → tagged (<[c := l]> F) ++ X ≡ₚ tagged F ++ Y.
Proof.
  intros Hc Hp. destruct (tagged_insert F c l Hc) as (r & H1 & H2).
  etransitivity; [apply Permutation_app_tail, H2|]. etransitivity; [|apply Permutation_app_tail; symmetry; exact H1].
  transitivity (r ++ (((λ b, (c, b)) <$> l) ++ X)); [solve_Permutation|].
  etransitivity; [by apply Permutation_app_head|]. solve_Permutation.
Qed.

(** ** The invariant *)
Record ghost := mkGhost {
  g_free : Z → list Z;          (** free blocks of each class, in list order *)
  g_live : list (Z * Z);        (** class and address of the small blocks handed out *)
  g_carved : list (Z * Z);      (** page and class of the pages cut into blocks *)
  g_big : list (Z * Z);         (** page and order of the large runs handed out *)
}.

Definition big_pages (G : ghost) : list Z := g_big G ≫= λ pk, seqZ pk.1 (2 ^ pk.2).
Definition g_pages (G : ghost) : list Z := (g_carved G).*1 ++ big_pages G.
(** Address and length of everything handed out. *)
Definition extents (G : ghost) : list (Z * Z) :=
  ((λ cb, (cb.2, class_size cb.1)) <$> g_live G) ++ ((λ pk, (page_base pk.1, PAGE_SIZE * 2 ^ pk.2)) <$> g_big G).

Lemma extents_live F F' l l' C C' B : l ≡ₚ l' → extents (mkGhost F l C B) ≡ₚ extents (mkGhost F' l' C' B).
Proof. intros HP. unfold extents. apply Permutation_app_tail, fmap_Permutation, HP. Qed.

Section inv.
Context {S : Type} `{FrameAllocator S, !FrameAllocatorLaws S}.
Implicit Types (s : S) (h : HeapInner) (G : ghost).

Record heap_ok G h s : Prop := {
  hk_inv : fa_inv s;
  hk_len : length (h_free h) = 9%nat;
  hk_chain : ∀ c, 0 ≤ c < 9 → ∃ head, h_free h !! Z.to_nat c = Some head ∧ chain (fa_mem s) head (g_free G c);
  hk_perm : tagged (g_free G) ++ g_live G ≡ₚ all_blocks (g_carved G);
  hk_class : ∀ p c, (p, c) ∈ g_carved G → 0 ≤ c < 9;
  hk_nodup : NoDup (g_pages G);
  hk_used : ∀ q, q ∈ g_pages G → fa_used s q;
  hk_big : ∀ p k, (p, k) ∈ g_big G → 0 ≤ k ≤ 10 ∧ (2 ^ k | p);
  hk_alloc : allocated h = sumZ (extents G).*2;
  hk_res : reserved h = PAGE_SIZE * Z.of_nat (length (g_pages G));
}.

Lemma tagged_elem F c b : 0 ≤ c < 9 → b ∈ F c → (c, b) ∈ tagged F.
Proof.
  intros Hc Hb. unfold tagged. apply list_elem_of_bind. exists c. split; [|by apply class_cases].
  apply list_elem_of_fmap. by exists b.
Qed.

Lemma hk_carved_nodup G h s : heap_ok G h s → NoDup (g_carved G).*1.
Proof. intros Hk. pose proof (hk_nodup _ _ _ Hk) as Hnd. by apply NoDup_app in Hnd as (? & _). Qed.

Lemma hk_block G h s c b : heap_ok G h s → (c, b) ∈ tagged (g_free G) ++ g_live G →
  0 ≤ c < 9 ∧ ∃ p, fa_used s p ∧ (p, c) ∈ g_carved G ∧ b ∈ blocks p c.
Proof.
  intros Hk Hin. rewrite (hk_perm _ _ _ Hk) in Hin. apply elem_of_heap_blocks in Hin as (p & Hp & Hb).
  split; [by eapply hk_class|]. exists p. split_and!; try done. apply (hk_used _ _ _ Hk). unfold g_pages.
  apply elem_of_app. left. apply list_elem_of_fmap. by exists (p, c).
Qed.

(** A block's address is a non-null 64-bit pointer aligned to its size. *)
Lemma hk_block_addr G h s c b : heap_ok G h s → (c, b) ∈ tagged (g_free G) ++ g_live G →
  0 < b < U64 ∧ (class_size c | b).
Proof.
  intros Hk Hin. destruct (hk_block G h s c b Hk Hin) as (Hc & p & Hu & _ & Hb).
  pose proof (fa_used_range s p (hk_inv _ _ _ Hk) Hu) as Hp. destruct (class_size_page c Hc) as [Hsz Hdiv].
  apply elem_of_blocks in Hb as (i & Hi & ->); [|done]. unfold page_base. split.
  - assert (0 ≤ i * class_size c < PAGE_SIZE) by nia. unfold U64, PAGE_SIZE, VIRT_OFFSET in *. lia.
  - exists ((p + 0xffffffc000000) * (PAGE_SIZE `div` class_size c) + i).
    rewrite Z.mul_add_distr_r, <- Z.mul_assoc, Hdiv. unfold VIRT_OFFSET, PAGE_SIZE. lia.
Qed.

(** Two blocks, free or live, that overlap are the same block. *)
Lemma hk_blocks_disjoint G h s c b c' b' x : heap_ok G h s →
  (c, b) ∈ tagged (g_free G) ++ g_live G → (c', b') ∈ tagged (g_free G) ++ g_live G →
  span b (class_size c) x → span b' (class_size c') x → c = c' ∧ b = b'.
Proof.
  intros Hk Hb Hb'. rewrite (hk_perm _ _ _ Hk) in Hb, Hb'.
  apply (blocks_disjoint (g_carved G)); [by eapply hk_carved_nodup|apply (hk_class _ _ _ Hk)|done|done].
Qed.

Lemma hk_tagged_nodup G h s : heap_ok G h s → NoDup (tagged (g_free G) ++ g_live G).
Proof.
  intros Hk. rewrite (hk_perm _ _ _ Hk). apply all_blocks_nodup; [by eapply hk_carved_nodup|apply (hk_class _ _ _ Hk)].
Qed.

(** The invariant looks at memory only in the first word of free blocks. *)
Lemma heap_ok_mem G h s s' : heap_ok G h s → fa_inv s' → (∀ q, q ∈ g_pages G → fa_used s' q) →
  (∀ c b, 0 ≤ c < 9 → b ∈ g_free G c → agree (span b 8) (fa_mem s) (fa_mem s')) → heap_ok G h s'.
Proof.
  intros [? ? Hch ? ? ? ? ? ? ?] Hi Hu Ha. constructor; try done. intros c Hc. destruct (Hch c Hc) as (head & Hl & Hcn).
  exists head. split; [done|]. eapply chain_agree; [|exact Hcn]. intros b Hb. by apply (Ha c).
Qed.

(** ** The counters stay far from overflow *)

Lemma sum_blocks carved : (∀ p c, (p, c) ∈ carved → 0 ≤ c < 9) →
  sumZ ((λ cb, class_size cb.1) <$> all_blocks carved) = PAGE_SIZE * Z.of_nat (length carved).
Proof.
  induction carved as [|[p c] carved IH]; intros Hcl; [done|]. assert (Hc : 0 ≤ c < 9) by (apply (Hcl p), list_elem_of_here).
  unfold all_blocks in *. cbn [mbind list_bind fst snd]. rewrite fmap_app, sumZ_app, IH by (intros p' c' ?; eapply Hcl; by apply list_elem_of_further).
  rewrite <- list_fmap_compose. replace (((λ cb : Z * Z, class_size cb.1) ∘ (λ b : Z, (c, b))) <$> blocks p c)
    with ((λ _, class_size c) <$> blocks p c) by done.
  rewrite sumZ_const. unfold blocks. rewrite length_fmap, length_seqZ. destruct (class_size_page c Hc) as [Hsz Hdiv].
  rewrite Z2Nat.id by (apply Z.div_pos; unfold PAGE_SIZE; lia). cbn [length]. lia.
Qed.

Lemma big_pages_sum (big : list (Z * Z)) : (∀ p k, (p, k) ∈ big → 0 ≤ k) →
  sumZ ((λ pk, PAGE_SIZE * 2 ^ pk.2) <$> big) = PAGE_SIZE * Z.of_nat (length (big ≫= λ pk, seqZ pk.1 (2 ^ pk.2))).
Proof.
  induction big as [|[p k] big IH]; intros Hk; [done|]. cbn [mbind list_bind fmap list_fmap fst snd].
  change (sumZ (?x :: ?l)) with (x + sumZ l). rewrite IH by (intros p' k' ?; eapply Hk; by apply list_elem_of_further).
  assert (0 ≤ k) by (eapply Hk, list_elem_of_here).
  rewrite length_app, length_seqZ, Nat2Z.inj_add, Z2Nat.id by (apply Z.pow_nonneg; lia). lia.
Qed.

Lemma extents_sum G h s : heap_ok G h s →
  sumZ (extents G).*2 = sumZ ((λ cb, class_size cb.1) <$> g_live G) + PAGE_SIZE * Z.of_nat (length (big_pages G)).
Proof.
  intros Hk. unfold extents. rewrite fmap_app, sumZ_app, <- !list_fmap_compose.
  unfold big_pages. rewrite <- big_pages_sum; [done|]. intros p k Hin. apply (hk_big _ _ _ Hk) in Hin as [? _]. lia.
Qed.

Lemma heap_bounds G h s : heap_ok G h s → 0 ≤ allocated h ≤ reserved h ∧ reserved h ≤ 2 ^ 38.
Proof.
  intros Hk. rewrite (hk_alloc _ _ _ Hk), (extents_sum G h s Hk), (hk_res _ _ _ Hk).
  pose proof (sum_blocks (g_carved G) (hk_class _ _ _ Hk)) as Hs. rewrite <- (hk_perm _ _ _ Hk), fmap_app, sumZ_app in Hs.
  assert (Hpos : ∀ l : list (Z * Z), 0 ≤ sumZ ((λ cb, class_size cb.1) <$> l)).
  { intros l. apply sumZ_nonneg, Forall_fmap, Forall_true. intros [c b]. unfold class_size. simpl.
    pose proof (Z.pow_nonneg 2 c). lia. }
  pose proof (Hpos (tagged (g_free G))). pose proof (Hpos (g_live G)).
  pose proof (nodup_bound (g_pages G) (2 ^ 26) (hk_nodup _ _ _ Hk)
    ltac:(intros q Hq; by apply (fa_used_range s q (hk_inv _ _ _ Hk)), (hk_used _ _ _ Hk))) as Hb.
  unfold g_pages in *. rewrite length_app, length_fmap in *. unfold PAGE_SIZE in *. lia.
Qed.
End inv.
