(* ===== verification/HeapOps.v ===== *)
(** * The heap's operations preserve its invariant *)
From stdpp Require Import base numbers functions sets list.
From Stdlib Require Import Lia.
From S2P Require Frame.
From S2P Require Import Prelude Memory Config Addr FrameIface Heap HeapInv.

(** ** What is handed out is disjoint *)

Lemma nodup_bind_index {A B} (f : A → list B) l : NoDup (l ≫= f) →
  ∀ i j a b x, l !! i = Some a → l !! j = Some b → x ∈ f a → x ∈ f b → i = j.
Proof.
  induction l as [|y l IH]; intros Hnd i j a b x Hi Hj Ha Hb; [done|].
  cbn in Hnd. apply NoDup_app in Hnd as (_ & Hdis & Hnd).
  assert (Hin : ∀ k c, l !! k = Some c → x ∈ f c → x ∈ l ≫= f).
  { intros k c Hk Hx. apply list_elem_of_bind. exists c. split; [done|]. by eapply list_elem_of_lookup_2. }
  destruct i as [|i], j as [|j]; simpl in *; simplify_eq; [done| | |].
  - exfalso. by apply (Hdis x Ha), (Hin j b).
  - exfalso. by apply (Hdis x Hb), (Hin i a).
  - f_equal. by eapply IH.
Qed.

Section ops.
Context {S : Type} `{FrameAllocator S, !FrameAllocatorLaws S}.
Implicit Types (s : S) (h : HeapInner) (G : ghost).

Lemma big_page G p k x : span (page_base p) (PAGE_SIZE * 2 ^ k) x → 0 ≤ k → ∃ q, q ∈ seqZ p (2 ^ k) ∧ page q x.
Proof.
  intros Hs Hk. unfold span, page_base, PAGE_SIZE in *. exists (p + (x - (p * 4096 + VIRT_OFFSET)) `div` 4096).
  rewrite elem_of_seqZ. unfold page, span, page_base, PAGE_SIZE. pose proof (Z.pow_pos_nonneg 2 k).
  Z.div_mod_to_equations. nia.
Qed.

(** The pages under what is handed out. *)
Lemma extents_pages G h s a n x : heap_ok G h s → (a, n) ∈ extents G → span a n x → ∃ q, q ∈ g_pages G ∧ page q x.
Proof.
  intros Hk [Hin|Hin]%elem_of_app Hx; apply list_elem_of_fmap in Hin as ([u v] & [= -> ->] & Hin).
  - destruct (hk_block G h s u v Hk) as (Hc & p & _ & Hp & Hb); [apply elem_of_app; by right|].
    exists p. split; [|by eapply block_page]. unfold g_pages. apply elem_of_app. left. apply list_elem_of_fmap. by exists (p, u).
  - destruct (hk_big _ _ _ Hk u v Hin) as [Hv _]. destruct (big_page G u v x Hx ltac:(lia)) as (q & Hq & Hp).
    exists q. split; [|done]. unfold g_pages, big_pages. apply elem_of_app. right. apply list_elem_of_bind. by exists (u, v).
Qed.

Lemma extents_disjoint G h s i j a n a' n' x : heap_ok G h s →
  extents G !! i = Some (a, n) → extents G !! j = Some (a', n') → span a n x → span a' n' x → i = j.
Proof.
  intros Hk Hi Hj Hx Hx'. pose proof (hk_nodup _ _ _ Hk) as Hnd. unfold g_pages in Hnd.
  apply NoDup_app in Hnd as (_ & Hdis & Hbig). unfold extents in *.
  assert (Hmix : ∀ c b p k, (c, b) ∈ g_live G → (p, k) ∈ g_big G → span b (class_size c) x →
    span (page_base p) (PAGE_SIZE * 2 ^ k) x → False).
  { intros c b p k Hl Hb Hs Hs'. destruct (hk_block G h s c b Hk) as (Hc & q & _ & Hq & Hqb); [apply elem_of_app; by right|].
    destruct (hk_big _ _ _ Hk p k Hb) as [Hk0 _]. destruct (big_page G p k x Hs' ltac:(lia)) as (q' & Hq' & Hp').
    rewrite (page_disjoint q' q x Hp' (block_page b q c x Hc Hqb Hs)) in Hq'.
    apply (Hdis q); [apply list_elem_of_fmap; by exists (q, c)|]. apply list_elem_of_bind. by exists (p, k). }
  apply lookup_app_Some in Hi as [Hi|[Hmi Hi]], Hj as [Hj|[Hmj Hj]];
    rewrite list_lookup_fmap in Hi, Hj;
    apply fmap_Some in Hi as ([u v] & Hi & [= -> ->]); apply fmap_Some in Hj as ([u' v'] & Hj & [= -> ->]).
  - pose proof (list_elem_of_lookup_2 _ _ _ Hi) as Ei. pose proof (list_elem_of_lookup_2 _ _ _ Hj) as Ej.
    destruct (hk_blocks_disjoint G h s u v u' v' x Hk) as [<- <-]; [apply elem_of_app; by right..|done|done|].
    pose proof (hk_tagged_nodup G h s Hk) as Hn. apply NoDup_app in Hn as (_ & _ & Hn). by eapply NoDup_lookup.
  - exfalso. eapply Hmix; [by eapply list_elem_of_lookup_2|by eapply list_elem_of_lookup_2|done|done].
  - exfalso. eapply Hmix; [by eapply list_elem_of_lookup_2|by eapply list_elem_of_lookup_2|done|done].
  - pose proof (hk_big _ _ _ Hk u v (list_elem_of_lookup_2 _ _ _ Hi)) as [Hv _].
    pose proof (hk_big _ _ _ Hk u' v' (list_elem_of_lookup_2 _ _ _ Hj)) as [Hv' _].
    destruct (big_page G u v x Hx ltac:(lia)) as (q & Hq & Hp). destruct (big_page G u' v' x Hx' ltac:(lia)) as (q' & Hq' & Hp').
    rewrite (page_disjoint q' q x Hp' Hp) in Hq'.
    pose proof (nodup_bind_index _ _ Hbig _ _ _ _ q Hi Hj Hq Hq'). lia.
Qed.

(** ** Steps of the invariant *)

Lemma free_insert h c x c' y : length (h_free h) = 9%nat → 0 ≤ c < 9 → 0 ≤ c' < 9 →
  <[Z.to_nat c := x]> (h_free h) !! Z.to_nat c' = Some y ↔
  if decide (c' = c) then y = x else h_free h !! Z.to_nat c' = Some y.
Proof.
  intros Hlen Hc Hc'. case_decide as Hd.
  - subst c'. rewrite list_lookup_insert_eq by lia. naive_solver.
  - rewrite list_lookup_insert_ne by lia. done.
Qed.

Lemma heap_pop G h s c b rest : heap_ok G h s → 0 ≤ c < 9 → g_free G c = b :: rest →
  heap_ok (mkGhost (<[c := rest]> (g_free G)) ((c, b) :: g_live G) (g_carved G) (g_big G))
    (mkHeap (<[Z.to_nat c := load64 (fa_mem s) b]> (h_free h)) (allocated h + class_size c) (reserved h)) s.
Proof.
  intros Hk Hc Hf. destruct Hk as [Hi Hlen Hch Hperm Hcl Hnd Hu Hb Ha Hr]. constructor; cbn [g_free g_live g_carved g_big h_free allocated reserved]; try done.
  - by rewrite length_insert.
  - intros c' Hc'. destruct (decide (c' = c)) as [->|Hne].
    + exists (load64 (fa_mem s) b). rewrite list_lookup_insert_eq, fn_lookup_insert by lia. split; [done|].
      destruct (Hch c Hc) as (head & _ & Hcn). rewrite Hf in Hcn. apply Hcn.
    + rewrite list_lookup_insert_ne, fn_lookup_insert_ne by (done || lia). by apply Hch.
  - rewrite <- Hperm. apply tagged_swap; [done|]. rewrite Hf. cbn [fmap list_fmap]. solve_Permutation.
  - rewrite Ha. unfold extents. cbn [g_live g_big fmap list_fmap app fst snd]. change (sumZ (?x :: ?l)) with (x + sumZ l). lia.
Qed.

Lemma heap_push G h s s' c b live head : heap_ok G h s → 0 ≤ c < 9 → g_live G ≡ₚ (c, b) :: live →
  h_free h !! Z.to_nat c = Some head → fa_inv s' → (∀ q, fa_used s' q ↔ fa_used s q) →
  fa_mem s' = store64 (fa_mem s) b head →
  heap_ok (mkGhost (<[c := b :: g_free G c]> (g_free G)) live (g_carved G) (g_big G))
    (mkHeap (<[Z.to_nat c := b]> (h_free h)) (allocated h - class_size c) (reserved h)) s'.
Proof.
  intros Hk Hc Hl Hhead Hi' Hu' Hmem.
  assert (Hin : (c, b) ∈ tagged (g_free G) ++ g_live G) by (apply elem_of_app; right; rewrite Hl; apply list_elem_of_here).
  destruct (hk_block_addr G h s c b Hk Hin) as [Hb0 _]. pose proof (class_size_page c Hc) as [Hsz _].
  assert (Hagree : ∀ c' b', 0 ≤ c' < 9 → b' ∈ g_free G c' → agree (span b' 8) (fa_mem s) (fa_mem s')).
  { intros c' b' Hc' Hb' x Hx. rewrite Hmem. apply store64_out. intros Hs. pose proof (class_size_page c' Hc') as [Hsz' _].
    pose proof (tagged_elem _ _ _ Hc' Hb') as Ht.
    destruct (hk_blocks_disjoint G h s c b c' b' x Hk Hin) as [<- <-];
      [apply elem_of_app; by left|unfold span in *; lia|unfold span in *; lia|].
    pose proof (hk_tagged_nodup G h s Hk) as Hn. apply NoDup_app in Hn as (_ & Hn & _). apply (Hn _ Ht).
    rewrite Hl. apply list_elem_of_here. }
  assert (Hh0 : 0 ≤ head < U64).
  { destruct (hk_chain _ _ _ Hk c Hc) as (head' & Hh' & Hcn). rewrite Hhead in Hh'. injection Hh' as <-.
    destruct (g_free G c) as [|b' l] eqn:Hf; [by rewrite Hcn|]. destruct Hcn as (-> & _ & _).
    destruct (hk_block_addr G h s c b' Hk); [|lia]. apply elem_of_app. left. apply tagged_elem; [done|]. rewrite Hf. apply list_elem_of_here. }
  destruct Hk as [Hi Hlen Hch Hperm Hcl Hnd Hu Hb Ha Hr].
  constructor; cbn [g_free g_live g_carved g_big h_free allocated reserved]; try done.
  - by rewrite length_insert.
  - intros c' Hc'. destruct (Hch c' Hc') as (head' & Hh' & Hcn).
    assert (Hcn' : chain (fa_mem s') head' (g_free G c')) by (eapply chain_agree; [|exact Hcn]; intros; by apply (Hagree c')).
    destruct (decide (c' = c)) as [->|Hne].
    + exists b. rewrite list_lookup_insert_eq, fn_lookup_insert by lia. split; [done|]. split_and!; [done|lia|].
      rewrite Hmem, load_store64, <- Hmem by done. rewrite Hhead in Hh'. by injection Hh' as <-.
    + exists head'. by rewrite list_lookup_insert_ne, fn_lookup_insert_ne by (done || lia).
  - rewrite <- Hperm. apply tagged_swap; [done|]. etransitivity; [|apply Permutation_app_head; symmetry; exact Hl].
    cbn [fmap list_fmap]. solve_Permutation.
  - intros q Hq. by apply Hu', Hu.
  - rewrite Ha. destruct G as [F l C B]. cbn [g_live g_big g_free g_carved] in *.
    rewrite (sumZ_perm _ _ (fmap_Permutation snd _ _ (extents_live F (<[c := b :: F c]> F) l _ C C B Hl))).
    unfold extents. cbn [g_live g_big fmap list_fmap app fst snd]. change (sumZ (?x :: ?l)) with (x + sumZ l). lia.
Qed.

(** A page was carved for class [c]. *)
Lemma heap_carve G h s s' p c head : heap_ok G h s → 0 ≤ c < 9 → ¬ fa_used s p →
  fa_inv s' → (∀ q, fa_used s' q ↔ fa_used s q ∨ q = p) →
  (∀ q, fa_used s q → agree (page q) (fa_mem s) (fa_mem s')) →
  chain (fa_mem s') head (blocks p c ++ g_free G c) →
  heap_ok (mkGhost (<[c := blocks p c ++ g_free G c]> (g_free G)) (g_live G) ((p, c) :: g_carved G) (g_big G))
    (mkHeap (<[Z.to_nat c := head]> (h_free h)) (allocated h) (reserved h + PAGE_SIZE)) s'.
Proof.
  intros Hk Hc Hp Hi' Hu' Hag Hcn0.
  assert (Hagree : ∀ c' b', 0 ≤ c' < 9 → b' ∈ g_free G c' → agree (span b' 8) (fa_mem s) (fa_mem s')).
  { intros c' b' Hc' Hb' x Hx. destruct (hk_block G h s c' b' Hk) as (_ & q & Hq & _ & Hqb);
      [apply elem_of_app; left; by apply tagged_elem|].
    apply (Hag q Hq). eapply block_page; [done|done|]. pose proof (class_size_page c' Hc') as [Hsz' _]. unfold span in *. lia. }
  destruct Hk as [Hi Hlen Hch Hperm Hcl Hnd Hu Hb Ha Hr].
  constructor; cbn [g_free g_live g_carved g_big h_free allocated reserved]; try done.
  - by rewrite length_insert.
  - intros c' Hc'. destruct (decide (c' = c)) as [->|Hne].
    + exists head. rewrite list_lookup_insert_eq, fn_lookup_insert by lia. done.
    + destruct (Hch c' Hc') as (head' & Hh' & Hcn). exists head'.
      rewrite list_lookup_insert_ne, fn_lookup_insert_ne by (done || lia). split; [done|].
      eapply chain_agree; [|exact Hcn]. intros; by apply (Hagree c').
  - transitivity (((λ b, (c, b)) <$> blocks p c) ++ (tagged (g_free G) ++ g_live G)).
    2: { unfold all_blocks. cbn [mbind list_bind fst snd]. by apply Permutation_app_head. }
    transitivity (tagged (g_free G) ++ (((λ b, (c, b)) <$> blocks p c) ++ g_live G)); [|solve_Permutation].
    apply tagged_swap; [done|]. rewrite fmap_app. solve_Permutation.
  - intros p' c' [[= -> ->]|Hin]%elem_of_cons; [done|by eapply Hcl].
  - unfold g_pages, big_pages in *. cbn [g_carved g_big fmap list_fmap app fst]. apply NoDup_cons. split; [|done].
    intros Hin. by apply Hp, Hu.
  - intros q. unfold g_pages, big_pages in *. cbn [g_carved g_big fmap list_fmap app fst].
    intros [->|Hq]%elem_of_cons; apply Hu'; [by right|left; by apply Hu].
  - rewrite Hr. unfold g_pages, big_pages. cbn [g_carved g_big fmap list_fmap app length]. lia.
Qed.

(** ** Large runs *)

Lemma shl_page k : 0 ≤ k ≤ 10 → PAGE_SIZE <<! k = Ret (PAGE_SIZE * 2 ^ k).
Proof.
  intros Hk. unfold u64_shl. rewrite (proj2 (Z.ltb_lt _ _)) by lia. f_equal. rewrite Z.shiftl_mul_pow2 by lia.
  apply Z.mod_small. pose proof (Z.pow_le_mono_r 2 k 10 ltac:(lia) ltac:(lia)). pose proof (Z.pow_pos_nonneg 2 k).
  unfold PAGE_SIZE, U64. lia.
Qed.

(** [pages] of the large runs move by the run [(p, k)]; the rest is as it was. *)
Lemma heap_big G h s s' p k : heap_ok G h s → 0 ≤ k ≤ 10 → (2 ^ k | p) →
  (∀ q, p ≤ q < p + 2 ^ k → ¬ fa_used s q) →
  fa_inv s' → (∀ q, fa_used s' q ↔ fa_used s q ∨ p ≤ q < p + 2 ^ k) →
  (∀ q, fa_used s q → agree (page q) (fa_mem s) (fa_mem s')) →
  heap_ok (mkGhost (g_free G) (g_live G) (g_carved G) ((p, k) :: g_big G))
    (mkHeap (h_free h) (allocated h + PAGE_SIZE * 2 ^ k) (reserved h + PAGE_SIZE * 2 ^ k)) s'.
Proof.
  intros Hk Hk0 Hdiv Hnew Hi' Hu' Hag. pose proof (Z.pow_pos_nonneg 2 k ltac:(lia) ltac:(lia)) as Hpow.
  assert (Hagree : ∀ c b, 0 ≤ c < 9 → b ∈ g_free G c → agree (span b 8) (fa_mem s) (fa_mem s')).
  { intros c b Hc Hb x Hx. destruct (hk_block G h s c b Hk) as (_ & q & Hq & _ & Hqb);
      [apply elem_of_app; left; by apply tagged_elem|].
    apply (Hag q Hq). eapply block_page; [done|done|]. pose proof (class_size_page c Hc) as [Hsz _]. unfold span in *. lia. }
  destruct (heap_ok_mem G h s s' Hk Hi') as [_ Hlen Hch Hperm Hcl Hnd Hu Hb Ha Hr];
    [intros q Hq; apply Hu'; left; by apply (hk_used _ _ _ Hk)|done|].
  constructor; cbn [g_free g_live g_carved g_big h_free allocated reserved]; try done.
  - unfold g_pages, big_pages in *. cbn [g_carved g_big mbind list_bind fst snd].
    change (list_bind _ _ _ (g_big G)) with (g_big G ≫= λ pk, seqZ pk.1 (2 ^ pk.2)).
    rewrite (app_assoc _ (seqZ _ _)), (Permutation_app_comm _ (seqZ _ _)), <- app_assoc. apply NoDup_app. split_and!; [apply NoDup_seqZ| |done].
    intros q Hq%elem_of_seqZ Hin. apply (Hnew q); [lia|]. by apply (hk_used _ _ _ Hk).
  - intros q. unfold g_pages, big_pages in *. cbn [g_carved g_big mbind list_bind fst snd].
    change (list_bind _ _ _ (g_big G)) with (g_big G ≫= λ pk, seqZ pk.1 (2 ^ pk.2)).
    rewrite !elem_of_app, elem_of_seqZ. intros Hq. apply Hu'.
    destruct Hq as [Hq|[Hq|Hq]]; [left|right; lia|left]; apply (hk_used _ _ _ Hk), elem_of_app; [by left|by right].
  - intros p' k' [[= -> ->]|Hin]%elem_of_cons; [done|by apply Hb].
  - rewrite Ha. unfold extents. cbn [g_live g_big]. rewrite !fmap_app, !sumZ_app. cbn [fmap list_fmap fst snd].
    change (sumZ (?x :: ?l)) with (x + sumZ l). lia.
  - rewrite Hr. unfold g_pages, big_pages. cbn [g_carved g_big mbind list_bind fst snd].
    rewrite !length_app, length_seqZ. rewrite !Nat2Z.inj_add, Z2Nat.id by lia.
    change (list_bind _ _ _ (g_big G)) with (g_big G ≫= λ pk, seqZ pk.1 (2 ^ pk.2)). lia.
Qed.

(** The run [(p, k)] was given back. *)
Lemma heap_unbig G h s s' p k big : heap_ok G h s → g_big G ≡ₚ (p, k) :: big →
  fa_inv s' → (∀ q, fa_used s' q ↔ fa_used s q ∧ ¬ p ≤ q < p + 2 ^ k) →
  (∀ q, fa_used s' q → agree (page q) (fa_mem s) (fa_mem s')) →
  heap_ok (mkGhost (g_free G) (g_live G) (g_carved G) big)
    (mkHeap (h_free h) (allocated h - PAGE_SIZE * 2 ^ k) (reserved h - PAGE_SIZE * 2 ^ k)) s'.
Proof.
  intros Hk Hbig Hi' Hu' Hag.
  assert (Hin : (p, k) ∈ g_big G) by (rewrite Hbig; apply list_elem_of_here).
  destruct (hk_big _ _ _ Hk p k Hin) as [Hk0 Hdiv]. pose proof (Z.pow_pos_nonneg 2 k ltac:(lia) ltac:(lia)) as Hpow.
  assert (Hpages : g_pages G ≡ₚ seqZ p (2 ^ k) ++ g_pages (mkGhost (g_free G) (g_live G) (g_carved G) big)).
  { unfold g_pages, big_pages. cbn [g_carved g_big]. rewrite Hbig. cbn [mbind list_bind fst snd].
    rewrite (app_assoc _ (seqZ _ _)), (Permutation_app_comm _ (seqZ _ _)), <- app_assoc. done. }
  pose proof (hk_nodup _ _ _ Hk) as Hnd. rewrite Hpages in Hnd. apply NoDup_app in Hnd as (_ & Hdis & Hnd).
  assert (Hleft : ∀ q, q ∈ g_pages (mkGhost (g_free G) (g_live G) (g_carved G) big) → fa_used s' q).
  { intros q Hq. apply Hu'. split; [apply (hk_used _ _ _ Hk); rewrite Hpages; apply elem_of_app; by right|].
    intros Hr. apply (Hdis q); [apply elem_of_seqZ; lia|done]. }
  assert (Hagree : ∀ c b, 0 ≤ c < 9 → b ∈ g_free G c → agree (span b 8) (fa_mem s) (fa_mem s')).
  { intros c b Hc Hb x Hx. destruct (hk_block G h s c b Hk) as (_ & q & _ & Hq & Hqb);
      [apply elem_of_app; left; by apply tagged_elem|].
    apply (Hag q); [apply Hleft; unfold g_pages; apply elem_of_app; left; apply list_elem_of_fmap; by exists (q, c)|].
    eapply block_page; [done|done|]. pose proof (class_size_page c Hc) as [Hsz _]. unfold span in *. lia. }
  destruct Hk as [_ Hlen Hch Hperm Hcl _ Hu Hb Ha Hr].
  constructor; cbn [g_free g_live g_carved g_big h_free allocated reserved]; try done.
  - intros c Hc. destruct (Hch c Hc) as (head & Hh & Hcn). exists head. split; [done|].
    eapply chain_agree; [|exact Hcn]. intros; by apply (Hagree c).
  - intros p' k' Hin'. apply Hb. rewrite Hbig. by apply list_elem_of_further.
  - rewrite Ha. unfold extents. cbn [g_live g_big]. rewrite Hbig. rewrite !fmap_app, !sumZ_app. cbn [fmap list_fmap fst snd].
    change (sumZ (?x :: ?l)) with (x + sumZ l). lia.
  - rewrite Hr, Hpages, length_app, length_seqZ. rewrite Nat2Z.inj_add, Z2Nat.id by lia. lia.
Qed.

(** ** Carving a page *)

Lemma refill_loop_spec n : ∀ p base size head l s,
  fa_inv s → fa_used s p → 8 ≤ size → (∀ x, span base (Z.of_nat n * size) x → page p x) → 0 < base →
  0 ≤ head < U64 → base + Z.of_nat n * size ≤ U64 → chain (fa_mem s) head l →
  (∀ b x, b ∈ l → span b 8 x → ¬ span base (Z.of_nat n * size) x) →
  wp (refill_loop n base size head) (λ head' s',
    chain (fa_mem s') head' (((λ i, base + i * size) <$> seqZ 0 (Z.of_nat n)) ++ l) ∧ fa_inv s' ∧
    (∀ q, fa_used s' q ↔ fa_used s q) ∧ agree (λ x, ¬ page p x) (fa_mem s) (fa_mem s')) s.
Proof.
  induction n as [|n IH]; intros p base size head l s Hi Hp Hsz Hpg Hb0 Hh Hlim Hcn Hdis; cbn [refill_loop].
  { apply wp_ret. by split_and!. }
  set (block := base + Z.of_nat n * size). wp_step. apply wp_update_mem. cbv beta.
  assert (Hin : ∀ x, span block 8 x → span base (Z.of_nat (Datatypes.S n) * size) x) by (unfold span, block; nia).
  destruct (fa_write_ok s (store64 (fa_mem s) block head) Hi) as [Hi1 Hu1].
  { intros x Hx. exists p. split; [done|]. destruct (decide (span block 8 x)) as [Hs|Hs]; [by apply Hpg, Hin|].
    by rewrite store64_out in Hx. }
  set (s1 := fa_set_mem _ s) in *. assert (Hm1 : fa_mem s1 = store64 (fa_mem s) block head) by apply fa_mem_set.
  eapply wp_mono; [|apply (IH p base size block (block :: l) s1 Hi1); [by apply Hu1|done| |done|unfold block; nia|nia| |]].
  - cbv beta. intros head' s2 (Hc2 & Hi2 & Hu2 & Ha2). split_and!; [|done| |].
    + replace (Z.of_nat (Datatypes.S n)) with (Z.of_nat n + 1) by lia. rewrite seqZ_app, fmap_app, <- app_assoc by lia.
      replace (seqZ (0 + Z.of_nat n) 1) with [Z.of_nat n] by (cbn; f_equal; lia). exact Hc2.
    + intros q. by rewrite Hu2, Hu1.
    + etransitivity; [|exact Ha2]. intros x Hx. rewrite Hm1. apply store64_out. intros Hs. by apply Hx, Hpg, Hin.
  - intros x Hx. apply Hpg. unfold span in *. nia.
  - split_and!; [done|unfold block; nia|]. rewrite Hm1, load_store64 by done.
    eapply chain_agree; [|exact Hcn]. intros b Hb x Hx. apply store64_out. intros Hs. by apply (Hdis b x Hb Hx), Hin.
  - intros b x [->|Hb]%elem_of_cons Hx Hs; [unfold span, block in *; nia|]. apply (Hdis b x Hb Hx). unfold span in *. nia.
Qed.
End ops.
