(* ===== verification/HeapProps.v ===== *)
(** * Theorems about the kernel heap

    The [GlobalAlloc] contract: blocks handed out are aligned, large enough,
    pairwise disjoint, and keep their contents until they are released. *)
From stdpp Require Import base numbers functions relations sets list.
From Stdlib Require Import Lia.
From S2P Require Frame.
From S2P Require Import Prelude Memory Config Addr FrameIface FrameProps Heap HeapInv HeapOps.

(** What a layout takes from the heap. *)
Definition block_size (size align : Z) : Z :=
  match class_for size align with
  | Some c => class_size c
  | None => PAGE_SIZE * 2 ^ Frame.order_for (div_ceil size PAGE_SIZE)
  end.

Lemma order_for_bound count : 0 ≤ Frame.order_for count ∧ count ≤ 2 ^ Frame.order_for count.
Proof.
  unfold Frame.order_for, Frame.bit_length. destruct (Z.leb_spec count 1); [simpl; lia|].
  destruct (Z.eqb_spec (count - 1) 0); [lia|]. pose proof (Z.log2_nonneg (count - 1)).
  destruct (Z.log2_spec (count - 1) ltac:(lia)) as [_ Hl]. replace (Z.succ (Z.log2 (count - 1))) with (Z.log2 (count - 1) + 1) in Hl by lia. lia.
Qed.

Lemma block_size_ge size align : 0 < size → size ≤ block_size size align.
Proof.
  intros Hs. unfold block_size. destruct (class_for size align) as [c|] eqn:Hc; [apply class_for_Some in Hc; lia|].
  destruct (order_for_bound (div_ceil size PAGE_SIZE)) as [_ Hb].
  pose proof (div_ceil_spec size PAGE_SIZE ltac:(done)). unfold PAGE_SIZE in *. nia.
Qed.

Lemma pow2_le_divide j k : 0 ≤ j → 0 ≤ k → 2 ^ j ≤ 2 ^ k → (2 ^ j | 2 ^ k).
Proof.
  intros Hj Hk Hle. apply Z.pow_le_mono_r_iff in Hle; [|lia..]. exists (2 ^ (k - j)).
  rewrite <- Z.pow_add_r by lia. f_equal. lia.
Qed.

(** Two extents share no byte. *)
Definition disjoint_extents (e e' : Z * Z) : Prop := ∀ x, span e.1 e.2 x → span e'.1 e'.2 x → False.
Fixpoint apart (l : list (Z * Z)) : Prop :=
  match l with
  | [] => True
  | e :: l => Forall (disjoint_extents e) l ∧ apart l
  end.

#[export] Instance apart_perm : Proper ((≡ₚ) ==> iff) apart.
Proof.
  assert (Hs : ∀ e e', disjoint_extents e e' → disjoint_extents e' e) by (intros e e' Hd x ? ?; by apply (Hd x)).
  intros l l' HP. induction HP as [|e l l' HP IH|e e' l|l1 l2 l3 _ IH1 _ IH2]; simpl; [done| | |by rewrite IH1].
  - by rewrite IH, HP.
  - rewrite !Forall_cons. naive_solver.
Qed.

Lemma apart_index l :
  (∀ i j a n a' n' x, l !! i = Some (a, n) → l !! j = Some (a', n') → span a n x → span a' n' x → i = j) → apart l.
Proof.
  induction l as [|[a n] l IH]; intros Hix; simpl; [done|]. split.
  - apply Forall_lookup. intros j [a' n'] Hj x Hx Hx'. pose proof (Hix 0%nat (Datatypes.S j) a n a' n' x eq_refl Hj Hx Hx'). lia.
  - apply IH. intros i j a1 n1 a2 n2 x Hi Hj H1 H2.
    pose proof (Hix (Datatypes.S i) (Datatypes.S j) a1 n1 a2 n2 x Hi Hj H1 H2). lia.
Qed.

Section props.
Context {S : Type} `{FrameAllocator S, !FrameAllocatorLaws S}.
Implicit Types (s : S) (h : HeapInner) (G : ghost).

Lemma wp_frames {A} (m : ST S A) (Q : A → HS → Prop) h s : wp m (λ a s', Q a (h, s')) s → wp (frames m) Q (h, s).
Proof. unfold wp, frames. by destruct (m s) as [[a s']|]. Qed.
Lemma wp_heap (Q : HeapInner → HS → Prop) h s : Q h (h, s) → wp heap Q (h, s).
Proof. done. Qed.
Lemma wp_heap_set_free c x (Q : unit → HS → Prop) h s : length (h_free h) = 9%nat → 0 ≤ c < 9 →
  Q tt (mkHeap (<[Z.to_nat c := x]> (h_free h)) (allocated h) (reserved h), s) → wp (set_free c x) Q (h, s).
Proof.
  intros Hl Hc HQ. unfold set_free. wp_step. apply wp_heap. wp_step. eapply wp_lift; [|exact HQ].
  unfold arr_set. rewrite (proj2 (Z.leb_le _ _)), (proj2 (Z.ltb_lt _ _)) by lia. done.
Qed.
Lemma wp_add_allocated n (Q : unit → HS → Prop) h s : allocated h + n < U64 →
  Q tt (mkHeap (h_free h) (allocated h + n) (reserved h), s) → wp (add_allocated n) Q (h, s).
Proof. intros Hl HQ. unfold add_allocated. wp_step. apply wp_heap. wp_step. eapply wp_lift; [by apply u64_add_ok|done]. Qed.
Lemma wp_add_reserved n (Q : unit → HS → Prop) h s : reserved h + n < U64 →
  Q tt (mkHeap (h_free h) (allocated h) (reserved h + n), s) → wp (add_reserved n) Q (h, s).
Proof. intros Hl HQ. unfold add_reserved. wp_step. apply wp_heap. wp_step. eapply wp_lift; [by apply u64_add_ok|done]. Qed.
Lemma wp_sub_allocated n (Q : unit → HS → Prop) h s : n ≤ allocated h →
  Q tt (mkHeap (h_free h) (allocated h - n) (reserved h), s) → wp (sub_allocated n) Q (h, s).
Proof. intros Hl HQ. unfold sub_allocated. wp_step. apply wp_heap. wp_step. eapply wp_lift; [by apply u64_sub_ok|done]. Qed.
Lemma wp_sub_reserved n (Q : unit → HS → Prop) h s : n ≤ reserved h →
  Q tt (mkHeap (h_free h) (allocated h) (reserved h - n), s) → wp (sub_reserved n) Q (h, s).
Proof. intros Hl HQ. unfold sub_reserved. wp_step. apply wp_heap. wp_step. eapply wp_lift; [by apply u64_sub_ok|done]. Qed.

Lemma get_free G h s c : heap_ok G h s → 0 ≤ c < 9 →
  ∃ head, h_free h !! Z.to_nat c = Some head ∧ arr_get (h_free h) c = Ret head ∧ chain (fa_mem s) head (g_free G c).
Proof.
  intros Hk Hc. destruct (hk_chain _ _ _ Hk c Hc) as (head & Hh & Hcn). exists head. split_and!; try done.
  unfold arr_get. rewrite (proj2 (Z.ltb_ge _ _)) by lia. by rewrite Hh.
Qed.

(** No page in use changes. *)
Definition kept s s' : Prop := ∀ q, fa_used s q → fa_used s' q ∧ agree (page q) (fa_mem s) (fa_mem s').

(** The frames in use that are not the heap's stay the same. *)
Definition apart_from G s G' s' : Prop := ∀ q, fa_used s' q ∧ q ∉ g_pages G' ↔ fa_used s q ∧ q ∉ g_pages G.

Lemma refill_spec G h s c : heap_ok G h s → 0 ≤ c < 9 →
  wp (refill c) (λ r '(h', s'),
    if r : bool then kept s s' ∧ ∃ G', heap_ok G' h' s' ∧ extents G' = extents G ∧ g_free G' c ≠ [] ∧ apart_from G s G' s'
    else h' = h ∧ s' = s) (h, s).
Proof.
  intros Hk Hc. destruct (class_size_page c Hc) as [Hsz Hdiv]. unfold refill.
  wp_step. eapply wp_lift; [by apply class_size_get|]. wp_step. apply wp_frames.
  eapply wp_mono; [|apply fa_alloc_ok; [apply Hk|lia]]. cbv beta. intros [p|] s1; [|intros ->; by apply wp_ret].
  change (2 ^ 0) with 1. intros (Hi1 & _ & _ & Hu1 & Hn1 & _ & Ha1).
  destruct (heap_bounds G h s Hk) as [_ Hb]. wp_step. apply wp_add_reserved; [unfold U64, PAGE_SIZE; lia|].
  wp_step. apply wp_heap. destruct (get_free G h s c Hk Hc) as (head & Hhd & Hget & Hcn).
  wp_step. eapply wp_lift; [exact Hget|].
  assert (Hp : fa_used s1 p) by (apply Hu1; lia). pose proof (fa_used_range s1 p Hi1 Hp) as Hpr.
  rewrite as_ptr_eq by lia. change (p * PAGE_SIZE + VIRT_OFFSET) with (page_base p).
  assert (Hfree : ∀ b, b ∈ g_free G c → (0 < b < U64) ∧ ∀ x, span b 8 x → ∃ q, fa_used s q ∧ page q x).
  { intros b Hb'. assert (Hin : (c, b) ∈ tagged (g_free G) ++ g_live G) by (apply elem_of_app; left; by apply tagged_elem).
    split; [by eapply hk_block_addr|]. intros x Hx. destruct (hk_block G h s c b Hk Hin) as (_ & q & Hq & _ & Hqb).
    exists q. split; [done|]. eapply block_page; [done|done|]. unfold span in *. lia. }
  wp_step. apply wp_frames.
  eapply wp_mono; [|apply (refill_loop_spec _ p (page_base p) (class_size c) head (g_free G c) s1 Hi1 Hp)].
  - cbv beta. rewrite Z2Nat.id by (apply Z.div_pos; unfold PAGE_SIZE; lia).
    intros head' s2 (Hc2 & Hi2 & Hu2 & Ha2). change ((λ i, page_base p + i * class_size c) <$> seqZ 0 (PAGE_SIZE `div` class_size c)) with (blocks p c) in Hc2.
    assert (Hused2 : ∀ q, fa_used s2 q ↔ fa_used s q ∨ q = p).
    { intros q. rewrite Hu2, Hu1. assert (p ≤ q < p + 1 ↔ q = p) by lia. tauto. }
    assert (Hkeep : ∀ q, fa_used s q → agree (page q) (fa_mem s) (fa_mem s2)).
    { intros q Hq. etransitivity; [by apply Ha1|]. eapply agree_weaken; [|exact Ha2]. intros x Hx Hpx.
      rewrite (page_disjoint q p x Hx Hpx) in Hq. by apply (Hn1 p); [lia|]. }
    wp_step. apply wp_heap_set_free; [apply Hk|done|]. apply wp_ret. cbn [h_free allocated reserved]. split.
    + intros q Hq. split; [apply Hused2; by left|by apply Hkeep].
    + eexists. split; [by apply (heap_carve G h s s2 p c head' Hk Hc); [apply Hn1; lia|done..]|]. split; [done|]. split.
      2: { intros q. unfold g_pages. cbn [g_carved fmap list_fmap fst app]. rewrite Hused2, not_elem_of_cons.
           assert (¬ fa_used s p) by (apply Hn1; lia). naive_solver. }
      cbn [g_free]. rewrite fn_lookup_insert. unfold blocks. intros [Hnil _]%app_eq_nil. apply fmap_nil_inv in Hnil.
      assert (0 ∈ seqZ 0 (PAGE_SIZE `div` class_size c)) as Hin
        by (apply elem_of_seqZ; split; [lia|]; apply Z.div_str_pos; unfold PAGE_SIZE; lia).
      rewrite Hnil in Hin. by apply elem_of_nil in Hin.
  - lia.
  - rewrite Z2Nat.id, Hdiv by (apply Z.div_pos; unfold PAGE_SIZE; lia). done.
  - unfold page_base, PAGE_SIZE, VIRT_OFFSET. lia.
  - destruct (g_free G c) as [|b l]; [rewrite Hcn; done|]. destruct Hcn as (-> & _). destruct (Hfree b (list_elem_of_here _ _)). lia.
  - rewrite Z2Nat.id, Hdiv by (apply Z.div_pos; unfold PAGE_SIZE; lia). unfold page_base, PAGE_SIZE, VIRT_OFFSET, U64. lia.
  - eapply chain_agree; [|exact Hcn]. intros b Hb' x Hx. destruct (Hfree b Hb') as [_ Hpg].
    destruct (Hpg x Hx) as (q & Hq & Hqx). by apply (Ha1 q).
  - intros b x Hb' Hx. rewrite Z2Nat.id, Hdiv by (apply Z.div_pos; unfold PAGE_SIZE; lia). intros Hpx.
    destruct (Hfree b Hb') as [_ Hpg]. destruct (Hpg x Hx) as (q & Hq & Hqx).
    rewrite (page_disjoint q p x Hqx Hpx) in Hq. by apply (Hn1 p); [lia|].
Qed.

(** The heap after a block was handed out. *)
Definition handed G h' s' s size align p : Prop :=
  kept s s' ∧ (align | p) ∧ p ≠ 0 ∧ ∃ G', heap_ok G' h' s' ∧
    extents G' ≡ₚ (p, block_size size align) :: extents G ∧ apart_from G s G' s'.

Lemma alloc_small G h s size align j c b rest : heap_ok G h s → align = 2 ^ j → 0 ≤ j →
  class_for size align = Some c → g_free G c = b :: rest →
  wp (h ← heap;
      block ← lift (arr_get (h_free h) c);
      next ← frames (read64 block);
      set_free c next;;
      size ← lift (arr_get CLASS_SIZES c);
      add_allocated size;;
      mret block) (λ p '(h', s'), handed G h' s' s size align p) (h, s).
Proof.
  intros Hk Hal Hj Hcf Hf. pose proof (class_for_Some _ _ _ Hcf) as (Hc & _ & Hle).
  destruct (class_size_page c Hc) as [Hsz _]. destruct (heap_bounds G h s Hk) as [Hb1 Hb2].
  destruct (get_free G h s c Hk Hc) as (head & _ & Hget & Hcn). rewrite Hf in Hcn. destruct Hcn as (-> & _ & _).
  wp_step. apply wp_heap. wp_step. eapply wp_lift; [exact Hget|]. wp_step. apply wp_frames, wp_read64.
  wp_step. apply wp_heap_set_free; [apply Hk|done|]. wp_step. eapply wp_lift; [by apply class_size_get|].
  wp_step. apply wp_add_allocated; [cbn [allocated]; unfold U64; lia|]. apply wp_ret. cbn [h_free allocated reserved].
  destruct (hk_block_addr G h s c b Hk) as [Hb0 Hdv].
  { apply elem_of_app. left. apply tagged_elem; [done|]. rewrite Hf. apply list_elem_of_here. }
  split_and!; [by intros q Hq| |lia|].
  - etransitivity; [|exact Hdv]. rewrite Hal in *. unfold class_size in *. change 8 with (2 ^ 3) in *.
    rewrite <- Z.pow_add_r in * by lia. apply pow2_le_divide; lia.
  - eexists. split; [by apply (heap_pop G h s c b rest)|]. unfold block_size. rewrite Hcf. by split.
Qed.

Lemma heap_alloc_spec G h s size align j : heap_ok G h s → 0 < size → align = 2 ^ j → 0 ≤ j →
  wp (alloc size align) (λ p '(h', s'), (p = 0 ∧ h' = h ∧ s' = s) ∨ handed G h' s' s size align p) (h, s).
Proof.
  intros Hk Hs Hal Hj. unfold alloc. destruct (class_for size align) as [c|] eqn:Hcf.
  - pose proof (class_for_Some _ _ _ Hcf) as (Hc & _ & _). destruct (get_free G h s c Hk Hc) as (head & _ & Hget & Hcn).
    wp_step. apply wp_heap. wp_step. eapply wp_lift; [exact Hget|]. wp_step.
    destruct (Z.eqb_spec head 0) as [->|Hne].
    + eapply wp_mono; [|exact (refill_spec G h s c Hk Hc)]. intros [] [h1 s1]; [|intros [-> ->]; apply wp_ret; by left].
      intros (Hkp & G1 & Hk1 & He1 & Hne1 & Hp1). cbn [negb]. destruct (g_free G1 c) as [|b rest] eqn:Hf; [done|].
      eapply wp_mono; [|exact (alloc_small G1 h1 s1 size align j c b rest Hk1 Hal Hj Hcf Hf)].
      intros p [h2 s2] (Hkp2 & Hdv & Hp0 & G2 & Hk2 & He2 & Hp2). right. split_and!; [|done|done|].
      * intros q Hq. destruct (Hkp q Hq) as [Hq1 Ha1]. destruct (Hkp2 q Hq1) as [Hq2 Ha2]. split; [done|by etransitivity].
      * exists G2. split_and!; [done|by rewrite He2, He1|]. intros q. by rewrite (Hp2 q).
    + apply wp_ret. cbn [negb]. destruct (g_free G c) as [|b rest] eqn:Hf; [by rewrite Hcn in Hne|].
      eapply wp_mono; [|exact (alloc_small G h s size align j c b rest Hk Hal Hj Hcf Hf)]. intros p [h2 s2] ?. by right.
  - destruct (Z.ltb_spec PAGE_SIZE align) as [|Hle]; [apply wp_ret; by left|]. set (k := Frame.order_for _).
    destruct (order_for_bound (div_ceil size PAGE_SIZE)) as [Hk0 _]. fold k in Hk0.
    wp_step. apply wp_frames. eapply wp_mono; [|apply (fa_alloc_ok s k); [apply Hk|done]].
    cbv beta. intros [p|] s1; [|intros ->; apply wp_ret; by left]. intros (Hi1 & Hdv & Hk10 & Hu1 & Hn1 & _ & Ha1).
    destruct (heap_bounds G h s Hk) as [Hb1 Hb2]. pose proof (Z.pow_le_mono_r 2 k 10 ltac:(lia) ltac:(lia)) as Hpw.
    pose proof (Z.pow_pos_nonneg 2 k ltac:(lia) ltac:(lia)) as Hpos.
    assert (Hp : fa_used s1 p) by (apply Hu1; lia). pose proof (fa_used_range s1 p Hi1 Hp) as Hpr.
    wp_step. eapply wp_lift; [apply shl_page; lia|]. wp_step. apply wp_add_allocated; [unfold U64, PAGE_SIZE in *; lia|].
    wp_step. apply wp_add_reserved; [cbn [reserved]; unfold U64, PAGE_SIZE in *; lia|]. apply wp_ret.
    cbn [h_free allocated reserved]. rewrite as_ptr_eq by lia. right. split_and!.
    + intros q Hq. split; [apply Hu1; by left|by apply Ha1].
    + transitivity PAGE_SIZE.
      * rewrite Hal in *. change PAGE_SIZE with (2 ^ 12) in *. by apply pow2_le_divide.
      * exists (p + 0xffffffc000000). unfold PAGE_SIZE, VIRT_OFFSET. lia.
    + unfold PAGE_SIZE, VIRT_OFFSET. lia.
    + eexists. split; [apply (heap_big G h s s1 p k); [done|lia|done..]|]. unfold block_size. rewrite Hcf. fold k.
      split; [unfold extents; cbn [g_live g_big fmap list_fmap fst snd]; symmetry; apply Permutation_middle|].
      intros q. unfold g_pages, big_pages. cbn [g_carved g_big mbind list_bind fst snd]. rewrite Hu1, !not_elem_of_app, elem_of_seqZ.
      pose proof (Hn1 q). pose proof (hk_used _ _ _ Hk q) as Hq. unfold g_pages, big_pages in Hq. rewrite elem_of_app in Hq. naive_solver.
Qed.

(** ** Releasing *)

Lemma extents_nonneg G : Forall (λ x, 0 ≤ x) (extents G).*2.
Proof.
  unfold extents. rewrite fmap_app, <- !list_fmap_compose. apply Forall_app. split; apply Forall_fmap, Forall_true; intros [u v]; unfold compose; cbn [fst snd].
  - unfold class_size. pose proof (Z.pow_nonneg 2 u). lia.
  - pose proof (Z.pow_nonneg 2 v). unfold PAGE_SIZE. lia.
Qed.

Lemma allocated_ge G h s e rest : heap_ok G h s → extents G ≡ₚ e :: rest → e.2 ≤ allocated h.
Proof.
  intros Hk He. rewrite (hk_alloc _ _ _ Hk), He. change (e.2 ≤ e.2 + sumZ rest.*2).
  pose proof (extents_nonneg G) as Hn. rewrite He in Hn. apply Forall_cons in Hn as [_ Hn]. apply sumZ_nonneg in Hn.
  change (0 ≤ sumZ rest.*2) in Hn. lia.
Qed.

(** A live block is small or large by its size alone. *)
Lemma live_small G h s c b : heap_ok G h s → 0 ≤ c < 9 → (b, class_size c) ∈ extents G → (c, b) ∈ g_live G.
Proof.
  intros Hk Hc [Hin|Hin]%elem_of_app; apply list_elem_of_fmap in Hin as ([u v] & [= -> He] & Hin).
  - assert (Hu : 0 ≤ u < 9) by (apply (hk_block G h s u v Hk), elem_of_app; by right).
    by rewrite (class_size_inj c u Hc Hu He).
  - exfalso. destruct (hk_big _ _ _ Hk u v Hin) as [Hv _]. destruct (class_size_page c Hc) as [Hsz _].
    pose proof (Z.pow_pos_nonneg 2 v ltac:(lia) ltac:(lia)). unfold PAGE_SIZE in *. lia.
Qed.

Lemma live_big G h s p k : heap_ok G h s → 0 ≤ k → (p, PAGE_SIZE * 2 ^ k) ∈ extents G →
  ∃ q, p = page_base q ∧ (q, k) ∈ g_big G.
Proof.
  intros Hk Hk0 [Hin|Hin]%elem_of_app; apply list_elem_of_fmap in Hin as ([u v] & [= -> He] & Hin).
  - exfalso. assert (Hu : 0 ≤ u < 9) by (apply (hk_block G h s u v Hk), elem_of_app; by right).
    destruct (class_size_page u Hu) as [Hsz _]. pose proof (Z.pow_pos_nonneg 2 k ltac:(lia) ltac:(lia)). unfold PAGE_SIZE in *. lia.
  - exists u. split; [done|]. replace k with v; [done|]. destruct (hk_big _ _ _ Hk u v Hin) as [Hv _].
    apply (Z.pow_inj_r 2); [lia|lia|lia|]. unfold PAGE_SIZE in He. lia.
Qed.

Lemma heap_apart G h s : heap_ok G h s → apart (extents G).
Proof. intros Hk. apply apart_index. intros i j a n a' n' x. by eapply extents_disjoint. Qed.

(** The heap after the block at [p] was released. *)
Definition released G h' s' s size align p : Prop := ∃ G',
  heap_ok G' h' s' ∧ extents G ≡ₚ (p, block_size size align) :: extents G' ∧
  (∀ e, e ∈ extents G' → agree (span e.1 e.2) (fa_mem s) (fa_mem s')) ∧
  (∀ q, fa_used s q → q ∉ g_pages G → fa_used s' q ∧ agree (page q) (fa_mem s) (fa_mem s')) ∧ apart_from G s G' s'.

Lemma dealloc_small G h s size align c b : heap_ok G h s → class_for size align = Some c →
  (b, class_size c) ∈ extents G → wp (dealloc b size align) (λ _ '(h', s'), released G h' s' s size align b) (h, s).
Proof.
  intros Hk Hcf Hin. pose proof (class_for_Some _ _ _ Hcf) as (Hc & _ & _). destruct (class_size_page c Hc) as [Hsz _].
  pose proof (live_small G h s c b Hk Hc Hin) as Hlive. apply elem_of_Permutation in Hlive as [live Hl].
  assert (Hblk : (c, b) ∈ tagged (g_free G) ++ g_live G) by (apply elem_of_app; right; rewrite Hl; apply list_elem_of_here).
  destruct (hk_block G h s c b Hk Hblk) as (_ & p & Hpu & Hpc & Hpb).
  destruct (get_free G h s c Hk Hc) as (head & Hhd & Hget & _). unfold dealloc. rewrite Hcf.
  wp_step. apply wp_heap. wp_step. eapply wp_lift; [exact Hget|]. wp_step. apply wp_frames, wp_update_mem.
  assert (Hspan : ∀ x, span b 8 x → span b (class_size c) x) by (unfold span; lia).
  destruct (fa_write_ok s (store64 (fa_mem s) b head) (hk_inv _ _ _ Hk)) as [Hi1 Hu1].
  { intros x Hx. exists p. split; [done|]. destruct (decide (span b 8 x)) as [Hs|Hs]; [by eapply block_page; [| |apply Hspan]|].
    by rewrite store64_out in Hx. }
  set (s1 := fa_set_mem _ s) in *. assert (Hm1 : fa_mem s1 = store64 (fa_mem s) b head) by apply fa_mem_set.
  wp_step. apply wp_heap_set_free; [apply Hk|done|]. wp_step. eapply wp_lift; [by apply class_size_get|].
  pose proof (heap_push G h s s1 c b live head Hk Hc Hl Hhd Hi1 Hu1 Hm1) as Hk1. set (G1 := mkGhost _ live _ _) in Hk1.
  assert (Hex : extents G ≡ₚ (b, class_size c) :: extents G1).
  { destruct G as [F l C B]. exact (extents_live F F l ((c, b) :: live) C C B Hl). }
  apply wp_sub_allocated; [exact (allocated_ge G h s _ _ Hk Hex)|]. cbn [h_free allocated reserved].
  exists G1. split_and!; [exact Hk1|by unfold block_size; rewrite Hcf| | |by intros q; rewrite Hu1].
  - pose proof (heap_apart G h s Hk) as Hap. rewrite Hex in Hap. destruct Hap as [Hap _].
    intros e He x Hx. rewrite Hm1. apply store64_out. intros Hs. rewrite Forall_forall in Hap. by apply (Hap e He x); [apply Hspan|].
  - intros q Hq Hnp. split; [by apply Hu1|]. intros x Hx. rewrite Hm1. apply store64_out. intros Hs. apply Hnp.
    rewrite (page_disjoint q p x Hx); [|by eapply block_page; [| |apply Hspan]].
    unfold g_pages. apply elem_of_app. left. apply list_elem_of_fmap. by exists (p, c).
Qed.

Lemma dealloc_big G h s size align p : heap_ok G h s → class_for size align = None →
  (p, block_size size align) ∈ extents G → wp (dealloc p size align) (λ _ '(h', s'), released G h' s' s size align p) (h, s).
Proof.
  intros Hk Hcf Hin. unfold dealloc, released, block_size in *. rewrite Hcf in *. set (k := Frame.order_for _) in *.
  destruct (order_for_bound (div_ceil size PAGE_SIZE)) as [Hk0 _]. fold k in Hk0.
  destruct (live_big G h s p k Hk Hk0 Hin) as (q & -> & Hq). destruct (hk_big _ _ _ Hk q k Hq) as [Hk10 Hdv].
  pose proof (Z.pow_pos_nonneg 2 k ltac:(lia) ltac:(lia)) as Hpow.
  apply elem_of_Permutation in Hq as [big Hbig].
  assert (Hrun : ∀ x, q ≤ x < q + 2 ^ k → x ∈ g_pages G).
  { intros x Hx. unfold g_pages, big_pages. apply elem_of_app. right. rewrite Hbig. cbn [mbind list_bind fst snd].
    apply elem_of_app. left. apply elem_of_seqZ. lia. }
  assert (Hqr : 0 ≤ q < 2 ^ 26) by (apply (fa_used_range s q (hk_inv _ _ _ Hk)), (hk_used _ _ _ Hk), Hrun; lia).
  set (G1 := mkGhost (g_free G) (g_live G) (g_carved G) big).
  assert (Hex : extents G ≡ₚ (page_base q, PAGE_SIZE * 2 ^ k) :: extents G1).
  { unfold extents. cbn [g_live g_big G1]. rewrite Hbig. cbn [fmap list_fmap fst snd]. symmetry. apply Permutation_middle. }
  pose proof (allocated_ge G h s _ _ Hk Hex) as Hge. cbn [snd] in Hge. destruct (heap_bounds G h s Hk) as [Hb _].
  wp_step. eapply wp_lift; [apply shl_page; lia|]. wp_step. apply wp_sub_allocated; [done|].
  wp_step. apply wp_sub_reserved; [cbn [reserved]; lia|]. wp_step. cbn [h_free allocated reserved].
  eapply wp_lift; [apply u64_sub_ok; unfold page_base, PAGE_SIZE; lia|].
  replace (ppn (page_base q - VIRT_OFFSET)) with q.
  2: { unfold ppn, page_base, PAGE_SHIFT. rewrite Z.shiftr_div_pow2 by lia. unfold PAGE_SIZE. Z.div_mod_to_equations. lia. }
  apply wp_frames. eapply wp_mono; [|apply (fa_free_ok s q k); [apply Hk|done|done|intros x Hx; by apply (hk_used _ _ _ Hk), Hrun]].
  cbv beta. intros _ s1 (Hi1 & Hu1 & Ha1). exists G1. pose proof (heap_unbig G h s s1 q k big Hk Hbig Hi1 Hu1 Ha1) as Hk1.
  split_and!; [exact Hk1|exact Hex| | |].
  - intros [a n] He x Hx. destruct (extents_pages G1 _ s1 a n x Hk1 He Hx) as (r & Hr & Hrx).
    apply (Ha1 r); [by apply (hk_used _ _ _ Hk1)|done].
  - intros r Hr Hnp. assert (fa_used s1 r) as Hr1 by (apply Hu1; split; [done|]; intros Hx; by apply Hnp, Hrun).
    split; [done|by apply Ha1].
  - intros r. unfold g_pages, big_pages. cbn [g_carved g_big G1]. rewrite Hu1, Hbig. cbn [mbind list_bind fst snd].
    rewrite !not_elem_of_app, elem_of_seqZ. pose proof (hk_nodup _ _ _ Hk) as Hnd. unfold g_pages, big_pages in Hnd.
    rewrite Hbig in Hnd. cbn [mbind list_bind fst snd] in Hnd. tauto.
Qed.

Lemma heap_dealloc_run G h s size align p : heap_ok G h s → (p, block_size size align) ∈ extents G →
  ∃ h' s', dealloc p size align (h, s) = Ret (tt, (h', s')) ∧ released G h' s' s size align p.
Proof.
  intros Hk Hin. assert (Hw : wp (dealloc p size align) (λ _ '(h', s'), released G h' s' s size align p) (h, s)).
  { destruct (class_for size align) as [c|] eqn:Hcf; [|by apply dealloc_big].
    apply (dealloc_small G h s size align c); [done|done|]. unfold block_size in Hin. by rewrite Hcf in Hin. }
  destruct (wp_run _ _ _ Hw) as ([] & [h' s'] & Hr & Hpost). by exists h', s'.
Qed.

(** the heap honours the allocation contract.  [alloc] never panics; a null
    result changes nothing; otherwise the block is aligned as requested, at
    least as large as requested, and shares no byte with any block already
    handed out, and no byte of a page in use has changed. *)
Theorem heap_alloc_correct G h s size align j : heap_ok G h s → 0 < size → align = 2 ^ j → 0 ≤ j →
  ∃ p h' s', alloc size align (h, s) = Ret (p, (h', s')) ∧
    ((p = 0 ∧ h' = h ∧ s' = s) ∨
     (p ≠ 0 ∧ (align | p) ∧ size ≤ block_size size align ∧
      (∀ e, e ∈ extents G → disjoint_extents (p, block_size size align) e) ∧
      (∀ q, fa_used s q → fa_used s' q ∧ agree (page q) (fa_mem s) (fa_mem s')) ∧
      ∃ G', heap_ok G' h' s' ∧ extents G' ≡ₚ (p, block_size size align) :: extents G)).
Proof.
  intros Hk Hs Hal Hj. destruct (wp_run _ _ _ (heap_alloc_spec G h s size align j Hk Hs Hal Hj)) as (p & [h' s'] & Hr & Hpost).
  exists p, h', s'. split; [exact Hr|]. destruct Hpost as [?|(Hkp & Hdv & Hp0 & G' & Hk' & He' & _)]; [by left|right].
  split_and!; [done|done|by apply block_size_ge| |done|by exists G'].
  pose proof (heap_apart G' h' s' Hk') as Hap. rewrite He' in Hap. destruct Hap as [Hap _]. by rewrite Forall_forall in Hap.
Qed.

(** releasing a block that is handed out, with the layout it was requested
    with, never panics and takes exactly that block off the books; every other
    block handed out keeps its contents, and so does every page in use that is
    not the heap's. *)
Theorem heap_dealloc_correct G h s size align p : heap_ok G h s → (p, block_size size align) ∈ extents G →
  ∃ h' s' G', dealloc p size align (h, s) = Ret (tt, (h', s')) ∧
    heap_ok G' h' s' ∧ extents G ≡ₚ (p, block_size size align) :: extents G' ∧
    (∀ e, e ∈ extents G' → agree (span e.1 e.2) (fa_mem s) (fa_mem s')) ∧
    (∀ q, fa_used s q → q ∉ g_pages G → fa_used s' q ∧ agree (page q) (fa_mem s) (fa_mem s')).
Proof.
  intros Hk Hin. destruct (heap_dealloc_run G h s size align p Hk Hin) as (h' & s' & Hr & G' & Hpost). exists h', s', G'. naive_solver.
Qed.

(** ** Histories of the heap *)

(** A block handed out shares no byte with a free one. *)
Lemma free_block_apart G h s c b e x : heap_ok G h s → 0 ≤ c < 9 → b ∈ g_free G c → e ∈ extents G →
  span b (class_size c) x → span e.1 e.2 x → False.
Proof.
  intros Hk Hc Hb He Hs Hex. pose proof (tagged_elem _ _ _ Hc Hb) as Ht.
  assert (Hin : (c, b) ∈ tagged (g_free G) ++ g_live G) by (apply elem_of_app; by left).
  apply elem_of_app in He as [He|He]; apply list_elem_of_fmap in He as ([u v] & -> & He); cbn [fst snd] in *.
  - destruct (hk_blocks_disjoint G h s c b u v x Hk Hin) as [<- <-]; [apply elem_of_app; by right|done|done|].
    pose proof (hk_tagged_nodup G h s Hk) as Hn. apply NoDup_app in Hn as (_ & Hn & _). by apply (Hn _ Ht).
  - destruct (hk_block G h s c b Hk Hin) as (_ & q & _ & Hq & Hqb). destruct (hk_big _ _ _ Hk u v He) as [Hv _].
    destruct (big_page G u v x Hex ltac:(lia)) as (r & Hr & Hrx).
    rewrite (page_disjoint r q x Hrx (block_page b q c x Hc Hqb Hs)) in Hr.
    pose proof (hk_nodup _ _ _ Hk) as Hnd. unfold g_pages in Hnd. apply NoDup_app in Hnd as (_ & Hnd & _).
    apply (Hnd q); [apply list_elem_of_fmap; by exists (q, c)|]. apply list_elem_of_bind. by exists (u, v).
Qed.

Lemma free_not_live G h s c b e x : heap_ok G h s → 0 ≤ c < 9 → b ∈ g_free G c → e ∈ extents G →
  span b 8 x → span e.1 e.2 x → False.
Proof.
  intros Hk Hc Hb He Hx. destruct (class_size_page c Hc) as [Hsz _].
  apply (free_block_apart G h s c b e x Hk Hc Hb He). unfold span in *. lia.
Qed.

(** A client's ledger entry: address, size and alignment. *)
Record entry := mkEntry { en_ptr : Z; en_size : Z; en_align : Z }.
Definition en_block (e : entry) : Z * Z := (en_ptr e, block_size (en_size e) (en_align e)).

(** What clients do: allocate, release what they hold, write what they hold. *)
Inductive heap_call : HS * list entry → HS * list entry → Prop :=
| hc_alloc hs L p size j hs' : 0 < size → 0 ≤ j → alloc size (2 ^ j) hs = Ret (p, hs') → p ≠ 0 →
    heap_call (hs, L) (hs', mkEntry p size (2 ^ j) :: L)
| hc_null hs L size j hs' : 0 < size → 0 ≤ j → alloc size (2 ^ j) hs = Ret (0, hs') → heap_call (hs, L) (hs', L)
| hc_free hs L e L' hs' : L ≡ₚ e :: L' → dealloc (en_ptr e) (en_size e) (en_align e) hs = Ret (tt, hs') →
    heap_call (hs, L) (hs', L')
| hc_write h s L m :
    (∀ x, m x ≠ fa_mem s x → ∃ e, e ∈ L ∧ span (en_ptr e) (en_size e) x) →
    heap_call ((h, s), L) ((h, fa_set_mem m s), L).

(** [s0] is the machine before the first call. *)
Definition ledger_ok s0 (hs : HS) (L : list entry) : Prop :=
  (∃ G, heap_ok G hs.1 hs.2 ∧ extents G ≡ₚ en_block <$> L ∧ ∀ q, fa_used hs.2 q ∧ q ∉ g_pages G ↔ fa_used s0 q) ∧
  Forall (λ e, 0 < en_size e ∧ (en_align e | en_ptr e)) L.

Lemma heap_new_ok s : fa_inv s → ledger_ok s (HeapInner_new, s) [].
Proof.
  intros Hi. split; [|done]. exists (mkGhost (λ _, []) [] [] []). split; [|split; [done|]].
  2: { intros q. pose proof (not_elem_of_nil q). by split; [intros [? _]|]. }
  constructor; cbn; try done; try (intros ? ? ?%elem_of_nil; done).
  - intros c Hc. exists 0. split; [|done]. by class_split c.
  - constructor.
  - intros q ?%elem_of_nil. done.
Qed.

Lemma heap_call_ok s0 st st' : heap_call st st' → ledger_ok s0 st.1 st.2 → ledger_ok s0 st'.1 st'.2.
Proof.
  intros [[h s] L p size j [h' s'] Hs Hj Hr Hp|[h s] L size j [h' s'] Hs Hj Hr|[h s] L e L' [h' s'] HL Hr|h s L m Hm];
    cbn [fst snd]; intros [(G & Hk & He & Hout) HF]; cbn [fst snd] in *.
  - pose proof (heap_alloc_spec G h s size (2 ^ j) j Hk Hs eq_refl Hj) as Hw. unfold wp in Hw. rewrite Hr in Hw.
    destruct Hw as [[-> _]|(_ & Hdv & _ & G' & Hk' & He' & Hp')]; [done|]. split; [|by constructor].
    exists G'. split_and!; [done|by rewrite He', He|]. intros q. by rewrite <- Hout, (Hp' q).
  - pose proof (heap_alloc_spec G h s size (2 ^ j) j Hk Hs eq_refl Hj) as Hw. unfold wp in Hw. rewrite Hr in Hw.
    destruct Hw as [(_ & -> & ->)|(_ & _ & ? & _)]; [|done]. split; [|done]. by exists G.
  - assert (Hin : en_block e ∈ extents G) by (rewrite He, HL; apply list_elem_of_here).
    destruct (heap_dealloc_run G h s (en_size e) (en_align e) (en_ptr e) Hk Hin) as (h1 & s1 & Hr1 & G' & Hk' & He' & _ & _ & Hp').
    rewrite Hr in Hr1. injection Hr1 as <- <-. rewrite HL in HF. apply Forall_cons in HF as [_ HF]. split; [|done].
    exists G'. split_and!; [done| |intros q; by rewrite <- Hout, (Hp' q)]. apply (Permutation_cons_inv (a := en_block e)).
    rewrite <- He'. by rewrite He, HL.
  - split; [|done]. exists G. cbn [fst snd].
    assert (Hex : ∀ x, m x ≠ fa_mem s x → ∃ e, e ∈ extents G ∧ span e.1 e.2 x).
    { intros x Hx. destruct (Hm x Hx) as (e & Hin & Hsp). exists (en_block e). split.
      - rewrite He. apply list_elem_of_fmap. by exists e.
      - rewrite Forall_forall in HF. destruct (HF e Hin) as [Hs _].
        pose proof (block_size_ge (en_size e) (en_align e) Hs). unfold span, en_block in *. cbn [fst snd]. lia. }
    destruct (fa_write_ok s m (hk_inv _ _ _ Hk)) as [Hi' Hu'].
    { intros x Hx. destruct (Hex x Hx) as ([a n] & Hin & Hsp). destruct (extents_pages G h s a n x Hk Hin Hsp) as (q & Hq & Hqx).
      exists q. split; [by apply (hk_used _ _ _ Hk)|done]. }
    split_and!; [|done|intros q; by rewrite Hu']. apply (heap_ok_mem G h s (fa_set_mem m s)); [done|done|intros q Hq; by apply Hu', (hk_used _ _ _ Hk)|].
    intros c b Hc Hb x Hx. rewrite fa_mem_set. destruct (decide (m x = fa_mem s x)) as [|Hne]; [done|].
    destruct (Hex x Hne) as (e & Hin & Hsp). exfalso. by apply (free_not_live G h s c b e x).
Qed.

Lemma heap_calls_ok s0 st st' : rtc heap_call st st' → ledger_ok s0 st.1 st.2 → ledger_ok s0 st'.1 st'.2.
Proof. induction 1 as [|x y z Hxy _ IH]; [done|]. intros Hx. by apply IH, (heap_call_ok s0 x). Qed.

Lemma apart_shrink (L : list entry) : Forall (λ e, 0 < en_size e) L →
  apart (en_block <$> L) → apart ((λ e, (en_ptr e, en_size e)) <$> L).
Proof.
  induction L as [|e L IH]; [done|]. intros [He HL]%Forall_cons [Hd Ha]. split; [|by apply IH].
  rewrite Forall_forall in Hd. rewrite Forall_forall in HL. apply Forall_forall. intros ? (e' & -> & He')%list_elem_of_fmap x Hx Hx'.
  pose proof (block_size_ge (en_size e) (en_align e) He). pose proof (block_size_ge (en_size e') (en_align e') (HL e' He')).
  apply (Hd (en_block e') (list_elem_of_fmap_2 _ _ _ He') x); unfold span, en_block in *; cbn [fst snd] in *; lia.
Qed.

(** C21: every history of the heap, in which clients release and write only what
    they hold, keeps the blocks they hold pairwise disjoint and aligned.  Both
    counters are exact throughout: [allocated] is the sum of what the held
    blocks take, and [reserved] is one page for each frame that the heap has
    taken from the frame allocator and not given back; the other frames in use
    are the ones that were in use before the first call. *)
Theorem heap_history s h' s' L : fa_inv s → rtc heap_call ((HeapInner_new, s), []) ((h', s'), L) →
  apart ((λ e, (en_ptr e, en_size e)) <$> L) ∧ Forall (λ e, (en_align e | en_ptr e)) L ∧
  allocated h' = sumZ ((λ e, block_size (en_size e) (en_align e)) <$> L) ∧ allocated h' ≤ reserved h' ≤ 2 ^ 38 ∧
  (∃ taken, NoDup taken ∧ (∀ q, q ∈ taken ↔ fa_used s' q ∧ ¬ fa_used s q) ∧
     reserved h' = PAGE_SIZE * Z.of_nat (length taken)) ∧
  (∀ q, fa_used s q → fa_used s' q).
Proof.
  intros Hi Hrtc.
  pose proof (heap_calls_ok s _ _ Hrtc (heap_new_ok s Hi)) as Hok. cbn [fst snd] in Hok.
  destruct Hok as [(G & Hk & He & Hout) HF]. cbn [fst snd] in *. pose proof (heap_apart G h' s' Hk) as Hap. rewrite He in Hap.
  destruct (heap_bounds G h' s' Hk) as [[_ Hb1] Hb2]. split_and!.
  - apply apart_shrink; [|done]. eapply Forall_impl; [exact HF|]. by intros e [? _].
  - eapply Forall_impl; [exact HF|]. by intros e [_ ?].
  - rewrite (hk_alloc _ _ _ Hk), He, <- list_fmap_compose. done.
  - done.
  - done.
  - exists (g_pages G). split_and!; [apply (hk_nodup _ _ _ Hk)| |apply (hk_res _ _ _ Hk)].
    intros q. rewrite <- (Hout q). pose proof (hk_used _ _ _ Hk q). destruct (decide (q ∈ g_pages G)); tauto.
  - intros q Hq. by apply Hout.
Qed.

(** A store past the link word of a free block leaves the heap as it was. *)
Lemma heap_ok_free_store G h s c b m : heap_ok G h s → 0 ≤ c < 9 → b ∈ g_free G c →
  (∀ x, m x ≠ fa_mem s x → span (b + 8) (class_size c - 8) x) →
  heap_ok G h (fa_set_mem m s) ∧ (∀ q, fa_used (fa_set_mem m s) q ↔ fa_used s q) ∧
  ∀ e, e ∈ extents G → agree (span e.1 e.2) (fa_mem s) m.
Proof.
  intros Hk Hc Hb Hm. pose proof (tagged_elem _ _ _ Hc Hb) as Ht.
  assert (Hin : (c, b) ∈ tagged (g_free G) ++ g_live G) by (apply elem_of_app; by left).
  destruct (hk_block G h s c b Hk Hin) as (_ & p & Hp & _ & Hpb).
  assert (Hs : ∀ x, m x ≠ fa_mem s x → span b (class_size c) x) by (intros x Hx; apply Hm in Hx; unfold span in *; lia).
  destruct (fa_write_ok s m (hk_inv _ _ _ Hk)) as [Hi' Hu'].
  { intros x Hx. exists p. split; [done|]. eapply block_page; [exact Hc|exact Hpb|by apply Hs]. }
  split_and!; [|done|].
  - apply (heap_ok_mem G h s (fa_set_mem m s)); [done|done|intros q Hq; by apply Hu', (hk_used _ _ _ Hk)|].
    intros c' b' Hc' Hb' x Hx. rewrite fa_mem_set. destruct (decide (m x = fa_mem s x)) as [|Hne]; [done|]. exfalso.
    pose proof (class_size_page c' Hc') as [Hsz' _].
    destruct (hk_blocks_disjoint G h s c b c' b' x Hk Hin) as [<- <-];
      [apply elem_of_app; left; by apply tagged_elem|by apply Hs|unfold span in *; lia|].
    apply Hm in Hne. unfold span in *. lia.
  - intros e He x Hx. destruct (decide (m x = fa_mem s x)) as [|Hne]; [done|]. exfalso.
    by apply (free_block_apart G h s c b e x Hk Hc Hb He); [apply Hs|].
Qed.
End props.

(** ** Witnesses: the heap of the booted machine *)

Lemma boot_fa_inv : fa_inv boot_state.
Proof. exact boot_frame_inv. Qed.

Definition heap0 : HS := (HeapInner_new, boot_state).
Definition run_heap (o : outcome (Z * HS)) : Z * HS := match o with Ret r => r | Panic => (0, heap0) end.
(** A 24-byte request: a frame is carved into 32-byte blocks. *)
Definition heap1 : Z * HS := run_heap (alloc 24 (2 ^ 3) heap0).

Lemma heap1_run : alloc 24 (2 ^ 3) heap0 = Ret (heap1.1, (heap1.2.1, heap1.2.2)) ∧ heap1.1 ≠ 0.
Proof.
  assert (Hok : match alloc 24 (2 ^ 3) heap0 with Ret (p, _) => negb (p =? 0) | Panic => false end = true) by (vm_compute; reflexivity).
  unfold heap1. destruct (alloc 24 (2 ^ 3) heap0) as [[p [h s]]|]; [|discriminate Hok]. split; [reflexivity|]. cbn in *. lia.
Qed.
#[global] Opaque heap1.

Lemma heap_history_witness :
  allocated heap1.2.1 = sumZ ((λ e, block_size (en_size e) (en_align e)) <$> [mkEntry heap1.1 24 (2 ^ 3)]) ∧
  ∃ taken, reserved heap1.2.1 = PAGE_SIZE * Z.of_nat (length (A := Z) taken).
Proof.
  assert (Hc : heap_call (heap0, []) ((heap1.2.1, heap1.2.2), [mkEntry heap1.1 24 (2 ^ 3)])).
  { exact (hc_alloc heap0 [] heap1.1 24 3 _ ltac:(lia) ltac:(lia) (proj1 heap1_run) (proj2 heap1_run)). }
  destruct (heap_history boot_state _ _ _ boot_fa_inv (rtc_once _ _ Hc)) as (_ & _ & Ha & _ & (tk & _ & _ & Hr) & _).
  split; [exact Ha|]. exists tk. exact Hr.
Defined.

Lemma heap0_ok : heap_ok (mkGhost (λ _, []) [] [] []) HeapInner_new boot_state.
Proof.
  constructor; cbn; try done; try (intros ? ? ?%elem_of_nil; done).
  - exact boot_frame_inv.
  - intros c Hc. exists 0. split; [|done]. by class_split c.
  - constructor.
  - intros q ?%elem_of_nil. done.
Qed.

Lemma heap_alloc_correct_witness : (2 ^ 3 | heap1.1).
Proof.
  destruct (heap_alloc_correct _ HeapInner_new boot_state 24 (2 ^ 3) 3 heap0_ok ltac:(lia) eq_refl ltac:(lia)) as (p & h' & s' & Hr & Hp).
  destruct heap1_run as [Hr1 Hne]. unfold heap0 in Hr1. rewrite Hr1 in Hr.
  destruct (Ret_inj _ _ _ _ Hr) as [<- _]. destruct Hp as [[? _]|(_ & Hd & _)]; [contradiction|exact Hd].
Defined.

Lemma heap1_live : ∃ G, heap_ok G heap1.2.1 heap1.2.2 ∧ (heap1.1, block_size 24 (2 ^ 3)) ∈ extents G.
Proof.
  pose proof (heap_alloc_spec _ HeapInner_new boot_state 24 (2 ^ 3) 3 heap0_ok ltac:(lia) eq_refl ltac:(lia)) as Hw.
  destruct heap1_run as [Hr1 Hne]. unfold wp in Hw. fold heap0 in Hw. rewrite Hr1 in Hw.
  destruct Hw as [[? _]|(_ & _ & _ & G' & Hk' & He' & _)]; [contradiction|].
  exists G'. split; [exact Hk'|]. rewrite He'. apply list_elem_of_here.
Qed.

Lemma heap_dealloc_correct_witness :
  ∃ h' s', dealloc heap1.1 24 (2 ^ 3) (heap1.2.1, heap1.2.2) = Ret (tt, (h', s')).
Proof.
  destruct heap1_live as (G & Hk & Hin).
  destruct (heap_dealloc_correct G _ _ 24 (2 ^ 3) heap1.1 Hk Hin) as (h' & s' & G' & Hr & _). exists h', s'. exact Hr.
Defined.
