(* ===== verification/Device.v ===== *)
(** * Memory-mapped devices (mm/mod.rs [phys_to_virt], volatile accesses)

    The kernel reaches a device through the direct map with [read_volatile] and
    [write_volatile].  The hardware behind the addresses is not part of the
    repository: it is a parameter, a device state with a read and a write
    function.  What a driver relies on is stated next to that driver, as a
    class of laws. *)
From stdpp Require Import base numbers list.
From S2P Require Import Prelude Config.

(** Kernel virtual address of a physical one, and back; both are checked
    additions. *)
Definition phys_to_virt (paddr : Z) : outcome Z := paddr +! VIRT_OFFSET.
Definition virt_to_phys (vaddr : Z) : outcome Z := vaddr -! VIRT_OFFSET.

(** The device bus: an access gives the value read and moves the device. *)
Class Bus (D : Type) := {
  read_volatile : Z → D → Z * D;
  write_volatile : Z → Z → D → D }.

Lemma phys_to_virt_ok p : 0 ≤ p < 2 ^ 38 → phys_to_virt p = Ret (p + VIRT_OFFSET).
Proof. intros ?. apply u64_add_ok. unfold VIRT_OFFSET, U64. lia. Qed.

