(* ===== verification/Uart.v ===== *)
(** * NS16550A console driver (drivers/uart.rs)

    The receive ring, the register accesses, the polled transmitter and the
    interrupt handler.  The device itself is the parameter of [Device.Bus]. *)
From stdpp Require Import base numbers list.
From S2P Require Import Prelude Config Device.

(** ** Register offsets and bits *)
Module reg.
Definition RBR_THR_DLL : Z := 0.
Definition IER_DLM : Z := 1.
Definition IIR_FCR : Z := 2.
Definition LCR : Z := 3.
Definition MCR : Z := 4.
Definition LSR : Z := 5.
End reg.
Definition lsr_DATA_READY : Z := Z.shiftl 1 0.
Definition lsr_THR_EMPTY : Z := Z.shiftl 1 5.
Definition lcr_WORD_LEN_8 : Z := 3.
Definition lcr_DLAB : Z := Z.shiftl 1 7.
Definition ier_RX_AVAILABLE : Z := Z.shiftl 1 0.
Definition fcr_ENABLE : Z := Z.shiftl 1 0.
Definition fcr_CLEAR_RX : Z := Z.shiftl 1 1.
Definition fcr_CLEAR_TX : Z := Z.shiftl 1 2.

(** ** [RxRing]: a fixed-capacity byte ring *)
Definition CAP : Z := 256.
Record RxRing := { buf : list Z; head : Z; tail : Z }.

Definition RxRing_new : RxRing := {| buf := replicate (Z.to_nat CAP) 0; head := 0; tail := 0 |}.

Definition ring_push (r : RxRing) (byte : Z) : outcome (bool * RxRing) :=
  t ← tail r +! 1;
  let next := t `mod` CAP in
  if next =? head r then Ret (false, r)
  else
    b ← arr_set (buf r) (tail r) byte;
    Ret (true, {| buf := b; head := head r; tail := next |}).

Definition ring_pop (r : RxRing) : outcome (option Z * RxRing) :=
  if head r =? tail r then Ret (None, r)
  else
    byte ← arr_get (buf r) (head r);
    h ← head r +! 1;
    Ret (Some byte, {| buf := buf r; head := h `mod` CAP; tail := tail r |}).

Definition ring_is_empty (r : RxRing) : bool := head r =? tail r.

(** ** The driver, over an arbitrary device *)
Section driver.
Context {D : Type} `{Bus D}.

(** The statics: the device, the ring, the [INITIALISED] flag and the console's
    [UART_READY] flag.  [UART] and
    [RX_QUEUE] are spin locks held for the length of one access; the driver's
    base address is the constant of the static. *)
Record uart := { dev : D; rx_queue : RxRing; initialised : bool; uart_ready : bool }.
Definition set_dev (d : D) (u : uart) : uart :=
  {| dev := d; rx_queue := rx_queue u; initialised := initialised u; uart_ready := uart_ready u |}.
Definition set_rx (r : RxRing) (u : uart) : uart :=
  {| dev := dev u; rx_queue := r; initialised := initialised u; uart_ready := uart_ready u |}.

Definition reg_addr (offset : Z) : outcome Z := a ← UART_BASE +! offset; phys_to_virt a.

Definition read (offset : Z) : ST uart Z :=
  a ← lift (reg_addr offset);
  u ← get;
  let '(v, d) := read_volatile a (dev u) in
  put (set_dev d u);; mret v.

Definition write (offset value : Z) : ST uart unit :=
  a ← lift (reg_addr offset);
  u ← get;
  put (set_dev (write_volatile a value (dev u)) u).

Definition uart_init_regs : ST uart unit :=
  write reg.IER_DLM 0x00;;
  write reg.LCR lcr_DLAB;;
  write reg.RBR_THR_DLL 0x03;;
  write reg.IER_DLM 0x00;;
  write reg.LCR lcr_WORD_LEN_8;;
  write reg.IIR_FCR (Z.lor (Z.lor fcr_ENABLE fcr_CLEAR_RX) fcr_CLEAR_TX);;
  write reg.MCR 0x03;;
  write reg.IER_DLM ier_RX_AVAILABLE.

(** [console::use_uart_backend] *)
Definition use_uart_backend : ST uart unit :=
  u ← get;
  put {| dev := dev u; rx_queue := rx_queue u; initialised := initialised u; uart_ready := true |}.

Definition uart_init : ST uart unit :=
  uart_init_regs;;
  u ← get;
  put {| dev := dev u; rx_queue := rx_queue u; initialised := true; uart_ready := uart_ready u |};;
  use_uart_backend.

(** [put] polls the line status; [fuel] bounds the polls and running out of it
    is reported as [Panic], so a theorem that the loop returns needs a bound on
    how long the transmitter stays busy. *)
Fixpoint put_byte (fuel : nat) (byte : Z) : ST uart unit :=
  match fuel with
  | O => lift Panic
  | S fuel =>
      v ← read reg.LSR;
      if Z.land v lsr_THR_EMPTY =? 0 then put_byte fuel byte
      else write reg.RBR_THR_DLL byte
  end.

Definition get_byte : ST uart (option Z) :=
  v ← read reg.LSR;
  if negb (Z.land v lsr_DATA_READY =? 0)
  then b ← read reg.RBR_THR_DLL; mret (Some b)
  else mret None.

(** LF becomes CR LF. *)
Fixpoint write_bytes (fuel : nat) (bytes : list Z) : ST uart unit :=
  match bytes with
  | [] => mret tt
  | b :: rest =>
      (if b =? 10 then put_byte fuel 13 else mret tt);;
      put_byte fuel b;;
      write_bytes fuel rest
  end.

Definition read_byte : ST uart (option Z) :=
  u ← get;
  '(o, r) ← lift (ring_pop (rx_queue u));
  put (set_rx r u);; mret o.

Definition has_input (u : uart) : bool := negb (ring_is_empty (rx_queue u)).

(** The interrupt handler's drain loop.  The ring bounds it: [CAP] rounds are
    always enough ([handle_interrupt_terminates]). *)
Fixpoint drain (fuel : nat) (queued : Z) : ST uart Z :=
  match fuel with
  | O => lift Panic
  | S fuel =>
      o ← get_byte;
      match o with
      | None => mret queued
      | Some byte =>
          u ← get;
          '(ok, r) ← lift (ring_push (rx_queue u) byte);
          put (set_rx r u);;
          if ok : bool then q ← lift (queued +! 1); drain fuel q else mret queued
      end
  end.
Definition handle_interrupt : ST uart Z := drain (Z.to_nat CAP) 0.

Definition is_initialised (u : uart) : bool := initialised u.
End driver.
Arguments uart D : clear implicits.
