(* ===== verification/UartProps.v ===== *)
(** * The console driver: what it promises

    The receive ring is a bounded queue of 255 bytes; the interrupt handler
    moves bytes from the device to the ring in order, loses a byte only when
    the ring is full and always returns; the transmitter puts exactly the
    CR LF translation of its argument on the line. *)
From stdpp Require Import base numbers list.
From S2P Require Import Prelude Config Device Uart.

(** ** The ring as a queue *)

Definition ring_len (r : RxRing) : Z := (tail r - head r) `mod` CAP.
Definition ring_at (r : RxRing) (i : Z) : Z := buf r !!! Z.to_nat ((head r + i) `mod` CAP).
Definition ring_list (r : RxRing) : list Z := ring_at r <$> seqZ 0 (ring_len r).
Record ring_ok (r : RxRing) : Prop := {
  ro_buf : length (buf r) = Z.to_nat CAP;
  ro_head : 0 ≤ head r < CAP;
  ro_tail : 0 ≤ tail r < CAP }.

(** The room of the ring: one slot always stays empty. *)
Definition ROOM : Z := CAP - 1.

Lemma ring_len_bound r : 0 ≤ ring_len r ≤ ROOM.
Proof. unfold ring_len, ROOM, CAP. pose proof (Z.mod_pos_bound (tail r - head r) 256). lia. Qed.

Lemma ring_list_length r : length (ring_list r) = Z.to_nat (ring_len r).
Proof. unfold ring_list. by rewrite length_fmap, length_seqZ. Qed.

Lemma ring_new_ok : ring_ok RxRing_new.
Proof. by constructor. Qed.

Lemma ring_new_list : ring_list RxRing_new = [].
Proof. done. Qed.

Ltac ring_arith := unfold ring_len, ROOM, CAP in *; cbn [head tail buf] in *; Z.div_mod_to_equations; lia.

Lemma ring_push_full r b : ring_ok r → ring_len r = ROOM → ring_push r b = Ret (false, r).
Proof.
  intros [_ ??] Hl. unfold ring_push. rewrite u64_add_ok by (unfold U64, CAP in *; lia). cbn.
  destruct (Z.eqb_spec ((tail r + 1) `mod` CAP) (head r)); [done|ring_arith].
Qed.

Lemma ring_push_room r b : ring_ok r → ring_len r < ROOM →
  ∃ r', ring_push r b = Ret (true, r') ∧ ring_ok r' ∧ ring_list r' = ring_list r ++ [b].
Proof.
  intros [Hb ??] Hl. unfold ring_push. rewrite u64_add_ok by (unfold U64, CAP in *; lia). cbn.
  destruct (Z.eqb_spec ((tail r + 1) `mod` CAP) (head r)); [ring_arith|].
  unfold arr_set. rewrite Hb.
  destruct (Z.leb_spec 0 (tail r)), (Z.ltb_spec (tail r) (Z.of_nat (Z.to_nat CAP))); try (unfold CAP in *; lia).
  cbn. eexists. split; [done|]. split.
  { constructor; simpl; [by rewrite length_insert|done|apply Z.mod_pos_bound; done]. }
  assert (Hlen : ring_len {| buf := <[Z.to_nat (tail r):=b]> (buf r); head := head r; tail := (tail r + 1) `mod` CAP |}
    = ring_len r + 1) by ring_arith.
  pose proof (ring_len_bound r). unfold ring_list. rewrite Hlen, seqZ_app, fmap_app by lia. f_equal.
  - apply list_fmap_ext. intros i x (-> & Hi)%lookup_seqZ. unfold ring_at. simpl.
    rewrite list_lookup_total_insert_ne; [done|]. ring_arith.
  - simpl. unfold ring_at. simpl. f_equal.
    match goal with |- _ !!! Z.to_nat ?i = _ => replace i with (tail r) by ring_arith end.
    apply list_lookup_total_insert_eq. rewrite Hb. unfold CAP in *; lia.
Qed.

Lemma ring_pop_spec r : ring_ok r →
  match ring_list r with
  | [] => ring_pop r = Ret (None, r)
  | b :: l => ∃ r', ring_pop r = Ret (Some b, r') ∧ ring_ok r' ∧ ring_list r' = l
  end.
Proof.
  intros [Hb ??]. pose proof (ring_len_bound r). unfold ring_pop, ring_list.
  destruct (Z.eqb_spec (head r) (tail r)).
  { by replace (ring_len r) with 0 by ring_arith. }
  assert (0 < ring_len r) by ring_arith. rewrite (seqZ_cons 0 (ring_len r)) by lia. cbn [fmap list_fmap].
  unfold arr_get. destruct (Z.ltb_spec (head r) 0); [lia|].
  rewrite list_lookup_lookup_total_lt by (rewrite Hb; unfold CAP in *; lia). cbn.
  rewrite u64_add_ok by (unfold U64, CAP in *; lia). cbn. eexists. split; [|split].
  - unfold ring_at. rewrite Z.add_0_r, (Z.mod_small (head r)) by lia. done.
  - constructor; simpl; [done|apply Z.mod_pos_bound; done|done].
  - set (r' := {| buf := buf r; head := (head r + 1) `mod` CAP; tail := tail r |}).
    replace (ring_len r') with (Z.pred (ring_len r)) by (subst r'; ring_arith).
    change (Z.succ 0) with 1. rewrite <-(Z.add_0_r 1), <-(fmap_add_seqZ 1 0), <-list_fmap_compose.
    apply list_fmap_ext. intros i x _. simpl. unfold ring_at. simpl. do 2 f_equal.
    unfold CAP. rewrite Zplus_mod_idemp_l. f_equal. lia.
Qed.

Lemma ring_is_empty_spec r : ring_ok r → ring_is_empty r = bool_decide (ring_list r = []).
Proof.
  intros Hr. unfold ring_is_empty. pose proof (ring_list_length r) as Hl. pose proof (ring_len_bound r).
  destruct Hr. destruct (Z.eqb_spec (head r) (tail r)); symmetry.
  - apply bool_decide_eq_true. apply length_zero_iff_nil. rewrite Hl. ring_arith.
  - apply bool_decide_eq_false. intros E. rewrite E in Hl. simpl in Hl. ring_arith.
Qed.

(** ** The ring refines a bounded queue *)

Inductive rx_op := RxPush (b : Z) | RxPop | RxIsEmpty.
Inductive rx_reply := Pushed (ok : bool) | Popped (b : option Z) | Empty (e : bool).

(** A client of the ring: run the operations and collect the answers. *)
Fixpoint ring_run (ops : list rx_op) (r : RxRing) : outcome (list rx_reply) :=
  match ops with
  | [] => Ret []
  | RxPush b :: ops => '(ok, r) ← ring_push r b; l ← ring_run ops r; Ret (Pushed ok :: l)
  | RxPop :: ops => '(o, r) ← ring_pop r; l ← ring_run ops r; Ret (Popped o :: l)
  | RxIsEmpty :: ops => l ← ring_run ops r; Ret (Empty (ring_is_empty r) :: l)
  end.

(** The specification: a queue that refuses the newest byte once it holds 255. *)
Fixpoint queue_run (ops : list rx_op) (q : list Z) : list rx_reply :=
  match ops with
  | [] => []
  | RxPush b :: ops =>
      if Z.of_nat (length q) <? ROOM then Pushed true :: queue_run ops (q ++ [b])
      else Pushed false :: queue_run ops q
  | RxPop :: ops =>
      match q with [] => Popped None :: queue_run ops [] | b :: q => Popped (Some b) :: queue_run ops q end
  | RxIsEmpty :: ops => Empty (bool_decide (q = [])) :: queue_run ops q
  end.

Lemma ring_run_spec ops r : ring_ok r → ring_run ops r = Ret (queue_run ops (ring_list r)).
Proof.
  revert r. induction ops as [|[b| |] ops IH]; intros r Hr; [done|..]; simpl.
  - pose proof (ring_list_length r). pose proof (ring_len_bound r).
    destruct (Z.ltb_spec (Z.of_nat (length (ring_list r))) ROOM).
    + destruct (ring_push_room r b) as (r' & -> & Hr' & Hl); [done|lia|]. cbn. by rewrite IH, Hl.
    + rewrite ring_push_full by (done || lia). cbn. by rewrite IH.
  - pose proof (ring_pop_spec r Hr) as Hp. destruct (ring_list r) as [|b l] eqn:El.
    + rewrite Hp. cbn. by rewrite IH, El.
    + destruct Hp as (r' & -> & Hr' & Hl). cbn. by rewrite IH, Hl.
  - by rewrite IH, ring_is_empty_spec.
Qed.

(** C37: the receive ring is indistinguishable from a first-in first-out queue
    of at most 255 bytes: any sequence of [push], [pop] and [is_empty] from the
    empty ring returns, without panicking, exactly the queue's answers; when
    full, [push] refuses the newest byte and keeps the older ones. *)
Theorem ring_refines_queue ops : ring_run ops RxRing_new = Ret (queue_run ops []).
Proof. apply (ring_run_spec ops RxRing_new ring_new_ok). Qed.

(** ** The device the driver relies on *)

Definition uart_reg (offset : Z) : Z := UART_BASE + offset + VIRT_OFFSET.

(** Documented behaviour of a 16550: the line status tells whether the receive
    FIFO holds a byte and whether the transmitter is free, the receive buffer
    pops the FIFO, bytes may arrive at any access, the transmitter is busy for
    at most [thr_max] polls after a byte. *)
Class Uart16550 (D : Type) `{Bus D} := {
  rx_fifo : D → list Z;
  delivered : D → list Z;
  tx_line : D → list Z;
  thr_busy : D → nat;
  thr_max : nat;
  thr_busy_max d : (thr_busy d ≤ thr_max)%nat;
  lsr_read d v d' : read_volatile (uart_reg reg.LSR) d = (v, d') →
    Z.testbit v 0 = negb (bool_decide (rx_fifo d = [])) ∧
    Z.testbit v 5 = bool_decide (thr_busy d = 0%nat) ∧
    rx_fifo d `prefix_of` rx_fifo d' ∧ delivered d' = delivered d ∧
    tx_line d' = tx_line d ∧ thr_busy d' = Nat.pred (thr_busy d);
  rbr_read d v d' b l : read_volatile (uart_reg reg.RBR_THR_DLL) d = (v, d') → rx_fifo d = b :: l →
    v = b ∧ l `prefix_of` rx_fifo d' ∧ delivered d' = delivered d ++ [b] ∧ tx_line d' = tx_line d;
  thr_write d b : thr_busy d = 0%nat →
    let d' := write_volatile (uart_reg reg.RBR_THR_DLL) b d in
    tx_line d' = tx_line d ++ [b] ∧ delivered d' = delivered d }.

Lemma reg_addr_ok o : 0 ≤ o < 8 → reg_addr o = Ret (uart_reg o).
Proof.
  intros ?. unfold reg_addr. rewrite u64_add_ok by (unfold UART_BASE, U64; lia). cbn.
  apply phys_to_virt_ok. unfold UART_BASE. lia.
Qed.

Lemma land_bit v k : 0 ≤ k → (Z.land v (Z.shiftl 1 k) =? 0) = negb (Z.testbit v k).
Proof.
  intros Hk. rewrite Z.shiftl_1_l. destruct (Z.testbit v k) eqn:E; simpl.
  - apply Z.eqb_neq. intros Hz. apply (f_equal (λ z, Z.testbit z k)) in Hz.
    rewrite Z.land_spec, E, Z.pow2_bits_true, Z.bits_0 in Hz by done. done.
  - apply Z.eqb_eq, Z.bits_inj'. intros n Hn. rewrite Z.land_spec, Z.bits_0.
    destruct (decide (n = k)) as [->|]; [by rewrite E|]. by rewrite Z.pow2_bits_false, andb_false_r by lia.
Qed.

Section with_device.
Context {D : Type} `{HD : Uart16550 D}.
Implicit Types u : uart D.

Lemma wp_read o Q u : 0 ≤ o < 8 →
  (∀ v d, read_volatile (uart_reg o) (dev u) = (v, d) → Q v (set_dev d u)) → wp (read o) Q u.
Proof.
  intros Ho HQ. unfold read. wp_step. eapply wp_lift; [by apply reg_addr_ok|]. wp_step. wp_step.
  destruct (read_volatile _ _) as [v d] eqn:E. wp_steps. by apply HQ.
Qed.

Lemma wp_write o v Q u : 0 ≤ o < 8 →
  Q tt (set_dev (write_volatile (uart_reg o) v (dev u)) u) → wp (write o v) Q u.
Proof.
  intros Ho HQ. unfold write. wp_step. eapply wp_lift; [by apply reg_addr_ok|]. by wp_steps.
Qed.

(** *** Transmit *)

Definition quiet u u' : Prop :=
  rx_queue u' = rx_queue u ∧ delivered (dev u') = delivered (dev u).

Lemma put_byte_spec fuel b u : (thr_busy (dev u) < fuel)%nat →
  wp (put_byte fuel b) (λ _ u', quiet u u' ∧ tx_line (dev u') = tx_line (dev u) ++ [b]) u.
Proof.
  revert u. induction fuel as [|fuel IH]; intros u Hf; [lia|]. cbn [put_byte]. wp_step.
  apply wp_read; [done|]. intros v d Hrd. destruct (lsr_read _ _ _ Hrd) as (_ & Ht & _ & Hd & Htx & Hb).
  unfold lsr_THR_EMPTY. rewrite land_bit, Ht by done. case_bool_decide as Hz; simpl.
  - apply wp_write; [done|].
    destruct (thr_write d b) as (Hw & Hd'); [lia|]. unfold quiet. simpl. rewrite Hw, Hd', Hd, Htx. done.
  - eapply wp_mono; [|apply IH; simpl; lia]. cbv beta. unfold quiet. simpl. intros _ u' ((-> & ->) & ->).
    by rewrite Hd, Htx.
Qed.

(** What a terminal receives for a byte string. *)
Definition crlf (bytes : list Z) : list Z := b ← bytes; if b =? 10 then [13; 10] else [b].

(** [write_bytes] terminates and transmits exactly its argument with every LF
    replaced by CR LF, without touching the receive side. *)
Lemma write_bytes_spec fuel bytes u : (thr_max < fuel)%nat →
  wp (write_bytes fuel bytes)
    (λ _ u', quiet u u' ∧ tx_line (dev u') = tx_line (dev u) ++ crlf bytes) u.
Proof.
  intros Hf. revert u. induction bytes as [|b bytes IH]; intros u.
  { apply wp_ret. unfold quiet, crlf. simpl. by rewrite app_nil_r. }
  assert (Hput : ∀ c u, wp (put_byte fuel c)
    (λ _ u', quiet u u' ∧ tx_line (dev u') = tx_line (dev u) ++ [c]) u).
  { intros c u0. apply put_byte_spec. pose proof (thr_busy_max (dev u0)). lia. }
  cbn [write_bytes]. wp_step.
  apply (wp_mono _ (λ _ u1, quiet u u1 ∧ tx_line (dev u1) = tx_line (dev u) ++ (if b =? 10 then [13] else []))).
  2:{ destruct (b =? 10); [apply Hput|]. apply wp_ret. unfold quiet. by rewrite app_nil_r. }
  intros _ u1 ((Hq & Hd) & Ht). wp_step. eapply wp_mono; [|apply Hput]. cbv beta.
  intros _ u2 ((Hq2 & Hd2) & Ht2). eapply wp_mono; [|apply IH]. cbv beta.
  intros _ u3 ((Hq3 & Hd3) & Ht3). split; [split; congruence|].
  rewrite Ht3, Ht2, Ht. unfold crlf. simpl. rewrite <-!app_assoc. destruct (Z.eqb_spec b 10) as [->|]; done.
Qed.

(** *** Receive *)

Lemma get_byte_spec u :
  wp get_byte (λ o u', rx_queue u' = rx_queue u ∧ tx_line (dev u') = tx_line (dev u) ∧
    match o with
    | None => delivered (dev u') = delivered (dev u) ∧ rx_fifo (dev u) = []
    | Some b => delivered (dev u') = delivered (dev u) ++ [b] ∧ list.head (rx_fifo (dev u)) = Some b
    end) u.
Proof.
  unfold get_byte. wp_step. apply wp_read; [done|]. intros v d Hrd.
  destruct (lsr_read _ _ _ Hrd) as (Ht & _ & [l Hp] & Hd & Htx & _).
  unfold lsr_DATA_READY. rewrite land_bit, Ht by done. case_bool_decide as Hz; simpl.
  { wp_step. done. }
  destruct (rx_fifo (dev u)) as [|b f] eqn:Ef; [done|]. wp_step. apply wp_read; [done|].
  intros w d' Hrd'. destruct (rbr_read _ _ _ b (f ++ l) Hrd') as (-> & _ & Hd' & Htx'); [by simpl; rewrite Hp|].
  wp_step. simpl in *. by rewrite Hd', Htx', Hd, Htx.
Qed.

(** What one run of the drain loop does: [taken] bytes leave the device, in
    order; all of them reach the ring except possibly a last one that found it
    full. *)
Definition drained (q : Z) u (n : Z) u' : Prop :=
  ∃ taken, delivered (dev u') = delivered (dev u) ++ taken ∧ tx_line (dev u') = tx_line (dev u) ∧
    ring_ok (rx_queue u') ∧ q ≤ n ∧
    ring_list (rx_queue u') = ring_list (rx_queue u) ++ take (Z.to_nat (n - q)) taken ∧
    (Z.of_nat (length taken) = n - q ∨
     Z.of_nat (length taken) = n - q + 1 ∧ ring_len (rx_queue u') = ROOM).

Lemma drain_spec fuel q u : ring_ok (rx_queue u) → 0 ≤ q → q + ROOM < U64 →
  ROOM - ring_len (rx_queue u) < Z.of_nat fuel → q + ROOM - ring_len (rx_queue u) ≤ ROOM →
  wp (drain fuel q) (drained q u) u.
Proof.
  revert q u. induction fuel as [|fuel IH]; intros q u Hr Hq HU Hf Hqr.
  { pose proof (ring_len_bound (rx_queue u)). lia. }
  cbn [drain]. wp_step. eapply wp_mono; [|apply get_byte_spec]. cbv beta.
  intros [b|] u1 (Hrx & Htx & Hd).
  2:{ wp_step. exists []. destruct Hd as [-> _]. rewrite Hrx, Z.sub_diag, !app_nil_r. simpl. split_and!; done || lia. }
  destruct Hd as [Hd _]. wp_step. wp_step. wp_step. rewrite Hrx.
  pose proof (ring_len_bound (rx_queue u)). destruct (decide (ring_len (rx_queue u) = ROOM)) as [Hfull|].
  { eapply wp_lift; [by apply ring_push_full|]. cbv beta iota. wp_steps.
    exists [b]. unfold set_rx; simpl. rewrite Z.sub_diag. simpl. rewrite app_nil_r. rewrite Hd, Htx. split_and!; done || lia. }
  destruct (ring_push_room (rx_queue u) b) as (r' & Hpush & Hr' & Hl'); [done|lia|].
  assert (Hlen : ring_len r' = ring_len (rx_queue u) + 1).
  { pose proof (ring_list_length r') as L1. rewrite Hl', length_app, ring_list_length in L1. simpl in L1.
    pose proof (ring_len_bound r'). lia. }
  eapply wp_lift; [exact Hpush|]. cbv beta iota. wp_step. wp_step. wp_step.
  eapply wp_lift; [apply u64_add_ok; lia|].
  eapply wp_mono; [|apply IH]; unfold set_rx; simpl; [|done|lia|unfold ROOM, CAP, U64 in *; lia|lia|lia].
  intros k u' (taken & H1 & H2 & H3 & H4 & H5 & H6). simpl in *. exists (b :: taken).
  rewrite H1, Hd, <-app_assoc, H2, H5, Hl', <-app_assoc. simpl.
  replace (Z.to_nat (k - q)) with (S (Z.to_nat (k - (q + 1)))) by lia. simpl. rewrite Htx. split_and!; done || lia.
Qed.

(** C38: the interrupt handler always returns, whatever arrives meanwhile: its
    loop stops within 256 rounds because the ring fills up.  The bytes it takes
    from the device reach the ring in order, the count it returns is the number
    queued, and at most one byte is dropped, only with the ring full. *)
Theorem handle_interrupt_correct u : ring_ok (rx_queue u) →
  wp handle_interrupt (λ n u', drained 0 u n u' ∧ 0 ≤ n ≤ ROOM) u.
Proof.
  intros Hr. pose proof (ring_len_bound (rx_queue u)). eapply wp_mono; [|apply drain_spec; try done].
  - cbv beta. intros n u' Hd. split; [done|]. destruct Hd as (t & _ & _ & _ & ? & Hl & Hn).
    apply (f_equal length) in Hl. rewrite length_app, !ring_list_length, length_take in Hl.
    pose proof (ring_len_bound (rx_queue u')). lia.
  - unfold ROOM, CAP in *. lia.
  - lia.
Qed.
End with_device.

(** ** A concrete 16550 *)

Record chip := { c_rx : list Z; c_seen : list Z; c_line : list Z; c_busy : bool }.

#[export] Instance chip_bus : Bus chip := {
  read_volatile a c :=
    if a =? uart_reg reg.LSR then
      (Z.lor (if c_rx c is [] then 0 else lsr_DATA_READY) (if c_busy c then 0 else lsr_THR_EMPTY),
       {| c_rx := c_rx c; c_seen := c_seen c; c_line := c_line c; c_busy := false |})
    else if a =? uart_reg reg.RBR_THR_DLL then
      match c_rx c with
      | [] => (0, c)
      | b :: l => (b, {| c_rx := l; c_seen := c_seen c ++ [b]; c_line := c_line c; c_busy := c_busy c |})
      end
    else (0, c);
  write_volatile a b c :=
    if a =? uart_reg reg.RBR_THR_DLL
    then {| c_rx := c_rx c; c_seen := c_seen c; c_line := c_line c ++ [b]; c_busy := true |}
    else c }.

#[export, refine] Instance chip_16550 : Uart16550 chip := {|
  rx_fifo := c_rx; delivered := c_seen; tx_line := c_line;
  thr_busy c := if c_busy c then 1%nat else 0%nat; thr_max := 1%nat |}.
Proof.
  - intros [? ? ? []]; simpl; lia.
  - intros [[|] ? ? []] v d'; cbn; intros [= <- <-]; split_and!; done.
  - intros [rx ? ? ?] v d' b l; cbn. intros Hrd ->. by injection Hrd as <- <-.
  - intros [? ? ? []] b; cbn; done.
Defined.

Definition chip_uart (rx : list Z) (r : RxRing) : uart chip :=
  {| dev := {| c_rx := rx; c_seen := []; c_line := []; c_busy := true |};
     rx_queue := r; initialised := true; uart_ready := true |}.

Lemma handle_interrupt_correct_witness :
  wp handle_interrupt (λ n u', drained 0 (chip_uart [108; 115] RxRing_new) n u' ∧ 0 ≤ n ≤ ROOM)
    (chip_uart [108; 115] RxRing_new).
Proof. apply (handle_interrupt_correct (chip_uart [108; 115] RxRing_new)), ring_new_ok. Defined.
