(* ===== verification/Asm.v ===== *)
(** * The assembly routines that save and restore registers
    (task/switch.S, trap/trap.S, trap/user.S)

    The instructions these files use, with their effect on the register file,
    the four control registers they touch and memory seen as 8-byte words, and
    the routines transcribed instruction by instruction. *)
From stdpp Require Import base numbers list.
From S2P Require Import Prelude.

(** ** The machine *)

Inductive csr := sstatus | sepc | sscratch.
#[export] Instance csr_eq_dec : EqDecision csr.
Proof. solve_decision. Defined.

(** [pc_next] is where [ret] and [sret] send the hart. *)
Record hart := mkHart { x : Z → Z; csrs : csr → Z; words : Z → Z; pc_next : option Z }.

Inductive instr :=
| sd (rs off base : Z)
| ld (rd off base : Z)
| addi (rd rs imm : Z)
| mv (rd rs : Z)
| csrr (rd : Z) (c : csr)
| csrw (c : csr) (rs : Z)
| csrrw (rd : Z) (c : csr) (rs : Z)
| ret
| sret.

(** Register names of the C ABI. *)
Definition ra : Z := 1.
Definition sp : Z := 2.
Definition tp : Z := 4.
Definition t0 : Z := 5.
Definition t1 : Z := 6.
Definition s0 : Z := 8.
Definition s1 : Z := 9.
Definition a0 : Z := 10.
Definition a1 : Z := 11.
Definition s2 : Z := 18.
Definition s3 : Z := 19.
Definition s4 : Z := 20.
Definition s5 : Z := 21.
Definition s6 : Z := 22.
Definition s7 : Z := 23.
Definition s8 : Z := 24.
Definition s9 : Z := 25.
Definition s10 : Z := 26.
Definition s11 : Z := 27.

Definition upd {A B} `{EqDecision A} (f : A → B) (a : A) (b : B) : A → B :=
  λ a', if decide (a' = a) then b else f a'.

(** Register zero reads as zero and ignores writes. *)
Definition rd_reg (h : hart) (r : Z) : Z := if r =? 0 then 0 else x h r.
Definition wr_reg (h : hart) (r v : Z) : hart :=
  if r =? 0 then h else mkHart (upd (x h) r v) (csrs h) (words h) (pc_next h).
Definition addr (h : hart) (base off : Z) : Z := (rd_reg h base + off) `mod` U64.

(** What [sret] does to the status: SIE (bit 1) takes the value of SPIE (bit 5),
    SPIE is set and SPP (bit 8), the mode returned to, is cleared. *)
Definition sret_status (s : Z) : Z :=
  let s := if Z.testbit s 5 then Z.setbit s 1 else Z.clearbit s 1 in
  Z.clearbit (Z.setbit s 5) 8.

Definition exec (i : instr) (h : hart) : hart :=
  match i with
  | sd rs off base => mkHart (x h) (csrs h) (upd (words h) (addr h base off) (rd_reg h rs)) (pc_next h)
  | ld rd off base => wr_reg h rd (words h (addr h base off))
  | addi rd rs imm => wr_reg h rd ((rd_reg h rs + imm) `mod` U64)
  | mv rd rs => wr_reg h rd (rd_reg h rs)
  | csrr rd c => wr_reg h rd (csrs h c)
  | csrw c rs => mkHart (x h) (upd (csrs h) c (rd_reg h rs)) (words h) (pc_next h)
  | csrrw rd c rs => wr_reg (mkHart (x h) (upd (csrs h) c (rd_reg h rs)) (words h) (pc_next h)) rd (csrs h c)
  | ret => mkHart (x h) (csrs h) (words h) (Some (rd_reg h ra))
  | sret => mkHart (x h) (upd (csrs h) sstatus (sret_status (csrs h sstatus))) (words h) (Some (csrs h sepc))
  end.

Definition run (l : list instr) (h : hart) : hart := foldl (λ h i, exec i h) h l.

(** ** The routines *)

Definition switch_context : list instr :=
  [ sd ra 0 a0; sd sp 8 a0; sd s0 16 a0; sd s1 24 a0; sd s2 32 a0; sd s3 40 a0; sd s4 48 a0;
    sd s5 56 a0; sd s6 64 a0; sd s7 72 a0; sd s8 80 a0; sd s9 88 a0; sd s10 96 a0; sd s11 104 a0;
    ld ra 0 a1; ld sp 8 a1; ld s0 16 a1; ld s1 24 a1; ld s2 32 a1; ld s3 40 a1; ld s4 48 a1;
    ld s5 56 a1; ld s6 64 a1; ld s7 72 a1; ld s8 80 a1; ld s9 88 a1; ld s10 96 a1; ld s11 104 a1;
    ret ].

Definition FRAME_SIZE : Z := 304.

(** Up to the call of [kernel_trap_handler]. *)
Definition kernel_trap_entry : list instr :=
  [ addi sp sp (- FRAME_SIZE);
    sd 1 (1*8) sp; addi t0 sp FRAME_SIZE; sd t0 (2*8) sp;
    sd 3 (3*8) sp; sd 4 (4*8) sp; sd 5 (5*8) sp; sd 6 (6*8) sp; sd 7 (7*8) sp; sd 8 (8*8) sp;
    sd 9 (9*8) sp; sd 10 (10*8) sp; sd 11 (11*8) sp; sd 12 (12*8) sp; sd 13 (13*8) sp;
    sd 14 (14*8) sp; sd 15 (15*8) sp; sd 16 (16*8) sp; sd 17 (17*8) sp; sd 18 (18*8) sp;
    sd 19 (19*8) sp; sd 20 (20*8) sp; sd 21 (21*8) sp; sd 22 (22*8) sp; sd 23 (23*8) sp;
    sd 24 (24*8) sp; sd 25 (25*8) sp; sd 26 (26*8) sp; sd 27 (27*8) sp; sd 28 (28*8) sp;
    sd 29 (29*8) sp; sd 30 (30*8) sp; sd 31 (31*8) sp;
    csrr t0 sstatus; sd t0 (32*8) sp; csrr t1 sepc; sd t1 (33*8) sp;
    mv a0 sp ].

(** After the handler returns. *)
Definition kernel_trap_exit : list instr :=
  [ ld t0 (32*8) sp; csrw sstatus t0; ld t1 (33*8) sp; csrw sepc t1;
    ld 1 (1*8) sp; ld 3 (3*8) sp; ld 4 (4*8) sp; ld 5 (5*8) sp; ld 6 (6*8) sp; ld 7 (7*8) sp;
    ld 8 (8*8) sp; ld 9 (9*8) sp; ld 10 (10*8) sp; ld 11 (11*8) sp; ld 12 (12*8) sp;
    ld 13 (13*8) sp; ld 14 (14*8) sp; ld 15 (15*8) sp; ld 16 (16*8) sp; ld 17 (17*8) sp;
    ld 18 (18*8) sp; ld 19 (19*8) sp; ld 20 (20*8) sp; ld 21 (21*8) sp; ld 22 (22*8) sp;
    ld 23 (23*8) sp; ld 24 (24*8) sp; ld 25 (25*8) sp; ld 26 (26*8) sp; ld 27 (27*8) sp;
    ld 28 (28*8) sp; ld 29 (29*8) sp; ld 30 (30*8) sp; ld 31 (31*8) sp;
    addi sp sp FRAME_SIZE; sret ].

(** Up to the call of [user_trap_handler]. *)
Definition user_trap_entry : list instr :=
  [ csrrw sp sscratch sp;
    sd 1 (1*8) sp; sd 3 (3*8) sp; sd 4 (4*8) sp; sd 5 (5*8) sp; sd 6 (6*8) sp; sd 7 (7*8) sp;
    sd 8 (8*8) sp; sd 9 (9*8) sp; sd 10 (10*8) sp; sd 11 (11*8) sp; sd 12 (12*8) sp;
    sd 13 (13*8) sp; sd 14 (14*8) sp; sd 15 (15*8) sp; sd 16 (16*8) sp; sd 17 (17*8) sp;
    sd 18 (18*8) sp; sd 19 (19*8) sp; sd 20 (20*8) sp; sd 21 (21*8) sp; sd 22 (22*8) sp;
    sd 23 (23*8) sp; sd 24 (24*8) sp; sd 25 (25*8) sp; sd 26 (26*8) sp; sd 27 (27*8) sp;
    sd 28 (28*8) sp; sd 29 (29*8) sp; sd 30 (30*8) sp; sd 31 (31*8) sp;
    csrr t0 sscratch; sd t0 (2*8) sp; csrr t0 sstatus; sd t0 (32*8) sp; csrr t0 sepc; sd t0 (33*8) sp;
    mv a0 sp; ld tp (37*8) sp; ld sp (34*8) sp ].

(** [a0] is the frame to resume. *)
Definition user_trap_return : list instr :=
  [ csrw sscratch a0;
    ld t0 (32*8) a0; csrw sstatus t0; ld t0 (33*8) a0; csrw sepc t0;
    ld 1 (1*8) a0; ld 2 (2*8) a0; ld 3 (3*8) a0; ld 4 (4*8) a0; ld 5 (5*8) a0; ld 6 (6*8) a0;
    ld 7 (7*8) a0; ld 8 (8*8) a0; ld 9 (9*8) a0; ld 11 (11*8) a0; ld 12 (12*8) a0;
    ld 13 (13*8) a0; ld 14 (14*8) a0; ld 15 (15*8) a0; ld 16 (16*8) a0; ld 17 (17*8) a0;
    ld 18 (18*8) a0; ld 19 (19*8) a0; ld 20 (20*8) a0; ld 21 (21*8) a0; ld 22 (22*8) a0;
    ld 23 (23*8) a0; ld 24 (24*8) a0; ld 25 (25*8) a0; ld 26 (26*8) a0; ld 27 (27*8) a0;
    ld 28 (28*8) a0; ld 29 (29*8) a0; ld 30 (30*8) a0; ld 31 (31*8) a0;
    ld 10 (10*8) a0; sret ].
