(* ===== verification/AsmProps.v ===== *)
(** * Register preservation of the assembly routines

    A context switch saves and reloads the callee-saved registers, a trap from
    user mode gives every register back; a trap taken in the kernel gives back
    every register but [t0], which the entry sequence overwrites before saving. *)
From stdpp Require Import base numbers list.
From S2P Require Import Prelude Asm.

(** ** Runs of stores and runs of loads *)

Definition stores (base : Z) (l : list (Z * Z)) : list instr := (λ '(r, off), sd r off base) <$> l.
Definition loads (base : Z) (l : list (Z * Z)) : list instr := (λ '(r, off), ld r off base) <$> l.

Lemma run_app l1 l2 h : run (l1 ++ l2) h = run l2 (run l1 h).
Proof. apply foldl_app. Qed.

Lemma upd_eq {A B} `{EqDecision A} (f : A → B) a b : upd f a b a = b.
Proof. unfold upd. by rewrite decide_True. Qed.
Lemma upd_ne {A B} `{EqDecision A} (f : A → B) a b a' : a' ≠ a → upd f a b a' = f a'.
Proof. intros. unfold upd. by rewrite decide_False. Qed.

(** The same registers, control registers and program counter. *)
Definition same_regs (h h' : hart) : Prop := x h' = x h ∧ csrs h' = csrs h ∧ pc_next h' = pc_next h.

Lemma same_regs_rd h h' r : same_regs h h' → rd_reg h' r = rd_reg h r.
Proof. intros (Hx & _). unfold rd_reg. by rewrite Hx. Qed.
Lemma same_regs_addr h h' b o : same_regs h h' → addr h' b o = addr h b o.
Proof. intros Hs. unfold addr. by rewrite (same_regs_rd h h'). Qed.

Lemma addr_inj h b o o' : 0 ≤ o < 512 → 0 ≤ o' < 512 → addr h b o = addr h b o' → o = o'.
Proof. unfold addr, U64. intros. Z.div_mod_to_equations. lia. Qed.

Definition offs_ok (l : list (Z * Z)) : Prop := Forall (λ o, 0 ≤ o < 512) l.*2.

Lemma run_stores base l h : offs_ok l → NoDup l.*2 →
  let h' := run (stores base l) h in
  same_regs h h' ∧
  (∀ r o, (r, o) ∈ l → words h' (addr h base o) = rd_reg h r) ∧
  (∀ a, (∀ o, o ∈ l.*2 → a ≠ addr h base o) → words h' a = words h a).
Proof.
  revert h. induction l as [|[r o] l IH]; intros h Hb Hn; [split_and!; try done; by intros ?? ?%elem_of_nil|].
  unfold offs_ok in *. simpl in Hb, Hn. apply Forall_cons in Hb as [Ho Hb]. apply NoDup_cons in Hn as [Hni Hn].
  set (h1 := exec (sd r o base) h). assert (Hs1 : same_regs h h1) by done.
  destruct (IH h1 Hb Hn) as (Hs & Hin & Hout). cbn zeta. change (run (stores base ((r, o) :: l)) h) with (run (stores base l) h1).
  split_and!.
  - destruct Hs as (H1 & H2 & H3). unfold same_regs. by rewrite H1, H2, H3.
  - intros r' o' [[= -> ->]|Hin']%elem_of_cons.
    + rewrite Hout; [apply upd_eq|]. intros o1 Ho1. rewrite (same_regs_addr h h1) by done.
      intros Heq. apply addr_inj in Heq; [by subst|done|by eapply (proj1 (Forall_forall _ _)) in Hb].
    + rewrite <-(same_regs_addr h h1), <-(same_regs_rd h h1) by done. by apply Hin.
  - intros a Ha. rewrite Hout.
    + apply upd_ne. apply Ha. left.
    + intros o1 Ho1. rewrite (same_regs_addr h h1) by done. apply Ha. by right.
Qed.

Lemma rd_wr_ne h r v b : b ≠ r → rd_reg (wr_reg h r v) b = rd_reg h b.
Proof.
  intros. unfold rd_reg, wr_reg. destruct (r =? 0), (b =? 0); try done. simpl. by apply upd_ne.
Qed.
Lemma rd_wr_eq h r v : r ≠ 0 → rd_reg (wr_reg h r v) r = v.
Proof. intros. unfold rd_reg, wr_reg. destruct (Z.eqb_spec r 0); [done|]. simpl. apply upd_eq. Qed.
Lemma wr_reg_rest h r v : words (wr_reg h r v) = words h ∧ csrs (wr_reg h r v) = csrs h ∧ pc_next (wr_reg h r v) = pc_next h.
Proof. unfold wr_reg. by destruct (r =? 0). Qed.

Lemma run_loads base l h : base ∉ l.*1 → NoDup l.*1 → 0 ∉ l.*1 →
  let h' := run (loads base l) h in
  words h' = words h ∧ csrs h' = csrs h ∧ pc_next h' = pc_next h ∧
  (∀ r o, (r, o) ∈ l → rd_reg h' r = words h (addr h base o)) ∧
  (∀ r, r ∉ l.*1 → rd_reg h' r = rd_reg h r).
Proof.
  revert h. induction l as [|[r o] l IH]; intros h Hb Hn Hz; [split_and!; try done; by intros ?? ?%elem_of_nil|].
  simpl in Hb, Hn, Hz. apply NoDup_cons in Hn as [Hni Hn].
  apply not_elem_of_cons in Hb as [Hbr Hb], Hz as [Hzr Hz].
  set (h1 := exec (ld r o base) h). cbn zeta. change (run (loads base ((r, o) :: l)) h) with (run (loads base l) h1).
  destruct (IH h1 Hb Hn Hz) as (Hw & Hc & Hp & Hin & Hout).
  destruct (wr_reg_rest h r (words h (addr h base o))) as (Hw1 & Hc1 & Hp1).
  assert (Ha : ∀ o', addr h1 base o' = addr h base o') by (intros o'; unfold addr, h1; simpl; by rewrite rd_wr_ne).
  split_and!; [by rewrite Hw|by rewrite Hc|by rewrite Hp|..].
  - intros r' o' [[= -> ->]|Hin']%elem_of_cons; [rewrite Hout by done; by apply rd_wr_eq|].
    rewrite (Hin r' o') by done. rewrite Ha. unfold h1. simpl. by rewrite Hw1.
  - intros r' [Hr' Hl']%not_elem_of_cons. rewrite Hout by done. by apply rd_wr_ne.
Qed.

Lemma run_cons i l h : run (i :: l) h = run l (exec i h).
Proof. reflexivity. Qed.
Lemma run_nil h : run [] h = h.
Proof. reflexivity. Qed.
#[local] Opaque run.

(** ** Context switch *)

(** [TaskContext]: [ra], [sp], [s0]..[s11] in order. *)
Definition ctx_layout : list (Z * Z) :=
  [(ra, 0); (sp, 8); (s0, 16); (s1, 24); (s2, 32); (s3, 40); (s4, 48); (s5, 56); (s6, 64); (s7, 72);
   (s8, 80); (s9, 88); (s10, 96); (s11, 104)].

Lemma switch_context_split : switch_context = stores a0 ctx_layout ++ loads a1 ctx_layout ++ [ret].
Proof. reflexivity. Qed.

Lemma save_load_spec (l : list (Z * Z)) h : offs_ok l → NoDup l.*2 → NoDup l.*1 → 0 ∉ l.*1 → a1 ∉ l.*1 →
  let h' := run (stores a0 l ++ loads a1 l ++ [ret]) h in
  (∀ r o, (r, o) ∈ l → words h' (addr h a0 o) = rd_reg h r) ∧
  (∀ a, (∀ o, o ∈ l.*2 → a ≠ addr h a0 o) → words h' a = words h a) ∧
  (∀ r o, (r, o) ∈ l → rd_reg h' r = words h' (addr h a1 o)) ∧
  (∀ r, r ∉ l.*1 → rd_reg h' r = rd_reg h r) ∧
  csrs h' = csrs h ∧ pc_next h' = Some (rd_reg h' ra).
Proof.
  intros Ho Hn2 Hn1 Hz Ha1. cbn zeta. rewrite !run_app, run_cons, run_nil.
  destruct (run_stores a0 l h Ho Hn2) as (Hs & Hin & Hout). set (h1 := run (stores a0 l) h) in *.
  destruct (run_loads a1 l h1 Ha1 Hn1 Hz) as (Hw & Hc & _ & Hl & Hr). set (h2 := run (loads a1 l) h1) in *.
  cbn [exec words csrs pc_next]. rewrite Hw, Hc. destruct Hs as (Hx & Hcs & Hpc).
  assert (Hrd : ∀ r, rd_reg h1 r = rd_reg h r) by (intros r; by apply same_regs_rd).
  split_and!; try done.
  - intros r o Hro. change (rd_reg h2 r = words h1 (addr h a1 o)). rewrite (Hl r o Hro). unfold addr. by rewrite Hrd.
  - intros r Hro. change (rd_reg h2 r = rd_reg h r). by rewrite Hr.
Qed.

Lemma switch_context_spec h :
  let h' := run switch_context h in
  (∀ r o, (r, o) ∈ ctx_layout → words h' (addr h a0 o) = rd_reg h r) ∧
  (∀ a, (∀ o, o ∈ ctx_layout.*2 → a ≠ addr h a0 o) → words h' a = words h a) ∧
  (∀ r o, (r, o) ∈ ctx_layout → rd_reg h' r = words h' (addr h a1 o)) ∧
  (∀ r, r ∉ ctx_layout.*1 → rd_reg h' r = rd_reg h r) ∧
  csrs h' = csrs h ∧ pc_next h' = Some (rd_reg h' ra).
Proof. rewrite switch_context_split. apply save_load_spec; [repeat constructor; done|list_side..]. Qed.

(** C28: a context switch resumes exactly where the task left off.  The task
    runs [switch_context] in state [h], with its context at [a0]; later some
    context runs it in state [h2] with that context at [a1], nobody having
    written the saved words and the two contexts being disjoint.  Then the
    return address, the stack pointer and [s0]..[s11] are as they were, and
    control continues at the task's own return address. *)
Theorem switch_context_resumes h h2 :
  rd_reg h2 a1 = rd_reg h a0 →
  (∀ o, o ∈ ctx_layout.*2 → words h2 (addr h a0 o) = words (run switch_context h) (addr h a0 o)) →
  (∀ o o', o ∈ ctx_layout.*2 → o' ∈ ctx_layout.*2 → addr h2 a1 o ≠ addr h2 a0 o') →
  (∀ r, r ∈ ctx_layout.*1 → rd_reg (run switch_context h2) r = rd_reg h r) ∧
  pc_next (run switch_context h2) = Some (rd_reg h ra).
Proof.
  intros Ha Hkept Hdis. destruct (switch_context_spec h) as (Hsave & _).
  destruct (switch_context_spec h2) as (_ & Hother & Hload & _ & _ & Hpc).
  assert (Hr : ∀ r, r ∈ ctx_layout.*1 → rd_reg (run switch_context h2) r = rd_reg h r).
  { intros r Hr. apply list_elem_of_fmap in Hr as ([r' o] & -> & Hro). simpl.
    assert (Ho : o ∈ ctx_layout.*2) by (apply list_elem_of_fmap; by exists (r', o)).
    rewrite (Hload r' o Hro), Hother by (intros o' Ho'; by apply Hdis).
    replace (addr h2 a1 o) with (addr h a0 o) by (unfold addr; by rewrite Ha).
    rewrite Hkept by done. by apply Hsave. }
  split; [exact Hr|]. rewrite Hpc, Hr; [done|left].
Qed.

(** ** Runs that save or restore control registers through a temporary *)

Definition save_csrs (base : Z) (l : list (Z * csr * Z)) : list instr :=
  '(t, c, o) ← l; [csrr t c; sd t o base].
Definition load_csrs (base : Z) (l : list (Z * csr * Z)) : list instr :=
  '(t, c, o) ← l; [ld t o base; csrw c t].

Definition temps (l : list (Z * csr * Z)) : list Z := l.*1.*1.
Definition targets (l : list (Z * csr * Z)) : list csr := l.*1.*2.

Lemma run_save_csrs base l h : offs_ok (prod_map fst id <$> l) → NoDup l.*2 → base ∉ temps l → 0 ∉ temps l →
  let h' := run (save_csrs base l) h in
  csrs h' = csrs h ∧ pc_next h' = pc_next h ∧ (∀ r, r ∉ temps l → rd_reg h' r = rd_reg h r) ∧
  (∀ t c o, (t, c, o) ∈ l → words h' (addr h base o) = csrs h c) ∧
  (∀ a, (∀ o, o ∈ l.*2 → a ≠ addr h base o) → words h' a = words h a).
Proof.
  revert h. induction l as [|[[t c] o] l IH]; intros h Hb Hn Ht Hz; [split_and!; try done; by intros ??? ?%elem_of_nil|].
  unfold offs_ok, temps in *. simpl in Hb, Hn, Ht, Hz. apply Forall_cons in Hb as [Ho Hb]. apply NoDup_cons in Hn as [Hni Hn].
  apply not_elem_of_cons in Ht as [Htb Ht], Hz as [Hzt Hz].
  set (h1 := exec (sd t o base) (exec (csrr t c) h)). cbn zeta.
  change (save_csrs base ((t, c, o) :: l)) with (csrr t c :: sd t o base :: save_csrs base l).
  rewrite !run_cons. change (exec (sd t o base) (exec (csrr t c) h)) with h1.
  destruct (IH h1 Hb Hn Ht Hz) as (Hc & Hp & Hr & Hin & Hout). clear IH.
  destruct (wr_reg_rest h t (csrs h c)) as (Hw1 & Hc1 & Hp1).
  assert (Hr1 : ∀ r, r ≠ t → rd_reg h1 r = rd_reg h r) by (intros r ?; unfold h1; simpl; by rewrite <-(rd_wr_ne h t (csrs h c))).
  assert (Ha : ∀ o', addr h1 base o' = addr h base o') by (intros o'; unfold addr; by rewrite Hr1).
  assert (Hww : words h1 = upd (words h) (addr h base o) (csrs h c)).
  { unfold h1. simpl. rewrite Hw1, rd_wr_eq by done. unfold addr. by rewrite rd_wr_ne. }
  assert (Hl2 : ∀ o', o' ∈ l.*2 → o' ∈ (prod_map fst (@id Z) <$> l).*2).
  { intros o' Ho'. rewrite <-list_fmap_compose. apply list_elem_of_fmap in Ho' as (y & -> & Hy).
    apply list_elem_of_fmap. by exists y. }
  split_and!.
  - rewrite Hc. exact Hc1.
  - rewrite Hp. exact Hp1.
  - intros r [Hrt Hrl]%not_elem_of_cons. by rewrite Hr, Hr1.
  - intros t' c' o' [[= -> -> ->]|Hin']%elem_of_cons.
    + rewrite Hout, Hww; [apply upd_eq|]. intros o1 Ho1. rewrite Ha. intros Heq. apply addr_inj in Heq; [by subst|done|].
      apply (proj1 (Forall_forall _ _) Hb). by apply Hl2.
    + rewrite <-Ha, (Hin t' c' o' Hin'). unfold h1. simpl. by rewrite Hc1.
  - intros a Haa. rewrite Hout, Hww; [apply upd_ne, Haa; left|]. intros o1 Ho1. rewrite Ha. apply Haa. by right.
Qed.

Lemma run_load_csrs base l h : base ∉ temps l → 0 ∉ temps l → NoDup (targets l) →
  let h' := run (load_csrs base l) h in
  words h' = words h ∧ pc_next h' = pc_next h ∧ (∀ r, r ∉ temps l → rd_reg h' r = rd_reg h r) ∧
  (∀ t c o, (t, c, o) ∈ l → csrs h' c = words h (addr h base o)) ∧
  (∀ c, c ∉ targets l → csrs h' c = csrs h c).
Proof.
  revert h. induction l as [|[[t c] o] l IH]; intros h Ht Hz Hn; [split_and!; try done; by intros ??? ?%elem_of_nil|].
  unfold temps, targets in *. simpl in Hn, Ht, Hz. apply NoDup_cons in Hn as [Hni Hn].
  apply not_elem_of_cons in Ht as [Htb Ht], Hz as [Hzt Hz].
  set (h1 := exec (csrw c t) (exec (ld t o base) h)). cbn zeta.
  change (load_csrs base ((t, c, o) :: l)) with (ld t o base :: csrw c t :: load_csrs base l).
  rewrite !run_cons. change (exec (csrw c t) (exec (ld t o base) h)) with h1.
  destruct (IH h1 Ht Hz Hn) as (Hw & Hp & Hr & Hin & Hout). clear IH.
  destruct (wr_reg_rest h t (words h (addr h base o))) as (Hw1 & Hc1 & Hp1).
  assert (Hr1 : ∀ r, r ≠ t → rd_reg h1 r = rd_reg h r) by (intros r ?; exact (rd_wr_ne h t _ r ltac:(done))).
  assert (Hcc : csrs h1 = upd (csrs h) c (words h (addr h base o))).
  { unfold h1. simpl. by rewrite Hc1, rd_wr_eq by done. }
  split_and!.
  - rewrite Hw. exact Hw1.
  - rewrite Hp. exact Hp1.
  - intros r [Hrt Hrl]%not_elem_of_cons. by rewrite Hr, Hr1.
  - intros t' c' o' [[= -> -> ->]|Hin']%elem_of_cons.
    + rewrite Hout, Hcc by done. apply upd_eq.
    + rewrite (Hin t' c' o' Hin'). replace (addr h1 base o') with (addr h base o') by (unfold addr; by rewrite Hr1).
      exact (f_equal (λ w, w _) Hw1).
  - intros c' [Hc' Hl']%not_elem_of_cons. rewrite Hout, Hcc by done. by apply upd_ne.
Qed.

(** ** Traps from user mode *)

Definition numbered (l : list Z) : list (Z * Z) := (λ i, (i, i * 8)) <$> l.
Lemma numbered_elem l r : r ∈ l → (r, r * 8) ∈ numbered l.
Proof. intros. apply list_elem_of_fmap. by exists r. Qed.

(** The slot of word [i] of the trap frame at [f]. *)
Definition slot (f i : Z) : Z := (f + i * 8) `mod` U64.
Lemma slot_addr h b i : addr h b (i * 8) = slot (rd_reg h b) i.
Proof. done. Qed.

Definition user_saved : list Z := 1 :: seqZ 3 29.
Definition user_loaded : list Z := seqZ 1 9 ++ seqZ 11 21.
Definition user_csrs_saved : list (Z * csr * Z) := [(t0, sscratch, 2*8); (t0, sstatus, 32*8); (t0, sepc, 33*8)].
Definition user_csrs_loaded : list (Z * csr * Z) := [(t0, sstatus, 32*8); (t0, sepc, 33*8)].

Lemma user_trap_entry_split : user_trap_entry =
  [csrrw sp sscratch sp] ++ stores sp (numbered user_saved) ++ save_csrs sp user_csrs_saved ++
  [mv a0 sp; ld tp (37*8) sp; ld sp (34*8) sp].
Proof. reflexivity. Qed.

Lemma user_trap_return_split : user_trap_return =
  [csrw sscratch a0] ++ load_csrs a0 user_csrs_loaded ++ loads a0 (numbered user_loaded) ++ [ld 10 (10*8) a0; sret].
Proof. reflexivity. Qed.

(** The frame word at byte offset [o]. *)
Definition fword (f o : Z) : Z := (f + o) `mod` U64.
Lemma fword_inj f o o' : 0 ≤ o < 512 → 0 ≤ o' < 512 → fword f o = fword f o' → o = o'.
Proof. unfold fword, U64. intros. Z.div_mod_to_equations. lia. Qed.

Definition coffs_ok (cl : list (Z * csr * Z)) : Prop := offs_ok (prod_map fst id <$> cl).

Lemma user_entry_gen l cl h :
  offs_ok l → coffs_ok cl → NoDup l.*2 → NoDup cl.*2 → (∀ o, o ∈ l.*2 → o ∉ cl.*2) →
  sp ∉ temps cl → 0 ∉ temps cl → sp ∉ l.*1 →
  let f := csrs h sscratch in
  let h' := run ([csrrw sp sscratch sp] ++ stores sp l ++ save_csrs sp cl ++
    [mv a0 sp; ld tp (37*8) sp; ld sp (34*8) sp]) h in
  (∀ r o, (r, o) ∈ l → words h' (fword f o) = rd_reg h r) ∧
  (∀ t c o, (t, c, o) ∈ cl → words h' (fword f o) = if decide (c = sscratch) then rd_reg h sp else csrs h c) ∧
  (∀ a, (∀ o, o ∈ l.*2 ++ cl.*2 → a ≠ fword f o) → words h' a = words h a) ∧
  rd_reg h' a0 = f ∧ rd_reg h' tp = words h' (fword f (37*8)) ∧ rd_reg h' sp = words h' (fword f (34*8)).
Proof.
  intros Hlo Hclo Hn2 Hcn2 Hdis Hspt Hzt Hspl. cbn zeta. rewrite !run_app, !run_cons, !run_nil.
  set (f := csrs h sscratch). set (h1 := exec (csrrw sp sscratch sp) h).
  assert (Hsp1 : rd_reg h1 sp = f) by by apply rd_wr_eq.
  assert (Hr1 : ∀ r, r ≠ sp → rd_reg h1 r = rd_reg h r) by (intros r ?; unfold h1; simpl; by rewrite rd_wr_ne).
  assert (Hc1 : csrs h1 = upd (csrs h) sscratch (rd_reg h sp)) by done.
  assert (Hw1 : words h1 = words h) by done. clearbody h1.
  destruct (run_stores sp l h1 Hlo Hn2) as (Hs2 & Hin2 & Hout2). set (h2 := run (stores sp l) h1) in *.
  destruct (run_save_csrs sp cl h2 Hclo Hcn2 Hspt Hzt) as (Hc3 & _ & Hr3 & Hin3 & Hout3).
  set (h3 := run (save_csrs sp cl) h2) in *. clearbody h3.
  assert (Ha2 : ∀ o, addr h2 sp o = fword f o).
  { intros o. unfold addr, fword. by rewrite (same_regs_rd h1 h2 sp Hs2), Hsp1. }
  assert (Ha1 : ∀ o, addr h1 sp o = fword f o) by (intros o; unfold addr, fword; by rewrite Hsp1).
  assert (Hsp3 : rd_reg h3 sp = f) by by rewrite Hr3, (same_regs_rd h1 h2 sp Hs2).
  assert (Hend : ∀ hh, rd_reg hh sp = f →
    let h' := exec (ld sp (34*8) sp) (exec (ld tp (37*8) sp) (exec (mv a0 sp) hh)) in
    words h' = words hh ∧ rd_reg h' a0 = f ∧ rd_reg h' tp = words hh (fword f (37*8)) ∧
    rd_reg h' sp = words hh (fword f (34*8))).
  { intros hh Hsp. cbn zeta. unfold exec. rewrite !rd_wr_ne by done. rewrite !rd_wr_eq by done. unfold addr.
    rewrite !rd_wr_ne by done. rewrite Hsp. by repeat (rewrite (proj1 (wr_reg_rest _ _ _))). }
  destruct (Hend h3 Hsp3) as (Hw & ? & ? & ?). cbn zeta in Hw. rewrite Hw. split_and!; try done.
  - intros r o Hro. rewrite Hout3.
    + rewrite <-Ha1, (Hin2 r o Hro). apply Hr1. intros ->. apply Hspl, list_elem_of_fmap. by exists (sp, o).
    + intros o' Ho'. rewrite Ha2. intros Heq. assert (Ho : o ∈ l.*2) by (apply list_elem_of_fmap; by exists (r, o)).
      apply fword_inj in Heq as ->; [by apply (Hdis o')| |].
      * by apply (proj1 (Forall_forall _ _) Hlo).
      * apply (proj1 (Forall_forall _ _) Hclo). apply list_elem_of_fmap in Ho' as (y & -> & Hy).
        rewrite <-list_fmap_compose. apply list_elem_of_fmap. by exists y.
  - intros t c o Hco. rewrite <-Ha2, (Hin3 t c o Hco). destruct Hs2 as (_ & -> & _). rewrite Hc1.
    case_decide as Hd; [subst; apply upd_eq|by apply upd_ne].
  - intros a Ha. rewrite Hout3, Hout2, Hw1; [done|..]; intros o Ho; rewrite ?Ha1, ?Ha2; apply Ha, elem_of_app; auto.
Qed.

(** A control register loaded with [v], after [sret]. *)
Definition resumed (c : csr) (v : Z) : Z := if decide (c = sstatus) then sret_status v else v.
Lemma sret_csrs h c : csrs (exec sret h) c = resumed c (csrs h c).
Proof. unfold resumed. cbn. unfold upd. by case_decide as Hc; [rewrite Hc|]. Qed.

Lemma user_return_gen l cl h :
  a0 ∉ temps cl → 0 ∉ temps cl → NoDup (targets cl) → sscratch ∉ targets cl →
  a0 ∉ l.*1 → NoDup l.*1 → 0 ∉ l.*1 →
  let f := rd_reg h a0 in
  let h' := run ([csrw sscratch a0] ++ load_csrs a0 cl ++ loads a0 l ++ [ld 10 (10*8) a0; sret]) h in
  (∀ r o, (r, o) ∈ l → rd_reg h' r = words h (fword f o)) ∧ rd_reg h' a0 = words h (fword f (10*8)) ∧
  (∀ t c o, (t, c, o) ∈ cl → csrs h' c = resumed c (words h (fword f o))) ∧
  csrs h' sscratch = f ∧ pc_next h' = Some (csrs h' sepc) ∧ words h' = words h.
Proof.
  intros Ht Hz Hn Hss Hal Hnl Hzl. cbn zeta. rewrite !run_app, !run_cons, !run_nil.
  set (h1 := exec (csrw sscratch a0) h). set (f := rd_reg h a0).
  assert (Hr1 : ∀ r, rd_reg h1 r = rd_reg h r) by done. assert (Hw1 : words h1 = words h) by done.
  assert (Hc1 : csrs h1 sscratch = f) by apply upd_eq. clearbody h1.
  destruct (run_load_csrs a0 cl h1 Ht Hz Hn) as (Hw2 & _ & Hr2 & Hin2 & Hout2). set (h2 := run (load_csrs a0 cl) h1) in *.
  destruct (run_loads a0 l h2 Hal Hnl Hzl) as (Hw3 & Hc3 & _ & Hin3 & Hout3). set (h3 := run (loads a0 l) h2) in *.
  clearbody h3. assert (Hf3 : rd_reg h3 a0 = f) by (rewrite Hout3, Hr2 by done; apply Hr1).
  assert (Ha2 : ∀ o, addr h2 a0 o = fword f o) by (intros o; unfold addr, fword; by rewrite Hr2, Hr1).
  set (h4 := exec (ld 10 (10*8) a0) h3).
  assert (Hw4 : words h4 = words h3 ∧ csrs h4 = csrs h3) by (unfold h4; simpl; by destruct (wr_reg_rest h3 10 (words h3 (addr h3 a0 (10*8)))) as (? & ? & _)).
  assert (Hr4 : ∀ r, r ≠ a0 → rd_reg h4 r = rd_reg h3 r) by (intros r ?; by apply rd_wr_ne).
  assert (Ha4 : rd_reg h4 a0 = words h3 (fword f (10*8))).
  { unfold h4. simpl. rewrite rd_wr_eq by done. unfold addr, fword. by rewrite Hf3. }
  destruct Hw4 as [Hw4 Hc4]. clearbody h4.
  change (rd_reg (exec sret h4)) with (rd_reg h4). rewrite !sret_csrs.
  change (words (exec sret h4)) with (words h4). change (pc_next (exec sret h4)) with (Some (csrs h4 sepc)).
  rewrite Hw4, Hc4, Hw3, Hc3, Hw2, Hw1. split_and!; try done.
  - intros r o Hro. rewrite Hr4, (Hin3 r o Hro), Ha2, Hw2, Hw1; [done|].
    intros ->. apply Hal, list_elem_of_fmap. by exists (a0, o).
  - rewrite Ha4, Hw3, Hw2, Hw1. done.
  - intros t c o Hco. rewrite sret_csrs, Hc4, Hc3, (Hin2 t c o Hco), Hw1. unfold addr, fword. by rewrite Hr1.
  - unfold resumed. by rewrite Hout2.
Qed.

Lemma user_trap_entry_spec h :
  let f := csrs h sscratch in
  let h' := run user_trap_entry h in
  (∀ r, 1 ≤ r ≤ 31 → words h' (slot f r) = rd_reg h r) ∧
  words h' (slot f 32) = csrs h sstatus ∧ words h' (slot f 33) = csrs h sepc ∧
  rd_reg h' a0 = f ∧ rd_reg h' tp = words h' (slot f 37) ∧ rd_reg h' sp = words h' (slot f 34).
Proof.
  cbn zeta. rewrite user_trap_entry_split.
  destruct (user_entry_gen (numbered user_saved) user_csrs_saved h) as (Hin & Hc & _ & Ha & Htp & Hsp).
  1,2: repeat constructor; done. 1,2: list_side. 2-4: list_side.
  { apply (proj1 (Forall_forall (λ o, o ∉ user_csrs_saved.*2) _)). list_side. }
  split_and!; [| | |exact Ha|exact Htp|exact Hsp].
  - intros r Hr. destruct (decide (r = sp)) as [->|Hsp2].
    + apply (Hc t0 sscratch (2*8)). left.
    + apply (Hin r (r * 8)), numbered_elem. unfold user_saved. apply elem_of_cons.
      destruct (decide (r = 1)) as [->|]; [by left|right]. apply elem_of_seqZ. unfold sp in *. lia.
  - apply (Hc t0 sstatus (32*8)). right. left.
  - apply (Hc t0 sepc (33*8)). right. right. left.
Qed.

Lemma user_trap_return_spec h :
  let f := rd_reg h a0 in
  let h' := run user_trap_return h in
  (∀ r, 1 ≤ r ≤ 31 → rd_reg h' r = words h (slot f r)) ∧
  csrs h' sstatus = sret_status (words h (slot f 32)) ∧ csrs h' sepc = words h (slot f 33) ∧ csrs h' sscratch = f ∧
  pc_next h' = Some (csrs h' sepc) ∧ words h' = words h.
Proof.
  cbn zeta. rewrite user_trap_return_split.
  destruct (user_return_gen (numbered user_loaded) user_csrs_loaded h) as (Hin & Ha & Hc & Hs & Hp & Hw); [list_side..|].
  split_and!; [| | |exact Hs|exact Hp|exact Hw].
  - intros r Hr. destruct (decide (r = a0)) as [->|Hra]; [exact Ha|].
    apply (Hin r (r * 8)), numbered_elem. unfold user_loaded. apply elem_of_app. rewrite !elem_of_seqZ. unfold a0 in *. lia.
  - apply (Hc t0 sstatus (32*8)). left.
  - apply (Hc t0 sepc (33*8)). right. left.
Qed.

(** C27: a trap from user mode is transparent.  The entry sequence saves every
    register, the user stack pointer and the status and resume address into the
    task's frame and hands that frame to the handler on the kernel stack; the
    return sequence, given a frame, resumes what it says.  So whatever slot the
    handler leaves alone comes back unchanged, the status with the interrupt
    enable and the mode [sret] takes from it, and the frame is again where the
    next trap will look for it. *)
Theorem user_trap_transparent h h2 :
  rd_reg h2 a0 = csrs h sscratch →
  let f := csrs h sscratch in
  let h1 := run user_trap_entry h in
  let h3 := run user_trap_return h2 in
  rd_reg h1 a0 = f ∧ rd_reg h1 sp = words h1 (slot f 34) ∧ rd_reg h1 tp = words h1 (slot f 37) ∧
  (∀ r, 1 ≤ r ≤ 31 → words h2 (slot f r) = words h1 (slot f r) → rd_reg h3 r = rd_reg h r) ∧
  (words h2 (slot f 32) = words h1 (slot f 32) → csrs h3 sstatus = sret_status (csrs h sstatus)) ∧
  (words h2 (slot f 33) = words h1 (slot f 33) → pc_next h3 = Some (csrs h sepc)) ∧
  csrs h3 sscratch = f.
Proof.
  intros Ha. cbn zeta. destruct (user_trap_entry_spec h) as (E1 & E2 & E3 & E4 & E5 & E6).
  destruct (user_trap_return_spec h2) as (R1 & R2 & R3 & R4 & R5 & _). rewrite Ha in *. split_and!; try done.
  - intros r Hr Hk. by rewrite R1, Hk, E1.
  - intros Hk. by rewrite R2, Hk, E2.
  - intros Hk. by rewrite R5, R3, Hk, E3.
Qed.

(** ** Traps taken in the kernel *)

Definition kernel_csrs : list (Z * csr * Z) := [(t0, sstatus, 32*8); (t1, sepc, 33*8)].
Definition kernel_saved : list (Z * Z) := (t0, 2*8) :: numbered (seqZ 3 29).

Lemma kernel_trap_entry_split : kernel_trap_entry =
  [addi sp sp (- FRAME_SIZE)] ++ stores sp [(1, 1*8)] ++ [addi t0 sp FRAME_SIZE] ++ stores sp kernel_saved ++
  save_csrs sp kernel_csrs ++ [mv a0 sp].
Proof. reflexivity. Qed.

Lemma kernel_trap_exit_split : kernel_trap_exit =
  load_csrs sp kernel_csrs ++ loads sp (numbered (1 :: seqZ 3 29)) ++ [addi sp sp FRAME_SIZE; sret].
Proof. reflexivity. Qed.

Lemma kernel_entry_gen l cl h :
  offs_ok ((1, 1*8) :: l) → coffs_ok cl → NoDup (1*8 :: l.*2) → NoDup cl.*2 → (∀ o, o ∈ 1*8 :: l.*2 → o ∉ cl.*2) →
  sp ∉ temps cl → 0 ∉ temps cl → sp ∉ l.*1 → 0 ≤ rd_reg h sp < U64 →
  let f := (rd_reg h sp - FRAME_SIZE) `mod` U64 in
  let h' := run ([addi sp sp (- FRAME_SIZE)] ++ stores sp [(1, 1*8)] ++ [addi t0 sp FRAME_SIZE] ++ stores sp l ++
    save_csrs sp cl ++ [mv a0 sp]) h in
  words h' (fword f (1*8)) = rd_reg h 1 ∧
  (∀ r o, (r, o) ∈ l → words h' (fword f o) = if decide (r = t0) then rd_reg h sp else rd_reg h r) ∧
  (∀ t c o, (t, c, o) ∈ cl → words h' (fword f o) = csrs h c) ∧
  rd_reg h' a0 = f ∧ rd_reg h' sp = f.
Proof.
  intros Hlo Hclo Hn2 Hcn2 Hdis Hspt Hzt Hspl Hsp. cbn zeta. rewrite !run_app, !run_cons, !run_nil.
  set (f := (rd_reg h sp - FRAME_SIZE) `mod` U64). set (h1 := exec (addi sp sp (- FRAME_SIZE)) h).
  assert (Hsp1 : rd_reg h1 sp = f) by by apply rd_wr_eq.
  assert (Hr1 : ∀ r, r ≠ sp → rd_reg h1 r = rd_reg h r) by (intros r ?; by apply rd_wr_ne).
  assert (Hc1 : csrs h1 = csrs h) by done. clearbody h1.
  apply Forall_cons in Hlo as [Ho1 Hlo]. apply NoDup_cons in Hn2 as [Hni Hn2].
  assert (Hoffs : ∀ o, o ∈ l.*2 → 0 ≤ o < 512) by by apply (proj1 (Forall_forall _ _)).
  assert (Hcoffs : ∀ o, o ∈ cl.*2 → 0 ≤ o < 512).
  { intros o Ho. apply (proj1 (Forall_forall _ _) Hclo). apply list_elem_of_fmap in Ho as (y & -> & Hy).
    rewrite <-list_fmap_compose. apply list_elem_of_fmap. by exists y. }
  destruct (run_stores sp [(1, 1*8)] h1) as (Hs2 & Hin2 & _); [by repeat constructor|apply NoDup_singleton|].
  set (h2 := run (stores sp [(1, 1*8)]) h1) in *.
  assert (Hw2 : words h2 (fword f (1*8)) = rd_reg h 1).
  { specialize (Hin2 1 (1*8) ltac:(left)). unfold addr in Hin2. rewrite Hsp1 in Hin2. unfold fword. by rewrite Hin2, Hr1. }
  assert (Hr2 : ∀ r, rd_reg h2 r = rd_reg h1 r) by (intros; by apply same_regs_rd).
  assert (Hc2 : csrs h2 = csrs h) by (destruct Hs2 as (_ & -> & _); done). clearbody h2.
  set (h3 := exec (addi t0 sp FRAME_SIZE) h2).
  assert (Hsp3 : rd_reg h3 sp = f) by (unfold h3; simpl; rewrite rd_wr_ne by done; by rewrite Hr2).
  assert (Ht3 : rd_reg h3 t0 = rd_reg h sp).
  { unfold h3; simpl; rewrite rd_wr_eq by done. rewrite Hr2, Hsp1. subst f. unfold FRAME_SIZE, U64 in *. Z.div_mod_to_equations. lia. }
  assert (Hr3 : ∀ r, r ≠ t0 → r ≠ sp → rd_reg h3 r = rd_reg h r).
  { intros r ??. unfold h3; simpl. rewrite rd_wr_ne, Hr2 by done. by apply Hr1. }
  assert (Hw3 : words h3 = words h2) by (by apply wr_reg_rest).
  assert (Hc3 : csrs h3 = csrs h) by (rewrite <-Hc2; by apply wr_reg_rest). clearbody h3.
  destruct (run_stores sp l h3 Hlo Hn2) as (Hs4 & Hin4 & Hout4). set (h4 := run (stores sp l) h3) in *.
  destruct (run_save_csrs sp cl h4 Hclo Hcn2 Hspt Hzt) as (_ & _ & Hr5 & Hin5 & Hout5).
  set (h5 := run (save_csrs sp cl) h4) in *. clearbody h5.
  assert (Ha3 : ∀ o, addr h3 sp o = fword f o) by (intros o; unfold addr, fword; by rewrite Hsp3).
  assert (Ha4 : ∀ o, addr h4 sp o = fword f o) by (intros o; by rewrite (same_regs_addr h3 h4)).
  assert (Hsp5 : rd_reg h5 sp = f) by by rewrite Hr5, (same_regs_rd h3 h4 sp Hs4).
  change (words (exec (mv a0 sp) h5)) with (words (wr_reg h5 a0 (rd_reg h5 sp))). rewrite (proj1 (wr_reg_rest h5 _ _)).
  split_and!.
  - rewrite Hout5, Hout4, Hw3; [done|..].
    + intros o Ho. rewrite Ha3. intros Heq. apply fword_inj in Heq as <-; [done|done|by apply Hoffs].
    + intros o Ho. rewrite Ha4. intros Heq. apply fword_inj in Heq as <-; [|done|by apply Hcoffs].
      by apply (Hdis (1*8) ltac:(left)).
  - intros r o Hro. assert (Ho : o ∈ l.*2) by (apply list_elem_of_fmap; by exists (r, o)). rewrite Hout5.
    + rewrite <-Ha3, (Hin4 r o Hro). case_decide; [by subst|]. apply Hr3; [done|].
      intros ->. apply Hspl, list_elem_of_fmap. by exists (sp, o).
    + intros o' Ho'. rewrite Ha4. intros Heq. apply fword_inj in Heq as ->; [|by apply Hoffs|by apply Hcoffs].
      apply (Hdis o'); [by right|done].
  - intros t c o Hco. rewrite <-Ha4, (Hin5 t c o Hco). destruct Hs4 as (_ & -> & _). by rewrite Hc3.
  - simpl. by rewrite rd_wr_eq.
  - simpl. by rewrite rd_wr_ne.
Qed.

Lemma kernel_exit_gen l cl h :
  sp ∉ temps cl → 0 ∉ temps cl → NoDup (targets cl) → sp ∉ l.*1 → NoDup l.*1 → 0 ∉ l.*1 →
  let f := rd_reg h sp in
  let h' := run (load_csrs sp cl ++ loads sp l ++ [addi sp sp FRAME_SIZE; sret]) h in
  (∀ r o, (r, o) ∈ l → rd_reg h' r = words h (fword f o)) ∧ rd_reg h' sp = (f + FRAME_SIZE) `mod` U64 ∧
  (∀ t c o, (t, c, o) ∈ cl → csrs h' c = resumed c (words h (fword f o))) ∧ pc_next h' = Some (csrs h' sepc).
Proof.
  intros Ht Hz Hn Hsl Hnl Hzl. cbn zeta. rewrite !run_app, !run_cons, !run_nil.
  destruct (run_load_csrs sp cl h Ht Hz Hn) as (Hw1 & _ & Hr1 & Hin1 & _). set (h1 := run (load_csrs sp cl) h) in *.
  destruct (run_loads sp l h1 Hsl Hnl Hzl) as (_ & Hc2 & _ & Hin2 & Hout2). set (h2 := run (loads sp l) h1) in *.
  assert (Ha1 : ∀ o, addr h1 sp o = fword (rd_reg h sp) o) by (intros o; unfold addr, fword; by rewrite Hr1).
  assert (Hsp2 : rd_reg h2 sp = rd_reg h sp) by by rewrite Hout2, Hr1. clearbody h2.
  set (h3 := exec (addi sp sp FRAME_SIZE) h2).
  assert (Hc3 : csrs h3 = csrs h2) by (by apply wr_reg_rest).
  assert (Hsp3 : rd_reg h3 sp = (rd_reg h sp + FRAME_SIZE) `mod` U64) by (unfold h3; simpl; by rewrite rd_wr_eq, Hsp2).
  assert (Hr3 : ∀ r, r ≠ sp → rd_reg h3 r = rd_reg h2 r) by (intros r ?; by apply rd_wr_ne). clearbody h3.
  change (rd_reg (exec sret h3)) with (rd_reg h3). split_and!; [|exact Hsp3| |done].
  - intros r o Hro. rewrite Hr3, (Hin2 r o Hro), Ha1, Hw1; [done|].
    intros ->. apply Hsl, list_elem_of_fmap. by exists (sp, o).
  - intros t c o Hco. rewrite sret_csrs, Hc3, Hc2. f_equal. exact (Hin1 t c o Hco).
Qed.

Lemma kernel_trap_entry_spec h : 0 ≤ rd_reg h sp < U64 →
  let f := (rd_reg h sp - FRAME_SIZE) `mod` U64 in
  let h' := run kernel_trap_entry h in
  (∀ r, 1 ≤ r ≤ 31 → r ≠ sp → words h' (slot f r) = if decide (r = t0) then rd_reg h sp else rd_reg h r) ∧
  words h' (slot f 2) = rd_reg h sp ∧
  words h' (slot f 32) = csrs h sstatus ∧ words h' (slot f 33) = csrs h sepc ∧
  rd_reg h' a0 = f ∧ rd_reg h' sp = f.
Proof.
  intros Hsp. cbn zeta. rewrite kernel_trap_entry_split.
  destruct (kernel_entry_gen kernel_saved kernel_csrs h) as (H1 & Hin & Hc & Ha & Hs); [..|exact Hsp|].
  1,2: repeat constructor; done. 1,2: list_side. 2-4: list_side.
  { apply (proj1 (Forall_forall (λ o, o ∉ kernel_csrs.*2) _)). list_side. }
  split_and!; [|apply (Hin t0 (2*8)); left|apply (Hc t0 sstatus (32*8)); left|apply (Hc t1 sepc (33*8)); right; left|exact Ha|exact Hs].
  intros r Hr Hrs. destruct (decide (r = 1)) as [->|]; [exact H1|].
  apply (Hin r (r * 8)). right. apply numbered_elem, elem_of_seqZ. unfold sp in *. lia.
Qed.

Lemma kernel_trap_exit_spec h :
  let f := rd_reg h sp in
  let h' := run kernel_trap_exit h in
  (∀ r, 1 ≤ r ≤ 31 → r ≠ sp → rd_reg h' r = words h (slot f r)) ∧ rd_reg h' sp = (f + FRAME_SIZE) `mod` U64 ∧
  csrs h' sstatus = sret_status (words h (slot f 32)) ∧ csrs h' sepc = words h (slot f 33) ∧ pc_next h' = Some (csrs h' sepc).
Proof.
  cbn zeta. rewrite kernel_trap_exit_split.
  destruct (kernel_exit_gen (numbered (1 :: seqZ 3 29)) kernel_csrs h) as (Hin & Hs & Hc & Hp); [list_side..|].
  split_and!; [|exact Hs|apply (Hc t0 sstatus (32*8)); left|apply (Hc t1 sepc (33*8)); right; left|exact Hp].
  intros r Hr Hrs. apply (Hin r (r * 8)), numbered_elem, elem_of_cons. rewrite elem_of_seqZ. unfold sp in *. lia.
Qed.

(** C29: what a trap taken in the kernel preserves.  Whatever slot the handler
    leaves alone, the register comes back unchanged, the stack pointer and the
    resume address included, and the status as [sret] resumes it, with one
    exception: [t0] comes back
    holding the interrupted stack pointer, because the entry sequence computes
    that value in [t0] before it has saved [t0]. *)
Theorem kernel_trap_preserves h h2 :
  0 ≤ rd_reg h sp < U64 → rd_reg h2 sp = rd_reg (run kernel_trap_entry h) sp →
  let f := rd_reg h2 sp in
  let h1 := run kernel_trap_entry h in
  let h3 := run kernel_trap_exit h2 in
  rd_reg h1 a0 = f ∧ rd_reg h3 sp = rd_reg h sp ∧
  (∀ r, 1 ≤ r ≤ 31 → r ≠ t0 → words h2 (slot f r) = words h1 (slot f r) → rd_reg h3 r = rd_reg h r) ∧
  (words h2 (slot f 5) = words h1 (slot f 5) → rd_reg h3 t0 = rd_reg h sp) ∧
  (words h2 (slot f 32) = words h1 (slot f 32) → csrs h3 sstatus = sret_status (csrs h sstatus)) ∧
  (words h2 (slot f 33) = words h1 (slot f 33) → pc_next h3 = Some (csrs h sepc)).
Proof.
  intros Hsp Hs2. cbn zeta. destruct (kernel_trap_entry_spec h Hsp) as (E1 & _ & E3 & E4 & E5 & E6).
  destruct (kernel_trap_exit_spec h2) as (R1 & R2 & R3 & R4 & R5). rewrite Hs2, E6 in *.
  assert (Hback : rd_reg (run kernel_trap_exit h2) sp = rd_reg h sp).
  { rewrite R2. unfold FRAME_SIZE, U64 in *. Z.div_mod_to_equations. lia. }
  split_and!; [exact E5|exact Hback|..].
  - intros r Hr Ht Hk. destruct (decide (r = sp)) as [->|]; [exact Hback|].
    rewrite R1, Hk, E1 by done. by rewrite decide_False.
  - intros Hk. rewrite R1 by done. change (slot ?f t0) with (slot f 5). rewrite Hk.
    change 5 with t0. rewrite E1 by done. by rewrite decide_True.
  - intros Hk. by rewrite R3, Hk, E3.
  - intros Hk. by rewrite R5, R4, Hk, E4.
Qed.

(** The exception is a real one: with a handler that does nothing at all, the
    interrupted code finds another value in [t0]. *)
Definition demo_hart : hart :=
  mkHart (λ r, 0x1000 + r * 0x1000) (λ _, 7) (λ _, 0) None.

Theorem kernel_trap_clobbers_t0 :
  rd_reg demo_hart t0 = 0x6000 ∧
  rd_reg (run kernel_trap_exit (run kernel_trap_entry demo_hart)) t0 = 0x3000.
Proof. split; [done|vm_compute; reflexivity]. Qed.

(** ** Witnesses *)

Definition demo_back : hart :=
  let h := run switch_context demo_hart in
  mkHart (upd (upd (x h) a1 (x demo_hart a0)) a0 0x90000) (csrs h) (words h) None.

Lemma switch_context_resumes_witness :
  rd_reg (run switch_context demo_back) sp = rd_reg demo_hart sp ∧
  pc_next (run switch_context demo_back) = Some 0x2000.
Proof.
  destruct (switch_context_resumes demo_hart demo_back) as [Hr Hp]; [reflexivity|done|..].
  - intros o o' Ho Ho'.
    revert o' Ho'. apply (proj1 (Forall_forall (λ o', addr demo_back a1 o ≠ addr demo_back a0 o') _)).
    revert o Ho. apply (proj1 (Forall_forall (λ o, Forall (λ o', addr demo_back a1 o ≠ addr demo_back a0 o') ctx_layout.*2) _)).
    refine (bool_decide_unpack _ _). vm_compute. exact I.
  - split; [apply Hr; right; left|exact Hp].
Defined.

Lemma user_trap_transparent_witness :
  rd_reg (run user_trap_return (run user_trap_entry demo_hart)) t0 = rd_reg demo_hart t0.
Proof.
  destruct (user_trap_transparent demo_hart (run user_trap_entry demo_hart)) as (_ & _ & _ & Hr & _).
  - vm_compute. reflexivity.
  - apply Hr; [done|reflexivity].
Defined.

Lemma kernel_trap_preserves_witness :
  rd_reg (run kernel_trap_exit (run kernel_trap_entry demo_hart)) t1 = rd_reg demo_hart t1.
Proof.
  destruct (kernel_trap_preserves demo_hart (run kernel_trap_entry demo_hart)) as (_ & _ & Hr & _).
  - vm_compute. split; [discriminate|reflexivity].
  - reflexivity.
  - apply Hr; [done|discriminate|reflexivity].
Defined.
