(* ===== verification/Trap.v ===== *)
(** * Trap frames and trap causes (trap/context.rs, trap/mod.rs, arch.rs)

    The saved register state, how a fresh user frame is built, and the decoding
    of [scause]. *)
From stdpp Require Import base numbers list.
From S2P Require Import Prelude Config.

(** ** Status and interrupt bits (arch.rs) *)
Module sstatus_bits.
Definition SIE : Z := Z.shiftl 1 1.
Definition SPIE : Z := Z.shiftl 1 5.
Definition SPP : Z := Z.shiftl 1 8.
Definition SUM : Z := Z.shiftl 1 18.
Definition MXR : Z := Z.shiftl 1 19.
End sstatus_bits.
Module int_bits.
Definition SSIE : Z := Z.shiftl 1 1.
Definition STIE : Z := Z.shiftl 1 5.
Definition SEIE : Z := Z.shiftl 1 9.
End int_bits.

(** ** The trap frame *)
Record TrapFrame := mkTF {
  tf_x : list Z;
  tf_sstatus : Z;
  tf_sepc : Z;
  tf_kernel_sp : Z;
  tf_kernel_satp : Z;
  tf_kernel_trap : Z;
  tf_kernel_hartid : Z }.

Definition TrapFrame_default : TrapFrame := mkTF (replicate 32 0) 0 0 0 0 0 0.

(** The [repr(C)] layout: 38 words of 8 bytes in field order. *)
Definition tf_words (f : TrapFrame) : list Z :=
  tf_x f ++ [tf_sstatus f; tf_sepc f; tf_kernel_sp f; tf_kernel_satp f; tf_kernel_trap f; tf_kernel_hartid f].

Definition tf_reg (f : TrapFrame) (i : Z) : outcome Z := arr_get (tf_x f) i.
Definition tf_ra (f : TrapFrame) : outcome Z := tf_reg f 1.
Definition tf_sp (f : TrapFrame) : outcome Z := tf_reg f 2.
Definition set_reg (f : TrapFrame) (i v : Z) : outcome TrapFrame :=
  l ← arr_set (tf_x f) i v;
  Ret (mkTF l (tf_sstatus f) (tf_sepc f) (tf_kernel_sp f) (tf_kernel_satp f) (tf_kernel_trap f) (tf_kernel_hartid f)).
Definition set_sp (f : TrapFrame) (v : Z) : outcome TrapFrame := set_reg f 2 v.
Definition arg (f : TrapFrame) (n : Z) : outcome Z := i ← 10 +! n; tf_reg f i.
Definition syscall_id (f : TrapFrame) : outcome Z := tf_reg f 17.
Definition set_return (f : TrapFrame) (v : Z) : outcome TrapFrame := set_reg f 10 v.
Definition from_user (f : TrapFrame) : bool := Z.land (tf_sstatus f) sstatus_bits.SPP =? 0.
Definition was_user (sstatus : Z) : bool := Z.land sstatus sstatus_bits.SPP =? 0.

Definition with_sepc (v : Z) (f : TrapFrame) : TrapFrame :=
  mkTF (tf_x f) (tf_sstatus f) v (tf_kernel_sp f) (tf_kernel_satp f) (tf_kernel_trap f) (tf_kernel_hartid f).
Definition with_kernel (ksp satp hartid : Z) (f : TrapFrame) : TrapFrame :=
  mkTF (tf_x f) (tf_sstatus f) (tf_sepc f) ksp satp (tf_kernel_trap f) hartid.

(** [sstatus] is the value of the control register at the call. *)
Definition TrapFrame_new_user (sstatus entry user_sp kernel_sp kernel_satp : Z) : outcome TrapFrame :=
  let st := Z.land sstatus (u64_not sstatus_bits.SPP) in
  let st := Z.lor st sstatus_bits.SPIE in
  let st := Z.land st (u64_not sstatus_bits.SIE) in
  set_sp (mkTF (replicate 32 0) st entry kernel_sp kernel_satp 0 0) user_sp.

(** [assert_layout]: the offsets the assembly uses. *)
Definition tf_offsets : list Z := [0; 32 * 8; 33 * 8; 34 * 8; 35 * 8; 36 * 8; 37 * 8; 38 * 8].

(** ** Causes *)
Inductive FaultKind := Fetch | Load | Store.
Inductive Cause :=
| SoftwareInterrupt
| TimerInterrupt
| ExternalInterrupt
| UserEcall
| PageFault (k : FaultKind)
| IllegalInstruction
| Breakpoint
| AccessFault (k : FaultKind)
| Unknown (scause : Z).

Definition decode (scause : Z) : Cause :=
  let is_interrupt := negb (Z.shiftr scause 63 =? 0) in
  let code := Z.land scause (u64_not (Z.shiftl 1 63)) in
  if is_interrupt then
    if code =? 1 then SoftwareInterrupt
    else if code =? 5 then TimerInterrupt
    else if code =? 9 then ExternalInterrupt
    else Unknown scause
  else
    if code =? 2 then IllegalInstruction
    else if code =? 3 then Breakpoint
    else if code =? 5 then AccessFault Load
    else if code =? 7 then AccessFault Store
    else if code =? 8 then UserEcall
    else if code =? 12 then PageFault Fetch
    else if code =? 13 then PageFault Load
    else if code =? 15 then PageFault Store
    else Unknown scause.

(** [describe_address]: the message chosen for a faulting kernel access. *)
Inductive note := null_dereference | user_address | non_canonical | kernel_address.
Definition describe_address (addr : Z) : note :=
  if addr <? PAGE_SIZE then null_dereference
  else if addr <? USER_MAX_ADDR then user_address
  else if addr <? VIRT_OFFSET then non_canonical
  else kernel_address.

(** ** Lemmas *)

Lemma set_reg_ok f i v : length (tf_x f) = 32%nat → 0 ≤ i < 32 →
  set_reg f i v = Ret (mkTF (<[Z.to_nat i := v]> (tf_x f)) (tf_sstatus f) (tf_sepc f) (tf_kernel_sp f)
    (tf_kernel_satp f) (tf_kernel_trap f) (tf_kernel_hartid f)).
Proof.
  intros Hl Hi. unfold set_reg, arr_set. rewrite Hl.
  destruct (Z.leb_spec 0 i), (Z.ltb_spec i (Z.of_nat 32)); simpl; done || lia.
Qed.

Lemma decode_word b c : (b = 0 ∨ b = 1) → 0 ≤ c < 2 ^ 63 →
  Z.shiftr (b * 2 ^ 63 + c) 63 = b ∧ Z.land (b * 2 ^ 63 + c) (u64_not (Z.shiftl 1 63)) = c.
Proof.
  intros Hb Hc. split.
  - rewrite Z.shiftr_div_pow2 by done. rewrite Z.add_comm, Z.div_add by done. rewrite Z.div_small by lia. lia.
  - change (u64_not (Z.shiftl 1 63)) with (Z.ones 63). rewrite Z.land_ones by done.
    rewrite Z.add_comm, Z.mod_add by done. by apply Z.mod_small.
Qed.

(** The supervisor causes of the privileged specification that the kernel
    names: (interrupt bit, code). *)
Definition scause_table : list (Z * Z * Cause) :=
  [(1, 1, SoftwareInterrupt); (1, 5, TimerInterrupt); (1, 9, ExternalInterrupt);
   (0, 2, IllegalInstruction); (0, 3, Breakpoint); (0, 5, AccessFault Load); (0, 7, AccessFault Store);
   (0, 8, UserEcall); (0, 12, PageFault Fetch); (0, 13, PageFault Load); (0, 15, PageFault Store)].

(** [decode] implements that table for every 64-bit register value: the
    listed causes are recognised, and exactly the other values give [Unknown],
    which carries the whole register. *)
Theorem decode_correct b c : (b = 0 ∨ b = 1) → 0 ≤ c < 2 ^ 63 →
  (∀ cause, (b, c, cause) ∈ scause_table → decode (b * 2 ^ 63 + c) = cause) ∧
  ((b, c) ∉ scause_table.*1 → decode (b * 2 ^ 63 + c) = Unknown (b * 2 ^ 63 + c)).
Proof.
  intros Hb Hc. destruct (decode_word b c Hb Hc) as [Hs Hl]. unfold decode. rewrite Hs, Hl. split.
  - intros cause Hin. repeat (apply elem_of_cons in Hin as [[= -> -> ->]|Hin]; [done|]). by apply elem_of_nil in Hin.
  - intros Hni. unfold scause_table in Hni. simpl in Hni. rewrite !not_elem_of_cons in Hni. destruct_and! Hni.
    destruct Hb as [-> | ->]; simpl; case_bool; subst; done.
Qed.

Lemma decode_correct_witness : decode (1 * 2 ^ 63 + 5) = TimerInterrupt ∧ decode (0 * 2 ^ 63 + 1) = Unknown 1.
Proof.
  split.
  - apply (decode_correct 1 5); [by right|lia|]. right. left.
  - apply (decode_correct 0 1); [by left|lia|]. refine (bool_decide_unpack _ _). vm_compute. exact I.
Defined.
