(* ===== verification/Task.v ===== *)
(** * Tasks (task/mod.rs, task/context.rs)

    The data of a task and the scheduler's shared store.  An [Arc<Task>] is the
    task's pid: the store maps pids to tasks, so every holder of a reference
    sees the same object.  The fields of [TaskInner] are kept in two groups, as
    the source groups them: what the scheduler uses and the user process state. *)
From stdpp Require Import base numbers gmap list.
From coqutil Require Import Byte.
From S2P Require Import Prelude Memory Config Addr FrameIface.
From S2P Require Frame.
From S2P Require Import PageTable Space.

Abbreviation Pid := Z (only parsing).

Inductive TaskState := Ready | Running | Blocked | Zombie.
#[export] Instance TaskState_eq_dec : EqDecision TaskState.
Proof. solve_decision. Defined.

Definition PRIORITY_LEVELS : Z := 3.

(** ** Saved kernel context and kernel stack (task/context.rs) *)
Record TaskContext := mkCtx { ctx_ra : Z; ctx_sp : Z; ctx_s : list Z }.
Definition TaskContext_zeroed : TaskContext := mkCtx 0 0 (replicate 12 0).
Definition TaskContext_new (entry stack_top : Z) : TaskContext := mkCtx entry stack_top (replicate 12 0).

(** A kernel stack is the run of frames it owns. *)
Definition STACK_CANARY : Z := 0xC0DECAFEDEADBEEF.
Definition stack_bottom (k : Frame) : Z := as_ptr (f_ppn k).
(** [Frame::count] is [1 << order]. *)
Definition stack_top (k : Frame) : outcome Z :=
  n ← 1 <<! f_order k;
  size ← n *! PAGE_SIZE;
  stack_bottom k +! size.
Definition canary_intact (m : mem) (k : Frame) : bool := load64 m (stack_bottom k) =? STACK_CANARY.
Definition headroom (k : Frame) (sp : Z) : Z := saturating_sub sp (stack_bottom k).

Definition KernelStack_new {S} `{FrameAllocator S} : ST S (option Frame) :=
  let order := Frame.order_for (KERNEL_STACK_SIZE `div` PAGE_SIZE) in
  f ← frame_alloc order;
  match f with
  | None => mret None
  | Some f => write64 (stack_bottom f) STACK_CANARY;; mret (Some f)
  end.

(** ** [TaskInner] and [Task] *)

(** What a task runs: a kernel function or the user-mode trampoline. *)
Inductive Entry := kernel_fn (id : Z) | enter_user_mode.

Record SchedInfo := mkSched {
  state : TaskState;
  level : Z;
  ticks : Z;
  needs_resched : bool;
  wakeup_pending : bool;
  exit_code : Z }.

(** [frame] is the box of the trap frame: an address of the kernel heap.
    [parent] is a weak reference, [children] are strong ones. *)
Record UserInfo := mkUser {
  space : option AddressSpace;
  frame : option Z;
  brk : Z;
  heap_top : Z;
  parent : option Pid;
  children : list Pid }.

Record Task := mkTask {
  name : list byte;
  entry : Entry;
  child_exit : list Pid;
  ctx : TaskContext;
  kstack : Frame;
  sched : SchedInfo;
  user : UserInfo }.

Definition with_sched (f : SchedInfo → SchedInfo) (t : Task) : Task :=
  mkTask (name t) (entry t) (child_exit t) (ctx t) (kstack t) (f (sched t)) (user t).
Definition with_user (f : UserInfo → UserInfo) (t : Task) : Task :=
  mkTask (name t) (entry t) (child_exit t) (ctx t) (kstack t) (sched t) (f (user t)).
Definition with_child_exit (l : list Pid) (t : Task) : Task :=
  mkTask (name t) (entry t) l (ctx t) (kstack t) (sched t) (user t).
Definition with_name (n : list byte) (t : Task) : Task :=
  mkTask n (entry t) (child_exit t) (ctx t) (kstack t) (sched t) (user t).

Definition set_state (st : TaskState) (i : SchedInfo) : SchedInfo :=
  mkSched st (level i) (ticks i) (needs_resched i) (wakeup_pending i) (exit_code i).
Definition set_level (l : Z) (i : SchedInfo) : SchedInfo :=
  mkSched (state i) l (ticks i) (needs_resched i) (wakeup_pending i) (exit_code i).
Definition set_ticks (n : Z) (i : SchedInfo) : SchedInfo :=
  mkSched (state i) (level i) n (needs_resched i) (wakeup_pending i) (exit_code i).
Definition set_resched (b : bool) (i : SchedInfo) : SchedInfo :=
  mkSched (state i) (level i) (ticks i) b (wakeup_pending i) (exit_code i).
Definition set_pending (b : bool) (i : SchedInfo) : SchedInfo :=
  mkSched (state i) (level i) (ticks i) (needs_resched i) b (exit_code i).
Definition set_exit_code (c : Z) (i : SchedInfo) : SchedInfo :=
  mkSched (state i) (level i) (ticks i) (needs_resched i) (wakeup_pending i) c.

(** The scheduling fields of a task that has just been built. *)
Definition SchedInfo_new : SchedInfo := mkSched Ready 0 0 false false 0.

(** ** The scheduler's store *)

Record RunQueue := mkRQ { levels : list (list Pid); spawned : Z }.
Definition RunQueue_new : RunQueue := mkRQ (replicate (Z.to_nat PRIORITY_LEVELS) []) 0.

(** [tasks] is the heap of [Arc<Task>]s.  [current] and [previous] are the boot
    hart's [Cpu]: [entry.S] parks every other hart. *)
Record Sched := mkS {
  tasks : gmap Z Task;
  next_pid : Z;
  run_queue : RunQueue;
  current : option Pid;
  previous : option Pid;
  all_tasks : list Pid }.

Definition set_tasks (m : gmap Z Task) (s : Sched) : Sched :=
  mkS m (next_pid s) (run_queue s) (current s) (previous s) (all_tasks s).
Definition set_rq (q : RunQueue) (s : Sched) : Sched :=
  mkS (tasks s) (next_pid s) q (current s) (previous s) (all_tasks s).
Definition set_cpu (cur prev : option Pid) (s : Sched) : Sched :=
  mkS (tasks s) (next_pid s) (run_queue s) cur prev (all_tasks s).

Definition get_task (p : Pid) : ST Sched Task := s ← get; lift (expect (tasks s !! p)).
Definition upd_task (p : Pid) (f : Task → Task) : ST Sched unit :=
  s ← get; put (set_tasks (alter f p (tasks s)) s).

(** [NEXT_PID.fetch_add(1)] wraps. *)
Definition alloc_pid : ST Sched Pid :=
  s ← get;
  put (mkS (tasks s) (wrapping_add (next_pid s) 1) (run_queue s) (current s) (previous s) (all_tasks s));;
  mret (next_pid s).

(** [Arc::new]: the task appears in the store. *)
Definition arc_new (p : Pid) (t : Task) : ST Sched unit :=
  s ← get; put (set_tasks (<[p := t]> (tasks s)) s).

Definition task_state (p : Pid) : ST Sched TaskState := t ← get_task p; mret (state (sched t)).
Definition task_exit_code (p : Pid) : ST Sched Z := t ← get_task p; mret (exit_code (sched t)).
Definition boot_sched : Sched := mkS ∅ 1 RunQueue_new None None [].
