(* ===== verification/Sched.v ===== *)
(** * The scheduler (task/scheduler.rs)

    The multi-level feedback queue and the operations on the shared store.
    Every operation takes its locks for the whole of the step modelled here and
    a spin lock masks interrupts, so on the boot hart each definition is one
    uninterrupted step; [switch_to_idle] and [run_requeue]/[run_pick] run with
    interrupts masked from end to end. *)
From stdpp Require Import base numbers gmap list.
From S2P Require Import Prelude Memory Config Addr FrameIface PageTable Space Task.

Definition QUANTA_PER_LEVEL : Z := 4.

(** ** [RunQueue] *)
Definition rq_push (q : RunQueue) (p : Pid) (lvl : Z) : outcome RunQueue :=
  let i := Z.min lvl (PRIORITY_LEVELS - 1) in
  l ← arr_get (levels q) i;
  ls ← arr_set (levels q) i (l ++ [p]);
  Ret (mkRQ ls (spawned q)).

Fixpoint pop_first (ls : list (list Pid)) : option (Pid * list (list Pid)) :=
  match ls with
  | [] => None
  | [] :: rest => prod_map id (cons []) <$> pop_first rest
  | (p :: l) :: rest => Some (p, l :: rest)
  end.

Definition rq_pop (q : RunQueue) : option Pid * RunQueue :=
  match pop_first (levels q) with
  | None => (None, q)
  | Some (p, ls) => (Some p, mkRQ ls (spawned q))
  end.

Definition rq_len (q : RunQueue) : Z := foldr (λ l n, Z.of_nat (length l) + n) 0 (levels q).

(** ** Operations *)

Definition queue_push (p : Pid) (lvl : Z) : ST Sched unit :=
  s ← get; q ← lift (rq_push (run_queue s) p lvl); put (set_rq q s).

Definition current_task : ST Sched Pid := s ← get; lift (expect (current s)).

Definition admit_task (p : Pid) : ST Sched unit :=
  s ← get;
  n ← lift (spawned (run_queue s) +! 1);
  put (mkS (tasks s) (next_pid s) (mkRQ (levels (run_queue s)) n) (current s) (previous s) (all_tasks s ++ [p]));;
  queue_push p 0.

Definition wake (p : Pid) : ST Sched unit :=
  t ← get_task p;
  if decide (state (sched t) = Blocked) then
    let lvl := saturating_sub (level (sched t)) 1 in
    upd_task p (with_sched (λ i, set_ticks 0 (set_level lvl (set_state Ready i))));;
    queue_push p lvl
  else upd_task p (with_sched (set_pending true)).

Definition on_timer_tick : ST Sched unit :=
  s ← get;
  match current s with
  | None => mret tt
  | Some p =>
      t ← get_task p;
      n ← lift (ticks (sched t) +! 1);
      if QUANTA_PER_LEVEL <=? n then
        l ← lift (level (sched t) +! 1);
        upd_task p (with_sched (λ i,
          set_resched true (set_ticks 0 (set_level (Z.min l (PRIORITY_LEVELS - 1)) i))))
      else upd_task p (with_sched (λ i, set_resched true (set_ticks n i)))
  end.

(** [mem::take(&mut needs_resched)]: does the caller have to yield? *)
Definition take_resched : ST Sched bool :=
  s ← get;
  match current s with
  | None => mret false
  | Some p =>
      t ← get_task p;
      upd_task p (with_sched (set_resched false));;
      mret (needs_resched (sched t))
  end.

(** The part of [switch_to_idle] before [switch_context]; [intact] tells whether
    the task's stack canary is still there. *)
Definition switch_out (intact : Frame → bool) (st : TaskState) : ST Sched unit :=
  s ← get;
  p ← lift (expect (current s));
  put (set_cpu None (previous s) s);;
  t ← get_task p;
  upd_task p (with_sched (λ i,
    if decide (st = Blocked) then
      if wakeup_pending i then set_state Ready (set_pending false i) else set_state Blocked i
    else set_state st i));;
  if intact (kstack t) then
    s ← get; put (set_cpu (current s) (Some p) s)
  else lift Panic.

(** One round of [run], first half: the task that switched away is requeued, or
    its reference is dropped ([Some p]). *)
Definition run_requeue : ST Sched (option Pid) :=
  s ← get;
  match previous s with
  | None => mret None
  | Some p =>
      put (set_cpu (current s) None s);;
      t ← get_task p;
      match state (sched t) with
      | Ready => queue_push p (level (sched t));; mret None
      | Blocked | Zombie => mret (Some p)
      | Running => lift Panic
      end
  end.

(** Second half: take the next task off the queue ... *)
Definition run_pop : ST Sched (option Pid) :=
  s ← get;
  let '(next, q) := rq_pop (run_queue s) in
  put (set_rq q s);; mret next.

(** ... and make it current.  The kernel installs the task's address space in
    between. *)
Definition run_start (p : Pid) : ST Sched unit :=
  _ ← get_task p;
  upd_task p (with_sched (λ i, set_resched false (set_state Running i)));;
  s ← get;
  put (set_cpu (Some p) (previous s) s).

(** [None] is the idle wait. *)
Definition run_pick : ST Sched (option Pid) :=
  next ← run_pop;
  match next with
  | None => mret None
  | Some p => run_start p;; mret (Some p)
  end.

(** [stats]: runnable tasks and tasks ever spawned. *)
Definition sched_stats (s : Sched) : Z * Z := (rq_len (run_queue s), spawned (run_queue s)).

(** [dump_tasks]: the list of weak references is pruned; one row per live task:
    pid, parent's pid (0 when it is gone), state, level, stack headroom. *)
Definition task_row (s : Sched) (p : Pid) : option (Pid * Pid * TaskState * Z * Z) :=
  t ← tasks s !! p;
  let ppid := default 0 (q ← parent (user t); _ ← tasks s !! q; Some q) in
  Some (p, ppid, state (sched t), level (sched t), headroom (kstack t) (ctx_sp (ctx t))).

Definition dump_tasks : ST Sched (list (Pid * Pid * TaskState * Z * Z)) :=
  s ← get;
  let live := filter (λ p, is_Some (tasks s !! p)) (all_tasks s) in
  put (mkS (tasks s) (next_pid s) (run_queue s) (current s) (previous s) live);;
  mret (omap (task_row s) live).
