(* ===== verification/SchedProps.v ===== *)
(** * The scheduler: every task has exactly one place

    The invariant of the shared store and that every operation keeps it and
    returns; the queue discipline; the wake-up protocol. *)
From stdpp Require Import base numbers gmap relations list.
From S2P Require Import Prelude Memory Config Addr FrameIface PageTable Space Task Sched.

(** ** The run queue as a bag *)

Definition rq_pids (q : RunQueue) : list Z := concat (levels q).
Definition queued (s : Sched) : list Z := rq_pids (run_queue s).

Lemma concat_insert {A} (ls : list (list A)) i l l' : ls !! i = Some l →
  concat (<[i := l']> ls) ≡ₚ l' ++ concat (delete i ls).
Proof.
  revert i. induction ls as [|x ls IH]; intros [|i] Hi; simplify_eq/=; [done|].
  rewrite (IH i Hi), !app_assoc. by rewrite (Permutation_app_comm x l').
Qed.

Lemma concat_lookup {A} (ls : list (list A)) i l : ls !! i = Some l →
  concat ls ≡ₚ l ++ concat (delete i ls).
Proof. intros Hi. rewrite <-(concat_insert ls i l l Hi). by rewrite list_insert_id. Qed.

Lemma rq_push_ok q p lvl : length (levels q) = 3%nat → 0 ≤ lvl →
  ∃ q', rq_push q p lvl = Ret q' ∧ length (levels q') = 3%nat ∧ rq_pids q' ≡ₚ p :: rq_pids q ∧
    spawned q' = spawned q ∧
    ∃ l, levels q !! Z.to_nat (Z.min lvl 2) = Some l ∧ levels q' = <[Z.to_nat (Z.min lvl 2) := l ++ [p]]> (levels q).
Proof.
  intros Hl Hlvl. unfold rq_push. change (PRIORITY_LEVELS - 1) with 2.
  destruct (lookup_lt_is_Some_2 (levels q) (Z.to_nat (Z.min lvl 2))) as [l Hi]; [lia|].
  unfold arr_get, arr_set. rewrite Hi, Hl.
  destruct (Z.ltb_spec (Z.min lvl 2) 0), (Z.leb_spec 0 (Z.min lvl 2)), (Z.ltb_spec (Z.min lvl 2) (Z.of_nat 3)); try lia.
  cbn. eexists. split; [done|]. cbn. rewrite length_insert. split_and!; [done| |done|by exists l].
  unfold rq_pids. cbn. rewrite (concat_insert _ _ l _ Hi), (concat_lookup (levels q) _ l Hi). rewrite <-app_assoc. symmetry. apply Permutation_middle.
Qed.

Lemma pop_first_spec ls :
  match pop_first ls with
  | None => Forall (eq []) ls
  | Some (p, ls') => ∃ i l, ls !! i = Some (p :: l) ∧ (∀ j, (j < i)%nat → ls !! j = Some []) ∧ ls' = <[i := l]> ls
  end.
Proof.
  induction ls as [|[|p l] ls IH]; simpl; [constructor| |].
  - destruct (pop_first ls) as [[p ls']|]; simpl.
    + destruct IH as (i & l & Hi & Hj & ->). exists (S i), l. split_and!; [done| |done].
      intros [|j] ?; [done|]. apply Hj. lia.
    + by constructor.
  - exists 0%nat, l. split_and!; [done| |done]. lia.
Qed.

Lemma rq_pop_ok q : length (levels q) = 3%nat →
  match rq_pop q with
  | (None, q') => q' = q ∧ rq_pids q = []
  | (Some p, q') => length (levels q') = 3%nat ∧ rq_pids q ≡ₚ p :: rq_pids q' ∧ spawned q' = spawned q
  end.
Proof.
  intros Hl. unfold rq_pop. pose proof (pop_first_spec (levels q)) as Hp.
  destruct (pop_first (levels q)) as [[p ls]|].
  - destruct Hp as (i & l & Hi & _ & ->). unfold rq_pids. cbn. rewrite length_insert. split_and!; [done| |done].
    by rewrite (concat_lookup (levels q) i _ Hi), (concat_insert (levels q) i _ l Hi).
  - split; [done|]. unfold rq_pids. clear Hl. induction Hp as [|? ls <- _ IH]; [done|]. simpl. exact IH.
Qed.

(** ** The invariant *)

(** Task [p] in store [s]: its priority and tick counters are in range; it is
    [Running] exactly when it is the current task; a queued task is [Ready] and
    is not also waiting to be requeued; a [Ready] task that was admitted is
    queued or about to be; before admission it is [Ready]. *)
Record task_ok (s : Sched) (p : Z) (t : SchedInfo) : Prop := {
  tk_level : 0 ≤ level t < PRIORITY_LEVELS;
  tk_ticks : 0 ≤ ticks t < QUANTA_PER_LEVEL;
  tk_running : state t = Running ↔ current s = Some p;
  tk_queued : p ∈ queued s → state t = Ready ∧ previous s ≠ Some p;
  tk_ready : state t = Ready → p ∈ all_tasks s → p ∈ queued s ∨ previous s = Some p;
  tk_new : p ∉ all_tasks s → state t = Ready }.

Definition placed (s : Sched) (p : Z) : Prop := p ∈ queued s ∨ current s = Some p ∨ previous s = Some p.

Record sched_ok (s : Sched) : Prop := {
  so_levels : length (levels (run_queue s)) = 3%nat;
  so_nodup : NoDup (queued s);
  so_placed p : placed s p → p ∈ all_tasks s ∧ is_Some (tasks s !! p);
  so_switch : is_Some (current s) → previous s = None;
  so_pids p : p ∈ all_tasks s ∨ is_Some (tasks s !! p) → p < next_pid s;
  so_task p t : tasks s !! p = Some t → task_ok s p (sched t);
  so_next : 0 ≤ next_pid s }.

Lemma sched_ok_boot : sched_ok boot_sched.
Proof.
  split; cbn; try done; try (intros p; unfold placed; cbn).
  - constructor.
  - intros [H|[H|H]]; [by apply elem_of_nil in H|done..].
  - intros [H|[? H]]; [by apply elem_of_nil in H|by rewrite lookup_empty in H].
Qed.

(** The scheduling fields of one task change and nothing else. *)
Definition upd_sched (p : Z) (f : SchedInfo → SchedInfo) (s : Sched) : Sched :=
  set_tasks (alter (with_sched f) p (tasks s)) s.

Lemma wp_upd_sched p f Q s : Q tt (upd_sched p f s) → wp (upd_task p (with_sched f)) Q s.
Proof. done. Qed.

Lemma wp_get_task p t Q s : tasks s !! p = Some t → Q t s → wp (get_task p) Q s.
Proof. intros Ht HQ. unfold get_task. wp_step. wp_step. rewrite Ht. exact HQ. Qed.

Lemma lookup_upd_sched p f s q t : tasks (upd_sched p f s) !! q = Some t →
  ∃ t0, tasks s !! q = Some t0 ∧ sched t = if decide (q = p) then f (sched t0) else sched t0.
Proof.
  cbn. destruct (decide (q = p)) as [->|].
  - rewrite lookup_alter_eq. destruct (tasks s !! p) as [t0|]; cbn; intros [= <-]. by exists t0.
  - rewrite lookup_alter_ne by done. by exists t.
Qed.

Lemma is_Some_upd_sched p f s q : is_Some (tasks (upd_sched p f s) !! q) ↔ is_Some (tasks s !! q).
Proof.
  cbn. destruct (decide (q = p)) as [->|]; [|by rewrite lookup_alter_ne].
  rewrite lookup_alter_eq. by rewrite fmap_is_Some.
Qed.

Lemma wp_queue_push p lvl Q s : length (levels (run_queue s)) = 3%nat → 0 ≤ lvl →
  (∀ q, length (levels q) = 3%nat → rq_pids q ≡ₚ p :: queued s → spawned q = spawned (run_queue s) → Q tt (set_rq q s)) →
  wp (queue_push p lvl) Q s.
Proof.
  intros Hl Hlvl HQ. unfold queue_push. wp_step. wp_step. wp_step.
  destruct (rq_push_ok (run_queue s) p lvl Hl Hlvl) as (q & Hq & ? & ? & ? & _).
  eapply wp_lift; [exact Hq|]. wp_step. by apply HQ.
Qed.

(** A change of one task's scheduling fields that keeps its state keeps the
    invariant when the counters stay in range. *)
Lemma sched_ok_fields p f s :
  (∀ t, tasks s !! p = Some t → state (f (sched t)) = state (sched t) ∧
     0 ≤ level (f (sched t)) < PRIORITY_LEVELS ∧ 0 ≤ ticks (f (sched t)) < QUANTA_PER_LEVEL) →
  sched_ok s → sched_ok (upd_sched p f s).
Proof.
  intros Hf [H1 H2 H3 H4 H5 H6 H7]. split; [done|done| |done| | |done].
  - intros q Hq. rewrite is_Some_upd_sched. by apply H3.
  - intros q Hq. rewrite is_Some_upd_sched in Hq. by apply H5.
  - intros q t Ht. apply lookup_upd_sched in Ht as (t0 & Ht0 & ->). specialize (H6 q t0 Ht0).
    case_decide as Hd; [|by destruct H6; split].
    subst. destruct (Hf t0 Ht0) as (He & ? & ?). destruct H6. split; rewrite ?He; done.
Qed.

Lemma elem_of_perm_cons (l l' : list Z) p x : l ≡ₚ p :: l' → x ∈ l ↔ x = p ∨ x ∈ l'.
Proof. intros Hp. by rewrite Hp, elem_of_cons. Qed.

(** Task [p] takes a new state and is pushed on the run queue: the invariant is
    kept if [p] was in no place before and becomes [Ready]. *)
Lemma sched_ok_push p f q s t : sched_ok s → tasks s !! p = Some t → p ∈ all_tasks s →
  current s ≠ Some p → previous s ≠ Some p → p ∉ queued s →
  state (f (sched t)) = Ready → 0 ≤ level (f (sched t)) < PRIORITY_LEVELS → 0 ≤ ticks (f (sched t)) < QUANTA_PER_LEVEL →
  length (levels q) = 3%nat → rq_pids q ≡ₚ p :: queued s → sched_ok (set_rq q (upd_sched p f s)).
Proof.
  intros [H1 H2 H3 H4 H5 H6 H7] Ht Ha Hc Hpv Hq Hst Hlv Htk Hlen Hperm.
  pose proof (λ x, elem_of_perm_cons _ _ _ x Hperm) as Hin.
  split; unfold placed, queued; cbn [tasks current previous all_tasks next_pid run_queue set_rq]; [done| | |done| | |done].
  - rewrite Hperm. by apply NoDup_cons.
  - intros x Hx. rewrite is_Some_upd_sched. destruct (decide (x = p)) as [->|]; [by split|].
    apply H3. unfold placed, queued. cbn in Hx. rewrite Hin in Hx. tauto.
  - intros x. rewrite is_Some_upd_sched. apply H5.
  - intros x t' Hx. apply lookup_upd_sched in Hx as (t0 & Ht0 & ->). destruct (H6 x t0 Ht0) as [M1 M2 M3 M4 M5 M6].
    case_decide as Hd; split; unfold queued; cbn; rewrite ?Hin; subst; simplify_eq; try done; try tauto.
    rewrite Hst. split; [done|]. intros Hcp. done.
Qed.

Section steps.
Context (s : Sched) (Hok : sched_ok s).

Lemma wake_ok p : previous s = None → is_Some (tasks s !! p) → wp (wake p) (λ _, sched_ok) s.
Proof.
  intros Hprev [t Ht]. unfold wake. wp_step. apply (wp_get_task p t); [done|].
  destruct (so_task s Hok p t Ht) as [L1 L2 L3 L4 L5 L6]. case_decide as Hb.
  - wp_step. apply wp_upd_sched. apply wp_queue_push; [apply Hok|unfold saturating_sub; lia|].
    intros q Hq Hp _. unfold PRIORITY_LEVELS, QUANTA_PER_LEVEL, saturating_sub in *.
    apply (sched_ok_push p _ q s t); try done; cbn [state level ticks set_ticks set_level set_state];
      try (unfold PRIORITY_LEVELS, QUANTA_PER_LEVEL; lia).
    + destruct (decide (p ∈ all_tasks s)); [done|]. rewrite L6 in Hb; done.
    + intros Hc. apply L3 in Hc. congruence.
    + by rewrite Hprev.
    + intros Hin. destruct (L4 Hin). congruence.
  - apply wp_upd_sched. apply sched_ok_fields; [|done]. intros t' Ht'. simplify_eq. done.
Qed.

Lemma tick_ok : wp on_timer_tick (λ _, sched_ok) s.
Proof.
  unfold on_timer_tick. wp_step. wp_step. destruct (current s) as [p|] eqn:Hc; [|by wp_step].
  destruct (so_placed s Hok p) as [_ [t Ht]]; [unfold placed; auto|].
  destruct (so_task s Hok p t Ht) as [L1 L2 _ _ _ _]. unfold PRIORITY_LEVELS, QUANTA_PER_LEVEL in *.
  wp_step. apply (wp_get_task p t); [done|]. wp_step. eapply wp_lift; [apply u64_add_ok; unfold U64; lia|].
  destruct (Z.leb_spec 4 (ticks (sched t) + 1)).
  - wp_step. eapply wp_lift; [apply u64_add_ok; unfold U64; lia|]. apply wp_upd_sched, sched_ok_fields; [|done].
    intros t' Ht'. simplify_eq. cbn. unfold PRIORITY_LEVELS, QUANTA_PER_LEVEL. split_and!; done || lia.
  - apply wp_upd_sched, sched_ok_fields; [|done].
    intros t' Ht'. simplify_eq. cbn. unfold PRIORITY_LEVELS, QUANTA_PER_LEVEL. split_and!; done || lia.
Qed.

Lemma take_resched_ok : wp take_resched (λ _, sched_ok) s.
Proof.
  unfold take_resched. wp_step. wp_step. destruct (current s) as [p|] eqn:Hc; [|by wp_step].
  destruct (so_placed s Hok p) as [_ [t Ht]]; [unfold placed; auto|].
  wp_step. apply (wp_get_task p t); [done|]. wp_step. apply wp_upd_sched. wp_step.
  apply sched_ok_fields; [|done]. intros t' Ht'. destruct (so_task s Hok p t' Ht'). done.
Qed.

(** The store between a task's switch and the idle loop's decision about it. *)
Lemma switch_out_ok intact st p : current s = Some p → st ≠ Running →
  (∀ t, tasks s !! p = Some t → intact (kstack t) = true) →
  wp (switch_out intact st) (λ _ s', sched_ok s' ∧ current s' = None ∧ previous s' = Some p) s.
Proof.
  intros Hc Hst Hin. destruct (so_placed s Hok p) as [Ha [t Ht]]; [unfold placed; auto|].
  assert (Hpv : previous s = None) by (apply Hok; by rewrite Hc).
  unfold switch_out. wp_step. wp_step. wp_step. rewrite Hc. eapply wp_lift; [done|]. wp_step. wp_step. wp_step.
  apply (wp_get_task p t); [done|]. wp_step. apply wp_upd_sched. rewrite (Hin t Ht). wp_step. wp_step. wp_step.
  split; [|done].
  destruct (so_task s Hok p t Ht) as [L1 L2 L3 L4 L5 L6]. destruct Hok as [H1 H2 H3 H4 H5 H6 H7].
  assert (Hnq : p ∉ queued s) by (intros Hq; destruct (L4 Hq) as [Hr _]; apply L3 in Hc; congruence).
  split; unfold placed, queued; cbn [tasks current previous all_tasks next_pid run_queue set_cpu]; [done|done| |by intros []| | |done].
  - intros x Hx. rewrite (is_Some_upd_sched p _ (set_cpu None (previous s) s)).
    destruct Hx as [Hx|[Hx|Hx]]; [apply H3; by left|done|]. injection Hx as <-. cbn. by rewrite Ht.
  - intros x. rewrite (is_Some_upd_sched p _ (set_cpu None (previous s) s)). apply H5.
  - intros x t' Hx. apply (lookup_upd_sched p _ (set_cpu None (previous s) s)) in Hx as (t0 & Ht0 & ->). cbn in Ht0.
    destruct (H6 x t0 Ht0) as [M1 M2 M3 M4 M5 M6]. destruct (decide (x = p)) as [->|Hd].
    + simplify_eq. split; unfold queued; cbn; try done; repeat case_match; cbn; try done; auto; intros ?; try done.
    + split; unfold queued; cbn; try done.
      * rewrite M3, Hc. split; congruence.
      * intros Hx. split; [by apply M4|congruence].
      * intros Hr Hall. destruct (M5 Hr Hall); [by left|congruence].
Qed.

Lemma requeue_ok : current s = None → wp run_requeue (λ _ s', sched_ok s' ∧ current s' = None ∧ previous s' = None) s.
Proof.
  intros Hc. unfold run_requeue. wp_step. wp_step. destruct (previous s) as [p|] eqn:Hp; [|by wp_step].
  destruct (so_placed s Hok p) as [Ha [t Ht]]; [unfold placed; auto|].
  destruct (so_task s Hok p t Ht) as [L1 L2 L3 L4 L5 L6].
  assert (Hnq : p ∉ queued s) by (intros Hq; by destruct (L4 Hq)).
  wp_step. wp_step. wp_step. apply (wp_get_task p t); [done|].
  set (s1 := set_cpu (current s) None s).
  assert (Hs1 : state (sched t) ≠ Ready → sched_ok s1).
  { intros Hnr. destruct Hok as [H1 H2 H3 H4 H5 H6 H7]. split; unfold placed, queued; cbn; try done.
    - intros x Hx. apply H3. unfold placed, queued. naive_solver.
    - intros x t0 Ht0. destruct (H6 x t0 Ht0) as [M1 M2 M3 M4 M5 M6]. split; unfold queued; cbn; try done.
      + intros Hx. split; [by apply M4|done].
      + intros Hr Hall. destruct (M5 Hr Hall) as [|Hpx]; [by left|]. rewrite Hp in Hpx. simplify_eq. }
  destruct (state (sched t)) eqn:Hst; [|pose proof (proj1 L3 eq_refl); congruence|by wp_step; split; [apply Hs1|]..].
  wp_step. apply wp_queue_push; [apply Hok|unfold PRIORITY_LEVELS in *; lia|]. intros q Hq Hperm _. wp_step.
  split; [|done]. pose proof (λ x, elem_of_perm_cons _ _ _ x Hperm) as Hin.
  destruct Hok as [H1 H2 H3 H4 H5 H6 H7]. split; unfold placed, queued; cbn; try done.
  - rewrite Hperm. by apply NoDup_cons.
  - intros x Hx. rewrite Hin in Hx. apply H3. unfold placed. naive_solver.
  - intros x t0 Ht0. destruct (H6 x t0 Ht0) as [M1 M2 M3 M4 M5 M6].
    split; unfold queued; cbn; rewrite ?Hin; change (queued s1) with (queued s); try done.
    + intros [->|Hx]; [by simplify_eq|]. split; [by apply M4|done].
    + intros Hr Hall. left. destruct (M5 Hr Hall) as [|Hpx]; [by right|]. rewrite Hp in Hpx. simplify_eq. by left.
Qed.

Lemma pick_ok : current s = None → previous s = None →
  wp run_pick (λ r s', sched_ok s' ∧ current s' = r ∧ previous s' = None) s.
Proof.
  intros Hc Hpv. unfold run_pick, run_pop, run_start. do 3 wp_step. pose proof (rq_pop_ok (run_queue s) (so_levels s Hok)) as Hpop.
  destruct (rq_pop (run_queue s)) as [[p|] q].
  2:{ destruct Hpop as [-> _]. wp_steps. destruct s; cbn in *. by subst. }
  destruct Hpop as (Hlen & Hperm & _). pose proof (λ x, elem_of_perm_cons _ _ _ x Hperm) as Hin.
  destruct (so_placed s Hok p) as [Ha [t Ht]]; [left; apply Hin; by left|].
  wp_steps. apply (wp_get_task p t); [done|]. wp_step. apply wp_upd_sched. wp_steps.
  split; [|done]. destruct Hok as [H1 H2 H3 H4 H5 H6 H7].
  unfold queued in H2. rewrite Hperm in H2. apply NoDup_cons in H2 as [Hni H2].
  split; unfold placed, queued; cbn [tasks current previous all_tasks next_pid run_queue set_cpu set_rq]; try done.
  - intros x Hx. rewrite (is_Some_upd_sched p _ (set_rq q s)). apply H3. unfold placed, queued. rewrite Hin.
    naive_solver.
  - intros x. rewrite (is_Some_upd_sched p _ (set_rq q s)). apply H5.
  - intros x t' Hx. apply (lookup_upd_sched p _ (set_rq q s)) in Hx as (t0 & Ht0 & ->). cbn in Ht0.
    destruct (H6 x t0 Ht0) as [M1 M2 M3 M4 M5 M6]. unfold queued in M4, M5. rewrite Hin in M4, M5. case_decide as Hd.
    + subst x. split; unfold queued; cbn; try done.
    + split; unfold queued; cbn; try done.
      * rewrite M3, Hc. split; congruence.
      * intros Hx. split; [by apply M4; right|congruence].
      * intros Hr Hall. destruct (M5 Hr Hall) as [[|]|]; [done|by left|by right].
Qed.
End steps.

Lemma admit_ok s p : sched_ok s → spawned (run_queue s) + 1 < U64 → is_Some (tasks s !! p) → p ∉ all_tasks s →
  wp (admit_task p) (λ _, sched_ok) s.
Proof.
  intros Hok Hsp [t Ht] Hna. unfold admit_task. wp_step. wp_step. wp_step. eapply wp_lift; [by apply u64_add_ok|].
  wp_step. wp_step. destruct Hok as [H1 H2 H3 H4 H5 H6 H7]. apply wp_queue_push; [done|done|].
  intros q Hq Hperm _. pose proof (λ x, elem_of_perm_cons _ _ _ x Hperm) as Hin. cbn in Hin, Hperm.
  destruct (H6 p t Ht) as [L1 L2 L3 L4 L5 L6]. specialize (L6 Hna).
  assert (Hnp : ¬ placed s p) by (intros Hpl; by destruct (H3 p Hpl)).
  split; unfold placed, queued; cbn; try done.
  - rewrite Hperm. apply NoDup_cons. split; [|done]. intros Hx. apply Hnp. by left.
  - intros x Hx. rewrite elem_of_app, list_elem_of_singleton. rewrite Hin in Hx.
    destruct (decide (x = p)) as [->|]; [by rewrite Ht; auto|].
    destruct (H3 x); [unfold placed, queued, rq_pids; cbn in *; tauto|auto].
  - intros x. rewrite elem_of_app, list_elem_of_singleton. intros [[?| ->]|?]; apply H5; eauto.
  - intros x t0 Ht0. destruct (H6 x t0 Ht0) as [M1 M2 M3 M4 M5 M6].
    split; unfold queued; cbn; rewrite ?Hin, ?elem_of_app, ?list_elem_of_singleton; try done.
    + intros [->|Hx]; [|by apply M4]. simplify_eq. split; [done|]. intros Hpv. apply Hnp. unfold placed. auto.
    + intros Hr [Hall| ->]; [|auto]. destruct (M5 Hr Hall); auto.
    + intros Hx. apply M6. tauto.
Qed.

Lemma arc_new_ok s t : sched_ok s → sched t = SchedInfo_new → next_pid s + 1 < U64 →
  wp (p ← alloc_pid; arc_new p t;; mret p)
    (λ p s', sched_ok s' ∧ p = next_pid s ∧ tasks s' = <[p := t]> (tasks s) ∧ all_tasks s' = all_tasks s) s.
Proof.
  intros [H1 H2 H3 H4 H5 H6 H7] Ht Hn. unfold alloc_pid, arc_new. wp_steps.
  assert (Hw : wrapping_add (next_pid s) 1 = next_pid s + 1) by (unfold wrapping_add; apply Z.mod_small; lia).
  assert (Hfresh : ¬ (next_pid s ∈ all_tasks s ∨ is_Some (tasks s !! next_pid s))) by (intros Hx; specialize (H5 _ Hx); lia).
  split; [|done]. split; unfold placed, queued; cbn; try done.
  - intros x Hx. destruct (H3 x Hx) as [Ha Hs]. split; [done|]. rewrite lookup_insert_is_Some'. auto.
  - intros x. rewrite lookup_insert_is_Some', Hw. intros [?|[<- |?]]; [|lia|]; apply Z.lt_lt_succ_r, H5; auto.
  - intros x t0. destruct (decide (x = next_pid s)) as [->|].
    + rewrite lookup_insert_eq. intros [= <-]. rewrite Ht.
      assert (Hnp : ¬ placed s (next_pid s)) by (intros Hp; apply Hfresh; left; by apply H3).
      unfold placed, queued in Hnp. split; unfold queued; cbn; try done; try tauto. split; [done|tauto].
    + rewrite lookup_insert_ne by done. intros Ht0. destruct (H6 x t0 Ht0). split; done.
  - rewrite Hw. lia.
Qed.

(** Edits of a task outside its scheduling state. *)
Definition same_sched (f : Task → Task) : Prop := ∀ t,
  state (sched (f t)) = state (sched t) ∧ level (sched (f t)) = level (sched t) ∧
  ticks (sched (f t)) = ticks (sched t) ∧ wakeup_pending (sched (f t)) = wakeup_pending (sched t).

Lemma edit_ok s p f : sched_ok s → same_sched f → wp (upd_task p f) (λ _, sched_ok) s.
Proof.
  intros [H1 H2 H3 H4 H5 H6 H7] Hf. unfold upd_task. wp_steps. split; unfold placed, queued; cbn; try done.
  - intros x Hx. destruct (H3 x Hx) as [Ha Hs]. split; [done|].
    destruct (decide (x = p)) as [->|]; [rewrite lookup_alter_eq; by apply fmap_is_Some|by rewrite lookup_alter_ne].
  - intros x Hx. apply H5. destruct Hx as [|Hx]; [by left|right]. revert Hx.
    destruct (decide (x = p)) as [->|]; [rewrite lookup_alter_eq; by intros ?%fmap_is_Some|by rewrite lookup_alter_ne].
  - intros x t0. destruct (decide (x = p)) as [->|].
    + rewrite lookup_alter_eq. intros (t1 & Ht1 & ->)%fmap_Some. destruct (Hf t1) as (E1 & E2 & E3 & _).
      destruct (H6 p t1 Ht1). split; unfold queued; cbn; rewrite ?E1, ?E2, ?E3; done.
    + rewrite lookup_alter_ne by done. intros Ht0. destruct (H6 x t0 Ht0). split; done.
Qed.

(** The last reference to a task goes away. *)
Definition arc_free (p : Z) (s : Sched) : Sched := set_tasks (delete p (tasks s)) s.

Lemma free_ok s p : sched_ok s → ¬ placed s p → sched_ok (arc_free p s).
Proof.
  intros [H1 H2 H3 H4 H5 H6 H7] Hnp. split; unfold placed, queued; cbn; try done.
  - intros x Hx. destruct (H3 x Hx) as [Ha Hs]. split; [done|]. rewrite lookup_delete_ne; [done|].
    intros ->. by apply Hnp.
  - intros x Hx. apply H5. destruct Hx as [|Hx]; [by left|right].
    apply lookup_delete_is_Some in Hx. tauto.
  - intros x t0 [_ Ht0]%lookup_delete_Some. destruct (H6 x t0 Ht0). split; done.
Qed.

Lemma dump_ok s : sched_ok s → wp dump_tasks (λ _, sched_ok) s.
Proof.
  intros [H1 H2 H3 H4 H5 H6 H7]. unfold dump_tasks. wp_steps. split; unfold placed, queued; cbn; try done.
  - intros x Hx. rewrite list_elem_of_filter. destruct (H3 x Hx). done.
  - intros x [[_ Hx]%list_elem_of_filter|Hx]; apply H5; auto.
  - intros x t0 Ht0. destruct (H6 x t0 Ht0) as [M1 M2 M3 M4 M5 M6]. split; unfold queued; cbn; try done.
    + intros Hr [_ Hx]%list_elem_of_filter. by apply M5.
    + intros Hx. apply M6. intros Ha. apply Hx, list_elem_of_filter. rewrite Ht0. done.
Qed.

(** ** Runs of the scheduler *)

Inductive label :=
| New | Admit | Wake (p : Z) | Tick | TakeResched | Switch (st : TaskState) | Requeue | Pick | Edit | Free (p : Z) | Dump.

(** The steps of the boot hart.  Interrupts are masked from a task's switch
    until the idle loop has dealt with it, so a wake-up only runs while no task
    is in [previous]. *)
Inductive sched_step : label → Sched → Sched → Prop :=
| step_new t p s s' : sched t = SchedInfo_new → next_pid s + 1 < U64 →
    (p ← alloc_pid; arc_new p t;; mret p) s = Ret (p, s') → sched_step New s s'
| step_admit p s s' : is_Some (tasks s !! p) → p ∉ all_tasks s → spawned (run_queue s) + 1 < U64 →
    admit_task p s = Ret (tt, s') → sched_step Admit s s'
| step_wake p s s' : previous s = None → is_Some (tasks s !! p) → wake p s = Ret (tt, s') → sched_step (Wake p) s s'
| step_tick s s' : on_timer_tick s = Ret (tt, s') → sched_step Tick s s'
| step_resched b s s' : take_resched s = Ret (b, s') → sched_step TakeResched s s'
| step_switch intact st p s s' : st ≠ Running → current s = Some p →
    (∀ t, tasks s !! p = Some t → intact (kstack t) = true) →
    switch_out intact st s = Ret (tt, s') → sched_step (Switch st) s s'
| step_requeue r s s' : current s = None → run_requeue s = Ret (r, s') → sched_step Requeue s s'
| step_pick r s s' : current s = None → previous s = None → run_pick s = Ret (r, s') → sched_step Pick s s'
| step_edit p f s s' : same_sched f → upd_task p f s = Ret (tt, s') → sched_step Edit s s'
| step_free p s : ¬ placed s p → sched_step (Free p) s (arc_free p s)
| step_dump r s s' : dump_tasks s = Ret (r, s') → sched_step Dump s s'.

Definition steps (s s' : Sched) : Prop := rtc (λ a b, ∃ l, sched_step l a b) s s'.

Lemma wp_ret_inv {S A} (m : ST S A) Q s a s' : m s = Ret (a, s') → wp m Q s → Q a s'.
Proof. unfold wp. by intros ->. Qed.


Lemma step_ok l s s' : sched_ok s → sched_step l s s' → sched_ok s'.
Proof.
  intros Hok Hst. destruct Hst as [t p s s' Ht Hn Hr|p s s' Ht Hna Hsp Hr|p s s' Hpv Ht Hr|s s' Hr|b s s' Hr
    |intact st p s s' Hst Hc Hin Hr|r s s' Hc Hr|r s s' Hc Hpv Hr|p f s s' Hf Hr|p s Hnp|r s s' Hr].
  - by destruct (wp_ret_inv _ _ _ _ _ Hr (arc_new_ok s t Hok Ht Hn)).
  - exact (wp_ret_inv _ _ _ _ _ Hr (admit_ok s p Hok Hsp Ht Hna)).
  - exact (wp_ret_inv _ _ _ _ _ Hr (wake_ok s Hok p Hpv Ht)).
  - exact (wp_ret_inv _ _ _ _ _ Hr (tick_ok s Hok)).
  - exact (wp_ret_inv _ _ _ _ _ Hr (take_resched_ok s Hok)).
  - by destruct (wp_ret_inv _ _ _ _ _ Hr (switch_out_ok s Hok intact st p Hc Hst Hin)).
  - by destruct (wp_ret_inv _ _ _ _ _ Hr (requeue_ok s Hok Hc)).
  - by destruct (wp_ret_inv _ _ _ _ _ Hr (pick_ok s Hok Hc Hpv)).
  - exact (wp_ret_inv _ _ _ _ _ Hr (edit_ok s p f Hok Hf)).
  - by apply free_ok.
  - exact (wp_ret_inv _ _ _ _ _ Hr (dump_ok s Hok)).
Qed.

Lemma steps_ok s s' : steps s s' → sched_ok s → sched_ok s'.
Proof. induction 1 as [|a b c [l Hl] _ IH]; [done|]. intros Ha. by eapply IH, step_ok. Qed.

Lemma wp_returns {S A} (m : ST S A) Q s : wp m Q s → ∃ a s', m s = Ret (a, s').
Proof. intros (a & s' & Hr & _)%wp_run. by exists a, s'. Qed.
Lemma wp_returns_unit {S} (m : ST S unit) Q s : wp m Q s → ∃ s', m s = Ret (tt, s').
Proof. intros ([] & s' & Hr)%wp_returns. by exists s'. Qed.

(** C19: in every state the scheduler can reach from boot, each task is in
    exactly one place: the running task is the current one, an admitted ready
    task is queued exactly once or about to be requeued, nothing else is queued,
    and every queued reference is to a live task; priority levels and tick
    counts stay in range.  From such a state every scheduler operation returns,
    called where the kernel calls it: creating a task while pids are left,
    admitting it, waking a live task while none is between its switch and the
    idle loop, the timer tick, the reschedule check, switching the current task
    out with its stack canary in place, requeueing, picking, and the task list;
    in particular the idle loop never meets a running task. *)
Theorem scheduler_invariant s : steps boot_sched s →
  sched_ok s ∧
  (∀ t, sched t = SchedInfo_new → next_pid s + 1 < U64 → ∃ p s', (p ← alloc_pid; arc_new p t;; mret p) s = Ret (p, s')) ∧
  (∀ p, is_Some (tasks s !! p) → p ∉ all_tasks s → spawned (run_queue s) + 1 < U64 → ∃ s', admit_task p s = Ret (tt, s')) ∧
  (∀ p, previous s = None → is_Some (tasks s !! p) → ∃ s', wake p s = Ret (tt, s')) ∧
  (∃ s', on_timer_tick s = Ret (tt, s')) ∧ (∃ b s', take_resched s = Ret (b, s')) ∧
  (∀ intact st p, current s = Some p → st ≠ Running → (∀ t, tasks s !! p = Some t → intact (kstack t) = true) →
     ∃ s', switch_out intact st s = Ret (tt, s')) ∧
  (current s = None → ∃ r s', run_requeue s = Ret (r, s')) ∧
  (current s = None → previous s = None → ∃ r s', run_pick s = Ret (r, s')) ∧
  (∃ r s', dump_tasks s = Ret (r, s')).
Proof.
  intros Hs. pose proof (steps_ok _ _ Hs sched_ok_boot) as Hok. split; [done|]. split_and!.
  - intros t Ht Hn. exact (wp_returns _ _ _ (arc_new_ok s t Hok Ht Hn)).
  - intros p Ht Hna Hsp. exact (wp_returns_unit _ _ _ (admit_ok s p Hok Hsp Ht Hna)).
  - intros p Hpv Ht. exact (wp_returns_unit _ _ _ (wake_ok s Hok p Hpv Ht)).
  - exact (wp_returns_unit _ _ _ (tick_ok s Hok)).
  - exact (wp_returns _ _ _ (take_resched_ok s Hok)).
  - intros intact st p Hc Hst Hin. exact (wp_returns_unit _ _ _ (switch_out_ok s Hok intact st p Hc Hst Hin)).
  - intros Hc. exact (wp_returns _ _ _ (requeue_ok s Hok Hc)).
  - intros Hc Hpv. exact (wp_returns _ _ _ (pick_ok s Hok Hc Hpv)).
  - exact (wp_returns _ _ _ (dump_ok s Hok)).
Qed.

(** ** Wake-ups are not lost once the sleeper is visible *)

Definition pending (s : Sched) (p : Z) : Prop :=
  ∃ t, tasks s !! p = Some t ∧ wakeup_pending (sched t) = true.

Lemma pending_upd s p q f : (∀ i, wakeup_pending i = true → wakeup_pending (f i) = true) →
  pending s p → pending (upd_sched q f s) p.
Proof.
  intros Hf (t & Ht & Hw). destruct (decide (p = q)) as [->|].
  - exists (with_sched f t). cbn. rewrite lookup_alter_eq, Ht. split; [done|by apply Hf].
  - exists t. cbn. by rewrite lookup_alter_ne.
Qed.

(** The operations that never clear a note. *)
Lemma queue_push_keeps (P : gmap Z Task → Prop) p lvl s : P (tasks s) → wlp (queue_push p lvl) (λ _ s', P (tasks s')) s.
Proof. intros HP. unfold queue_push. by wlp_steps. Qed.

Lemma get_task_keeps p s : wlp (get_task p) (λ t s', s' = s ∧ tasks s !! p = Some t) s.
Proof. unfold get_task. wlp_steps. split; [done|]. by destruct (tasks s !! p); simplify_eq/=. Qed.

Definition keeps (f : SchedInfo → SchedInfo) : Prop := ∀ i, wakeup_pending i = true → wakeup_pending (f i) = true.

Lemma upd_task_pending p q f s : keeps f → pending s p → wlp (upd_task q (with_sched f)) (λ _ s', pending s' p) s.
Proof. intros Hf Hp. unfold upd_task. wlp_steps. by apply (pending_upd s p q f). Qed.

Ltac keep p := apply (upd_task_pending p); [intros ? ?; by cbn|done].
Ltac bind_task := wlp_step; eapply wlp_mono; [|apply get_task_keeps]; intros ? ? [-> ?].

Lemma by_wlp {S A} (m : ST S A) Q s a s' : m s = Ret (a, s') → wlp m Q s → Q a s'.
Proof. intros Hr Hm. exact (Hm a s' Hr). Qed.

Lemma pending_wake q p s : pending s p → wlp (wake q) (λ _ s', pending s' p) s.
Proof.
  intros Hp. unfold wake. bind_task. case_decide; [|keep p].
  wlp_step. eapply wlp_mono; [|keep p]. intros [] s1 Hp1.
  exact (queue_push_keeps (λ m, ∃ t, m !! p = Some t ∧ wakeup_pending (sched t) = true) q _ s1 Hp1).
Qed.

Lemma pending_tick p s : pending s p → wlp on_timer_tick (λ _ s', pending s' p) s.
Proof.
  intros Hp. unfold on_timer_tick. wlp_step. wlp_step. destruct (current s); [|by wlp_step].
  bind_task. wlp_step. wlp_step. case_match; [wlp_step; wlp_step|]; keep p.
Qed.

Lemma pending_resched p s : pending s p → wlp take_resched (λ _ s', pending s' p) s.
Proof.
  intros Hp. unfold take_resched. wlp_step. wlp_step. destruct (current s); [|by wlp_step].
  bind_task. wlp_step. eapply wlp_mono; [|keep p]. intros. by wlp_step.
Qed.

Lemma pending_switch intact st p s : (st = Blocked → current s ≠ Some p) → pending s p →
  wlp (switch_out intact st) (λ _ s', pending s' p) s.
Proof.
  intros Hb Hp. unfold switch_out. wlp_steps. destruct (current s) as [q|] eqn:Hc; simplify_eq/=.
  eapply wlp_mono; [|apply get_task_keeps]. intros t s1 [-> Ht]. cbv beta. wlp_step.
  apply (wlp_mono _ (λ _ s', pending s' p)).
  - intros [] s1 Hp1. destruct (intact (kstack t)); [by wlp_steps|]. by wlp_step.
  - destruct (decide (st = Blocked)) as [->|].
    + unfold upd_task. wlp_steps. destruct Hp as (t0 & Ht0 & Hw). exists t0. cbn. rewrite lookup_alter_ne; [done|].
      intros ->. by apply Hb.
    + keep p.
Qed.

Lemma pending_requeue p s : pending s p → wlp run_requeue (λ _ s', pending s' p) s.
Proof.
  intros Hp. unfold run_requeue. wlp_step. wlp_step. destruct (previous s) as [q|]; [|by wlp_step].
  wlp_step. wlp_step. wlp_step. eapply wlp_mono; [|apply get_task_keeps]. intros t s1 [-> Ht]. cbv beta.
  destruct (state (sched t)); try by wlp_step. wlp_step. eapply wlp_mono; [|by apply (queue_push_keeps (λ m, ∃ t, m !! p = Some t ∧ wakeup_pending (sched t) = true))].
  intros. by wlp_step.
Qed.

Lemma pending_pick p s : pending s p → wlp run_pick (λ _ s', pending s' p) s.
Proof.
  intros Hp. unfold run_pick, run_pop, run_start. do 3 wlp_step. destruct (rq_pop (run_queue s)) as [[q|] rq]; [|by wlp_steps].
  wlp_steps. eapply wlp_mono; [|apply get_task_keeps]. intros t s1 [-> Ht]. cbv beta. wlp_step.
  apply (wlp_mono _ (λ _ s', pending s' p)); [intros [] s1 Hp1; by wlp_steps|keep p].
Qed.

(** Any step but the task's own attempt to block keeps the note. *)
Lemma pending_step l s s' p : sched_ok s → sched_step l s s' → l ≠ Free p →
  (l = Switch Blocked → current s ≠ Some p) → pending s p → pending s' p.
Proof.
  intros Hok Hst Hnf Hnb Hpd. destruct Hst as [t q s s' Ht Hn Hr|q s s' Ht Hna Hsp Hr|q s s' Hpv Ht Hr|s s' Hr|b s s' Hr
    |intact st q s s' Hst Hc Hin Hr|r s s' Hc Hr|r s s' Hc Hpv Hr|q f s s' Hf Hr|q s Hnp|r s s' Hr].
  - destruct (wp_ret_inv _ _ _ _ _ Hr (arc_new_ok s t Hok Ht Hn)) as (_ & -> & Hm & _).
    destruct Hpd as (t0 & Ht0 & Hw). exists t0. rewrite Hm, lookup_insert_ne; [done|].
    intros <-. assert (next_pid s < next_pid s) by (apply (so_pids s Hok); eauto). lia.
  - refine (by_wlp _ (λ _ s', pending s' p) _ _ _ Hr _). unfold admit_task. wlp_steps. by apply (queue_push_keeps (λ m, ∃ t, m !! p = Some t ∧ wakeup_pending (sched t) = true)).
  - exact (pending_wake q p s Hpd _ _ Hr).
  - exact (pending_tick p s Hpd _ _ Hr).
  - exact (pending_resched p s Hpd _ _ Hr).
  - refine (pending_switch intact st p s _ Hpd _ _ Hr). intros ->. by apply Hnb.
  - exact (pending_requeue p s Hpd _ _ Hr).
  - exact (pending_pick p s Hpd _ _ Hr).
  - apply Ret_inj in Hr as [_ <-]. destruct Hpd as (t & Ht & Hw). destruct (decide (p = q)) as [->|].
    + exists (f t). cbn. rewrite lookup_alter_eq, Ht. destruct (Hf t) as (_ & _ & _ & ->). done.
    + exists t. cbn. by rewrite lookup_alter_ne.
  - destruct Hpd as (t & Ht & Hw). exists t. cbn. rewrite lookup_delete_ne; [done|congruence].
  - refine (by_wlp _ (λ _ s', pending s' p) _ _ _ Hr _). unfold dump_tasks. by wlp_steps.
Qed.

(** The runs in which [p] itself does not try to block. *)
Inductive awake_steps (p : Z) : Sched → Sched → Prop :=
| awake_refl s : awake_steps p s s
| awake_cons l s s' s'' : sched_step l s s' → l ≠ Free p → (l = Switch Blocked → current s ≠ Some p) →
    awake_steps p s' s'' → awake_steps p s s''.

Lemma awake_pending p s s' : awake_steps p s s' → sched_ok s → pending s p → sched_ok s' ∧ pending s' p.
Proof.
  induction 1 as [|l s s1 s2 Hst Hnf Hnb _ IH]; [done|]. intros Hok Hp.
  apply IH; [by eapply step_ok|by eapply pending_step].
Qed.

Lemma pending_blocks intact s p : sched_ok s → pending s p → current s = Some p →
  (∀ t, tasks s !! p = Some t → intact (kstack t) = true) →
  wp (switch_out intact Blocked) (λ _ s', sched_ok s' ∧ previous s' = Some p ∧
    ∃ t, tasks s' !! p = Some t ∧ state (sched t) = Ready) s.
Proof.
  intros Hok (t & Ht & Hw) Hc Hin. pose proof (switch_out_ok s Hok intact Blocked p Hc ltac:(done) Hin) as Hwp.
  destruct (wp_run _ _ _ Hwp) as ([] & s' & Hr & Hok' & _ & Hpv). eapply wp_of_run; [exact Hr|]. split_and!; [done|done|].
  refine (by_wlp _ (λ _ s', ∃ t, tasks s' !! p = Some t ∧ state (sched t) = Ready) _ _ _ Hr _). unfold switch_out. wlp_steps. rewrite Hc in *. simplify_eq/=.
  eapply wlp_mono; [|apply get_task_keeps]. intros t1 s1 [-> Ht1]. cbn in Ht1. rewrite Ht in Ht1. injection Ht1 as <-.
  cbv beta. wlp_step. unfold upd_task. wlp_steps. rewrite (Hin t Ht). wlp_steps. cbn. rewrite lookup_alter_eq, Ht. cbn.
  eexists. split; [done|]. cbn. by rewrite Hw.
Qed.

(** C30: no wake-up is lost once the sleeper is on its wait queue.  If [p] is
    woken while it is still running or ready, then whatever the scheduler does
    next, interrupts, switches and other tasks included, [p]'s next attempt to
    block leaves it [Ready] in the hands of the idle loop instead of asleep. *)
Theorem wakeup_not_lost p s s1 s2 intact :
  sched_ok s → previous s = None →
  (∃ t, tasks s !! p = Some t ∧ state (sched t) ≠ Blocked) →
  wake p s = Ret (tt, s1) → awake_steps p s1 s2 → current s2 = Some p →
  (∀ t, tasks s2 !! p = Some t → intact (kstack t) = true) →
  ∃ s3, switch_out intact Blocked s2 = Ret (tt, s3) ∧ previous s3 = Some p ∧
    ∃ t, tasks s3 !! p = Some t ∧ state (sched t) = Ready.
Proof.
  intros Hok Hpv (t & Ht & Hnb) Hw Haw Hc Hin.
  assert (Hok1 : sched_ok s1) by exact (wp_ret_inv _ _ _ _ _ Hw (wake_ok s Hok p Hpv (mk_is_Some _ _ Ht))).
  assert (Hp1 : pending s1 p).
  { refine (by_wlp _ (λ _ s', pending s' p) _ _ _ Hw _). unfold wake. wlp_step. eapply wlp_mono; [|apply get_task_keeps].
    intros t1 s' [-> Ht1]. simplify_eq. rewrite decide_False by done. unfold upd_task. wlp_steps.
    exists (with_sched (set_pending true) t). cbn. by rewrite lookup_alter_eq, Ht. }
  destruct (awake_pending p s1 s2 Haw Hok1 Hp1) as [Hok2 Hp2].
  destruct (wp_run _ _ _ (pending_blocks intact s2 p Hok2 Hp2 Hc Hin)) as ([] & s3 & Hr & _ & Hpv3 & Ht3).
  by exists s3.
Qed.
