(* ===== verification/SchedFair.v ===== *)
(** * Queue discipline, time accounting and the second-hart window

    Which task is picked and when, how ticks move a task down the levels, the
    round-robin guarantee inside a level, and what a wake-up from another hart
    would do between a task's switch and the idle loop. *)
From stdpp Require Import base numbers gmap relations list.
From S2P Require Import Prelude Memory Config Addr FrameIface PageTable Space Task Sched SchedProps.

(** the scheduler always runs a task of the highest non-empty level, and
    within a level the one that has waited longest; the rest of the queue is
    untouched, and the hart idles only when every level is empty. *)
Theorem pick_priority s r s' : sched_ok s → current s = None → previous s = None → run_pick s = Ret (r, s') →
  match r with
  | Some p => ∃ i l, levels (run_queue s) !! i = Some (p :: l) ∧
      (∀ j, (j < i)%nat → levels (run_queue s) !! j = Some []) ∧
      levels (run_queue s') = <[i := l]> (levels (run_queue s)) ∧ current s' = Some p
  | None => queued s = [] ∧ s' = s
  end.
Proof.
  intros Hok Hc Hpv Hr. refine (by_wlp _ (λ r s', match r with Some p => _ | None => _ end) _ _ _ Hr _).
  unfold run_pick, run_pop, run_start. do 3 wlp_step. pose proof (pop_first_spec (levels (run_queue s))) as Hp.
  pose proof (rq_pop_ok (run_queue s) (so_levels s Hok)) as Hpop. unfold rq_pop in *.
  destruct (pop_first (levels (run_queue s))) as [[p ls]|].
  - destruct Hp as (i & l & Hi & Hj & ->). wlp_steps.
    eapply wlp_mono; [|apply get_task_keeps]. intros t s1 [-> Ht]. cbv beta. unfold upd_task. wlp_steps. by exists i, l.
  - wlp_steps. destruct Hpop as [_ Hq]. split; [done|]. by destruct s.
Qed.

(** ** Time accounting *)

Fixpoint ticks_n (n : nat) : ST Sched unit :=
  match n with O => mret tt | S n => on_timer_tick;; ticks_n n end.

Lemma tick_spec s p t : sched_ok s → current s = Some p → tasks s !! p = Some t →
  wp on_timer_tick (λ _ s', sched_ok s' ∧ current s' = Some p ∧ ∃ t', tasks s' !! p = Some t' ∧
    needs_resched (sched t') = true ∧ state (sched t') = state (sched t) ∧
    level (sched t') = Z.min 2 (level (sched t) + (ticks (sched t) + 1) `div` 4) ∧
    ticks (sched t') = (ticks (sched t) + 1) `mod` 4) s.
Proof.
  intros Hok Hc Ht. destruct (so_task s Hok p t Ht) as [L1 L2 _ _ _ _]. unfold PRIORITY_LEVELS, QUANTA_PER_LEVEL in *.
  destruct (wp_run _ _ _ (tick_ok s Hok)) as ([] & s' & Hr & Hok'). eapply wp_of_run; [exact Hr|]. split; [done|].
  refine (by_wlp _ (λ _ s', current s' = Some p ∧ _) _ _ _ Hr _). unfold on_timer_tick. wlp_step. wlp_step. rewrite Hc.
  wlp_step. eapply wlp_mono; [|apply get_task_keeps]. intros t1 s1 [-> Ht1]. simplify_eq. cbv beta. wlp_step. wlp_step.
  match goal with H : _ +! 1 = Ret _ |- _ => apply u64_add_inv in H as [-> _] end. unfold QUANTA_PER_LEVEL, PRIORITY_LEVELS.
  destruct (Z.leb_spec 4 (ticks (sched t) + 1)).
  - wlp_step. wlp_step. match goal with H : _ +! 1 = Ret _ |- _ => apply u64_add_inv in H as [-> _] end.
    unfold upd_task. wlp_steps. split; [done|]. cbn. rewrite lookup_alter_eq, Ht. eexists. split; [done|]. cbn.
    replace (ticks (sched t) + 1) with 4 by lia. change (4 `div` 4) with 1. split_and!; done || lia.
  - unfold upd_task. wlp_steps. split; [done|]. cbn. rewrite lookup_alter_eq, Ht. eexists. split; [done|]. cbn.
    rewrite Z.div_small, Z.mod_small by lia. split_and!; done || lia.
Qed.

(** exact time accounting.  A task that runs through [n] timer ticks
    without blocking ends at level [min 2 (level + (ticks + n) / 4)] with
    [(ticks + n) mod 4] ticks on its clock: one level down for every four
    quanta, never below the last level, and asked to yield. *)
Theorem tick_accounting n s p t : sched_ok s → current s = Some p → tasks s !! p = Some t →
  ∃ s' t', ticks_n n s = Ret (tt, s') ∧ sched_ok s' ∧ current s' = Some p ∧ tasks s' !! p = Some t' ∧
    level (sched t') = Z.min 2 (level (sched t) + (ticks (sched t) + Z.of_nat n) `div` 4) ∧
    ticks (sched t') = (ticks (sched t) + Z.of_nat n) `mod` 4 ∧
    ((0 < n)%nat → needs_resched (sched t') = true).
Proof.
  revert s t. induction n as [|n IH]; intros s t Hok Hc Ht.
  - destruct (so_task s Hok p t Ht) as [L1 L2 _ _ _ _]. unfold PRIORITY_LEVELS, QUANTA_PER_LEVEL in *.
    exists s, t. rewrite Z.add_0_r, Z.div_small, Z.mod_small by lia. split_and!; try done; lia.
  - destruct (wp_run _ _ _ (tick_spec s p t Hok Hc Ht)) as ([] & s1 & Hr & Hok1 & Hc1 & t1 & Ht1 & Hn1 & _ & Hl1 & Hk1).
    destruct (IH s1 t1 Hok1 Hc1 Ht1) as (s2 & t2 & Hr2 & Hok2 & Hc2 & Ht2 & Hl2 & Hk2 & Hn2).
    exists s2, t2. split_and!; try done.
    + cbn. unfold mbind, ST_bind. rewrite Hr. exact Hr2.
    + rewrite Hl2, Hl1, Hk1. destruct (so_task s Hok p t Ht) as [L1 L2 _ _ _ _].
      unfold PRIORITY_LEVELS, QUANTA_PER_LEVEL in *. Z.div_mod_to_equations. lia.
    + rewrite Hk2, Hk1. Z.div_mod_to_equations. lia.
    + intros _. destruct n; [|apply Hn2; lia]. cbn in Hr2. apply Ret_inj in Hr2 as [_ <-]. by simplify_eq.
Qed.

(** ** Round robin *)

(** The picked task yields at once. *)
Definition round (intact : Frame → bool) : ST Sched (option Z) :=
  r ← run_pick; switch_out intact Ready;; run_requeue;; mret r.

(** Level [i] is the highest non-empty one and its tasks belong there. *)
Record at_level (i : nat) (l : list Z) (s : Sched) : Prop := {
  al_ok : sched_ok s;
  al_cur : current s = None;
  al_prev : previous s = None;
  al_list : levels (run_queue s) !! i = Some l;
  al_above j : (j < i)%nat → levels (run_queue s) !! j = Some [];
  al_level p t : p ∈ l → tasks s !! p = Some t → level (sched t) = Z.of_nat i }.

Lemma at_level_lt i l s : at_level i l s → (i < 3)%nat.
Proof. intros [Hok _ _ Hl _ _]. apply lookup_lt_Some in Hl. by rewrite (so_levels s Hok) in Hl. Qed.

Lemma pick_exact i p l s : at_level i (p :: l) s →
  wp run_pick (λ r s1, r = Some p ∧ sched_ok s1 ∧ current s1 = Some p ∧
    levels (run_queue s1) = <[i := l]> (levels (run_queue s)) ∧
    tasks s1 = alter (with_sched (λ i, set_resched false (set_state Running i))) p (tasks s)) s.
Proof.
  intros [Hok Hc Hpv Hl Hab Hlv].
  destruct (wp_run _ _ _ (pick_ok s Hok Hc Hpv)) as (r & s1 & Hr1 & Hok1 & Hc1 & Hpv1). eapply wp_of_run; [exact Hr1|].
  assert (Hpick : r = Some p ∧ levels (run_queue s1) = <[i := l]> (levels (run_queue s)) ∧
    tasks s1 = alter (with_sched (λ i, set_resched false (set_state Running i))) p (tasks s)).
  { refine (by_wlp _ (λ r s1, r = Some p ∧ _) _ _ _ Hr1 _). unfold run_pick, run_pop, run_start. do 3 wlp_step.
    pose proof (pop_first_spec (levels (run_queue s))) as Hp. unfold rq_pop.
    destruct (pop_first (levels (run_queue s))) as [[q ls]|].
    - destruct Hp as (k & l' & Hk & Hj & ->).
      assert (k = i) as -> by (destruct (Nat.lt_trichotomy k i) as [?|[?|?]]; [rewrite Hab in Hk by done; done|done|rewrite Hj in Hl by done; done]).
      rewrite Hl in Hk. injection Hk as <- <-. wlp_steps.
      eapply wlp_mono; [|apply get_task_keeps]. intros t' s' [-> _]. cbv beta. unfold upd_task. by wlp_steps.
    - rewrite Forall_lookup in Hp. by specialize (Hp i _ Hl). }
  destruct Hpick as (-> & Hls1 & Ht1). split_and!; done.
Qed.

Lemma yield_exact intact p s : (∀ f, intact f = true) → sched_ok s → current s = Some p →
  wp (switch_out intact Ready) (λ _ s', sched_ok s' ∧ current s' = None ∧ previous s' = Some p ∧
    run_queue s' = run_queue s ∧ tasks s' = alter (with_sched (set_state Ready)) p (tasks s)) s.
Proof.
  intros Hin Hok Hc.
  destruct (wp_run _ _ _ (switch_out_ok s Hok intact Ready p Hc ltac:(done) ltac:(done))) as ([] & s2 & Hr2 & Hok2 & Hc2 & Hpv2).
  eapply wp_of_run; [exact Hr2|]. split_and!; [done|done|done|..].
  all: refine (by_wlp _ (λ _ s2, _ s2 = _) _ _ _ Hr2 _); unfold switch_out; do 4 wlp_step; rewrite Hc in *; simplify_eq/=;
    wlp_steps; (eapply wlp_mono; [|apply get_task_keeps]); intros t' s' [-> _]; cbv beta; wlp_step; unfold upd_task; wlp_steps;
    rewrite Hin; by wlp_steps.
Qed.

Lemma requeue_exact p t i s : sched_ok s → current s = None → previous s = Some p → tasks s !! p = Some t →
  state (sched t) = Ready → level (sched t) = Z.of_nat i → (i < 3)%nat →
  wp run_requeue (λ _ s', sched_ok s' ∧ current s' = None ∧ previous s' = None ∧ tasks s' = tasks s ∧
    ∃ l, levels (run_queue s) !! i = Some l ∧ levels (run_queue s') = <[i := l ++ [p]]> (levels (run_queue s))) s.
Proof.
  intros Hok Hc Hpv Ht Hst Hlvl Hi.
  destruct (wp_run _ _ _ (requeue_ok s Hok Hc)) as (o & s3 & Hr3 & Hok3 & Hc3 & Hpv3). eapply wp_of_run; [exact Hr3|].
  do 3 (split; [done|]). refine (by_wlp _ (λ _ s3, tasks s3 = _ ∧ _) _ _ _ Hr3 _).
  unfold run_requeue. do 2 wlp_step. rewrite Hpv. do 3 wlp_step.
  eapply wlp_mono; [|apply get_task_keeps]. intros t' s' [-> Ht']. cbv beta. cbn in Ht'. simplify_eq. rewrite Hst.
  wlp_step. unfold queue_push. wlp_steps. split; [done|]. cbn.
  destruct (rq_push_ok (run_queue s) p (level (sched t))) as (q & Hq & _ & _ & _ & l0 & Hl0 & Hlq); [apply Hok|lia|].
  match goal with H : rq_push _ _ _ = Ret ?a |- _ => cbn in H; rewrite Hq in H; injection H as <- end.
  rewrite Hlvl in *. replace (Z.to_nat (Z.min (Z.of_nat i) 2)) with i in * by lia. by exists l0.
Qed.

Lemma round_spec intact i p l s : (∀ f, intact f = true) → at_level i (p :: l) s →
  wp (round intact) (λ r s', r = Some p ∧ at_level i (l ++ [p]) s') s.
Proof.
  intros Hin Hal. pose proof (at_level_lt i _ s Hal) as Hi3. pose proof (pick_exact i p l s Hal) as Hpick.
  destruct Hal as [Hok Hc Hpv Hl Hab Hlv]. destruct (so_placed s Hok p) as [_ [t Ht]].
  { left. unfold queued, rq_pids. rewrite (concat_lookup _ i _ Hl). left. }
  assert (Hlt : level (sched t) = Z.of_nat i) by (apply (Hlv p); [left|done]).
  unfold round. wp_step. eapply wp_mono; [|exact Hpick]. intros r s1 (-> & Hok1 & Hc1 & Hls1 & Ht1). cbv beta.
  wp_step. eapply wp_mono; [|exact (yield_exact intact p s1 Hin Hok1 Hc1)]. intros [] s2 (Hok2 & Hc2 & Hpv2 & Hq2 & Ht2). cbv beta.
  set (t2 := with_sched (set_state Ready) (with_sched (λ i, set_resched false (set_state Running i)) t)).
  assert (Htp2 : tasks s2 !! p = Some t2) by by rewrite Ht2, lookup_alter_eq, Ht1, lookup_alter_eq, Ht.
  wp_step. eapply wp_mono; [|apply (requeue_exact p t2 i s2); done]. intros o s3 (Hok3 & Hc3 & Hpv3 & Ht3 & l0 & Hl0 & Hls3). cbv beta.
  rewrite Hq2, Hls1 in Hl0, Hls3. rewrite list_lookup_insert_eq in Hl0 by (by eapply lookup_lt_Some). injection Hl0 as <-.
  rewrite list_insert_insert_eq in Hls3. wp_step. split; [done|]. split; try done.
  - rewrite Hls3. apply list_lookup_insert_eq. by eapply lookup_lt_Some.
  - intros j Hj. rewrite Hls3, list_lookup_insert_ne by lia. by apply Hab.
  - intros x t' Hx Htx. rewrite Ht3 in Htx.
    assert (Hx' : x ∈ p :: l) by (rewrite elem_of_app, list_elem_of_singleton in Hx; rewrite elem_of_cons; tauto).
    destruct (decide (x = p)) as [->|]; [rewrite Htp2 in Htx; by injection Htx as <-|].
    rewrite Ht2, lookup_alter_ne, Ht1, lookup_alter_ne in Htx by done. by apply (Hlv x).
Qed.

Fixpoint rounds (intact : Frame → bool) (n : nat) : ST Sched (list (option Z)) :=
  match n with O => mret [] | S n => r ← round intact; l ← rounds intact n; mret (r :: l) end.

(** round robin.  If the tasks that get the processor give it back, then
    every task of the highest non-empty level runs within one turn of the queue:
    the [k]-th in line is the [k]-th to be picked. *)
Theorem round_robin intact i l s k p : (∀ f, intact f = true) → at_level i l s → l !! k = Some p →
  ∃ picked s', rounds intact (S k) s = Ret (picked, s') ∧ picked = Some <$> take (S k) l ∧ last picked = Some (Some p).
Proof.
  intros Hin Hal Hk.
  assert (Hgen : ∀ n l s, (n ≤ length l)%nat → at_level i l s → ∃ s', rounds intact n s = Ret (Some <$> take n l, s')).
  { clear - Hin. intros n. induction n as [|n IH]; intros l s Hn Hal; [by exists s|]. destruct l as [|x l]; [simpl in Hn; lia|].
    destruct (wp_run _ _ _ (round_spec intact i x l s Hin Hal)) as (r & s1 & Hr & -> & Hal1).
    destruct (IH (l ++ [x]) s1) as (s2 & Hr2); [rewrite length_app; simpl in *; lia|done|].
    exists s2. cbn [rounds]. unfold mbind, ST_bind. rewrite Hr. rewrite Hr2. unfold mret, ST_ret. do 3 f_equal. simpl.
    rewrite take_app_le by (simpl in Hn; lia). done. }
  pose proof (lookup_lt_Some _ _ _ Hk) as Hlen. destruct (Hgen (S k) l s) as (s' & Hr); [lia|done|].
  exists (Some <$> take (S k) l), s'. split_and!; [exact Hr|done|].
  rewrite (take_S_r l k p Hk), fmap_app, last_app. done.
Qed.

(** ** Witnesses *)

Definition demo_task : Task :=
  mkTask [] (kernel_fn 0) [] (TaskContext_new 0 0) (mkFrame 0 3) SchedInfo_new (mkUser None None 0 0 None []).
Definition state_of {A} (s : Sched) (o : outcome (A * Sched)) : Sched := match o with Ret (_, s') => s' | Panic => s end.

(** Two tasks are created and admitted, then the first of them runs. *)
Definition new_task : ST Sched Z := p ← alloc_pid; arc_new p demo_task;; mret p.
Definition demo1 : Sched := state_of boot_sched (new_task boot_sched).
Definition demo2 : Sched := state_of demo1 (admit_task 1 demo1).
Definition demo3 : Sched := state_of demo2 (new_task demo2).
Definition demo4 : Sched := state_of demo3 (admit_task 2 demo3).
Definition demo5 : Sched := state_of demo4 (run_pick demo4).

Lemma demo_steps : steps boot_sched demo4 ∧ steps boot_sched demo5.
Proof.
  assert (H4 : steps boot_sched demo4).
  { eapply rtc_l; [exists New; by apply (step_new demo_task 1)|].
    eapply rtc_l; [exists Admit; apply (step_admit 1 demo1 demo2); [by eexists|by apply (bool_decide_unpack _)|done|done]|].
    eapply rtc_l; [exists New; by apply (step_new demo_task 2 demo2 demo3)|].
    eapply rtc_l; [exists Admit; apply (step_admit 2 demo3 demo4); [by eexists|by apply (bool_decide_unpack _)|done|done]|].
    apply rtc_refl. }
  split; [exact H4|]. eapply rtc_r; [exact H4|]. exists Pick. by apply (step_pick (Some 1)).
Qed.

Lemma demo4_ok : sched_ok demo4.
Proof. apply (steps_ok boot_sched); [apply demo_steps|apply sched_ok_boot]. Qed.
Lemma demo5_ok : sched_ok demo5.
Proof. apply (steps_ok boot_sched); [apply demo_steps|apply sched_ok_boot]. Qed.

Lemma demo4_level : at_level 0 [1; 2] demo4.
Proof.
  split; [exact demo4_ok|done|done|done|lia|].
  intros p t Hp. repeat (apply elem_of_cons in Hp as [->|Hp]; [by intros [= <-]|]). by apply elem_of_nil in Hp.
Qed.

Lemma scheduler_invariant_witness : sched_ok demo5.
Proof. apply (scheduler_invariant demo5), demo_steps. Defined.

Lemma wakeup_not_lost_witness : ∃ s3, switch_out (λ _, true) Blocked (state_of demo5 (wake 1 demo5)) = Ret (tt, s3) ∧
  previous s3 = Some 1 ∧ ∃ t, tasks s3 !! 1 = Some t ∧ state (sched t) = Ready.
Proof.
  apply (wakeup_not_lost 1 demo5 (state_of demo5 (wake 1 demo5)) (state_of demo5 (wake 1 demo5)) (λ _, true));
    [exact demo5_ok|reflexivity|by eexists|reflexivity|apply awake_refl|reflexivity|reflexivity].
Defined.

Lemma pick_priority_witness : ∃ i l, levels (run_queue demo4) !! i = Some (1 :: l) ∧
  (∀ j, (j < i)%nat → levels (run_queue demo4) !! j = Some []) ∧
  levels (run_queue demo5) = <[i := l]> (levels (run_queue demo4)) ∧ current demo5 = Some 1.
Proof. exact (pick_priority demo4 (Some 1) demo5 demo4_ok eq_refl eq_refl eq_refl). Defined.

Lemma tick_accounting_witness : ∃ s' t', ticks_n 9 demo5 = Ret (tt, s') ∧ sched_ok s' ∧ current s' = Some 1 ∧ tasks s' !! 1 = Some t' ∧
  level (sched t') = 2 ∧ ticks (sched t') = 1 ∧ ((0 < 9)%nat → needs_resched (sched t') = true).
Proof.
  exact (tick_accounting 9 demo5 1 (with_sched (λ i, set_resched false (set_state Running i)) demo_task) demo5_ok eq_refl eq_refl).
Defined.

Lemma round_robin_witness : ∃ picked s', rounds (λ _, true) 2 demo4 = Ret (picked, s') ∧ picked = [Some 1; Some 2] ∧ last picked = Some (Some 2).
Proof. exact (round_robin (λ _, true) 0 [1; 2] demo4 1 2 (λ _, eq_refl) demo4_level eq_refl). Defined.

(** ** The window a second hart would have

    The kernel masks interrupts from [switch_out] to [run_requeue], which keeps
    wake-ups on the same hart out; a wake-up from another hart has no such
    barrier.  It finds the task already [Blocked], queues it, and the idle loop
    queues it again. *)
Definition demo_window : Sched := state_of demo5 (switch_out (λ _, true) Blocked demo5).

Theorem wake_window_queues_twice :
  sched_ok demo_window ∧ previous demo_window = Some 1 ∧
  ∃ s1 r s2, wake 1 demo_window = Ret (tt, s1) ∧ run_requeue s1 = Ret (r, s2) ∧ queued s2 = [2; 1; 1].
Proof.
  split_and!; [|reflexivity|].
  - refine (proj1 (wp_ret_inv _ _ demo5 tt demo_window eq_refl (switch_out_ok demo5 demo5_ok (λ _, true) Blocked 1 eq_refl _ _))); done.
  - set (s1 := state_of demo_window (wake 1 demo_window)). exists s1, None, (state_of s1 (run_requeue s1)).
    split_and!; reflexivity.
Qed.
