(* ===== verification/SchedLive.v ===== *)
(** * No task starves

    Tasks queue at their own level in every reachable state, and if every task
    that gets the processor computes until the timer takes it away, each one in
    the queue runs again within nine turns per task. *)
From stdpp Require Import base numbers gmap relations list.
From Stdlib Require Import Lia.
From S2P Require Import Prelude Memory Config Addr FrameIface PageTable Space Task Sched SchedProps SchedFair.

(** ** Tasks queue at their level *)
Definition level_of (s : Sched) (p : Z) : option Z := level ∘ sched <$> tasks s !! p.

Record in_level (s : Sched) : Prop := {
  il_queue i l p n : levels (run_queue s) !! i = Some l → p ∈ l → level_of s p = Some n → n = Z.of_nat i;
  il_new p n : level_of s p = Some n → p ∉ all_tasks s → n = 0 }.

Lemma in_queued s i l p : levels (run_queue s) !! i = Some l → p ∈ l → p ∈ queued s.
Proof. intros Hi Hp. unfold queued, rq_pids. rewrite (concat_lookup _ i l Hi). by apply elem_of_app; left. Qed.

(** Levels may change where a task is not queued. *)
Lemma in_level_tasks s m : in_level s →
  (∀ p n, p ∈ queued s ∨ p ∉ all_tasks s → level ∘ sched <$> m !! p = Some n → level_of s p = Some n) → in_level (set_tasks m s).
Proof.
  intros [Hq Hn] Hm. split; cbn.
  - intros i l p n Hi Hp Hl. apply (Hq i l p n Hi Hp). apply Hm; [left; by eapply in_queued|done].
  - intros p n Hl Hp. apply (Hn p n); [apply Hm; [by right|done]|done].
Qed.
Lemma in_level_same s p f : in_level s → (∀ i, level (f i) = level i) → in_level (set_tasks (alter (with_sched f) p (tasks s)) s).
Proof.
  intros Hl Hf. apply in_level_tasks; [done|]. intros q n _. destruct (decide (q = p)) as [->|]; [|by rewrite lookup_alter_ne].
  unfold level_of. rewrite lookup_alter_eq. destruct (tasks s !! p); [|done]. cbn. by rewrite Hf.
Qed.
Lemma in_level_push p lvl s : in_level s → length (levels (run_queue s)) = 3%nat → 0 ≤ lvl < 3 → (∀ n, level_of s p = Some n → n = lvl) →
  wlp (queue_push p lvl) (λ _ s', in_level s' ∧ all_tasks s' = all_tasks s) s.
Proof.
  intros [Hq Hn] Hlen Hlvl Hp. unfold queue_push. wlp_steps.
  destruct (rq_push_ok (run_queue s) p lvl) as (q' & Hq' & _ & _ & _ & l0 & Hl0 & Hlq); [done|lia|].
  match goal with H : rq_push _ _ _ = Ret ?a |- _ => rewrite Hq' in H; injection H as <- end. split; [|done].
  replace (Z.to_nat (Z.min lvl 2)) with (Z.to_nat lvl) in * by lia. split; [|done]. cbn. rewrite Hlq. intros i l x n Hi Hx Hl.
  destruct (decide (i = Z.to_nat lvl)) as [->|Hne].
  - rewrite list_lookup_insert_eq in Hi by (by eapply lookup_lt_Some). injection Hi as <-.
    apply elem_of_app in Hx as [Hx|Hx%list_elem_of_singleton]; [by apply (Hq _ l0 x)|]. subst x. rewrite (Hp n Hl). lia.
  - rewrite list_lookup_insert_ne in Hi by done. by apply (Hq i l x).
Qed.

Lemma in_level_cpu c pv s : in_level s → in_level (set_cpu c pv s).
Proof. by intros []. Qed.

Lemma in_level_wake p s : sched_ok s → in_level s → wlp (wake p) (λ _ s', in_level s') s.
Proof.
  intros Hok Hl. unfold wake. wlp_step. eapply wlp_mono; [|apply get_task_keeps].
  cbv beta. intros t s1 [-> Htp]. destruct (so_task s Hok p t Htp) as [L1 _ _ L4 _ L6]. case_decide as Hb.
  2: { unfold upd_task. wlp_steps. by apply in_level_same. }
  unfold upd_task. do 4 wlp_step. match goal with |- wlp _ _ ?x => set (s1 := x) end. unfold PRIORITY_LEVELS in *.
  assert (Hs1 : in_level s1).
  { apply in_level_tasks; [done|]. intros q n Hq. destruct (decide (q = p)) as [->|]; [|by rewrite lookup_alter_ne].
    destruct Hq as [Hq|Hq]; [by destruct (L4 Hq); congruence|by specialize (L6 Hq); congruence]. }
  eapply wlp_mono; [|apply (in_level_push p _ s1 Hs1)]; [by intros ? ? []|apply Hok|unfold saturating_sub; lia|].
  intros n. unfold level_of, s1. cbn. rewrite lookup_alter_eq, Htp. cbn. by intros [= <-].
Qed.
Lemma in_level_tick s : sched_ok s → in_level s → wlp on_timer_tick (λ _ s', in_level s') s.
Proof.
  intros Hok Hl. unfold on_timer_tick. do 2 wlp_step. destruct (current s) as [p|] eqn:Hc; [|by wlp_steps].
  assert (Hnq : ∀ m, (∀ q, q ≠ p → m !! q = tasks s !! q) → in_level (set_tasks m s)).
  { intros m Hm. apply in_level_tasks; [done|]. intros q n Hq. destruct (decide (q = p)) as [->|]; [|by rewrite Hm].
    destruct (so_placed s Hok p) as [Ha [t Ht]]; [unfold placed; auto|]. destruct (so_task s Hok p t Ht) as [_ _ L3 L4 _ _].
    destruct Hq as [Hq|Hq]; [|done]. destruct (L4 Hq) as [Hr' _]. apply L3 in Hc. congruence. }
  wlp_step. eapply wlp_mono; [|apply get_task_keeps]. cbv beta. intros t s1 [-> _]. do 2 wlp_step. unfold upd_task.
  destruct (_ <=? _); wlp_steps; apply Hnq; intros q Hq; by rewrite lookup_alter_ne.
Qed.
Lemma in_level_requeue s : sched_ok s → in_level s → wlp run_requeue (λ _ s', in_level s') s.
Proof.
  intros Hok Hl. unfold run_requeue. do 2 wlp_step. destruct (previous s) as [p|] eqn:Hpv; [|by wlp_steps].
  do 3 wlp_step. eapply wlp_mono; [|apply get_task_keeps]. cbv beta. intros t s1 [-> Ht]. cbn in Ht.
  destruct (state (sched t)); [|by wlp_steps| |]; try (wlp_steps; by apply in_level_cpu).
  wlp_step. eapply wlp_mono; [|apply (in_level_push p (level (sched t)) (set_cpu (current s) None s)); [by apply in_level_cpu|apply Hok|apply (so_task s Hok p t Ht)|]].
  + cbv beta. intros [] s1 [Hs1 _]. by wlp_steps.
  + intros n. unfold level_of. cbn. rewrite Ht. by intros [= <-].
Qed.
Lemma in_level_pick s : sched_ok s → in_level s → wlp run_pick (λ _ s', in_level s') s.
Proof.
  intros Hok Hl. unfold run_pick, run_pop, run_start. do 3 wlp_step.
  pose proof (pop_first_spec (levels (run_queue s))) as Hp. unfold rq_pop. destruct (pop_first (levels (run_queue s))) as [[p ls]|].
  2: { wlp_steps. by destruct s. }
  destruct Hp as (i & l & Hi & _ & ->). set (s0 := set_rq (mkRQ (<[i := l]> (levels (run_queue s))) (spawned (run_queue s))) s).
  assert (H0 : in_level s0).
  { destruct Hl as [Hq Hnew]. split; [|exact Hnew]. intros j lj x n Hj Hx Hlv. cbn in Hj. destruct (decide (j = i)) as [->|].
    - rewrite list_lookup_insert_eq in Hj by (by eapply lookup_lt_Some). injection Hj as <-. apply (Hq i (p :: l) x n Hi); [by right|done].
    - rewrite list_lookup_insert_ne in Hj by done. by apply (Hq j lj x n). }
  wlp_steps. eapply wlp_mono; [|apply get_task_keeps]. cbv beta. intros t s1 [-> _]. unfold upd_task. wlp_steps.
  by apply in_level_cpu, in_level_same.
Qed.
Lemma in_level_step a s s' : sched_ok s → in_level s → sched_step a s s' → in_level s'.
Proof.
  intros Hok Hl Hst. destruct Hst as [t p s s' Ht Hn Hr|p s s' Ht Hna Hsp Hr|p s s' Hpv Ht Hr|s s' Hr|b s s' Hr
    |intact st p s s' Hst Hc Hin Hr|r s s' Hc Hr|r s s' Hc Hpv Hr|p f s s' Hf Hr|p s Hnp|r s s' Hr].
  - unfold alloc_pid, arc_new, mbind, ST_bind, get, put, mret, ST_ret in Hr. injection Hr as _ <-. destruct Hl as [Hq Hnew]. split; cbn.
    + intros i l x n Hi Hx. unfold level_of. cbn. rewrite lookup_insert_ne; [by apply (Hq i l x)|]. intros <-.
      destruct (so_placed s Hok (next_pid s)) as [Ha _]; [left; by eapply in_queued|]. pose proof (so_pids s Hok (next_pid s) (or_introl Ha)). lia.
    + intros x n. unfold level_of. cbn. destruct (decide (x = next_pid s)) as [->|]; [|rewrite lookup_insert_ne by done; by apply Hnew].
      rewrite lookup_insert_eq. cbn. rewrite Ht. by intros [= <-].
  - refine (by_wlp _ (λ _ s', in_level s') _ _ _ Hr _). unfold admit_task. do 6 wlp_step.
    match goal with |- wlp _ _ ?x => set (s1 := x) end. assert (H1 : in_level s1).
    { destruct Hl as [Hq Hnew]. split; [exact Hq|]. intros x n Hx Hin. apply (Hnew x n Hx). cbn in Hin. set_solver. }
    eapply wlp_mono; [|apply (in_level_push p 0 s1 H1)]; [by intros ? ? []|apply Hok|lia|]. intros n Hx. by apply (il_new s Hl p n).
  - exact (in_level_wake p s Hok Hl _ _ Hr).
  - exact (in_level_tick s Hok Hl _ _ Hr).
  - refine (by_wlp _ (λ _ s', in_level s') _ _ _ Hr _). unfold take_resched. do 2 wlp_step. destruct (current s) as [p|]; [|by wlp_steps].
    wlp_step. eapply wlp_mono; [|apply get_task_keeps]. cbv beta. intros t s1 [-> _]. unfold upd_task. wlp_steps. by apply in_level_same.
  - refine (by_wlp _ (λ _ s', in_level s') _ _ _ Hr _). unfold switch_out. do 7 wlp_step.
    eapply wlp_mono; [|apply get_task_keeps]. cbv beta. intros t s1 [-> _]. wlp_step. unfold upd_task. do 3 wlp_step.
    destruct (intact _); [|by wlp_steps]. wlp_steps. apply in_level_cpu, in_level_same; [by apply in_level_cpu|]. intros i. by repeat case_match.
  - exact (in_level_requeue s Hok Hl _ _ Hr).
  - exact (in_level_pick s Hok Hl _ _ Hr).
  - unfold upd_task, mbind, ST_bind, get, put in Hr. injection Hr as <-. apply in_level_tasks; [done|]. intros q n _.
    destruct (decide (q = p)) as [->|]; [|by rewrite lookup_alter_ne]. unfold level_of. rewrite lookup_alter_eq.
    destruct (tasks s !! p) as [t|]; [|done]. cbn. by destruct (Hf t) as (_ & -> & _).
  - apply in_level_tasks; [done|]. intros q n _. destruct (decide (q = p)) as [->|]; [by rewrite lookup_delete_eq|by rewrite lookup_delete_ne].
  - unfold dump_tasks, mbind, ST_bind, get, put, mret, ST_ret in Hr. injection Hr as _ <-. destruct Hl as [Hq Hnew]. split; [exact Hq|].
    intros x n Hx Hin. apply (Hnew x n Hx). intros Ha. apply Hin. cbn. apply list_elem_of_filter. split; [|done].
    unfold level_of in Hx. cbn in Hx. destruct (tasks s !! x); [by eexists|done].
Qed.
Lemma in_level_steps s : steps boot_sched s → sched_ok s ∧ in_level s.
Proof.
  assert (Hgen : ∀ a b, steps a b → sched_ok a ∧ in_level a → sched_ok b ∧ in_level b).
  { induction 1 as [|x y z [l Hl] _ IH]; [done|]. intros [Hok Hin]. apply IH. split; [by eapply step_ok|by eapply in_level_step]. }
  intros Hs. apply (Hgen _ _ Hs). split; [apply sched_ok_boot|]. split; [|done]. intros [|[|[|i]]] l p n Hi Hp; try done; cbn in Hi;
    injection Hi as <-; by apply elem_of_nil in Hp.
Qed.

(** ** One turn of the processor *)

(** A task is picked, computes until the timer interrupts it, and yields. *)
Definition turn (intact : Frame → bool) : ST Sched (option Z) :=
  r ← run_pick;
  on_timer_tick;;
  b ← take_resched;
  (if b : bool then switch_out intact Ready else mret tt);;
  run_requeue;;
  mret r.

Record resting (s : Sched) : Prop := {
  rs_ok : sched_ok s;
  rs_level : in_level s;
  rs_current : current s = None;
  rs_previous : previous s = None }.

(** The quanta a task has left before it reaches the last level. *)
Definition credit (i : SchedInfo) : Z := Z.max 0 (8 - 4 * level i - ticks i).

Lemma tick_frame s p : current s = Some p →
  wlp on_timer_tick (λ _ s', run_queue s' = run_queue s ∧ ∀ x, x ≠ p → tasks s' !! x = tasks s !! x) s.
Proof.
  intros Hc. unfold on_timer_tick. do 2 wlp_step. rewrite Hc. wlp_step. eapply wlp_mono; [|apply get_task_keeps].
  cbv beta. intros t s1 [-> _]. do 2 wlp_step. unfold upd_task.
  destruct (_ <=? _); wlp_steps; (split; [done|]); intros x Hx; cbn; by rewrite lookup_alter_ne.
Qed.
Lemma resched_exact s p t : current s = Some p → tasks s !! p = Some t →
  wp take_resched (λ b s', b = needs_resched (sched t) ∧ current s' = Some p ∧ run_queue s' = run_queue s ∧
    tasks s' = alter (with_sched (set_resched false)) p (tasks s)) s.
Proof.
  intros Hc Ht. unfold take_resched. wp_step. wp_step. rewrite Hc. wp_step. apply (wp_get_task p t); [done|]. unfold upd_task. by wp_steps.
Qed.

(** The head of the first level that is not empty has its turn and goes to the
    end of its level, which it may have left. *)
Record turned (i : nat) (q : Z) (l : list Z) (s s' : Sched) : Prop := {
  tu_rest : resting s';
  tu_other x : x ≠ q → tasks s' !! x = tasks s !! x;
  tu_task : ∃ t t' j lj, tasks s !! q = Some t ∧ tasks s' !! q = Some t' ∧ (i ≤ j)%nat ∧
    (if decide (level (sched t) < 2) then credit (sched t') = credit (sched t) - 1 else credit (sched t') = 0 ∧ credit (sched t) = 0) ∧
    <[i := l]> (levels (run_queue s)) !! j = Some lj ∧
    levels (run_queue s') = <[j := lj ++ [q]]> (<[i := l]> (levels (run_queue s))) }.

Lemma turn_spec intact i q l s : (∀ f, intact f = true) → resting s → levels (run_queue s) !! i = Some (q :: l) →
  (∀ j, (j < i)%nat → levels (run_queue s) !! j = Some []) →
  wp (turn intact) (λ r s', r = Some q ∧ turned i q l s s') s.
Proof.
  intros Hin [Hok Hil Hc Hpv] Hi Hab.
  assert (Hal : at_level i (q :: l) s).
  { split; try done. intros x t Hx Ht. apply (il_queue s Hil i (q :: l) x); [done|done|]. unfold level_of. by rewrite Ht. }
  destruct (so_placed s Hok q) as [_ [t Ht]]; [left; eapply in_queued; [exact Hi|left]|].
  assert (Hlv : level (sched t) = Z.of_nat i) by (apply (al_level i (q :: l) s Hal q); [left|done]).
  destruct (wp_run _ _ _ (pick_exact i q l s Hal)) as (r1 & s1 & Hr1 & -> & Hok1 & Hc1 & Hls1 & Ht1).
  set (t1 := with_sched (λ i, set_resched false (set_state Running i)) t).
  assert (Htq1 : tasks s1 !! q = Some t1) by by rewrite Ht1, lookup_alter_eq, Ht.
  destruct (wp_run _ _ _ (tick_spec s1 q t1 Hok1 Hc1 Htq1)) as ([] & s2 & Hr2 & Hok2 & Hc2 & t2 & Htq2 & Hn2 & Hst2 & Hlv2 & Htk2).
  destruct (tick_frame s1 q Hc1 _ _ Hr2) as [Hq2 Ho2].
  destruct (wp_run _ _ _ (resched_exact s2 q t2 Hc2 Htq2)) as (b & s3 & Hr3 & -> & Hc3 & Hq3 & Ht3).
  pose proof (step_ok _ _ _ Hok2 (step_resched _ _ _ Hr3)) as Hok3. rewrite Hn2 in *.
  destruct (wp_run _ _ _ (yield_exact intact q s3 Hin Hok3 Hc3)) as ([] & s4 & Hr4 & Hok4 & Hc4 & Hpv4 & Hq4 & Ht4).
  set (t4 := with_sched (set_state Ready) (with_sched (set_resched false) t2)).
  assert (Htq4 : tasks s4 !! q = Some t4) by by rewrite Ht4, lookup_alter_eq, Ht3, lookup_alter_eq, Htq2.
  destruct (so_task s1 Hok1 q t1 Htq1) as [L1 L2 _ _ _ _]. unfold PRIORITY_LEVELS, QUANTA_PER_LEVEL in *.
  change (level (sched t1)) with (level (sched t)) in *. change (ticks (sched t1)) with (ticks (sched t)) in *.
  assert (Hj : level (sched t4) = Z.of_nat (Z.to_nat (level (sched t2)))) by (cbn; Z.div_mod_to_equations; lia).
  assert (Hj3 : (i ≤ Z.to_nat (level (sched t2)) < 3)%nat) by (Z.div_mod_to_equations; lia).
  destruct (wp_run _ _ _ (requeue_exact q t4 _ s4 Hok4 Hc4 Hpv4 Htq4 eq_refl Hj (proj2 Hj3))) as (o & s5 & Hr5 & Hok5 & Hc5 & Hpv5 & Ht5 & lj & Hlj & Hls5).
  assert (Hil5 : in_level s5).
  { refine (in_level_step _ s4 s5 Hok4 _ (step_requeue _ _ _ Hc4 Hr5)).
    refine (in_level_step _ s3 s4 Hok3 _ (step_switch intact Ready q _ _ ltac:(done) Hc3 (λ t _, Hin _) Hr4)).
    refine (in_level_step _ s2 s3 Hok2 _ (step_resched _ _ _ Hr3)). refine (in_level_step _ s1 s2 Hok1 _ (step_tick _ _ Hr2)).
    exact (in_level_step _ s s1 Hok Hil (step_pick _ _ _ Hc Hpv Hr1)). }
  assert (Hrun : turn intact s = Ret (Some q, s5)).
  { unfold turn, mbind, ST_bind. by rewrite Hr1, Hr2, Hr3, Hr4, Hr5. }
  eapply wp_of_run; [exact Hrun|]. split; [done|]. rewrite Hq4, Hq3, Hq2, Hls1 in Hlj, Hls5. split.
  - done.
  - intros x Hx. rewrite Ht5, Ht4, lookup_alter_ne, Ht3, lookup_alter_ne, Ho2, Ht1, lookup_alter_ne by done. done.
  - exists t, t4, (Z.to_nat (level (sched t2))), lj. split_and!; [done|by rewrite Ht5|lia| |done|done].
    unfold credit. change (level (sched t4)) with (level (sched t2)). change (ticks (sched t4)) with (ticks (sched t2)). rewrite Hlv2, Htk2. case_decide; [|split]; Z.div_mod_to_equations; lia.
Qed.

(** ** Every turn brings a waiting task closer *)
Definition credit_of (s : Sched) (p : Z) : Z := match tasks s !! p with Some t => credit (sched t) | None => 0 end.
Definition total (f : Z → Z) (l : list Z) : Z := foldr (λ x n, f x + n) 0 l.

#[export] Instance total_perm f : Proper ((≡ₚ) ==> eq) (total f).
Proof. intros l l' HP. unfold total. induction HP; cbn in *; lia. Qed.
Lemma total_cons f x l : total f (x :: l) = f x + total f l.
Proof. done. Qed.
Lemma total_ext f g l : (∀ x, x ∈ l → f x = g x) → total f l = total g l.
Proof.
  induction l as [|x l IH]; intros Hfg; [done|]. rewrite !total_cons, (Hfg x) by left. f_equal. apply IH. intros y Hy. apply Hfg. by right.
Qed.
Lemma total_bounds f l n : (∀ x, x ∈ l → 0 ≤ f x ≤ n) → 0 ≤ total f l ≤ n * Z.of_nat (length l).
Proof.
  induction l as [|x l IH]; intros Hf; [cbn; lia|]. rewrite total_cons. cbn [length]. specialize (IH ltac:(intros; apply Hf; by right)).
  pose proof (Hf x ltac:(left)). lia.
Qed.

(** How long [p] has to wait at most: the tasks before it at its level, and the
    quanta tasks can still spend above the last level. *)
Definition waits (p : Z) (s : Sched) (n : Z) : Prop := ∃ k l1 l2,
  levels (run_queue s) !! k = Some (l1 ++ p :: l2) ∧ n = Z.of_nat (length l1) + total (credit_of s) (queued s).

Lemma turned_total i q l s s' t : sched_ok s → levels (run_queue s) !! i = Some (q :: l) → turned i q l s s' → tasks s !! q = Some t →
  total (credit_of s') (queued s') = total (credit_of s) (queued s) - (if decide (level (sched t) < 2) then 1 else 0).
Proof.
  intros Hok Hi [_ Ho (t0 & t' & j & lj & Ht0 & Ht' & _ & Hcr & Hlj & Hls)] Ht. rewrite Ht in Ht0. injection Ht0 as <-.
  pose proof (concat_lookup _ i _ Hi) as Hq. fold (rq_pids (run_queue s)) in Hq. fold (queued s) in Hq.
  assert (Hq' : queued s' ≡ₚ q :: l ++ concat (delete i (levels (run_queue s)))).
  { unfold queued, rq_pids. rewrite Hls, (concat_insert _ j lj _ Hlj), <- app_assoc, Permutation_app_comm. cbn.
    rewrite Permutation_app_comm, <- (concat_lookup _ j lj Hlj), (concat_insert _ i _ _ Hi). done. }
  assert (Hnd : q ∉ l ++ concat (delete i (levels (run_queue s)))).
  { pose proof (so_nodup s Hok) as Hnd. rewrite Hq in Hnd. cbn in Hnd. by apply NoDup_cons in Hnd as [? _]. }
  rewrite Hq', Hq. cbn [app]. rewrite !total_cons. unfold credit_of at 1 3. rewrite Ht, Ht'.
  rewrite (total_ext (credit_of s') (credit_of s)); [case_decide; lia|]. intros x Hx. unfold credit_of. rewrite Ho; [done|]. by intros ->.
Qed.

Lemma turn_closer intact p n s : (∀ f, intact f = true) → resting s → waits p s n →
  ∃ q s', turn intact s = Ret (Some q, s') ∧ resting s' ∧ (q = p ∨ ∃ n', n' < n ∧ waits p s' n').
Proof.
  intros Hin Hrs (k & l1 & l2 & Hk & ->). pose proof (rs_ok s Hrs) as Hok. pose proof (pop_first_spec (levels (run_queue s))) as Hpop.
  destruct (pop_first (levels (run_queue s))) as [[q ls]|]; [|by destruct l1; rewrite Forall_lookup in Hpop; specialize (Hpop k _ Hk)].
  destruct Hpop as (i & l & Hi & Hab & _).
  destruct (wp_run _ _ _ (turn_spec intact i q l s Hin Hrs Hi Hab)) as (r & s' & Hr & -> & Htu). exists q, s'.
  split; [done|]. split; [apply Htu|]. destruct (decide (q = p)) as [|Hne]; [by left|right]. pose proof Htu as [_ Ho (t & t' & j & lj & Ht & _ & _ & _ & Hlj & Hls)].
  pose proof (turned_total i q l s s' t Hok Hi Htu Ht) as Htot.
  assert (Hlv : level (sched t) = Z.of_nat i).
  { apply (il_queue s (rs_level s Hrs) i (q :: l) q); [done|left|]. unfold level_of. by rewrite Ht. }
  assert (Hk3 : (k < 3)%nat) by (rewrite <- (so_levels s Hok); by eapply lookup_lt_Some).
  assert (Hnew : ∀ l1', <[i := l]> (levels (run_queue s)) !! k = Some (l1' ++ p :: l2) →
    ∃ l2', levels (run_queue s') !! k = Some (l1' ++ p :: l2')).
  { intros l1' Hl. rewrite Hls. destruct (decide (j = k)) as [->|].
    - rewrite Hl in Hlj. injection Hlj as <-. exists (l2 ++ [q]). rewrite list_lookup_insert_eq by (by eapply lookup_lt_Some). by rewrite <- app_assoc.
    - exists l2. by rewrite list_lookup_insert_ne. }
  destruct (decide (i = k)) as [->|Hik].
  - rewrite Hk in Hi. injection Hi as Hi. destruct l1 as [|x l1']; [by injection Hi|]. injection Hi as -> <-.
    destruct (Hnew l1') as (l2' & Hl2); [by rewrite list_lookup_insert_eq by (by eapply lookup_lt_Some)|].
    eexists. split; [|exists k, l1', l2'; done]. rewrite Htot. cbn [length]. case_decide; lia.
  - destruct (Hnew l1) as (l2' & Hl2); [by rewrite list_lookup_insert_ne|]. eexists. split; [|exists k, l1, l2'; done].
    assert (i < k)%nat. { destruct (Nat.lt_trichotomy i k) as [?|[?|?]]; [done|done|]. rewrite Hab in Hk by done. by destruct l1. }
    rewrite Htot, decide_True by lia. lia.
Qed.

Fixpoint turns (intact : Frame → bool) (n : nat) : ST Sched (list (option Z)) :=
  match n with O => mret [] | S n => r ← turn intact; l ← turns intact n; mret (r :: l) end.

Lemma waits_nonneg p s n : waits p s n → 0 ≤ n.
Proof.
  intros (k & l1 & l2 & _ & ->). assert (0 ≤ total (credit_of s) (queued s)); [|lia].
  induction (queued s) as [|x l IH]; [done|]. rewrite total_cons. unfold credit_of at 1. destruct (tasks s !! x); [unfold credit|]; lia.
Qed.
Lemma runs_within intact p m : (∀ f, intact f = true) → ∀ s n, resting s → waits p s n → n < Z.of_nat m →
  ∃ c picked s', (c ≤ m)%nat ∧ turns intact c s = Ret (picked, s') ∧ last picked = Some (Some p).
Proof.
  intros Hin. induction m as [|m IH]; intros s n Hrs Hw Hn; [pose proof (waits_nonneg p s n Hw); lia|].
  destruct (turn_closer intact p n s Hin Hrs Hw) as (q & s1 & Hr & Hrs1 & [->|(n' & Hlt & Hw1)]).
  - exists 1%nat, [Some p], s1. split_and!; [lia| |done]. cbn. unfold mbind, ST_bind. by rewrite Hr.
  - destruct (IH s1 n' Hrs1 Hw1 ltac:(lia)) as (c & picked & s2 & Hc & Hr2 & Hl). exists (S c), (Some q :: picked), s2.
    split_and!; [lia| |by destruct picked]. cbn [turns]. unfold mbind, ST_bind. by rewrite Hr, Hr2.
Qed.

(** C20: no compute-bound task starves.  In every state the scheduler can reach,
    with the processor free: if each task that gets it computes until the timer
    interrupt and is switched out, then every task in the run queue, at whatever
    level, gets the processor within nine turns per queued task: eight quanta
    take any of the others down to the last level, where they are served in the
    order they came. *)
Theorem no_starvation intact s p : (∀ f, intact f = true) → steps boot_sched s → current s = None → previous s = None → p ∈ queued s →
  ∃ n picked s', (n ≤ 9 * length (queued s))%nat ∧ turns intact n s = Ret (picked, s') ∧ last picked = Some (Some p).
Proof.
  intros Hin Hs Hc Hpv Hp. destruct (in_level_steps s Hs) as [Hok Hil].
  unfold queued, rq_pids in Hp. apply list_elem_of_In, in_concat in Hp as (l & Hl & Hp). apply list_elem_of_In, list_elem_of_lookup in Hl as [k Hk].
  apply list_elem_of_In, list_elem_of_split in Hp as (l1 & l2 & ->).
  assert (Hlen : (length l1 < length (queued s))%nat).
  { unfold queued, rq_pids. rewrite (concat_lookup _ k _ Hk), !length_app. cbn. lia. }
  assert (Htot : 0 ≤ total (credit_of s) (queued s) ≤ 8 * Z.of_nat (length (queued s))).
  { apply total_bounds. intros x _. unfold credit_of, credit. destruct (tasks s !! x) as [t|] eqn:Ht; [|lia].
    destruct (so_task s Hok x t Ht) as [L1 L2 _ _ _ _]. lia. }
  apply (runs_within intact p _ Hin s (Z.of_nat (length l1) + total (credit_of s) (queued s))); [done|by exists k, l1, l2|lia].
Qed.

Lemma no_starvation_witness : ∃ n picked s', (n ≤ 18)%nat ∧ turns (λ _, true) n demo4 = Ret (picked, s') ∧ last picked = Some (Some 2).
Proof.
  apply (no_starvation (λ _, true) demo4 2); [done|exact (proj1 demo_steps)|reflexivity|reflexivity|].
  apply (bool_decide_unpack _). vm_compute. exact I.
Defined.
