(* ===== verification/Kernel.v ===== *)
(** * The whole kernel state

    Memory and the frame allocator, the console, the scheduler's store, the
    live trap-frame boxes, the hart's registers and the timer, with the
    operations that cross component borders: wait queues (sync/wait.rs),
    switching and the idle loop (task/scheduler.rs), dropping the last
    reference to a task, timer ticks (timer.rs, sbi.rs) and the interrupt
    controller (drivers/plic.rs). *)
From stdpp Require Import base numbers gmap list.
From coqutil Require Import Byte.
From S2P Require Import Prelude Memory Config Addr FrameIface PageTable Space Device Trap Task Sched.
From S2P Require Uart.

(** ** The hart *)

(** Where [stvec] points. *)
Inductive vector := kernel_trap_entry | user_trap_entry.

Record Hart := mkHart { sstatus : Z; sip : Z; stvec : vector; satp : Z; hart_id : Z; sie : Z }.

(** The accessors [set] and [clear] of a control register, on its value. *)
Definition csr_set (v mask : Z) : Z := Z.lor v mask.
Definition csr_clear (v mask : Z) : Z := Z.land v (u64_not mask).

Definition intr_enabled (h : Hart) : bool := negb (Z.land (sstatus h) sstatus_bits.SIE =? 0).
Definition set_sstatus (v : Z) (h : Hart) : Hart := mkHart v (sip h) (stvec h) (satp h) (hart_id h) (sie h).
Definition intr_enable (h : Hart) : Hart := set_sstatus (csr_set (sstatus h) sstatus_bits.SIE) h.
Definition intr_disable (h : Hart) : Hart := set_sstatus (csr_clear (sstatus h) sstatus_bits.SIE) h.
Definition set_vector (v : vector) (h : Hart) : Hart := mkHart (sstatus h) (sip h) v (satp h) (hart_id h) (sie h).
Definition set_satp (t : Z) (h : Hart) : Hart := mkHart (sstatus h) (sip h) (stvec h) t (hart_id h) (sie h).
Definition clear_sip (mask : Z) (h : Hart) : Hart :=
  mkHart (sstatus h) (csr_clear (sip h) mask) (stvec h) (satp h) (hart_id h) (sie h).
Definition set_sie (mask : Z) (h : Hart) : Hart :=
  mkHart (sstatus h) (sip h) (stvec h) (satp h) (hart_id h) (csr_set (sie h) mask).

(** The firmware and the clock, outside the repository: an SBI call gives
    [(error, value)], [rdtime] the counter. *)
Class Firmware (D : Type) := {
  ecall : Z → Z → Z → Z → Z → D → (Z * Z) * D;
  rdtime : D → Z * D }.

Record Timer := mkTimer { tm_ticks : Z; next_deadline : Z }.

(** Wait queues: the console's readers and each task's [child_exit]. *)
Inductive WaitQueue := READERS | ChildExit (p : Pid).

(** The boxes of the kernel heap that hold trap frames: the live ones and the
    next fresh address. *)
Record Boxes := mkBoxes { live : gmap Z TrapFrame; next_box : Z }.

(** Register offsets of the interrupt controller. *)
Module off.
Definition PRIORITY : Z := 0x0000.
Definition ENABLE : Z := 0x2000.
Definition ENABLE_STRIDE : Z := 0x80.
Definition THRESHOLD : Z := 0x200000.
Definition CLAIM : Z := 0x200004.
Definition CONTEXT_STRIDE : Z := 0x1000.
End off.

Section kernel.
Context {S D : Type} `{FrameAllocator S} `{Bus D} `{Firmware D}.

(** [k_pinned] are the references held by kernel stacks that never run again. *)
Record Kernel := mkK {
  k_mem : S;
  k_con : Uart.uart D;
  k_sched : Sched;
  k_readers : list Pid;
  k_boxes : Boxes;
  k_hart : Hart;
  k_timer : Timer;
  k_space : AddressSpace;
  k_pinned : list Pid }.

Definition set_mem (x : S) (k : Kernel) : Kernel :=
  mkK x (k_con k) (k_sched k) (k_readers k) (k_boxes k) (k_hart k) (k_timer k) (k_space k) (k_pinned k).
Definition set_con (x : Uart.uart D) (k : Kernel) : Kernel :=
  mkK (k_mem k) x (k_sched k) (k_readers k) (k_boxes k) (k_hart k) (k_timer k) (k_space k) (k_pinned k).
Definition set_sched (x : Sched) (k : Kernel) : Kernel :=
  mkK (k_mem k) (k_con k) x (k_readers k) (k_boxes k) (k_hart k) (k_timer k) (k_space k) (k_pinned k).
Definition set_readers (x : list Pid) (k : Kernel) : Kernel :=
  mkK (k_mem k) (k_con k) (k_sched k) x (k_boxes k) (k_hart k) (k_timer k) (k_space k) (k_pinned k).
Definition set_boxes (x : Boxes) (k : Kernel) : Kernel :=
  mkK (k_mem k) (k_con k) (k_sched k) (k_readers k) x (k_hart k) (k_timer k) (k_space k) (k_pinned k).
Definition set_hart (x : Hart) (k : Kernel) : Kernel :=
  mkK (k_mem k) (k_con k) (k_sched k) (k_readers k) (k_boxes k) x (k_timer k) (k_space k) (k_pinned k).
Definition set_timer_state (x : Timer) (k : Kernel) : Kernel :=
  mkK (k_mem k) (k_con k) (k_sched k) (k_readers k) (k_boxes k) (k_hart k) x (k_space k) (k_pinned k).
Definition set_pinned (x : list Pid) (k : Kernel) : Kernel :=
  mkK (k_mem k) (k_con k) (k_sched k) (k_readers k) (k_boxes k) (k_hart k) (k_timer k) (k_space k) x.

Abbreviation K := (ST Kernel).

(** Running a component's operation on its part of the state. *)
Definition in_mem {A} (m : ST S A) : K A := λ k,
  match m (k_mem k) with Ret (a, s) => Ret (a, set_mem s k) | Panic => Panic end.
Definition in_con {A} (m : ST (Uart.uart D) A) : K A := λ k,
  match m (k_con k) with Ret (a, s) => Ret (a, set_con s k) | Panic => Panic end.
Definition in_sched {A} (m : ST Sched A) : K A := λ k,
  match m (k_sched k) with Ret (a, s) => Ret (a, set_sched s k) | Panic => Panic end.
Definition on_hart (f : Hart → Hart) : K unit := k ← get; put (set_hart (f (k_hart k)) k).

(** [without_interrupts]: masked for the length of [f], then as before. *)
Definition without_interrupts {A} (f : K A) : K A :=
  k ← get;
  let was_enabled := intr_enabled (k_hart k) in
  (if was_enabled then on_hart intr_disable else mret tt);;
  result ← f;
  (if was_enabled then on_hart intr_enable else mret tt);;
  mret result.

(** ** Wait queues *)

Definition waiters (q : WaitQueue) (k : Kernel) : list Pid :=
  match q with
  | READERS => k_readers k
  | ChildExit p => default [] (child_exit <$> (tasks (k_sched k) !! p))
  end.
Definition queue_len (q : WaitQueue) (k : Kernel) : Z := Z.of_nat (length (waiters q k)).
Definition queue_is_empty (q : WaitQueue) (k : Kernel) : bool := queue_len q k =? 0.
Definition set_waiters (q : WaitQueue) (l : list Pid) (k : Kernel) : Kernel :=
  match q with
  | READERS => set_readers l k
  | ChildExit p => set_sched (set_tasks (alter (with_child_exit l) p (tasks (k_sched k))) (k_sched k)) k
  end.

(** [wait] up to the switch: the caller joins the queue ... *)
Definition wait_enter (q : WaitQueue) : K Pid :=
  p ← in_sched current_task;
  k ← get;
  put (set_waiters q (waiters q k ++ [p]) k);;
  mret p.

(** ... and after it: a leftover entry is removed. *)
Fixpoint remove_first (p : Pid) (l : list Pid) : list Pid :=
  match l with [] => [] | x :: l => if x =? p then l else x :: remove_first p l end.
Definition wait_leave (q : WaitQueue) (p : Pid) : K unit :=
  k ← get; put (set_waiters q (remove_first p (waiters q k)) k).

Definition wake_one (q : WaitQueue) : K unit :=
  k ← get;
  match waiters q k with
  | [] => mret tt
  | p :: l => put (set_waiters q l k);; in_sched (wake p)
  end.

Fixpoint wake_list (l : list Pid) : K unit :=
  match l with
  | [] => mret tt
  | p :: l => in_sched (wake p);; wake_list l
  end.
Definition wake_all (q : WaitQueue) : K unit :=
  k ← get;
  put (set_waiters q [] k);;
  wake_list (waiters q k).

(** ** Switching *)

(** [switch_to_idle] up to [switch_context]; the result is the interrupt state
    to restore. *)
Definition switch_to_idle (st : TaskState) : K bool :=
  k ← get;
  let was_enabled := intr_enabled (k_hart k) in
  on_hart intr_disable;;
  in_sched (switch_out (canary_intact (fa_mem (k_mem k))) st);;
  mret was_enabled.
(** ... and after another context has switched back. *)
Definition switch_back (was_enabled : bool) : K unit :=
  if was_enabled then on_hart intr_enable else mret tt.

Definition yield_now : K bool := switch_to_idle Ready.
Definition block_current : K bool := switch_to_idle Blocked.

(** [resched_if_needed]: [Some w] when the caller was switched out. *)
Definition resched_if_needed : K (option bool) :=
  b ← in_sched take_resched;
  if b : bool then w ← yield_now; mret (Some w) else mret None.

Definition space_token (p : Pid) : K Z :=
  t ← in_sched (get_task p);
  k ← get;
  mret (match space (user t) with Some sp => AS_token sp | None => AS_token (k_space k) end).

Definition activate (token : Z) : K unit := on_hart (λ h, set_satp (activate_token (satp h) token).1 h).

(** ** Dropping a reference

    A task lives while something refers to it: a run queue, the hart, another
    task's child list, a wait queue, or a kernel stack. *)
Definition referenced (k : Kernel) (p : Pid) : bool :=
  bool_decide (p ∈ concat (levels (run_queue (k_sched k)))) ||
  bool_decide (current (k_sched k) = Some p) || bool_decide (previous (k_sched k) = Some p) ||
  bool_decide (p ∈ k_readers k) || bool_decide (p ∈ k_pinned k) ||
  existsb (λ '(_, t), bool_decide (p ∈ children (user t)) || bool_decide (p ∈ child_exit t)) (map_to_list (tasks (k_sched k))).

Definition box_free (b : option Z) : K unit :=
  match b with
  | None => mret tt
  | Some a => k ← get; put (set_boxes (mkBoxes (delete a (live (k_boxes k))) (next_box (k_boxes k))) k)
  end.

Definition drop_space (o : option AddressSpace) : K unit :=
  match o with None => mret tt | Some sp => in_mem (AddressSpace_drop sp) end.

(** Dropping an [Arc<Task>]: when it was the last one, the fields go in order.
    [fuel] bounds the chain of parents and children; a chain is no longer than
    the number of tasks. *)
Fixpoint drop_arc (fuel : nat) (p : Pid) : K unit :=
  match fuel with
  | O => lift Panic
  | Datatypes.S fuel =>
      k ← get;
      match tasks (k_sched k) !! p with
      | Some t =>
          if referenced k p then mret tt
          else
            put (set_sched (set_tasks (delete p (tasks (k_sched k))) (k_sched k)) k);;
            foldr (λ q m, drop_arc fuel q;; m) (mret tt) (child_exit t);;
            in_mem (frame_drop (kstack t));;
            drop_space (space (user t));;
            box_free (frame (user t));;
            foldr (λ q m, drop_arc fuel q;; m) (mret tt) (children (user t))
      | None => mret tt
      end
  end.

(** One round of the idle loop. *)
Definition run_iter : K (option Pid) :=
  o ← in_sched run_requeue;
  (match o with
   | Some p => k ← get; drop_arc (Datatypes.S (size (tasks (k_sched k)))) p
   | None => mret tt
   end);;
  next ← in_sched run_pop;
  match next with
  | None => on_hart intr_enable;; on_hart intr_disable;; mret None
  | Some p =>
      token ← space_token p;
      activate token;;
      in_sched (run_start p);;
      mret (Some p)
  end.

(** ** Timer *)

Definition interval : Z := TIMER_FREQ `div` 1000 * TICK_MS.
Definition EID_TIME : Z := 0x54494D45.

Definition read_time : K Z :=
  k ← get;
  let '(t, d) := rdtime (Uart.dev (k_con k)) in
  put (set_con (Uart.set_dev d (k_con k)) k);; mret t.

(** [sbi::set_timer]: the result is ignored by the callers. *)
Definition set_timer (stime : Z) : K unit :=
  k ← get;
  let '(_, d) := ecall EID_TIME 0 stime 0 0 (Uart.dev (k_con k)) in
  put (set_con (Uart.set_dev d (k_con k)) k).

Definition set_deadline (v : Z) : K unit :=
  k ← get; put (set_timer_state (mkTimer (tm_ticks (k_timer k)) v) k).

Definition timer_init : K unit :=
  now ← read_time;
  deadline ← lift (now +! interval);
  set_deadline deadline;;
  set_timer deadline.

Definition on_tick : K unit :=
  k ← get;
  put (set_timer_state (mkTimer (wrapping_add (tm_ticks (k_timer k)) 1) (next_deadline (k_timer k))) k);;
  in_sched on_timer_tick;;
  now ← read_time;
  k ← get;
  next ← lift (next_deadline (k_timer k) +! interval);
  next ← (if next <=? now then lift (now +! interval) else mret next);
  set_deadline next;;
  set_timer next.

(** [timer::ticks] *)
Definition timer_ticks : K Z := k ← get; mret (tm_ticks (k_timer k)).

(** [spin_delay_ms]; [fuel] bounds the number of times the clock is read. *)
Fixpoint spin_until (fuel : nat) (target : Z) : K unit :=
  match fuel with
  | O => lift Panic
  | Datatypes.S fuel => now ← read_time; if now <? target then spin_until fuel target else mret tt
  end.
Definition spin_delay_ms (fuel : nat) (ms : Z) : K unit :=
  now ← read_time;
  d ← lift (TIMER_FREQ `div` 1000 *! ms);
  target ← lift (now +! d);
  spin_until fuel target.

Definition uptime_ms : K Z :=
  now ← read_time;
  n ← lift (now *! 1000);
  mret (n `div` TIMER_FREQ).

(** ** Interrupt controller *)
Definition context (hart : Z) : outcome Z := n ← 2 *! hart; n +! 1.
Definition plic_reg (offset : Z) : outcome Z := a ← PLIC_BASE +! offset; phys_to_virt a.

Definition plic_read (offset : outcome Z) : K Z :=
  o ← lift offset; a ← lift (plic_reg o);
  k ← get;
  let '(v, d) := read_volatile a (Uart.dev (k_con k)) in
  put (set_con (Uart.set_dev d (k_con k)) k);; mret v.
Definition plic_write (offset : outcome Z) (v : Z) : K unit :=
  o ← lift offset; a ← lift (plic_reg o);
  k ← get;
  put (set_con (Uart.set_dev (write_volatile a v (Uart.dev (k_con k))) (k_con k)) k).

(** [base + context(hart) * stride] *)
Definition context_reg (base hart stride : Z) : outcome Z :=
  c ← context hart; n ← c *! stride; base +! n.

Definition set_priority (irq priority : Z) : K unit :=
  plic_write (n ← irq *! 4; off.PRIORITY +! n) priority.
Definition enable_word (hart irq : Z) : outcome Z :=
  b ← context_reg off.ENABLE hart off.ENABLE_STRIDE; n ← irq `div` 32 *! 4; b +! n.
Definition plic_enable (hart irq : Z) : K unit :=
  v ← plic_read (enable_word hart irq);
  plic_write (enable_word hart irq) (Z.lor v (Z.shiftl 1 (irq `mod` 32))).
Definition set_threshold (hart threshold : Z) : K unit :=
  plic_write (context_reg off.THRESHOLD hart off.CONTEXT_STRIDE) threshold.
Definition claim (hart : Z) : K (option Z) :=
  irq ← plic_read (context_reg off.CLAIM hart off.CONTEXT_STRIDE);
  mret (if irq =? 0 then None else Some irq).
Definition complete (hart irq : Z) : K unit :=
  plic_write (context_reg off.CLAIM hart off.CONTEXT_STRIDE) irq.

Definition plic_init (hart : Z) : K unit :=
  set_threshold hart 0;;
  set_priority UART_IRQ 1;;
  plic_enable hart UART_IRQ.

Definition notify_readers : K unit := wake_all READERS.

Definition service (irq : Z) : K unit :=
  if irq =? UART_IRQ then
    n ← in_con Uart.handle_interrupt;
    if 0 <? n then notify_readers else mret tt
  else mret tt.

(** The claim loop; [fuel] bounds the number of interrupts serviced in one
    call, running out of it is reported as [Panic]. *)
Fixpoint claim_loop (fuel : nat) (hart : Z) : K unit :=
  match fuel with
  | O => lift Panic
  | Datatypes.S fuel =>
      o ← claim hart;
      match o with
      | None => mret tt
      | Some irq => service irq;; complete hart irq;; claim_loop fuel hart
      end
  end.
Definition handle_external_interrupt (fuel : nat) : K unit :=
  k ← get; claim_loop fuel (hart_id (k_hart k)).
End kernel.
Arguments Kernel S D : clear implicits.
