(* ===== verification/Process.v ===== *)
(** * User processes (task/process.rs)

    The user stack and its argument vector, process creation, [fork], [exec],
    the program break and process exit, on the kernel state.  Address spaces
    that go out of scope on an error path are dropped where the source drops
    them. *)
From stdpp Require Import base numbers gmap list.
From coqutil Require Import Byte LittleEndianList.
From S2P Require Import Prelude Memory Config Addr FrameIface PageTable Space Loader Device Trap Task Sched Kernel.

(** ** The user stack *)
Section stack.
Context {S : Type} `{FrameAllocator S}.

Definition user_rw_flags : Z := Z.lor Flags.RW Flags.USER.

Definition map_user_stack (sp : AddressSpace) : ST S (option Z * AddressSpace) :=
  let top := USER_STACK_TOP in
  bottom ← lift (USER_STACK_TOP -! USER_STACK_SIZE);
  r ← lift (Region_new bottom top Framed user_rw_flags);
  '(res, sp) ← AS_push sp r;
  match res with
  | Ok _ => mret (Some USER_STACK_TOP, sp)
  | Err _ => mret (None, sp)
  end.

(** The strings, top down; the pointers in argument order. *)
Fixpoint push_strings (sp : AddressSpace) (usp : Z) (args : list (list byte)) (pointers : list Z)
    : ST S (option (Z * list Z)) :=
  match args with
  | [] => mret (Some (usp, pointers))
  | arg :: args =>
      len ← lift (Z.of_nat (length arg) +! 1);
      usp ← lift (usp -! len);
      let usp := Z.land usp (u64_not 0x7) in
      r ← copy_to_user sp usp arg;
      match r with
      | None => mret None
      | Some _ =>
          nul ← lift (usp +! Z.of_nat (length arg));
          r ← copy_to_user sp nul [x00];
          match r with
          | None => mret None
          | Some _ => push_strings sp usp args (pointers ++ [usp])
          end
      end
  end.

Fixpoint push_pointers (sp : AddressSpace) (argv i : Z) (pointers : list Z) : ST S (option unit) :=
  match pointers with
  | [] => mret (Some tt)
  | p :: rest =>
      o ← lift (i *! 8);
      a ← lift (argv +! o);
      r ← copy_to_user sp a (le_split 8 p);
      match r with
      | None => mret None
      | Some _ => push_pointers sp argv (i + 1) rest
      end
  end.

(** [(new_sp, argc, argv_ptr)] *)
Definition push_args (sp : AddressSpace) (usp : Z) (args : list (list byte)) : ST S (option (Z * Z * Z)) :=
  r ← push_strings sp usp args [];
  match r with
  | None => mret None
  | Some (usp, pointers) =>
      let argc := Z.of_nat (length pointers) in
      n ← lift (argc +! 1);
      size ← lift (n *! 8);
      usp ← lift (usp -! size);
      let argv := Z.land usp (u64_not 0xf) in
      r ← push_pointers sp argv 0 pointers;
      match r with
      | None => mret None
      | Some _ =>
          o ← lift (argc *! 8);
          a ← lift (argv +! o);
          r ← copy_to_user sp a (le_split 8 0);
          match r with
          | None => mret None
          | Some _ => mret (Some (argv, argc, argv))
          end
      end
  end.
End stack.

Inductive ExecError := BadImage (e : LoadError.t) | ExecOutOfMemory.

Section process.
Context {S D : Type} `{FrameAllocator S} `{Bus D} `{Firmware D}.
Abbreviation Kst := (Kernel S D).
Abbreviation K := (ST Kst).

(** [Box::new(frame)]: a fresh block of the kernel heap. *)
Definition box_new (f : TrapFrame) : K Z :=
  k ← get;
  let b := k_boxes k in
  put (set_boxes (mkBoxes (<[next_box b := f]> (live b)) (next_box b + 1)) k);;
  mret (next_box b).

(** Access through a pointer to a boxed frame; a pointer to a freed box is
    undefined behaviour, reported as [Panic]. *)
Definition box_get (a : Z) : K TrapFrame := k ← get; lift (expect (live (k_boxes k) !! a)).
Definition box_set (a : Z) (f : TrapFrame) : K unit :=
  _ ← box_get a;
  k ← get;
  put (set_boxes (mkBoxes (<[a := f]> (live (k_boxes k))) (next_box (k_boxes k))) k).

Definition kernel_token : K Z := k ← get; mret (AS_token (k_space k)).

(** The frame of a new program image: [main(argc, argv)] on a fresh stack. *)
Definition image_frame (entry usp kernel_sp argc argv : Z) : K TrapFrame :=
  satp ← kernel_token;
  k ← get;
  f ← lift (TrapFrame_new_user (sstatus (k_hart k)) entry usp kernel_sp satp);
  let f := with_kernel kernel_sp satp (hart_id (k_hart k)) f in
  f ← lift (set_reg f 10 argc);
  lift (set_reg f 11 argv).

(** Loading an image, its stack and its arguments: the common part of
    [new_user] and [exec_current]. *)
Definition build_image (image : list byte) (args : list (list byte))
    : K (result ExecError (AddressSpace * LoadedImage * (Z * Z * Z))) :=
  k ← get;
  r ← in_mem (load (Some (k_space k)) image);
  match r with
  | Err e => mret (Err (BadImage e))
  | Ok loaded =>
      '(o, sp) ← in_mem (map_user_stack (li_space loaded));
      match o with
      | None => in_mem (AddressSpace_drop sp);; mret (Err ExecOutOfMemory)
      | Some stack_top =>
          o ← in_mem (push_args sp stack_top args);
          match o with
          | None => in_mem (AddressSpace_drop sp);; mret (Err ExecOutOfMemory)
          | Some v => mret (Ok (sp, loaded, v))
          end
      end
  end.

(** A new task around a user address space; [task_entry] is the trampoline's
    address. *)
Definition user_task (task_entry : Z) (nm : list byte) (kstack : Frame) (kernel_sp : Z) (u : UserInfo) : Task :=
  mkTask nm enter_user_mode [] (TaskContext_new task_entry kernel_sp) kstack SchedInfo_new u.

Definition new_user (task_entry : Z) (nm image : list byte) (args : list (list byte)) : K (option Pid) :=
  r ← build_image image args;
  match r with
  | Err _ => mret None
  | Ok (sp, loaded, (usp, argc, argv)) =>
      ks ← in_mem KernelStack_new;
      match ks with
      | None => in_mem (AddressSpace_drop sp);; mret None
      | Some kstack =>
          kernel_sp ← lift (stack_top kstack);
          f ← image_frame (li_entry loaded) usp kernel_sp argc argv;
          b ← box_new f;
          let brk := Z.max (li_brk loaded) USER_HEAP_BASE in
          p ← in_sched alloc_pid;
          in_sched (arc_new p (user_task task_entry nm kstack kernel_sp (mkUser (Some sp) (Some b) brk brk None [])));;
          mret (Some p)
      end
  end.

Definition fork_from (task_entry : Z) (par : Pid) (frame : TrapFrame) : K (option Pid) :=
  t ← in_sched (get_task par);
  match space (user t) with
  | None => mret None
  | Some psp =>
      k ← get;
      o ← in_mem (duplicate psp (Some (k_space k)));
      match o with
      | None => mret None
      | Some sp =>
          ks ← in_mem KernelStack_new;
          match ks with
          | None => in_mem (AddressSpace_drop sp);; mret None
          | Some kstack =>
              kernel_sp ← lift (stack_top kstack);
              satp ← kernel_token;
              k ← get;
              f ← lift (set_return (with_kernel kernel_sp satp (hart_id (k_hart k)) frame) 0);
              b ← box_new f;
              p ← in_sched alloc_pid;
              in_sched (arc_new p (user_task task_entry (name t) kstack kernel_sp
                (mkUser (Some sp) (Some b) (brk (user t)) (heap_top (user t)) (Some par) [])));;
              mret (Some p)
          end
      end
  end.

Definition exec_current (p : Pid) (nm image : list byte) (args : list (list byte)) : K (result ExecError unit) :=
  r ← build_image image args;
  match r with
  | Err e => mret (Err e)
  | Ok (sp, loaded, (usp, argc, argv)) =>
      in_sched (upd_task p (with_name nm));;
      t ← in_sched (get_task p);
      kernel_sp ← lift (stack_top (kstack t));
      f ← image_frame (li_entry loaded) usp kernel_sp argc argv;
      b ← box_new f;
      activate (AS_token sp);;
      let brk := Z.max (li_brk loaded) USER_HEAP_BASE in
      in_sched (upd_task p (with_user (λ u, mkUser (Some sp) (Some b) brk brk (parent u) (children u))));;
      box_free (frame (user t));;
      drop_space (space (user t));;
      mret (Ok tt)
  end.

(** [usize::checked_add_signed] *)
Definition checked_add_signed (x d : Z) : option Z :=
  if (0 <=? x + d) && (x + d <? U64) then Some (x + d) else None.

Definition set_brk (new top : Z) (u : UserInfo) : UserInfo :=
  mkUser (space u) (frame u) new top (parent u) (children u).
Definition set_space (o : option AddressSpace) (u : UserInfo) : UserInfo :=
  mkUser o (frame u) (brk u) (heap_top u) (parent u) (children u).

(** The heap region grows to cover [new]; the result is the new [heap_top]. *)
Definition grow_heap (p : Pid) (u : UserInfo) (new : Z) : K (option Z) :=
  to ← lift (next_multiple_of new PAGE_SIZE);
  match space u with
  | None => mret None
  | Some sp =>
      r ← lift (Region_new (heap_top u) to Framed user_rw_flags);
      '(res, sp) ← in_mem (AS_push sp r);
      in_sched (upd_task p (with_user (set_space (Some sp))));;
      match res with Ok _ => mret (Some to) | Err _ => mret None end
  end.

Definition adjust_brk (p : Pid) (delta : Z) : K (option Z) :=
  t ← in_sched (get_task p);
  let u := user t in
  let old := brk u in
  if delta =? 0 then mret (Some old)
  else
    match checked_add_signed old delta with
    | None => mret None
    | Some new =>
        if negb ((USER_HEAP_BASE <=? new) && (new <? USER_MAX_ADDR)) then mret None
        else if heap_top u <? new then
          o ← grow_heap p u new;
          match o with
          | None => mret None
          | Some top => in_sched (upd_task p (with_user (set_brk new top)));; mret (Some old)
          end
        else in_sched (upd_task p (with_user (set_brk new (heap_top u))));; mret (Some old)
    end.

(** The parent, if it still exists, is told that a child is exiting. *)
Definition on_exit (p : Pid) : K unit :=
  t ← in_sched (get_task p);
  k ← get;
  match parent (user t) with
  | Some q => if decide (is_Some (tasks (k_sched k) !! q)) then wake_all (ChildExit q) else mret tt
  | None => mret tt
  end.

(** [exit_current] up to the switch, after which the task is never resumed. *)
Definition exit_current (code : Z) : K unit :=
  k ← get;
  (match current (k_sched k) with
   | None => mret tt
   | Some p =>
       in_sched (upd_task p (with_sched (set_exit_code code)));;
       t ← in_sched (get_task p);
       in_sched (upd_task p (with_user (set_space None)));;
       (match space (user t) with
        | None => mret tt
        | Some sp => token ← kernel_token; activate token;; in_mem (AddressSpace_drop sp)
        end);;
       on_exit p
   end);;
  switch_to_idle Zombie;;
  mret tt.

Definition frame_ptr (p : Pid) : K Z := t ← in_sched (get_task p); lift (expect (frame (user t))).

(** First entry into user mode: the frame handed to [user_trap_return]. *)
Definition user_entry : K Z :=
  on_hart (set_vector user_trap_entry);;
  p ← in_sched current_task;
  frame_ptr p.

(** What a new task does: [Some b] is the frame with which a user task enters
    user mode; a kernel task runs its function (a parameter of the model). *)
Definition task_entry_run (kernel_fns : Z → K unit) : K (option Z) :=
  p ← in_sched current_task;
  t ← in_sched (get_task p);
  on_hart intr_enable;;
  match entry t with
  | kernel_fn id => kernel_fns id;; exit_current 0;; mret None
  | enter_user_mode => b ← user_entry; mret (Some b)
  end.

(** [Task::new_kernel] and [spawn]. *)
Definition new_kernel (task_entry : Z) (nm : list byte) (fn : Z) : K (option Pid) :=
  ks ← in_mem KernelStack_new;
  match ks with
  | None => mret None
  | Some kstack =>
      top ← lift (stack_top kstack);
      p ← in_sched alloc_pid;
      in_sched (arc_new p (mkTask nm (kernel_fn fn) [] (TaskContext_new task_entry top) kstack SchedInfo_new
        (mkUser None None 0 0 None [])));;
      mret (Some p)
  end.

Definition spawn (task_entry : Z) (nm : list byte) (fn : Z) : K (option Pid) :=
  o ← new_kernel task_entry nm fn;
  match o with
  | None => mret None
  | Some p => in_sched (admit_task p);; mret (Some p)
  end.
End process.
