(* ===== verification/Syscall.v ===== *)
(** * System calls and trap handlers (syscall/mod.rs, abi/syscall.rs,
    trap/mod.rs, programs.rs)

    A system call can leave the processor in the middle and resume later, so a
    handler returns a [prog]: finished with a value, switched away with the
    code to run once the task is current again, or gone for good. *)
From stdpp Require Import base numbers gmap list.
From coqutil Require Import Byte LittleEndianList.
From S2P Require Import Prelude Memory Config Addr FrameIface PageTable Space Loader Device Trap Task Sched Kernel Process.
From S2P Require Uart.

(** ** The ABI (abi/syscall.rs) *)
Module nr.
Definition SYS_EXIT : Z := 0.
Definition SYS_WRITE : Z := 1.
Definition SYS_READ : Z := 2.
Definition SYS_YIELD : Z := 3.
Definition SYS_GETPID : Z := 4.
Definition SYS_GETPPID : Z := 5.
Definition SYS_FORK : Z := 6.
Definition SYS_EXEC : Z := 7.
Definition SYS_WAITPID : Z := 8.
Definition SYS_SBRK : Z := 9.
Definition SYS_UPTIME : Z := 10.
Definition SYS_PS : Z := 11.
Definition STDIN : Z := 0.
Definition STDOUT : Z := 1.
Definition STDERR : Z := 2.
Definition EINVAL : Z := -1.
Definition ENOENT : Z := -2.
Definition EBADF : Z := -3.
Definition ENOMEM : Z := -4.
Definition ECHILD : Z := -5.
Definition EFAULT : Z := -6.
Definition ENOSYS : Z := -7.
End nr.

Definition MAX_STR : Z := 256.
Definition MAX_IO : Z := 64 * 1024.
Definition MAX_ARGS : Z := 32.

(** [usize as isize], [usize as i32] and [isize as usize]. *)
Definition as_isize (x : Z) : Z := if x <? 2 ^ 63 then x else x - 2 ^ 64.
Definition as_i32 (x : Z) : Z := let y := x `mod` 2 ^ 32 in if y <? 2 ^ 31 then y else y - 2 ^ 32.
Definition of_isize (x : Z) : Z := x `mod` 2 ^ 64.

(** ** Embedded programs (programs.rs); the table itself is generated. *)
Definition strip_slash (nm : list byte) : list byte :=
  match nm with b :: rest => if byte.unsigned b =? 0x2f then rest else nm | [] => nm end.
Definition find_program (programs : list (list byte * list byte)) (nm : list byte) : option (list byte) :=
  snd <$> List.find (λ '(n, _), bool_decide (n = strip_slash nm)) programs.

Definition program_names (programs : list (list byte * list byte)) : list (list byte) := programs.*1.
Definition program_count (programs : list (list byte * list byte)) : Z := Z.of_nat (length programs).

Lemma find_program_in programs nm image : find_program programs nm = Some image → ∃ n, (n, image) ∈ programs.
Proof.
  unfold find_program. destruct (List.find _ programs) as [[n i]|] eqn:E; [|done]. intros [= <-]. apply List.find_some in E as [E _].
  exists n. by apply list_elem_of_In.
Qed.

Section syscalls.
Context {S D : Type} `{FrameAllocator S} `{Bus D} `{Firmware D}.
Abbreviation Kst := (Kernel S D).
Abbreviation K := (ST Kst).

(** The embedded programs, the trampoline's address, and bounds on how long the
    console polls, how often a sleeper is woken in vain and how many interrupts
    one trap services. *)
Context (programs : list (list byte * list byte)) (task_entry : Z).

Inductive prog (A : Type) :=
| Done (a : A)
| Away (resume : Kst → outcome (prog A * Kst))
| Gone.
Arguments Done {A}.
Arguments Away {A}.
Arguments Gone {A}.

Fixpoint pbind {A B} (p : prog A) (f : A → K (prog B)) : K (prog B) :=
  match p with
  | Done a => f a
  | Gone => mret Gone
  | Away r => mret (Away (λ k, match r k with Ret (p, k) => pbind p f k | Panic => Panic end))
  end.

Definition done {A} (a : A) : K (prog A) := mret (Done a).

(** Switch away, then continue once the task is current again. *)
Definition away {A} (sw : K bool) (rest : K (prog A)) : K (prog A) :=
  w ← sw; mret (Away (λ k, (switch_back w;; rest) k)).

(** [WaitQueue::wait] and [wait_until]. *)
Definition wait {A} (q : WaitQueue) (rest : K (prog A)) : K (prog A) :=
  p ← wait_enter q;
  away block_current (wait_leave q p;; rest).

Fixpoint wait_until {A} (fuel : nat) (q : WaitQueue) (condition : Kst → bool) (rest : K (prog A)) : K (prog A) :=
  match fuel with
  | O => lift Panic
  | Datatypes.S fuel =>
      k ← get;
      if condition k then rest else wait q (wait_until fuel q condition rest)
  end.

Definition sys_exit (code : Z) : K (prog Z) := exit_current code;; mret Gone.

(** The calling task's address space. *)
Definition current_space : K (option AddressSpace) :=
  p ← in_sched current_task; t ← in_sched (get_task p); mret (space (user t)).

Definition in_user_range (ptr len : Z) : bool :=
  match checked_add ptr len with Some e => e <=? USER_MAX_ADDR | None => false end.

Definition read_user_buf (ptr len : Z) : K (option (list byte)) :=
  if (MAX_IO <? len) || negb (in_user_range ptr len) then mret None
  else
    o ← current_space;
    match o with
    | None => mret None
    | Some sp =>
        '(r, buf) ← in_mem (copy_from_user sp ptr (replicate (Z.to_nat len) x00));
        mret (match r with Some _ => Some buf | None => None end)
    end.

Definition byte_z (b : byte) : Z := byte.unsigned b.

Definition sys_write (poll : nat) (fd ptr len : Z) : K (prog Z) :=
  if negb (fd =? nr.STDOUT) && negb (fd =? nr.STDERR) then done nr.EBADF
  else
    o ← read_user_buf ptr len;
    match o with
    | None => done nr.EFAULT
    | Some buf => in_con (Uart.write_bytes poll (byte_z <$> buf));; done (as_isize len)
    end.

(** Take at most [n] buffered bytes. *)
Fixpoint take_input (n : nat) (buf : list Z) : K (list Z) :=
  match n with
  | O => mret buf
  | Datatypes.S n =>
      o ← in_con Uart.read_byte;
      match o with
      | Some b => take_input n (buf ++ [b])
      | None => mret buf
      end
  end.

Definition z_byte (z : Z) : byte := byte.of_Z z.

Definition sys_read (wakes : nat) (fd ptr len : Z) : K (prog Z) :=
  if negb (fd =? nr.STDIN) then done nr.EBADF
  else if len =? 0 then done 0
  else if (MAX_IO <? len) || negb (in_user_range ptr len) then done nr.EFAULT
  else
    wait_until wakes READERS (λ k, Uart.has_input (k_con k))
      (buf ← take_input (Z.to_nat len) [];
       o ← current_space;
       match o with
       | None => done nr.EFAULT
       | Some sp =>
           r ← in_mem (copy_to_user sp ptr (z_byte <$> buf));
           match r with
           | Some _ => done (Z.of_nat (length buf))
           | None => done nr.EFAULT
           end
       end).

Definition sys_getpid : K (prog Z) := p ← in_sched current_task; done (as_isize p).

Definition sys_getppid : K (prog Z) :=
  p ← in_sched current_task;
  t ← in_sched (get_task p);
  k ← get;
  done (match parent (user t) with
        | Some q => if decide (is_Some (tasks (k_sched k) !! q)) then as_isize q else 0
        | None => 0
        end).

Definition add_child (c : Pid) (u : UserInfo) : UserInfo :=
  mkUser (space u) (frame u) (brk u) (heap_top u) (parent u) (children u ++ [c]).

(** [frame] is the trap frame the parent trapped with. *)
Definition sys_fork (frame : TrapFrame) : K (prog Z) :=
  par ← in_sched current_task;
  o ← fork_from task_entry par frame;
  match o with
  | None => done nr.ENOMEM
  | Some c =>
      in_sched (upd_task par (with_user (add_child c)));;
      in_sched (admit_task c);;
      done (as_isize c)
  end.

(** The argument vector of [exec], read out of the old space. *)
Fixpoint read_argv (n : nat) (sp : AddressSpace) (argv_ptr i : Z) (args : list (list byte))
    : K (option (list (list byte))) :=
  match n with
  | O => mret (Some args)
  | Datatypes.S n =>
      o ← lift (i *! 8);
      a ← lift (argv_ptr +! o);
      '(r, slot) ← in_mem (copy_from_user sp a (replicate 8 x00));
      match r with
      | None => mret None
      | Some _ =>
          let p := le_combine slot in
          if p =? 0 then mret (Some args)
          else
            r ← in_mem (read_cstr sp p MAX_STR);
            match r with
            | Some s => read_argv n sp argv_ptr (i + 1) (args ++ [s])
            | None => mret None
            end
      end
  end.

Definition sys_exec (path_ptr argv_ptr : Z) : K (prog Z) :=
  p ← in_sched current_task;
  o ← current_space;
  match o with
  | None => done nr.EFAULT
  | Some sp =>
      path ← in_mem (read_cstr sp path_ptr MAX_STR);
      match path with
      | None => done nr.EFAULT
      | Some path =>
          args ← (if argv_ptr =? 0 then mret (Some []) else read_argv (Z.to_nat MAX_ARGS) sp argv_ptr 0 []);
          match args with
          | None => done nr.EFAULT
          | Some args =>
              match find_program programs path with
              | None => done nr.ENOENT
              | Some image =>
                  r ← exec_current p path image args;
                  match r with
                  | Ok _ => done 0
                  | Err ExecOutOfMemory => done nr.ENOMEM
                  | Err (BadImage _) => done nr.EINVAL
                  end
              end
          end
      end
  end.

(** The first child that matches the request and is a zombie. *)
Definition matches (want : Z) (c : Pid) : bool := (want <? 0) || (as_isize c =? want).
Fixpoint find_zombie (s : Sched) (want : Z) (l : list Pid) : option Pid :=
  match l with
  | [] => None
  | c :: l =>
      if matches want c && bool_decide ((state ∘ sched <$> tasks s !! c) = Some Zombie) then Some c
      else find_zombie s want l
  end.

Definition set_children (l : list Pid) (u : UserInfo) : UserInfo :=
  mkUser (space u) (frame u) (brk u) (heap_top u) (parent u) l.

(** One scan of the child list: the zombie found is removed from it. *)
Definition scan_children (p : Pid) (want : Z) : K (option Pid * bool) :=
  t ← in_sched (get_task p);
  k ← get;
  let cs := children (user t) in
  let any := if want <? 0 then negb (bool_decide (cs = [])) else existsb (λ c, as_isize c =? want) cs in
  match find_zombie (k_sched k) want cs with
  | Some c =>
      in_sched (upd_task p (with_user (set_children (remove_first c cs))));;
      mret (Some c, any)
  | None => mret (None, any)
  end.

(** The reaped child: its code is stored and the reference dropped. *)
Definition reap (p c : Pid) (status_ptr : Z) : K (prog Z) :=
  code ← in_sched (task_exit_code c);
  (if status_ptr =? 0 then mret tt
   else
     o ← current_space;
     match o with
     | None => mret tt
     | Some sp => _ ← in_mem (copy_to_user sp status_ptr (le_split 4 code)); mret tt
     end);;
  k ← get;
  drop_arc (Datatypes.S (size (tasks (k_sched k)))) c;;
  done (as_isize c).

Fixpoint sys_waitpid (wakes : nat) (want status_ptr : Z) : K (prog Z) :=
  match wakes with
  | O => lift Panic
  | Datatypes.S wakes =>
      p ← in_sched current_task;
      '(found, any) ← scan_children p want;
      match found with
      | Some c => reap p c status_ptr
      | None =>
          if negb any then done nr.ECHILD
          else wait (ChildExit p) (sys_waitpid wakes want status_ptr)
      end
  end.

Definition sys_sbrk (delta : Z) : K (prog Z) :=
  p ← in_sched current_task;
  o ← adjust_brk p delta;
  done (match o with Some old => as_isize old | None => nr.ENOMEM end).

Definition sys_ps : K (prog Z) := _ ← in_sched dump_tasks; done 0.

(** ** Dispatch *)

Definition dispatch (poll wakes : nat) (frame : TrapFrame) : K (prog Z) :=
  id ← lift (syscall_id frame);
  a0 ← lift (arg frame 0);
  a1 ← lift (arg frame 1);
  a2 ← lift (arg frame 2);
  if id =? nr.SYS_EXIT then sys_exit (as_i32 a0)
  else if id =? nr.SYS_WRITE then sys_write poll a0 a1 a2
  else if id =? nr.SYS_READ then sys_read wakes a0 a1 a2
  else if id =? nr.SYS_YIELD then away yield_now (done 0)
  else if id =? nr.SYS_GETPID then sys_getpid
  else if id =? nr.SYS_GETPPID then sys_getppid
  else if id =? nr.SYS_FORK then sys_fork frame
  else if id =? nr.SYS_EXEC then sys_exec a0 a1
  else if id =? nr.SYS_WAITPID then sys_waitpid wakes (as_isize a0) a1
  else if id =? nr.SYS_SBRK then sys_sbrk (as_isize a0)
  else if id =? nr.SYS_UPTIME then n ← uptime_ms; done (as_isize n)
  else if id =? nr.SYS_PS then sys_ps
  else _ ← in_sched current_task; done nr.ENOSYS.

(** ** Trap handlers *)

(** A user program that faults: the reference [kill_current] holds is never
    released, because [exit_current] does not return. *)
Definition kill_current : K (prog Z) :=
  p ← in_sched current_task;
  k ← get;
  put (set_pinned (p :: k_pinned k) k);;
  exit_current (-11);;
  mret Gone.

(** [resched_if_needed] as the last thing a handler does. *)
Definition resched {A} (rest : K (prog A)) : K (prog A) :=
  o ← resched_if_needed;
  match o with
  | Some w => mret (Away (λ k, (switch_back w;; rest) k))
  | None => rest
  end.

(** The result is the frame to resume. *)
Definition return_to_user : K (prog Z) :=
  resched
    (on_hart (set_vector user_trap_entry);;
     p ← in_sched current_task;
     b ← frame_ptr p;
     done b).

(** [frame.set_return(ret)], on the frame the trap came with.  After a successful
    [exec] that frame has been freed: the store then goes to the word of [a0] in
    a free block of the heap.  Nothing has been allocated since the block was
    freed, and the word lies past the block's link, so no object changes (see
    [heap_ok_free_store] in [HeapProps]). *)
Definition store_return (b : Z) (v : Z) : K unit :=
  k ← get;
  match live (k_boxes k) !! b with
  | Some f => f ← lift (set_return f (of_isize v)); box_set b f
  | None => mret tt
  end.

(** After the call. *)
Definition ecall_done (b : Z) (v : Z) : K (prog Z) :=
  on_hart intr_disable;;
  store_return b v;;
  return_to_user.

Definition ecall_from_user (poll wakes : nat) (b : Z) : K (prog Z) :=
  f ← box_get b;
  pc ← lift (tf_sepc f +! 4);
  box_set b (with_sepc pc f);;
  on_hart intr_enable;;
  f ← box_get b;
  r ← dispatch poll wakes f;
  pbind r (ecall_done b).

Definition user_trap_handler (poll wakes irqs : nat) (scause : Z) (b : Z) : K (prog Z) :=
  on_hart (set_vector kernel_trap_entry);;
  match decode scause with
  | UserEcall => ecall_from_user poll wakes b
  | TimerInterrupt => on_tick;; return_to_user
  | ExternalInterrupt => handle_external_interrupt irqs;; return_to_user
  | SoftwareInterrupt => on_hart (clear_sip int_bits.SSIE);; return_to_user
  | _ => kill_current
  end.

(** Supervisor traps: anything but an interrupt is fatal. *)
Definition kernel_trap_handler (irqs : nat) (scause : Z) : K (prog unit) :=
  (match decode scause with
   | TimerInterrupt => on_tick
   | ExternalInterrupt => handle_external_interrupt irqs
   | SoftwareInterrupt => on_hart (clear_sip int_bits.SSIE)
   | _ => lift Panic
   end);;
  resched (done tt).
End syscalls.
Arguments prog S D A : clear implicits.
Arguments Done {S D A} a.
Arguments Away {S D A} resume.
Arguments Gone {S D A}.

(** Induction through the states a sleeper may resume in. *)
Lemma prog_deep_ind {S D A} (P : prog S D A → Prop) :
  (∀ a, P (Done a)) → P Gone → (∀ r, (∀ k p k', r k = Ret (p, k') → P p) → P (Away r)) → ∀ p, P p.
Proof.
  intros HD HG HA. fix go 1. intros [a|r|]; [apply HD| |apply HG]. apply HA. intros k p k'.
  destruct (r k) as [[p0 k0]|]; [|discriminate]. pose proof (go p0) as Hp. intros [= <- <-]. exact Hp.
Qed.
