(* ===== verification/ArgsProps.v ===== *)
(** * The argument vector on a new user stack

    What [push_args] leaves in flat user memory: the strings, NUL-terminated,
    the NULL-terminated pointer array, and nothing else. *)
From stdpp Require Import base numbers functions list.
From coqutil Require Import Byte LittleEndianList.
From Stdlib Require Import Lia.
From S2P Require Import Prelude Memory Config Addr FrameIface FrameProps PageTable PageTableInv PageTableOps.
From S2P Require Import Space SpaceInv SpaceOps SpaceUser SpaceProps Process.

(** The bytes [l] stand at address [a] of the flat memory [u]. *)
Definition bytes_at (u : Z → option byte) (a : Z) (l : list byte) : Prop :=
  ∀ i b, l !! i = Some b → u (a + Z.of_nat i) = Some b.

Lemma bytes_at_app u a l1 l2 : bytes_at u a (l1 ++ l2) ↔ bytes_at u a l1 ∧ bytes_at u (a + Z.of_nat (length l1)) l2.
Proof.
  unfold bytes_at. split.
  - intros Hb. split; intros i b Hi; [apply Hb; by apply lookup_app_l_Some|].
    specialize (Hb (length l1 + i)%nat b). rewrite lookup_app_r in Hb by lia.
    rewrite <-(Hb ltac:(rewrite <-Hi; f_equal; lia)). f_equal. lia.
  - intros [H1 H2] i b [Hi|[Hl Hi]]%lookup_app_Some; [by apply H1|].
    rewrite <-(H2 _ _ Hi). f_equal. lia.
Qed.

Lemma bytes_at_ext u u' a l : (∀ x, a ≤ x < a + Z.of_nat (length l) → u' x = u x) → bytes_at u a l → bytes_at u' a l.
Proof.
  intros He Hb i b Hi. rewrite He; [by apply Hb|]. apply lookup_lt_Some in Hi. lia.
Qed.

Section args.
Context {S : Type} `{FrameAllocator S, !FrameAllocatorLaws S}.
Implicit Types (s : S) (K : Z → Prop) (sp : AddressSpace).

(** From [s] to [s'] only user bytes of [sp] in [lo, hi) changed. *)
Record touched K sp lo hi s s' : Prop := {
  tc_ok : space_ok K sp s';
  tc_used q : fa_used s' q ↔ fa_used s q;
  tc_pages q : q ∉ sp_ppns sp → agree (page q) (fa_mem s) (fa_mem s');
  tc_mem a : 0 ≤ a → ¬ (lo ≤ a < hi) → umem sp (fa_mem s') a = umem sp (fa_mem s) a }.

Lemma touched_refl K sp lo hi s : space_ok K sp s → touched K sp lo hi s s.
Proof. by intros. Qed.

Lemma touched_trans K sp lo hi s1 s2 s3 : touched K sp lo hi s1 s2 → touched K sp lo hi s2 s3 → touched K sp lo hi s1 s3.
Proof.
  intros [A1 A2 A3 A4] [B1 B2 B3 B4]. split; [done| | |].
  - intros q. by rewrite B2.
  - intros q Hq x Hx. by rewrite (B3 q Hq x Hx), (A3 q Hq x Hx).
  - intros a Ha Hn. by rewrite B4, A4.
Qed.

Lemma touched_weaken K sp lo hi lo' hi' s s' : lo' ≤ lo → hi ≤ hi' → touched K sp lo hi s s' → touched K sp lo' hi' s s'.
Proof. intros ?? [A1 A2 A3 A4]. split; try done. intros a Ha Hn. apply A4; [done|lia]. Qed.

Definition all_writable sp lo hi : Prop := ∀ a, lo ≤ a < hi → can_write sp a = true.

(** Copying into writable memory succeeds. *)
Lemma copy_whole K sp addr src s : space_ok K sp s → 0 ≤ addr → all_writable sp addr (addr + Z.of_nat (length src)) →
  wp (copy_to_user sp addr src) (λ r s', r = Some tt ∧
    touched K sp addr (addr + Z.of_nat (length src)) s s' ∧ bytes_at (umem sp (fa_mem s')) addr src) s.
Proof.
  intros Hok Ha Hw. eapply wp_mono; [|by apply (copy_to_user_stored K)].
  intros r s' (k & Hk & Hok' & Hu & Hag & Hm & _ & Hr). rewrite Z.add_0_r in *.
  assert (r = Some tt ∧ k = Z.of_nat (length src)) as [-> ->].
  { destruct r as [[]|]; [done|]. destruct Hr as [Hlt Hno]. rewrite Hw in Hno by lia. done. }
  split; [done|]. split; [split; try done|].
  - intros a Ha' Hn. by rewrite Hm, decide_False.
  - intros i b Hi. pose proof (lookup_lt_Some _ _ _ Hi). rewrite Hm, decide_True by lia.
    rewrite <-Hi. f_equal. lia.
Qed.

Lemma align_down_8 x : 0 ≤ x < U64 → x - 7 ≤ Z.land x (u64_not 0x7) ≤ x ∧ (8 | Z.land x (u64_not 0x7)).
Proof.
  intros Hx. change 0x7 with (2 ^ 3 - 1). rewrite u64_not_mask by lia. change (2 ^ 3) with 8.
  split; [Z.div_mod_to_equations; lia|]. exists (x `div` 8). Z.div_mod_to_equations; lia.
Qed.
Lemma align_down_16 x : 0 ≤ x < U64 → x - 15 ≤ Z.land x (u64_not 0xf) ≤ x ∧ (16 | Z.land x (u64_not 0xf)).
Proof.
  intros Hx. change 0xf with (2 ^ 4 - 1). rewrite u64_not_mask by lia. change (2 ^ 4) with 16.
  split; [Z.div_mod_to_equations; lia|]. exists (x `div` 16). Z.div_mod_to_equations; lia.
Qed.

(** Room the strings may take, alignment included. *)
Fixpoint strings_size (args : list (list byte)) : Z :=
  match args with [] => 0 | arg :: args => Z.of_nat (length arg) + 8 + strings_size args end.
Definition args_size (args : list (list byte)) : Z := strings_size args + 8 * (Z.of_nat (length args) + 1) + 15.

Lemma strings_size_nonneg args : 0 ≤ strings_size args.
Proof. induction args as [|arg args IH]; simpl; lia. Qed.

(** [p] points at the string [arg], which lies in [lo, hi). *)
Definition string_in sp (m : mem) lo hi (p : Z) (arg : list byte) : Prop :=
  lo ≤ p ∧ p + Z.of_nat (length arg) < hi ∧ bytes_at (umem sp m) p (arg ++ [x00]).

Lemma string_in_mono K sp s s' lo hi lo' hi' p arg : lo' ≤ lo → 0 ≤ lo → hi ≤ hi' → touched K sp lo' lo s s' →
  string_in sp (fa_mem s) lo hi p arg → string_in sp (fa_mem s') lo' hi' p arg.
Proof.
  intros ??? Ht (Hp1 & Hp2 & Hb). split_and!; [lia|lia|]. revert Hb. apply bytes_at_ext. intros x Hx.
  apply (tc_mem _ _ _ _ _ _ Ht); lia.
Qed.

Lemma push_strings_spec K sp lo args : ∀ usp ptrs s,
  space_ok K sp s → 0 ≤ lo → usp ≤ USER_MAX_ADDR → all_writable sp lo usp → lo + strings_size args ≤ usp →
  wp (push_strings sp usp args ptrs) (λ r s', ∃ usp' new, r = Some (usp', ptrs ++ new) ∧
    usp - strings_size args ≤ usp' ≤ usp ∧ touched K sp usp' usp s s' ∧
    Forall2 (string_in sp (fa_mem s') usp' usp) new args) s.
Proof.
  induction args as [|arg args IH]; intros usp ptrs s Hok Hlo Hmax Hw Hroom; cbn [push_strings strings_size] in *.
  { wp_step. exists usp, []. rewrite app_nil_r. split_and!; [done|lia|lia|by apply touched_refl|constructor]. }
  pose proof (strings_size_nonneg args). unfold USER_MAX_ADDR in *. set (n := Z.of_nat (length arg)) in *.
  wp_step. eapply wp_lift; [apply u64_add_ok; unfold U64; lia|].
  wp_step. eapply wp_lift; [apply u64_sub_ok; lia|]. destruct (align_down_8 (usp - (n + 1))) as [Hal _]; [unfold U64; lia|].
  set (usp1 := Z.land (usp - (n + 1)) (u64_not 0x7)) in *.
  wp_step. eapply wp_mono; [|apply (copy_whole K); [done|lia|intros a ?; apply Hw; lia]]. intros r s1 (-> & Ht1 & Hb1). cbv beta iota.
  wp_step. eapply wp_lift; [apply u64_add_ok; unfold U64; lia|]. fold n in Ht1 |- *.
  wp_step. eapply wp_mono; [|apply (copy_whole K); [apply Ht1|lia|intros a Hx; simpl in Hx; apply Hw; lia]].
  intros r s2 (-> & Ht2 & Hb2). cbv beta iota. change (Z.of_nat (length [x00])) with 1 in Ht2.
  assert (Ht12 : touched K sp usp1 usp s s2).
  { eapply touched_trans; (eapply touched_weaken; [..|eassumption]; lia). }
  eapply wp_mono; [|apply (IH usp1 (ptrs ++ [usp1]) s2); [apply Ht2|lia|lia|intros a ?; apply Hw; lia|lia]].
  intros r s3 (usp' & new & -> & Hr & Ht3 & HF). exists usp', (usp1 :: new). rewrite <-app_assoc. split_and!; [done|lia|lia|..].
  - eapply touched_trans; [|eapply touched_weaken; [..|exact Ht3]; lia].
    eapply touched_weaken; [..|exact Ht12]; lia.
  - constructor.
    + apply (string_in_mono K sp s2 s3 usp1 usp); [lia|lia|lia|done|]. split_and!; [lia|fold n; lia|].
      apply bytes_at_app. split; [|exact Hb2]. revert Hb1. apply bytes_at_ext. intros x Hx.
      apply (tc_mem _ _ _ _ _ _ Ht2); fold n in Hx; lia.
    + eapply Forall2_impl; [exact HF|]. intros p a (? & ? & ?). split_and!; [done|lia|done].
Qed.

(** The words [l] stand at [a], little-endian. *)
Definition words_at (u : Z → option byte) (a : Z) (l : list Z) : Prop :=
  ∀ i p, l !! i = Some p → bytes_at u (a + 8 * Z.of_nat i) (le_split 8 p).

Lemma push_pointers_spec K sp argv l : ∀ i s,
  space_ok K sp s → 0 ≤ argv → 0 ≤ i → argv + 8 * (i + Z.of_nat (length l)) ≤ USER_MAX_ADDR →
  all_writable sp (argv + 8 * i) (argv + 8 * (i + Z.of_nat (length l))) →
  wp (push_pointers sp argv i l) (λ r s', r = Some tt ∧
    touched K sp (argv + 8 * i) (argv + 8 * (i + Z.of_nat (length l))) s s' ∧
    words_at (umem sp (fa_mem s')) (argv + 8 * i) l) s.
Proof.
  induction l as [|p l IH]; intros i s Hok Ha Hi Hmax Hw; cbn [push_pointers].
  { wp_step. split_and!; [done|by apply touched_refl|by intros ? ?; rewrite lookup_nil]. }
  unfold USER_MAX_ADDR in *. cbn [length] in *. rewrite Nat2Z.inj_succ in *.
  wp_step. eapply wp_lift; [apply u64_mul_ok; unfold U64; lia|]. wp_step. eapply wp_lift; [apply u64_add_ok; unfold U64; lia|].
  wp_step. eapply wp_mono; [|apply (copy_whole K); [done|lia|rewrite length_le_split; intros a ?; apply Hw; lia]].
  intros r s1 (-> & Ht1 & Hb1). cbv beta iota. rewrite length_le_split in Ht1.
  eapply wp_mono; [|apply (IH (i + 1) s1); [apply Ht1|lia|lia|lia|intros a ?; apply Hw; lia]].
  intros r s2 (-> & Ht2 & Hw2). split_and!; [done|..].
  - eapply touched_trans; (eapply touched_weaken; [..|eassumption]; lia).
  - intros [|j] q Hj; cbn in Hj.
    + injection Hj as <-. replace (argv + 8 * i + 8 * Z.of_nat 0) with (argv + i * 8) by lia.
      revert Hb1. apply bytes_at_ext. rewrite length_le_split. intros x Hx. apply (tc_mem _ _ _ _ _ _ Ht2); lia.
    + replace (argv + 8 * i + 8 * Z.of_nat (Datatypes.S j)) with (argv + 8 * (i + 1) + 8 * Z.of_nat j) by lia. by apply Hw2.
Qed.

(** What a program finds at entry: [argc] pointers at [argv], then NULL, each
    pointing at its NUL-terminated string, everything in [argv, hi). *)
Record arg_vector sp (m : mem) (argv hi : Z) (args : list (list byte)) (ptrs : list Z) : Prop := {
  av_words : words_at (umem sp m) argv (ptrs ++ [0]);
  av_strings : Forall2 (string_in sp m argv hi) ptrs args }.

Lemma push_args_spec K sp lo usp args s :
  space_ok K sp s → 0 ≤ lo → usp ≤ USER_MAX_ADDR → all_writable sp lo usp → lo + args_size args ≤ usp →
  wp (push_args sp usp args) (λ r s', ∃ argv ptrs, r = Some (argv, Z.of_nat (length args), argv) ∧
    (16 | argv) ∧ lo ≤ argv ≤ usp ∧ touched K sp argv usp s s' ∧ arg_vector sp (fa_mem s') argv usp args ptrs) s.
Proof.
  intros Hok Hlo Hmax Hw Hroom. unfold args_size in Hroom. pose proof (strings_size_nonneg args).
  unfold push_args. wp_step. eapply wp_mono; [|apply (push_strings_spec K sp lo args usp [] s); [done|done|done|done|lia]].
  intros r s1 (usp1 & ptrs & -> & Hr1 & Ht1 & HF). cbv beta iota. cbn [app].
  pose proof (Forall2_length _ _ _ HF) as Hlen. rewrite Hlen. set (n := Z.of_nat (length args)) in *. unfold USER_MAX_ADDR in *.
  wp_step. eapply wp_lift; [apply u64_add_ok; unfold U64; lia|]. wp_step. eapply wp_lift; [apply u64_mul_ok; unfold U64; lia|].
  wp_step. eapply wp_lift; [apply u64_sub_ok; lia|].
  destruct (align_down_16 (usp1 - (n + 1) * 8)) as [Hal Hdiv]; [unfold U64; lia|].
  set (argv := Z.land (usp1 - (n + 1) * 8) (u64_not 0xf)) in *.
  wp_step. eapply wp_mono; [|apply (push_pointers_spec K sp argv ptrs 0 s1); [apply Ht1|lia|lia|rewrite Hlen; unfold USER_MAX_ADDR; fold n; lia|]].
  2:{ rewrite Hlen. fold n. intros a ?. apply Hw. lia. }
  intros r s2 (-> & Ht2 & Hw2). cbv beta iota. rewrite Hlen in Ht2. fold n in Ht2. rewrite Z.add_0_r in Hw2.
  wp_step. eapply wp_lift; [apply u64_mul_ok; unfold U64; lia|]. wp_step. eapply wp_lift; [apply u64_add_ok; unfold U64; lia|].
  wp_step. eapply wp_mono; [|apply (copy_whole K); [apply Ht2|lia|rewrite length_le_split; intros a ?; apply Hw; lia]].
  intros r s3 (-> & Ht3 & Hb3). cbv beta iota. rewrite length_le_split in Ht3. wp_step.
  assert (Ht23 : touched K sp argv usp1 s1 s3) by (eapply touched_trans; (eapply touched_weaken; [..|eassumption]; lia)).
  exists argv, ptrs. split_and!; [done|done|lia|lia|..].
  { eapply touched_trans; (eapply touched_weaken; [..|eassumption]; lia). }
  split.
  - intros i p [Hi|[Hi Hp]]%lookup_app_Some.
    + pose proof (lookup_lt_Some _ _ _ Hi). specialize (Hw2 i p Hi). revert Hw2. apply bytes_at_ext. rewrite length_le_split.
      intros x Hx. apply (tc_mem _ _ _ _ _ _ Ht3); lia.
    + apply list_lookup_singleton_Some in Hp as [Hp <-]. replace (argv + 8 * Z.of_nat i) with (argv + n * 8) by lia. exact Hb3.
  - eapply Forall2_impl; [exact HF|]. intros p a Hs. by apply (string_in_mono K sp s1 s3 usp1 usp); [lia|lia|lia|..].
Qed.

(** [push_args] on a writable stack with enough room succeeds and builds
    the vector the runtime expects: a 16-byte aligned stack pointer that is also
    [argv], [argc] pointers to copies of the arguments, each NUL-terminated, and
    a NULL after them; it changes no byte outside [argv, usp). *)
Theorem push_args_correct K sp lo usp args s :
  space_ok K sp s → 0 ≤ lo → usp ≤ USER_MAX_ADDR → all_writable sp lo usp → lo + args_size args ≤ usp →
  ∃ argv s' ptrs, push_args sp usp args s = Ret (Some (argv, Z.of_nat (length args), argv), s') ∧
    (16 | argv) ∧ lo ≤ argv ≤ usp ∧ touched K sp argv usp s s' ∧ arg_vector sp (fa_mem s') argv usp args ptrs.
Proof.
  intros Hok Hlo Hmax Hw Hroom.
  destruct (wp_run _ _ _ (push_args_spec K sp lo usp args s Hok Hlo Hmax Hw Hroom)) as (r & s' & Hr & argv & ptrs & -> & ?).
  by exists argv, s', ptrs.
Qed.
End args.

(** ** Witness: two arguments on the two writable pages of [demo_sp] *)

Definition demo_args : list (list byte) := [[Init.Byte.x73; Init.Byte.x68]; [Init.Byte.x2d; Init.Byte.x63; Init.Byte.x78]].

Lemma demo_writable : all_writable demo_sp 0x10000 0x12000.
Proof.
  assert (Hw : writable demo_sp 0x10000 && writable demo_sp 0x11000 = true) by (vm_compute; reflexivity).
  apply andb_true_iff in Hw as [H0 H1]. intros a Ha. unfold can_write.
  rewrite (proj2 (Z.ltb_lt _ _)) by (unfold USER_MAX_ADDR; lia). cbn [andb].
  destruct (decide (a < 0x11000)).
  - rewrite <-H0. replace a with (0x10000 + (a - 0x10000)) by lia. apply can_write_page; [lia|]; change PAGE_SIZE with 4096; Z.div_mod_to_equations; lia.
  - rewrite <-H1. replace a with (0x11000 + (a - 0x11000)) by lia. apply can_write_page; [lia|]; change PAGE_SIZE with 4096; Z.div_mod_to_equations; lia.
Qed.

Lemma push_args_correct_witness :
  ∃ argv s' ptrs, push_args demo_sp 0x12000 demo_args demo_st = Ret (Some (argv, 2, argv), s') ∧
    (16 | argv) ∧ 0x10000 ≤ argv ≤ 0x12000 ∧ touched demo_K demo_sp argv 0x12000 demo_st s' ∧
    arg_vector demo_sp (fa_mem s') argv 0x12000 demo_args ptrs.
Proof.
  apply (push_args_correct demo_K demo_sp 0x10000 0x12000 demo_args demo_st);
    [apply demo_ok|lia|unfold USER_MAX_ADDR; lia|exact demo_writable|vm_compute; discriminate].
Defined.
