(* ===== verification/User.v ===== *)
(** * The user runtime and the shell's line handling
    (user/src/lib.rs, user/src/bin/sh.rs)

    The code that runs in user mode on flat user memory: the argument iterator,
    line editing and the in-place splitting of a command line. *)
From stdpp Require Import base numbers list.
From coqutil Require Import Byte LittleEndianList.
From S2P Require Import Prelude Memory Config.

(** ** [Args] (user/src/lib.rs) *)

(** User loads; an unmapped address faults, which ends the program ([Panic]). *)
Definition load8 (u : Z → option byte) (a : Z) : outcome byte := expect (u a).
Definition load_word (u : Z → option byte) (a : Z) : outcome Z :=
  bs ← expect (mapM (λ i, u (a + Z.of_nat i)) (seq 0 8));
  Ret (le_combine bs).

(** The bytes up to the NUL; [fuel] bounds the length, running out of it is
    reported as [Panic].  Both [Args::get] and the shell's [cstr_at] are this
    loop. *)
Fixpoint cstr_at (fuel : nat) (u : Z → option byte) (p : Z) : outcome (list byte) :=
  match fuel with
  | O => Panic
  | S fuel =>
      b ← load8 u p;
      if byte.unsigned b =? 0 then Ret []
      else rest ← cstr_at fuel u (p + 1); Ret (b :: rest)
  end.

Record Args := mkArgs { argc : Z; argv : Z; index : Z }.
Definition Args_new (argc argv : Z) : Args := mkArgs argc argv 0.
Definition Args_len (a : Args) : Z := argc a.
Definition Args_is_empty (a : Args) : bool := argc a =? 0.

Definition Args_get (fuel : nat) (u : Z → option byte) (a : Args) (n : Z) : outcome (option (list byte)) :=
  if argc a <=? n then Ret None
  else
    p ← load_word u (argv a + 8 * n);
    s ← cstr_at fuel u p;
    Ret (Some s).

Definition Args_next (fuel : nat) (u : Z → option byte) (a : Args) : outcome (option (list byte) * Args) :=
  o ← Args_get fuel u a (index a);
  match o with
  | None => Ret (None, a)
  | Some item => i ← index a +! 1; Ret (Some item, mkArgs (argc a) (argv a) i)
  end.

(** ** [read_line] *)

Definition is_ascii_graphic (c : Z) : bool := (33 <=? c) && (c <=? 126).

(** Line editor state: the caller's buffer, the length, what was echoed. *)
Record line := mkLine { l_buf : list Z; l_len : Z; l_echo : list Z }.

(** One byte of input; [inl] is the finished line. *)
Definition line_byte (c : Z) (l : line) : outcome (line + line) :=
  if (c =? 13) || (c =? 10) then Ret (inl (mkLine (l_buf l) (l_len l) (l_echo l ++ [10])))
  else if (c =? 0x7f) || (c =? 0x08) then
    if 0 <? l_len l then
      n ← l_len l -! 1;
      Ret (inr (mkLine (l_buf l) n (l_echo l ++ [8; 32; 8])))
    else Ret (inr l)
  else if (is_ascii_graphic c || (c =? 32)) && (l_len l <? Z.of_nat (length (l_buf l))) then
    b ← arr_set (l_buf l) (l_len l) c;
    n ← l_len l +! 1;
    Ret (inr (mkLine b n (l_echo l ++ [c])))
  else Ret (inr l).

(** The input is what successive reads return: [None] is a read that returned
    nothing or an error and is retried.  [None] as the result: the line is not
    finished within this input. *)
Fixpoint read_line_loop (input : list (option Z)) (l : line) : outcome (option (line * list (option Z))) :=
  match input with
  | [] => Ret None
  | None :: input => read_line_loop input l
  | Some c :: input =>
      r ← line_byte c l;
      match r with
      | inl l => Ret (Some (l, input))
      | inr l => read_line_loop input l
      end
  end.
Definition read_line (buf : list Z) (input : list (option Z)) : outcome (option (line * list (option Z))) :=
  read_line_loop input (mkLine buf 0 []).

(** ** The shell's [split] (user/src/bin/sh.rs) *)

Definition LINE_MAX : Z := 256.
Definition ARGS_MAX : Z := 16.

(** [line] is the prefix of the shell's buffer that was read; positions are
    relative to its start, whose address is [base]. *)
Fixpoint skip_spaces (fuel : nat) (line : list Z) (i : Z) : outcome (list Z * Z) :=
  match fuel with
  | O => Panic
  | S fuel =>
      if i <? Z.of_nat (length line) then
        c ← arr_get line i;
        if c =? 32 then
          line ← arr_set line i 0;
          i ← i +! 1;
          skip_spaces fuel line i
        else Ret (line, i)
      else Ret (line, i)
  end.

Fixpoint skip_word (fuel : nat) (line : list Z) (i : Z) : outcome Z :=
  match fuel with
  | O => Panic
  | S fuel =>
      if i <? Z.of_nat (length line) then
        c ← arr_get line i;
        if negb (c =? 32) then i ← i +! 1; skip_word fuel line i
        else Ret i
      else Ret i
  end.

(** The outer loop: the line, and unless there are too many arguments their
    count and the pointer array. *)
Fixpoint split_loop (fuel : nat) (base : Z) (line : list Z) (i argc : Z) (argv : list Z)
    : outcome (list Z * option (Z * list Z)) :=
  match fuel with
  | O => Panic
  | S fuel =>
      if i <? Z.of_nat (length line) then
        '(line, i) ← skip_spaces (S (length line)) line i;
        if Z.of_nat (length line) <=? i then Ret (line, Some (argc, argv))
        else if argc =? ARGS_MAX then Ret (line, None)
        else
          argv ← arr_set argv argc (base + i);
          argc ← argc +! 1;
          i ← skip_word (S (length line)) line i;
          split_loop fuel base line i argc argv
      else Ret (line, Some (argc, argv))
  end.

(** [buffer] is the LINE_MAX buffer of which the first [len] bytes are the line.
    The result is the whole buffer, which is changed also when there are too
    many arguments, and the count with the pointer array. *)
Definition split (base : Z) (buffer : list Z) (len : Z) (argv : list Z) : outcome (list Z * option (Z * list Z)) :=
  let line := take (Z.to_nat len) buffer in
  let rest := drop (Z.to_nat len) buffer in
  '(line, r) ← split_loop (S (Z.to_nat len)) base line 0 0 argv;
  match r with
  | None => Ret (line ++ rest, None)
  | Some (argc, argv) =>
      rest ← (if (0 <? argc) && (len <? LINE_MAX) then arr_set rest 0 0 else Ret rest);
      argv ← arr_set argv argc 0;
      Ret (line ++ rest, Some (argc, argv))
  end.
