(* ===== verification/UserProps.v ===== *)
(** * User-level theorems

    The argument vector a program reads is the one the kernel was given; the
    line editor keeps exactly the edited line. *)
From stdpp Require Import base numbers functions list.
From coqutil Require Import Byte LittleEndianList.
From Stdlib Require Import Lia.
From S2P Require Import Prelude Memory Config Addr FrameIface FrameProps PageTable PageTableInv PageTableOps.
From S2P Require Import Space SpaceInv SpaceOps SpaceUser SpaceProps Process ArgsProps User.

(** ** Arguments *)

Definition no_nul (l : list byte) : Prop := Forall (λ b, byte.unsigned b ≠ 0) l.

Lemma cstr_at_string u p arg fuel : bytes_at u p (arg ++ [x00]) → no_nul arg → (length arg < fuel)%nat →
  cstr_at fuel u p = Ret arg.
Proof.
  revert p fuel. induction arg as [|b arg IH]; intros p [|fuel] Hb Hn Hf; cbn in Hf; try lia.
  - cbn. unfold load8. specialize (Hb 0%nat x00 eq_refl). rewrite Z.add_0_r in Hb. by rewrite Hb.
  - apply Forall_cons in Hn as [Hb0 Hn]. cbn. unfold load8. pose proof (Hb 0%nat b eq_refl) as Hu. rewrite Z.add_0_r in Hu.
    rewrite Hu. cbn. destruct (Z.eqb_spec (byte.unsigned b) 0); [done|].
    rewrite IH; [done| |done|lia]. intros i c Hi. rewrite <-(Hb (S i) c Hi). f_equal. lia.
Qed.

Lemma bytes_at_mapM u a l k : bytes_at u (a + Z.of_nat k) l → mapM (λ i, u (a + Z.of_nat i)) (seq k (length l)) = Some l.
Proof.
  revert k. induction l as [|b l IH]; intros k Hb; [done|]. cbn [length seq mapM].
  pose proof (Hb 0%nat b eq_refl) as H0. rewrite Z.add_0_r in H0. rewrite H0. cbn.
  rewrite IH; [done|]. intros i c Hi. rewrite <-(Hb (S i) c Hi). f_equal. lia.
Qed.

Lemma load_word_at u a p : bytes_at u a (le_split 8 p) → 0 ≤ p < U64 → load_word u a = Ret p.
Proof.
  intros Hb Hp. unfold load_word. rewrite <-(length_le_split 8 p) at 1.
  rewrite bytes_at_mapM by (by rewrite Z.add_0_r). cbn. rewrite le_combine_split. f_equal. by apply Z.mod_small.
Qed.

Section args.
Context {S : Type} `{FrameAllocator S, !FrameAllocatorLaws S}.

Lemma Args_get_vector sp (m : mem) argv hi args ptrs n arg fuel :
  arg_vector sp m argv hi args ptrs → 0 ≤ argv → hi ≤ USER_MAX_ADDR → args !! n = Some arg → no_nul arg → (length arg < fuel)%nat →
  Args_get fuel (umem sp m) (Args_new (Z.of_nat (length args)) argv) (Z.of_nat n) = Ret (Some arg).
Proof.
  intros [Hw Hs] Ha Hhi Hn Hz Hf. unfold Args_get. cbn [argc Args_new User.argv].
  pose proof (lookup_lt_Some _ _ _ Hn). destruct (Z.leb_spec (Z.of_nat (length args)) (Z.of_nat n)); [lia|].
  destruct (Forall2_lookup_r _ _ _ _ _ Hs Hn) as (p & Hp & P1 & P2 & P3). unfold USER_MAX_ADDR in *.
  rewrite (load_word_at _ _ p); [cbn|by apply Hw, lookup_app_l_Some|unfold U64; lia].
  by rewrite (cstr_at_string _ p arg).
Qed.

(** C24: arguments arrive.  The vector the kernel pushes for a new image is what
    the program's [Args] reads back: [get n] returns the [n]-th argument for
    every [n] below [argc] and [None] from [argc] on. *)
Theorem args_reach_program K sp lo usp args s :
  space_ok K sp s → 0 ≤ lo → usp ≤ USER_MAX_ADDR → all_writable sp lo usp → lo + args_size args ≤ usp →
  Forall no_nul args →
  ∃ argv s', push_args sp usp args s = Ret (Some (argv, Z.of_nat (length args), argv), s') ∧
    ∀ n fuel, (∀ arg, args !! n = Some arg → (length arg < fuel)%nat) →
      Args_get fuel (umem sp (fa_mem s')) (Args_new (Z.of_nat (length args)) argv) (Z.of_nat n) = Ret (args !! n).
Proof.
  intros Hok Hlo Hmax Hw Hroom Hz.
  destruct (wp_run _ _ _ (push_args_spec K sp lo usp args s Hok Hlo Hmax Hw Hroom)) as (r & s' & Hr & argv & ptrs & -> & _ & Hla & _ & Hv).
  exists argv, s'. split; [exact Hr|]. intros n fuel Hf. destruct (args !! n) as [arg|] eqn:Hn.
  - apply (Args_get_vector sp (fa_mem s') argv usp args ptrs n arg); try done; [lia| |by apply Hf].
    by eapply Forall_lookup_1 in Hz.
  - apply lookup_ge_None in Hn. unfold Args_get. cbn [argc Args_new].
    destruct (Z.leb_spec (Z.of_nat (length args)) (Z.of_nat n)); [done|lia].
Qed.
End args.

Lemma args_reach_program_witness :
  ∃ argv s', push_args demo_sp 0x12000 demo_args demo_st = Ret (Some (argv, 2, argv), s') ∧
    ∀ n fuel, (∀ arg, demo_args !! n = Some arg → (length arg < fuel)%nat) →
      Args_get fuel (umem demo_sp (fa_mem s')) (Args_new 2 argv) (Z.of_nat n) = Ret (demo_args !! n).
Proof.
  apply (args_reach_program demo_K demo_sp 0x10000 0x12000 demo_args demo_st);
    [apply demo_ok|lia|unfold USER_MAX_ADDR; lia|exact demo_writable|vm_compute; discriminate|].
  repeat constructor; by vm_compute.
Defined.

(** ** Line editing *)

Definition printable (c : Z) : bool := is_ascii_graphic c || (c =? 32).

(** The abstract editor: the line as a list, erased from its end. *)
Fixpoint edited (cap : nat) (input : list (option Z)) (cur : list Z) : option (list Z * list (option Z)) :=
  match input with
  | [] => None
  | None :: input => edited cap input cur
  | Some c :: input =>
      if (c =? 13) || (c =? 10) then Some (cur, input)
      else if (c =? 0x7f) || (c =? 0x08) then edited cap input (take (pred (length cur)) cur)
      else if printable c && bool_decide (length cur < cap)%nat then edited cap input (cur ++ [c])
      else edited cap input cur
  end.

(** A dumb terminal: cells and a cursor; backspace moves left, a character
    overwrites the cell under the cursor. *)
Definition term_step (st : list Z * nat) (c : Z) : list Z * nat :=
  let '(cells, cur) := st in
  if c =? 8 then (cells, pred cur)
  else if c =? 10 then st
  else (take cur cells ++ [c] ++ drop (S cur) cells, S cur).
Definition shown (echo : list Z) : list Z := let '(cells, cur) := foldl term_step ([], 0%nat) echo in take cur cells.

(** The concrete editor holds [cur] and shows it. *)
Record line_ok (cap : nat) (l : line) (cur : list Z) : Prop := {
  lo_cap : length (l_buf l) = cap;
  lo_len : l_len l = Z.of_nat (length cur);
  lo_room : (length cur ≤ cap)%nat;
  lo_buf : take (length cur) (l_buf l) = cur;
  lo_print : Forall (λ c, printable c = true) cur;
  lo_term : ∃ cells n, foldl term_step ([], 0%nat) (l_echo l) = (cells, n) ∧ take n cells = cur ∧
    n = length cur ∧ (n ≤ length cells)%nat }.

Lemma printable_range c : printable c = true → 32 ≤ c ≤ 126.
Proof. unfold printable, is_ascii_graphic. rewrite orb_true_iff, andb_true_iff. intros [[??]|?]; bool_hyps; lia. Qed.

Lemma term_type c cells n : 32 ≤ c → (n ≤ length cells)%nat →
  let '(cells', n') := term_step (cells, n) c in take n' cells' = take n cells ++ [c] ∧ n' = S n ∧ (n' ≤ length cells')%nat.
Proof.
  intros Hc Hn. unfold term_step. destruct (Z.eqb_spec c 8), (Z.eqb_spec c 10); try lia.
  split_and!; [|done|rewrite !length_app, length_take; simpl; lia].
  rewrite app_assoc, take_app_length'; [done|]. rewrite length_app, length_take. simpl. lia.
Qed.

Lemma term_erase cells n : (S n ≤ length cells)%nat →
  let '(cells', n') := foldl term_step (cells, S n) [8; 32; 8] in take n' cells' = take n cells ∧ n' = n ∧ (n' ≤ length cells')%nat.
Proof.
  intros Hn. cbn -[take drop]. split_and!; [|done|rewrite !length_app, length_take; simpl; lia].
  rewrite take_app_le by (rewrite length_take; lia). by rewrite take_take, Nat.min_id.
Qed.

Lemma line_type cap l cur c : line_ok cap l cur → Z.of_nat cap < U64 → printable c = true → (length cur < cap)%nat →
  ∃ b, arr_set (l_buf l) (l_len l) c = Ret b ∧ line_ok cap (mkLine b (l_len l + 1) (l_echo l ++ [c])) (cur ++ [c]).
Proof.
  intros [H1 H2 H3 H4 H5 (cells & n & H6 & H7 & H8 & H9)] HU Hp Hlt. unfold arr_set. rewrite H2, H1.
  destruct (Z.leb_spec 0 (Z.of_nat (length cur))), (Z.ltb_spec (Z.of_nat (length cur)) (Z.of_nat cap)); try lia. cbn.
  eexists. split; [done|]. rewrite Nat2Z.id. split; cbn; rewrite ?length_app, ?length_insert; cbn; try lia.
  - rewrite Nat.add_1_r, (take_S_r _ _ c) by (apply list_lookup_insert_eq; lia). by rewrite take_insert_ge, H4 by lia.
  - apply Forall_app. by split; [|constructor].
  - rewrite foldl_app, H6. pose proof (term_type c cells n) as Ht. cbn [foldl].
    destruct (term_step (cells, n) c) as [cells' n'] eqn:E. destruct Ht as (T1 & T2 & T3); [by apply printable_range in Hp; lia|done|].
    exists cells', n'. rewrite T1, H7. split_and!; [done|done|lia|lia].
Qed.

Lemma line_erase cap l cur : line_ok cap l cur → (0 < length cur)%nat →
  line_ok cap (mkLine (l_buf l) (l_len l - 1) (l_echo l ++ [8; 32; 8])) (take (pred (length cur)) cur).
Proof.
  intros [H1 H2 H3 H4 H5 (cells & n & H6 & H7 & H8 & H9)] Hlt.
  assert (Hlen : length (take (pred (length cur)) cur) = pred (length cur)) by (rewrite length_take; lia).
  split; cbn; rewrite ?Hlen; try lia; [|by apply Forall_take|].
  - trans (take (pred (length cur)) (take (length cur) (l_buf l))); [rewrite take_take; f_equal; lia|by rewrite H4].
  - destruct n as [|n]; [lia|]. rewrite foldl_app, H6. pose proof (term_erase cells n) as Ht.
    destruct (foldl term_step (cells, S n) [8; 32; 8]) as [cells' n']. destruct Ht as (T1 & T2 & T3); [lia|].
    exists cells', n'. rewrite T1. split_and!; [done| |lia|lia].
    trans (take n (take (S n) cells)); [rewrite take_take; f_equal; lia|rewrite H7; f_equal; lia].
Qed.

Lemma read_line_loop_spec cap input : Z.of_nat cap < U64 → ∀ l cur, line_ok cap l cur →
  match edited cap input cur with
  | None => read_line_loop input l = Ret None
  | Some (ln, rest) => ∃ l', read_line_loop input l = Ret (Some (mkLine (l_buf l') (l_len l') (l_echo l' ++ [10]), rest)) ∧ line_ok cap l' ln
  end.
Proof.
  intros HU. induction input as [|[c|] input IH]; intros l cur Hl; cbn [edited read_line_loop]; [done| |by apply IH].
  unfold line_byte. destruct ((c =? 13) || (c =? 10)) eqn:Hnl; cbn; [by exists l|].
  pose proof (lo_len _ _ _ Hl) as Hlen. destruct ((c =? 0x7f) || (c =? 0x08)) eqn:Hbs; cbn.
  - destruct (Z.ltb_spec 0 (l_len l)).
    + rewrite u64_sub_ok by lia. cbn. apply IH, line_erase; [done|lia].
    + destruct cur; [|cbn in Hlen; lia]. by apply IH.
  - unfold printable. fold (printable c). destruct (printable c) eqn:Hp; cbn; [|by apply IH].
    rewrite (lo_cap _ _ _ Hl). case_bool_decide.
    + destruct (Z.ltb_spec (l_len l) (Z.of_nat cap)); [|lia].
      destruct (line_type cap l cur c) as (b & Hb & Hl'); [done..|]. rewrite Hb. cbn. rewrite u64_add_ok by lia. cbn. by apply IH.
    + destruct (Z.ltb_spec (l_len l) (Z.of_nat cap)); [lia|]. by apply IH.
Qed.

(** [read_line] implements the line editor.  On any input it returns exactly
    when the input contains a line end, and then the first [len] bytes of the
    buffer are the edited line: printable characters as typed, erased by
    backspace or delete from the end, at most the size of the buffer; control
    characters leave no trace; and what the terminal shows is that line. *)
Theorem read_line_correct buf input : Z.of_nat (length buf) < U64 →
  match edited (length buf) input [] with
  | None => read_line buf input = Ret None
  | Some (ln, rest) => ∃ l, read_line buf input = Ret (Some (l, rest)) ∧
      l_len l = Z.of_nat (length ln) ∧ take (length ln) (l_buf l) = ln ∧ length (l_buf l) = length buf ∧
      (length ln ≤ length buf)%nat ∧ Forall (λ c, printable c = true) ln ∧ shown (l_echo l) = ln
  end.
Proof.
  intros HU. assert (H0 : line_ok (length buf) (mkLine buf 0 []) []).
  { split; cbn; try done; [lia|]. by exists [], 0%nat. }
  pose proof (read_line_loop_spec (length buf) input HU _ _ H0) as Hs. unfold read_line.
  destruct (edited (length buf) input []) as [[ln rest]|]; [|done]. destruct Hs as (l & Hr & [H1 H2 H3 H4 H5 (cells & n & H6 & H7 & _ & _)]).
  exists (mkLine (l_buf l) (l_len l) (l_echo l ++ [10])). split_and!; try done.
  unfold shown. cbn. rewrite foldl_app, H6. cbn. exact H7.
Qed.

(** A line typed with one correction: "cax", backspace, "t", return. *)
Lemma read_line_correct_witness : ∃ l, read_line (replicate 8 0) (Some <$> [99; 97; 120; 8; 116; 13]) = Ret (Some (l, [])) ∧
  l_len l = 3 ∧ take 3 (l_buf l) = [99; 97; 116] ∧ length (l_buf l) = 8%nat ∧
  (3 ≤ 8)%nat ∧ Forall (λ c, printable c = true) [99; 97; 116] ∧ shown (l_echo l) = [99; 97; 116].
Proof. exact (read_line_correct (replicate 8 0) (Some <$> [99; 97; 120; 8; 116; 13]) eq_refl). Defined.
