(* ===== verification/ShellProps.v ===== *)
(** * The shell's splitter

    [split] finds exactly the fields of the command line and turns each of them
    into a C string in place. *)
From stdpp Require Import base numbers list.
From Stdlib Require Import Lia.
From S2P Require Import Prelude User.

(** The fields of a line from offset [o] on: maximal runs without spaces, each
    with the offset it starts at. *)
Inductive fields : Z → list Z → list (Z * list Z) → Prop :=
| fields_nil o : fields o [] []
| fields_space o l ws : fields (o + 1) l ws → fields o (32 :: l) ws
| fields_word o w l ws : w ≠ [] → Forall (λ c, c ≠ 32) w → (l = [] ∨ ∃ l', l = 32 :: l') →
    fields (o + Z.of_nat (length w)) l ws → fields o (w ++ l) ((o, w) :: ws).

(** Separators become terminators. *)
Definition zero_spaces (l : list Z) : list Z := (λ c, if c =? 32 then 0 else c) <$> l.

Lemma split_word (l : list Z) : ∃ w r, l = w ++ r ∧ Forall (λ c, c ≠ 32) w ∧ (r = [] ∨ ∃ r', r = 32 :: r').
Proof.
  induction l as [|c l (w & r & -> & Hw & Hr)]; [exists [], []; naive_solver|].
  destruct (decide (c = 32)) as [->|]; [exists [], (32 :: w ++ r); naive_solver|].
  exists (c :: w), r. split_and!; [done|by constructor|done].
Qed.

Lemma fields_total l : ∀ o, ∃ ws, fields o l ws.
Proof.
  remember (length l) as n eqn:Hn. revert l Hn. induction (lt_wf n) as [n _ IH]. intros l -> o.
  destruct l as [|c l]; [exists []; constructor|]. destruct (decide (c = 32)) as [->|Hc].
  { destruct (IH (length l) ltac:(simpl; lia) l eq_refl (o + 1)) as [ws Hws]. exists ws. by constructor. }
  destruct (split_word (c :: l)) as ([|c' w] & r & E & Hw & Hr); [destruct Hr as [->|[r' ->]]; simplify_eq/=|].
  destruct (IH (length r)) with (l := r) (o := o + Z.of_nat (length (c' :: w))) as [ws Hws]; [|done|].
  { rewrite E. rewrite length_app. simpl. lia. }
  exists ((o, c' :: w) :: ws). rewrite E. by constructor.
Qed.

Lemma fields_slice o l ws : fields o l ws → ∀ o' w, (o', w) ∈ ws →
  ∃ l1 l2, l = l1 ++ w ++ l2 ∧ o' = o + Z.of_nat (length l1) ∧ Forall (λ c, c ≠ 32) w ∧ (l2 = [] ∨ ∃ l', l2 = 32 :: l').
Proof.
  induction 1 as [|o l ws _ IH|o w l ws Hne Hw Hl _ IH]; intros o' w' Hin; [by apply elem_of_nil in Hin|..].
  - destruct (IH o' w' Hin) as (l1 & l2 & -> & -> & ? & ?). exists (32 :: l1), l2. split_and!; [done|simpl; lia|done|done].
  - apply elem_of_cons in Hin as [[= -> ->]|Hin]; [exists [], l; split_and!; [done|simpl; lia|done|done]|].
    destruct (IH o' w' Hin) as (l1 & l2 & -> & -> & ? & ?). exists (w ++ l1), l2.
    split_and!; [by rewrite app_assoc|rewrite length_app; lia|done|done].
Qed.

Lemma fields_nonempty o l ws : fields o l ws → ∀ o' w, (o', w) ∈ ws → w ≠ [].
Proof.
  induction 1 as [|o l ws _ IH|o w l ws Hne _ _ _ IH]; intros o' w' Hin; [by apply elem_of_nil in Hin|by eapply IH|].
  apply elem_of_cons in Hin as [[= -> ->]|Hin]; [done|by eapply IH].
Qed.

Lemma arr_get_app (l r : list Z) c : arr_get (l ++ c :: r) (Z.of_nat (length l)) = Ret c.
Proof.
  unfold arr_get. destruct (Z.ltb_spec (Z.of_nat (length l)) 0); [lia|]. by rewrite Nat2Z.id, list_lookup_middle.
Qed.
Lemma arr_set_app (l r : list Z) c x : arr_set (l ++ c :: r) (Z.of_nat (length l)) x = Ret (l ++ x :: r).
Proof.
  unfold arr_set. rewrite length_app. cbn [length].
  destruct (Z.leb_spec 0 (Z.of_nat (length l))), (Z.ltb_spec (Z.of_nat (length l)) (Z.of_nat (length l + S (length r)))); try lia.
  cbn. by rewrite Nat2Z.id, insert_app_r_alt, Nat.sub_diag by lia.
Qed.

(** Skipping spaces and skipping a word, with the line cut at the position. *)
Lemma skip_spaces_spec fuel : ∀ pre k r, (k < fuel)%nat → (r = [] ∨ ∃ c r', r = c :: r' ∧ c ≠ 32) →
  Z.of_nat (length pre + k + length r) < U64 →
  skip_spaces fuel (pre ++ replicate k 32 ++ r) (Z.of_nat (length pre)) =
    Ret (pre ++ replicate k 0 ++ r, Z.of_nat (length pre + k)).
Proof.
  induction fuel as [|fuel IH]; intros pre k r Hk Hr HU; [lia|]. cbn [skip_spaces]. destruct k as [|k]; cbn [replicate app].
  - rewrite Nat.add_0_r. rewrite length_app. destruct Hr as [->|(c & r' & -> & Hc)].
    + rewrite app_nil_r, Nat.add_0_r. by rewrite (proj2 (Z.ltb_ge _ _)) by lia.
    + rewrite (proj2 (Z.ltb_lt _ _)) by (simpl; lia). rewrite arr_get_app. cbn. by rewrite (proj2 (Z.eqb_neq _ _) Hc).
  - rewrite (proj2 (Z.ltb_lt _ _)) by (rewrite length_app; simpl; lia). rewrite arr_get_app. cbn.
    rewrite arr_set_app. cbn. rewrite u64_add_ok by lia. cbn.
    specialize (IH (pre ++ [0]) k r). rewrite length_app, <-!app_assoc in IH. cbn in IH.
    replace (Z.of_nat (length pre) + 1) with (Z.of_nat (length pre + 1)) by lia. rewrite IH; [|lia|done|lia].
    do 2 f_equal. f_equal. lia.
Qed.

Lemma skip_word_spec fuel : ∀ pre w r, (length w < fuel)%nat → Forall (λ c, c ≠ 32) w → (r = [] ∨ ∃ r', r = 32 :: r') →
  Z.of_nat (length pre + length w + length r) < U64 →
  skip_word fuel (pre ++ w ++ r) (Z.of_nat (length pre)) = Ret (Z.of_nat (length pre + length w)).
Proof.
  induction fuel as [|fuel IH]; intros pre w r Hf Hw Hr HU; [lia|]. cbn [skip_word]. destruct w as [|c w]; cbn [app length].
  - rewrite Nat.add_0_r, length_app. destruct Hr as [->|[r' ->]].
    + rewrite (proj2 (Z.ltb_ge _ _)) by (simpl; lia). done.
    + rewrite (proj2 (Z.ltb_lt _ _)) by (simpl; lia). rewrite arr_get_app. done.
  - apply Forall_cons in Hw as [Hc Hw]. cbn [length] in *.
    rewrite (proj2 (Z.ltb_lt _ _)) by (rewrite length_app; simpl; lia). rewrite arr_get_app. cbn.
    rewrite (proj2 (Z.eqb_neq _ _) Hc). cbn. rewrite u64_add_ok by lia. cbn.
    specialize (IH (pre ++ [c]) w r). rewrite length_app, <-!app_assoc in IH. cbn in IH.
    replace (Z.of_nat (length pre) + 1) with (Z.of_nat (length pre + 1)) by lia. rewrite IH; [f_equal; lia|lia|done|done|lia].
Qed.

Lemma split_spaces (l : list Z) : ∃ k r, l = replicate k 32 ++ r ∧ (r = [] ∨ ∃ c r', r = c :: r' ∧ c ≠ 32).
Proof.
  induction l as [|c l (k & r & -> & Hr)]; [exists 0%nat, []; naive_solver|].
  destruct (decide (c = 32)) as [->|]; [by exists (S k), r|]. exists 0%nat, (c :: replicate k 32 ++ r). naive_solver.
Qed.

Lemma fields_inv o l ws : fields o l ws →
  (l = [] ∧ ws = []) ∨ (∃ l', l = 32 :: l' ∧ fields (o + 1) l' ws) ∨
  (∃ c w l' ws', l = (c :: w) ++ l' ∧ c ≠ 32 ∧ Forall (λ c, c ≠ 32) w ∧ (l' = [] ∨ ∃ r, l' = 32 :: r) ∧
    ws = (o, c :: w) :: ws' ∧ fields (o + Z.of_nat (length (c :: w))) l' ws').
Proof.
  destruct 1 as [|o l ws ?|o [|c w] l ws ? Hw ? ?]; [by left|right; left; eauto|done|].
  apply Forall_cons in Hw as [? ?]. right. right. by exists c, w, l, ws.
Qed.

Lemma fields_nil_inv o ws : fields o [] ws → ws = [].
Proof. intros [[_ ->]|[(? & ? & _)|(? & ? & ? & ? & ? & _)]]%fields_inv; done. Qed.

Lemma fields_spaces k r : ∀ o ws, fields o (replicate k 32 ++ r) ws → fields (o + Z.of_nat k) r ws.
Proof.
  induction k as [|k IH]; intros o ws Hf; cbn in *; [by rewrite Z.add_0_r|].
  destruct (fields_inv _ _ _ Hf) as [[? _]|[(l & E & Hf')|(c & w & l & ws' & E & Hc & _)]]; [done| |by injection E as <- _].
  injection E as <-. apply IH in Hf'. by replace (o + Z.of_nat (S k)) with (o + 1 + Z.of_nat k) by lia.
Qed.

Lemma fields_first o c r ws : c ≠ 32 → fields o (c :: r) ws →
  ∃ w l ws', c :: r = w ++ l ∧ w ≠ [] ∧ Forall (λ c, c ≠ 32) w ∧ (l = [] ∨ ∃ l', l = 32 :: l') ∧
    ws = (o, w) :: ws' ∧ fields (o + Z.of_nat (length w)) l ws'.
Proof.
  intros Hc [[? _]|[(l & E & _)|(c' & w & l & ws' & E & Hc' & Hw & Hl & Hws & Hf)]]%fields_inv; [done|by injection E as -> _|].
  exists (c' :: w), l, ws'. split_and!; try done. by constructor.
Qed.

(** The pointers of the fields, stored from position [n] on. *)
Definition put_ptrs (base : Z) (n : nat) (ws : list (Z * list Z)) (argv : list Z) : list Z :=
  take n argv ++ ((λ x, base + x.1) <$> ws) ++ drop (n + length ws) argv.

Lemma length_zero_spaces l : length (zero_spaces l) = length l.
Proof. apply length_fmap. Qed.
Lemma zero_spaces_app l1 l2 : zero_spaces (l1 ++ l2) = zero_spaces l1 ++ zero_spaces l2.
Proof. apply fmap_app. Qed.
Lemma zero_spaces_replicate k : zero_spaces (replicate k 32) = replicate k 0.
Proof. unfold zero_spaces. by rewrite fmap_replicate. Qed.
Lemma zero_spaces_word w : Forall (λ c, c ≠ 32) w → zero_spaces w = w.
Proof.
  induction 1 as [|c w Hc _ IH]; [done|]. unfold zero_spaces in *. cbn. rewrite (proj2 (Z.eqb_neq _ _) Hc). by f_equal.
Qed.

Lemma put_ptrs_nil base n argv : put_ptrs base n [] argv = argv.
Proof. unfold put_ptrs. cbn. by rewrite Nat.add_0_r, take_drop. Qed.

Lemma put_ptrs_cons base n o w ws argv : (n < length argv)%nat →
  put_ptrs base (S n) ws (<[n := base + o]> argv) = put_ptrs base n ((o, w) :: ws) argv.
Proof.
  intros Hn. unfold put_ptrs. cbn. rewrite (take_S_r _ n (base + o)) by (by apply list_lookup_insert_eq).
  rewrite take_insert_ge, drop_insert_lt by lia. rewrite <-app_assoc. cbn. do 3 f_equal. f_equal. lia.
Qed.

Lemma split_loop_spec base fuel : ∀ pre l n argv ws, (length l < fuel)%nat → fields (Z.of_nat (length pre)) l ws →
  length argv = 17%nat → (n ≤ 16)%nat → Z.of_nat (length pre + length l) < U64 →
  ∃ l' r, split_loop fuel base (pre ++ l) (Z.of_nat (length pre)) (Z.of_nat n) argv = Ret (l', r) ∧
    length l' = length (pre ++ l) ∧
    if decide (n + length ws ≤ 16)%nat
    then l' = pre ++ zero_spaces l ∧ r = Some (Z.of_nat (n + length ws), put_ptrs base n ws argv)
    else r = None.
Proof.
  induction fuel as [|fuel IH]; intros pre l n argv ws Hf Hfs Hargv Hn HU; [lia|]. cbn [split_loop].
  destruct l as [|c0 l0] eqn:El.
  { apply fields_nil_inv in Hfs as ->. rewrite app_nil_r, (proj2 (Z.ltb_ge _ _)) by lia. eexists _, _. split; [done|].
    rewrite decide_True by (cbn; lia). by rewrite put_ptrs_nil, Nat.add_0_r, app_nil_r. }
  rewrite <-El in *. rewrite (proj2 (Z.ltb_lt _ _)) by (rewrite length_app, El; simpl; lia). clear El c0 l0.
  destruct (split_spaces l) as (k & r & -> & Hr). rewrite length_app, length_replicate in *.
  apply fields_spaces in Hfs. rewrite skip_spaces_spec; [|rewrite !length_app, length_replicate; lia|done|lia]. cbn [mbind outcome_bind].
  destruct Hr as [->|(c & r' & -> & Hc)].
  { apply fields_nil_inv in Hfs as ->.
    rewrite (proj2 (Z.leb_le _ _)) by (rewrite !length_app, length_replicate; simpl; lia). eexists _, _. split; [done|].
    rewrite decide_True by (cbn; lia). rewrite put_ptrs_nil, Nat.add_0_r, !app_nil_r, zero_spaces_replicate. by rewrite !length_app, !length_replicate. }
  rewrite (proj2 (Z.leb_gt _ _)) by (rewrite !length_app, length_replicate; simpl; lia).
  destruct (fields_first _ _ _ _ Hc Hfs) as (w & l & ws' & E & Hne & Hw & Hl & -> & Hfs'). rewrite E in *. cbn [length].
  rewrite length_app in *. destruct (Z.eqb_spec (Z.of_nat n) ARGS_MAX) as [En|En].
  { eexists _, _. split; [done|]. rewrite decide_False by (unfold ARGS_MAX in En; lia). by rewrite !length_app, !length_replicate. }
  unfold ARGS_MAX in En. unfold arr_set at 1. rewrite Hargv.
  destruct (Z.leb_spec 0 (Z.of_nat n)), (Z.ltb_spec (Z.of_nat n) (Z.of_nat 17)); try lia. cbn [mbind outcome_bind andb].
  rewrite Nat2Z.id, u64_add_ok by (unfold U64; lia). cbn [mbind outcome_bind].
  pose (pre' := pre ++ replicate k 0). assert (Hpl : length pre' = (length pre + k)%nat) by (unfold pre'; by rewrite length_app, length_replicate).
  replace (pre ++ replicate k 0 ++ w ++ l) with (pre' ++ w ++ l) by (unfold pre'; by rewrite <-!app_assoc).
  rewrite <-Hpl. rewrite skip_word_spec; [|rewrite !length_app; lia|done|done|lia]. cbn [mbind outcome_bind].
  specialize (IH (pre' ++ w) l (S n) (<[n := base + Z.of_nat (length pre')]> argv) ws').
  rewrite length_app, <-!app_assoc in IH. replace (Z.of_nat n + 1) with (Z.of_nat (S n)) by lia.
  destruct w as [|c' w]; [done|]. cbn [length] in *.
  replace (S n + length ws')%nat with (n + S (length ws'))%nat in IH by lia.
  assert (Hfs2 : fields (Z.of_nat (length pre' + S (length w))) l ws').
  { by replace (Z.of_nat (length pre' + S (length w))) with (Z.of_nat (length pre) + Z.of_nat k + Z.of_nat (S (length w))) by lia. }
  destruct (IH ltac:(lia) Hfs2 ltac:(by rewrite length_insert) ltac:(lia) ltac:(lia)) as (l' & r & -> & Hl' & Hr').
  exists l', r. split_and!; [done|rewrite Hl'; unfold pre'; rewrite !length_app, !length_replicate; simpl; lia|].
  case_decide; [|done]. destruct Hr' as [-> ->]. rewrite (put_ptrs_cons base n (Z.of_nat (length pre')) (c' :: w)) by lia.
  rewrite Hpl, (Nat2Z.inj_add (length pre)). unfold pre'.
  rewrite !zero_spaces_app, zero_spaces_replicate, (zero_spaces_word (c' :: w)) by done. by rewrite <-!app_assoc.
Qed.

(** The C string [w] stands at offset [o] of the buffer. *)
Definition cstring_at (buf : list Z) (o : Z) (w : list Z) : Prop :=
  ∃ l1 l2, buf = l1 ++ w ++ 0 :: l2 ∧ o = Z.of_nat (length l1).

(** Splitting a command line.  For a line shorter than the buffer, [split]
    refuses exactly the lines with more than 16 space-separated fields;
    otherwise it returns their number, the pointer array holds the addresses of
    the fields in order followed by NULL, and at each address the buffer holds
    the field as a NUL-terminated string.  If the first field does not start the
    line, the buffer starts with an empty string. *)
Lemma split_spec base buffer len argv ws :
  length buffer = 256%nat → 0 ≤ len < LINE_MAX → length argv = 17%nat → fields 0 (take (Z.to_nat len) buffer) ws →
  ∃ buf' r, split base buffer len argv = Ret (buf', r) ∧ length buf' = 256%nat ∧
    if decide (length ws ≤ 16)%nat then
      ∃ argv', r = Some (Z.of_nat (length ws), argv') ∧ argv' !! length ws = Some 0 ∧
        (∀ i o w, ws !! i = Some (o, w) → argv' !! i = Some (base + o) ∧ cstring_at buf' o w ∧ w ≠ []) ∧
        (∀ o w, ws !! 0%nat = Some (o, w) → o ≠ 0 → cstring_at buf' 0 [])
    else r = None.
Proof.
  unfold LINE_MAX. intros Hb Hlen Hargv. set (l := take (Z.to_nat len) buffer). intros Hws.
  assert (Hl : length l = Z.to_nat len) by (unfold l; rewrite length_take; lia).
  destruct (split_loop_spec base (S (Z.to_nat len)) [] l 0 argv ws) as (l' & r & Hloop & Hl' & Hr);
    [lia|done|done|lia|unfold U64; simpl; lia|]. cbn [length app] in Hloop, Hl', Hr. change (Z.of_nat 0) with 0 in Hloop.
  unfold split. fold l. rewrite Hloop. clear Hloop. cbn [mbind outcome_bind]. cbn [Nat.add] in Hr.
  case_decide as Hd; [destruct Hr as [-> ->]|subst r; eexists _, _; split_and!; [done| |done]; rewrite length_app, length_drop; lia].
  set (argv1 := put_ptrs base 0 ws argv). assert (Ha1 : length argv1 = 17%nat).
  { unfold argv1, put_ptrs. rewrite !length_app, length_take, length_fmap, length_drop. lia. }
  destruct (drop (Z.to_nat len) buffer) as [|b0 rest] eqn:Erest.
  { apply (f_equal length) in Erest. rewrite length_drop in Erest. cbn in Erest. lia. }
  assert (Hrest : length rest = (255 - Z.to_nat len)%nat) by (apply (f_equal length) in Erest; rewrite length_drop in Erest; cbn in Erest; lia).
  assert (Hset : ∃ b1, (if (0 <? Z.of_nat (length ws)) && (len <? 256) then arr_set (b0 :: rest) 0 0 else Ret (b0 :: rest)) = Ret (b1 :: rest) ∧ ((0 < length ws)%nat → b1 = 0)).
  { destruct (Z.ltb_spec 0 (Z.of_nat (length ws))), (Z.ltb_spec len 256); try lia; cbn [andb].
    - exists 0. split; [|done]. exact (arr_set_app [] rest b0 0).
    - exists b0. split; [done|lia]. }
  destruct Hset as (b1 & Hset & Hb1). unfold LINE_MAX. rewrite Hset. cbn [mbind outcome_bind].
  unfold arr_set. rewrite Ha1. destruct (Z.leb_spec 0 (Z.of_nat (length ws))), (Z.ltb_spec (Z.of_nat (length ws)) (Z.of_nat 17)); try lia.
  cbn [andb mbind outcome_bind]. rewrite Nat2Z.id. eexists _, _. split; [reflexivity|]. split; [|eexists; split_and!; [reflexivity|..]].
  - rewrite length_app, length_zero_spaces, Hl. cbn. lia.
  - apply list_lookup_insert_eq. lia.
  - intros i o w Hi. pose proof (lookup_lt_Some _ _ _ Hi) as Hil.
    destruct (fields_slice 0 l ws Hws o w) as (l1 & l2 & El & -> & Hw & Hl2); [by eapply list_elem_of_lookup_2|].
    rewrite list_lookup_insert_ne by lia. split_and!.
    + unfold argv1, put_ptrs. change (take 0 argv) with (@nil Z). rewrite app_nil_l. rewrite lookup_app_l by (by rewrite length_fmap). rewrite list_lookup_fmap, Hi. done.
    + exists (zero_spaces l1). rewrite El, !zero_spaces_app, (zero_spaces_word w) by done. rewrite length_zero_spaces.
      destruct Hl2 as [->|[l' ->]]; cbn [zero_spaces fmap list_fmap app Z.eqb Pos.eqb]; [exists rest; rewrite Hb1 by lia|exists (zero_spaces l' ++ b1 :: rest)]; rewrite ?app_nil_r, <-?app_assoc; done.
    + eapply fields_nonempty; [exact Hws|by eapply list_elem_of_lookup_2].
  - intros o w Hi Ho. destruct (fields_inv _ _ _ Hws) as [[_ ->]|[(l' & -> & _)|(c & w' & l' & ws' & _ & _ & _ & _ & -> & _)]];
      [done| |by injection Hi as <- _]. exists [], (zero_spaces l' ++ b1 :: rest). done.
Qed.
