(* ===== verification/ImageProps.v ===== *)
(** * Building a program image

    [build_image] composes the loader, the stack and the argument vector: what
    a new program finds in memory, and that a failure gives everything back. *)
From stdpp Require Import base numbers functions gmap list.
From coqutil Require Import Byte.
From Stdlib Require Import Lia.
From S2P Require Import Prelude Memory Config Addr FrameIface FrameProps PageTable PageTableInv PageTableWalk PageTableOps.
From S2P Require Import Space SpaceInv SpaceMap SpaceOps SpaceUser SpaceWrite SpaceProps Loader LoaderProps.
From S2P Require Import Device Trap Task Sched Kernel Process ArgsProps.

Definition STACK_BOTTOM : Z := USER_STACK_TOP - USER_STACK_SIZE.

(** ** Quantities a computation does not change *)

Section keeps.
Context {S : Type} (φ : S → Z).

Definition keeps {A} (m : ST S A) : Prop := ∀ s, wlp m (λ _ s', φ s' = φ s) s.

Lemma keeps_ret {A} (a : A) : keeps (mret a).
Proof. intros s. by apply wlp_ret. Qed.
Lemma keeps_get : keeps get.
Proof. intros s. by apply wlp_get. Qed.
Lemma keeps_lift {A} (o : outcome A) : keeps (lift o).
Proof. intros s. by apply wlp_lift. Qed.
Lemma keeps_bind {A B} (m : ST S A) (k : A → ST S B) : keeps m → (∀ a, keeps (k a)) → keeps (m ≫= k).
Proof.
  intros Hm Hk s. apply wlp_bind. eapply wlp_mono; [|apply Hm]. cbv beta. intros a s' <-. apply Hk.
Qed.
End keeps.

(** The computation's own shape, then the lemmas about what it calls. *)
Create HintDb keeps.
#[export] Hint Resolve keeps_ret keeps_get keeps_lift : keeps.
Ltac keep :=
  repeat first
    [ apply keeps_bind; [|intros ?]
    | solve [eauto with keeps]
    | match goal with
      | |- keeps _ (match ?x with _ => _ end) => destruct x
      | |- ∀ _, _ => intros ?
      end ].

(** Writing memory does not change how much of it is free. *)
Section keeps_mem.
Context {S : Type} `{FrameAllocator S} (φ : S → Z) (Hset : ∀ m s, φ (fa_set_mem m s) = φ s).

Lemma keeps_read64 a : keeps φ (read64 a).
Proof. by intros s b s' [= <- <-]. Qed.
Lemma keeps_update_mem f : keeps φ (update_mem f).
Proof. intros s [] s' [= <-]. apply Hset. Qed.
Hint Resolve keeps_read64 keeps_update_mem : keeps.

Lemma keeps_translate pt v : keeps φ (translate pt v).
Proof. intros s r s'. rewrite translate_run. by intros [= _ <-]. Qed.
Hint Resolve keeps_translate : keeps.
Lemma keeps_translate_addr pt va : keeps φ (translate_addr pt va).
Proof. unfold translate_addr. keep. Qed.
Hint Resolve keeps_translate_addr : keeps.

Lemma keeps_copy_to_user sp addr src : keeps φ (copy_to_user sp addr src).
Proof.
  unfold copy_to_user. generalize (length src), 0. intros fuel. induction fuel as [|fuel IH]; intros copied; cbn [copy_to_loop]; keep.
Qed.
Hint Resolve keeps_copy_to_user : keeps.

Lemma keeps_push_args sp usp args : keeps φ (push_args sp usp args).
Proof.
  assert (Hs : ∀ args usp ptrs, keeps φ (push_strings sp usp args ptrs)).
  { induction args0 as [|a l IH]; intros u ptrs; cbn [push_strings]; keep. }
  assert (Hp : ∀ ptrs argv i, keeps φ (push_pointers sp argv i ptrs)).
  { induction ptrs as [|p l IH]; intros argv i; cbn [push_pointers]; keep. }
  unfold push_args. keep.
Qed.

(** What allocating and freeing leave alone too. *)
Context (Halloc : ∀ order, keeps φ (fa_alloc order)) (Hfree : ∀ p order, keeps φ (fa_free p order)).
Lemma keeps_frame_alloc order : keeps φ (frame_alloc order).
Proof. unfold frame_alloc. keep. Qed.
Lemma keeps_drop_frames l : keeps φ (drop_frames l).
Proof. induction l; cbn [drop_frames]; unfold frame_drop; keep. Qed.
Hint Resolve keeps_frame_alloc keeps_drop_frames : keeps.

Lemma keeps_map_at_level pt v p f level : keeps φ (map_at_level pt v p f level).
Proof.
  assert (Hw : ∀ idxs l stop q pt, keeps φ (walk_create_loop idxs l stop q pt)).
  { induction idxs as [|i idxs IH]; intros; cbn [walk_create_loop]; unfold slot, write64; keep. }
  unfold map_at_level, walk_create_to, write64. keep.
Qed.
Hint Resolve keeps_map_at_level : keeps.
Lemma keeps_map_into r pt : keeps φ (map_into r pt).
Proof.
  unfold map_into. generalize (vpn (r_start r)) as v. intros v. generalize (Z.to_nat (vpn (r_end r) - v)) as n. generalize (vpn (r_end r)) as stop. intros stop n.
  revert v r pt. induction n as [|n IH]; intros v r pt; cbn [map_into_loop]; unfold map, fits_superpage, insert_frame, frame_drop; keep.
Qed.
Lemma keeps_region_drop r : keeps φ (Region_drop r).
Proof. unfold Region_drop. keep. Qed.
Lemma keeps_write_data r off data : keeps φ (write_data r off data).
Proof.
  unfold write_data. generalize 0. generalize (length data) as n. intros n. revert off.
  induction n as [|n IH]; intros off z; cbn [write_data_loop]; keep.
Qed.
Hint Resolve keeps_map_into keeps_region_drop keeps_write_data : keeps.
Lemma keeps_space_new : keeps φ AddressSpace_new.
Proof. unfold AddressSpace_new, PageTable_new. keep. Qed.
Lemma keeps_unmap_regions l pt : keeps φ (unmap_regions l pt).
Proof.
  assert (Hw : ∀ idxs l q, keeps φ (walk_loop idxs l q)) by (induction idxs as [|i idxs IH]; intros; cbn [walk_loop]; unfold slot; keep).
  assert (Hu : ∀ n v stop pt, keeps φ (unmap_loop n v stop pt)).
  { induction n as [|n IH]; intros; cbn [unmap_loop]; unfold unmap, walk_mut, walk_ptr, write64; keep. }
  induction l as [|r l IH]; cbn [unmap_regions]; unfold unmap_from, clear_frames; keep.
Qed.
Hint Resolve keeps_unmap_regions : keeps.
Lemma keeps_space_drop sp : keeps φ (AddressSpace_drop sp).
Proof. unfold AddressSpace_drop, PageTable_drop. keep. Qed.
Lemma keeps_push sp r : keeps φ (AS_push sp r).
Proof. unfold AS_push. keep. Qed.
Hint Resolve keeps_space_new keeps_space_drop keeps_push : keeps.

Lemma keeps_load kernel image : keeps φ (load kernel image).
Proof.
  assert (Hl : ∀ n h i sp brk, keeps φ (load_loop n image h i sp brk)).
  { induction n as [|n IH]; intros; cbn [load_loop]; unfold push_with_offset; keep. }
  unfold load, map_kernel_half, share_upper_half. keep.
Qed.
Lemma keeps_map_user_stack sp : keeps φ (map_user_stack sp).
Proof. unfold map_user_stack. keep. Qed.
Lemma keeps_init_kernel_space a b c d e : keeps φ (init_kernel_space a b c d e).
Proof.
  assert (Hp : ∀ sp x y p, keeps φ (push_linear sp x y p)) by (intros; unfold push_linear; keep).
  assert (Hs : ∀ l sp, keeps φ (push_sections sp l)) by (induction l as [|[[]] l IH]; intros; cbn [push_sections]; keep).
  assert (Hm : ∀ l sp, keeps φ (push_mmio sp l)) by (induction l as [|[] l IH]; intros; cbn [push_mmio]; keep).
  unfold init_kernel_space. keep.
Qed.
End keeps_mem.

Section image.
Context {S : Type} `{FrameAllocator S, !FrameAllocatorLaws S}.
Implicit Types (s : S) (K : Z → Prop) (sp : AddressSpace).

(** [AS_push] is [push_with_offset] without data. *)
Lemma AS_push_empty sp r s : AS_push sp r s = push_with_offset sp r 0 [] s.
Proof.
  unfold AS_push, push_with_offset, mbind, ST_bind. destruct (map_into r (table sp) s) as [[[[[]|e] [r' pt']] s']|]; done.
Qed.

Lemma wp_ext {A} (m m' : ST S A) Q s : m s = m' s → wp m' Q s → wp m Q s.
Proof. unfold wp. by intros ->. Qed.

(** The pages of a region just pushed are writable if its permissions say so. *)
Lemma pushed_writable K sp' r new l s a : space_ok K sp' s → regions sp' = l ++ [with_frames new r] →
  contains (r_perm r) (Z.lor Flags.WRITE Flags.USER) = true → r_end r ≤ USER_MAX_ADDR →
  r_start r ≤ a < r_end r → can_write sp' a = true.
Proof.
  intros Hok Hr Hp Htop Ha. assert (Hin : with_frames new r ∈ regions sp') by (rewrite Hr; apply elem_of_app; right; apply list_elem_of_here).
  pose proof (proj1 (Forall_forall _ _) (so_regions _ _ _ Hok) _ Hin) as Hro.
  pose proof (region_pages_range (with_frames new r) a Hro) as [Hv _]. specialize (Hv Ha). rewrite region_pages_vpns in Hv.
  apply list_elem_of_fmap in Hv as ([v f] & Hv & Hf). cbn in Hv. subst v.
  unfold can_write, writable. rewrite (region_page_sp K sp' s (with_frames new r) _ f Hok Hin Hf). cbn [r_perm with_frames].
  rewrite Hp, (proj2 (Z.ltb_lt _ _)) by lia. done.
Qed.

Lemma stack_region : ∃ r, Region_new STACK_BOTTOM USER_STACK_TOP Framed user_rw_flags = Ret r ∧ region_shape r ∧ r_frames r = [] ∧
  r_perm r = user_rw_flags ∧ r_start r = STACK_BOTTOM ∧ r_end r = USER_STACK_TOP.
Proof.
  destruct (Region_new_shape STACK_BOTTOM USER_STACK_TOP user_rw_flags) as (r & H1 & H2 & H3 & H4 & H5 & H6); [done|done|done|].
  exists r. by rewrite H5, H6.
Qed.

(** What the stack may take: each page and two tables. *)
Definition STACK_FRAMES : Z := 3 * (USER_STACK_SIZE `div` PAGE_SIZE).

(** The stack goes where nothing is mapped, zero-filled and writable. *)
Lemma map_user_stack_spec K s0 sp s :
  building K s0 [] sp s →
  wp (map_user_stack sp) (λ '(o, sp') s', match o with
    | Some top => top = USER_STACK_TOP ∧ building K s0 [] sp' s' ∧ all_writable sp' STACK_BOTTOM USER_STACK_TOP ∧
        fa_avail s - STACK_FRAMES ≤ fa_avail s' ∧
        (∀ a, STACK_BOTTOM ≤ a < USER_STACK_TOP → umem sp (fa_mem s) a = None) ∧
        (∀ a, 0 ≤ a → umem sp' (fa_mem s') a =
           if decide (STACK_BOTTOM ≤ a < USER_STACK_TOP) then Some x00 else umem sp (fa_mem s) a)
    | None => (∃ L, building K s0 L sp' s') ∧
        (fa_avail s < STACK_FRAMES ∨ ∃ a, STACK_BOTTOM ≤ a < USER_STACK_TOP ∧ umem sp (fa_mem s) a ≠ None)
    end) s.
Proof.
  intros Hb. destruct stack_region as (r & Hr & Hsh & Hnil & Hperm & Hlo & Hhi). unfold map_user_stack.
  wp_step. eapply wp_lift; [done|]. wp_step. eapply wp_lift; [exact Hr|]. wp_step.
  eapply wp_ext; [apply AS_push_empty|].
  eapply wp_mono; [|apply (push_with_offset_spec K s0 sp r 0 [] s Hb Hsh Hnil); [lia|rewrite Hlo, Hhi; done]].
  assert (Hsz : 3 * region_size r = STACK_FRAMES) by (unfold region_size; by rewrite Hlo, Hhi). rewrite Hsz.
  intros [[[]|e] sp'] s'; cbv beta iota.
  2: { intros [He HL]. apply wp_ret. split; [done|]. destruct He as [[_ ?]|(x & Hx & Hin)]; [by left|right].
       rewrite Hlo, Hhi in Hx. exists (x * PAGE_SIZE). split.
       - change (vpn STACK_BOTTOM) with 67108799 in Hx. change (vpn USER_STACK_TOP) with 67108863 in Hx.
         change STACK_BOTTOM with (67108799 * PAGE_SIZE). change USER_STACK_TOP with (67108863 * PAGE_SIZE). unfold PAGE_SIZE. lia.
       - unfold umem, user_addr. rewrite vpn_div, Z.div_mul by done. intros Hn. revert Hin. apply bt_get_None.
         by destruct (bt_get x (sp_pages sp)) as [[]|]. }
  intros (Hb' & new & Hrs & Hav & Hnone & Hm). apply wp_ret. rewrite Hlo, Hhi in *. split_and!; [done|done| |done|done|].
  - intros a Ha. apply (pushed_writable K sp' r new (regions sp) s' a); [by apply (building_ok K s0)|done|by rewrite Hperm|by rewrite Hhi|by rewrite Hlo, Hhi].
  - intros a Ha. rewrite Hm by done. rewrite decide_False by (simpl; lia). done.
Qed.

(** Writing user bytes keeps a construction going. *)
Lemma building_touched K s0 sp s lo hi s' : building K s0 [] sp s → touched K sp lo hi s s' → building K s0 [] sp s'.
Proof.
  intros [B1 B2 B3 B4 B5 B6] [[T1 T2 T3] Tu Tp Tm]. split; try done.
  - intros q. by rewrite Tu, B4.
  - intros q Hq a Ha. rewrite (Tp q) by (done || (intros Hin; by apply (B5 q); [right|])). by apply (B6 q).
Qed.

(** What [exec] promises its program: the segments of the file outside the
    stack, a zeroed stack below the argument vector, and the vector itself. *)
Record image_in (image : list byte) (args : list (list byte)) (pc brk argv : Z) sp (m : mem) : Prop := {
  im_file : ∃ h sp0 m0, read_header image = Ret (Ok h) ∧ pc = e_entry h ∧ holds image h (e_phnum h) sp0 brk m0 ∧
    ∀ a, 0 ≤ a → if decide (STACK_BOTTOM ≤ a < USER_STACK_TOP) then umem sp0 m0 a = None else umem sp m a = umem sp0 m0 a;
  im_stack : ∀ a, STACK_BOTTOM ≤ a < argv → umem sp m a = Some x00;
  im_argv : (16 | argv) ∧ STACK_BOTTOM ≤ argv ≤ USER_STACK_TOP;
  im_args : ∃ ptrs, arg_vector sp m argv USER_STACK_TOP args ptrs }.

Lemma arg_vector_ext sp m m' argv hi args ptrs :
  (∀ a, umem sp m' a = umem sp m a) → arg_vector sp m argv hi args ptrs → arg_vector sp m' argv hi args ptrs.
Proof.
  intros He [Hw Hs]. split.
  - intros i p Hi. eapply bytes_at_ext; [|by apply Hw]. intros x _. apply He.
  - eapply Forall2_impl; [exact Hs|]. intros p a (? & ? & Hb). split_and!; [done|done|]. eapply bytes_at_ext; [|exact Hb]. intros x _. apply He.
Qed.

Lemma image_in_ext image args pc brk argv sp m m' :
  (∀ a, umem sp m' a = umem sp m a) → image_in image args pc brk argv sp m → image_in image args pc brk argv sp m'.
Proof.
  intros He [(h & sp0 & m0 & Hh & Hpc & Hho & Hm) Hst Hal (ptrs & Hv)]. split; [|intros a Ha; rewrite He; by apply Hst|done|].
  - exists h, sp0, m0. split_and!; [done..|]. intros a Ha. specialize (Hm a Ha). case_decide; [done|by rewrite He].
  - exists ptrs. by eapply arg_vector_ext.
Qed.

(** A space depends only on its own pages and the kernel's tables. *)
Lemma space_ok_local K sp s s' :
  space_ok K sp s → fa_inv s' →
  (∀ q, q ∈ table_pages (table sp) ∨ K q ∨ q ∈ sp_ppns sp → fa_used s' q ∧ agree (page q) (fa_mem s) (fa_mem s')) →
  space_ok K sp s' ∧ (∀ a, umem sp (fa_mem s') a = umem sp (fa_mem s) a).
Proof.
  intros [Hm [Hnd Hu Ht] Hr] Hinv Hst. split; [constructor; [|constructor|done]|].
  - apply (maps_stable K (table sp) (sp_pages sp) s s' Hm Hinv). intros q Hq _. apply Hst. tauto.
  - done.
  - intros q Hq. apply Hst. tauto.
  - exact Ht.
  - intros a. apply umem_agree. intros q Hq. apply Hst. tauto.
Qed.

(** Dropping a space that was there before does not disturb the new one. *)
Lemma drop_old_space K old sp s s1 :
  space_ok K old s → building K s [] sp s1 →
  wp (AddressSpace_drop old) (λ _ s2, space_ok K sp s2 ∧ (∀ a, umem sp (fa_mem s2) a = umem sp (fa_mem s1) a) ∧
    (∀ q, fa_used s2 q ↔ (fa_used s q ∧ (q ∉ sp_ppns old) ∧ q ∉ table_pages (table old)) ∨ q ∈ table_pages (table sp) ∨ q ∈ sp_ppns sp) ∧
    (∀ q, fa_used s q → fa_used s2 q → agree (page q) (fa_mem s) (fa_mem s2))) s1.
Proof.
  intros Hold Hb. pose proof (building_ok _ _ _ _ Hb) as Hok. destruct Hb as [_ _ _ Hu Hf Ha].
  assert (Hold1 : space_ok K old s1).
  { apply (space_ok_stable K old s s1 Hold); [apply (maps_inv _ _ _ _ (so_maps _ _ _ Hok))|].
    intros q Hq. split; [apply Hu; by left|by apply Ha]. }
  pose proof (pt_wf_pages 256 K (table old) s) as Hpg. pose proof (ow_used _ _ _ _ (so_owns _ _ _ Hold)) as How.
  assert (Hkeep : ∀ q, q ∈ table_pages (table sp) ∨ q ∈ sp_ppns sp → (q ∉ sp_ppns old) ∧ q ∉ table_pages (table old)).
  { intros q Hq. apply Hf in Hq. split; [intros Hin; by apply Hq, How|].
    intros Hin. by apply Hq, (Hpg q (mp_wf _ _ _ _ (so_maps _ _ _ Hold))). }
  eapply wp_mono; [|apply (AddressSpace_drop_spec K old [] [] s1); [apply Hold1|rewrite app_nil_r; apply Hold1|rewrite app_nil_r; apply Hold1]].
  intros [] s2 (Hinv & Hu2 & Ha2). assert (Hn : ∀ q, q ∈ table_pages (table sp) ∨ K q ∨ q ∈ sp_ppns sp → fa_used s2 q).
  { intros q Hq. apply Hu2. destruct Hq as [Hq|[Hq|Hq]].
    - split; [apply Hu; tauto|apply Hkeep; tauto].
    - destruct (mp_K _ _ _ _ (so_maps _ _ _ Hold1) q Hq) as [? ?]. split_and!; [done| |done]. intros Hin.
      by apply (ow_tables _ _ _ _ (so_owns _ _ _ Hold1) q).
    - split; [apply Hu; tauto|apply Hkeep; tauto]. }
  destruct (space_ok_local K sp s1 s2 Hok Hinv) as [Hok2 Hm2]; [intros q Hq; split; [by apply Hn|by apply Ha2, Hn]|].
  split_and!; [done|done| |].
  - intros q. rewrite Hu2, Hu. pose proof (Hkeep q). tauto.
  - intros q Hq Hq2. etransitivity; [by apply Ha|by apply Ha2].
Qed.

Definition built image args (r : result ExecError (AddressSpace * LoadedImage * (Z * Z * Z))) kernel s s' : Prop :=
  match r with
  | Ok (sp, loaded, (usp, argc, argv)) => usp = argv ∧ argc = Z.of_nat (length args) ∧
      building (kernel_tables kernel) s [] sp s' ∧ image_in image args (li_entry loaded) (li_brk loaded) argv sp (fa_mem s') ∧
      0 < li_brk loaded ≤ USER_MAX_ADDR ∧ (PAGE_SIZE | li_brk loaded)
  | Err _ => restored s s'
  end.
End image.

Section kernel.
Context {S D : Type} `{FrameAllocator S, !FrameAllocatorLaws S} `{Bus D} `{Firmware D}.
Implicit Types (k : Kernel S D).

Lemma wp_in_mem {A} (m : ST S A) Q k : wp m (λ a s, Q a (set_mem s k)) (k_mem k) → wp (in_mem m) Q k.
Proof. unfold wp, in_mem. by destruct (m (k_mem k)) as [[a s]|]. Qed.
Lemma wlp_in_mem {A} (m : ST S A) Q k : wlp m (λ a s, Q a (set_mem s k)) (k_mem k) → wlp (in_mem m) Q k.
Proof. intros Hm a k'. unfold in_mem. destruct (m (k_mem k)) as [[b s]|] eqn:E; [|done]. intros [= <- <-]. by apply Hm. Qed.
Lemma wp_in_sched {A} (m : ST Sched A) Q k : wp m (λ a s, Q a (set_sched s k)) (k_sched k) → wp (in_sched m) Q k.
Proof. unfold wp, in_sched. by destruct (m (k_sched k)) as [[a s]|]. Qed.

Lemma set_mem_twice s1 s2 k : set_mem s2 (set_mem s1 k) = set_mem s2 k.
Proof. done. Qed.

(** An image that loads below the stack, and the frames it may take with its
    stack: the root table, and for each page itself and two tables. *)
Definition startable image h : Prop := read_header image = Ret (Ok h) ∧ loadable image h ∧
  ∀ j seg, 0 ≤ j < e_phnum h → header image h j = Ret (Ok (Some seg)) → seg_hi seg ≤ STACK_BOTTOM.
Definition image_frames image h : Z := 1 + 3 * image_pages image h + STACK_FRAMES.

(** Building an image touches memory only, and either completes or gives back
    every frame; it completes when the image is well formed and enough is left. *)
Lemma build_image_full image args k :
  fa_inv (k_mem k) → pt_kernel (table (k_space k)) (k_mem k) → Z.of_nat (length image) < 2 ^ 63 → args_size args ≤ USER_STACK_SIZE →
  wp (build_image image args) (λ r k', k' = set_mem (k_mem k') k ∧ built image args r (k_space k) (k_mem k) (k_mem k') ∧
    ∀ h, startable image h → match r with
      | Ok _ => fa_avail (k_mem k) - image_frames image h ≤ fa_avail (k_mem k')
      | Err _ => fa_avail (k_mem k) < image_frames image h
      end) k.
Proof.
  intros Hinv Hk Hlen Hargs. unfold build_image. wp_step. wp_step. wp_step. apply wp_in_mem.
  assert (Hfr : 0 < STACK_FRAMES) by done.
  eapply wp_mono; [|apply (load_full (k_space k) image (k_mem k) Hinv Hk Hlen)]. intros [loaded|e] s1; cbv beta iota.
  2: { intros [Hres Hfew]. apply wp_ret. split_and!; [done|done|]. intros h (Hh & Hl & _). specialize (Hfew h Hh Hl). unfold image_frames. lia. }
  intros (h & Hh & He & Hb & Hbrk & Hho & Hav1). wp_step. apply wp_in_mem. cbn [k_mem set_mem].
  eapply wp_mono; [|by apply (map_user_stack_spec (kernel_tables (k_space k)) (k_mem k))]. intros [[top|] sp] s2; cbv beta iota.
  2: { intros [[L HL] Hwhy]. wp_step. apply wp_in_mem. eapply wp_mono; [|exact (building_drop _ _ _ _ _ HL)]. intros [] s3 Hres. apply wp_ret.
       split_and!; [done|done|]. intros h' (Hh' & _ & Hlow). rewrite Hh in Hh'. injection Hh' as <-. unfold image_frames.
       destruct Hwhy as [?|(a & Ha & Hu)]; [lia|]. exfalso. assert (0 ≤ STACK_BOTTOM) by done.
       destruct (ho_only _ _ _ _ _ _ Hho a ltac:(lia) Hu) as (j & seg & Hj & Hs & Hin). specialize (Hlow j seg Hj Hs). lia. }
  intros (-> & Hb2 & Hw & Hav2 & Hnone & Hm). wp_step. apply wp_in_mem. cbn [k_mem set_mem].
  eapply wp_mono; [|apply wp_wlp_conj;
    [apply (push_args_spec (kernel_tables (k_space k)) sp STACK_BOTTOM USER_STACK_TOP args s2);
      [by apply (building_ok _ (k_mem k))|done|done|done|unfold STACK_BOTTOM; lia]
    |apply (keeps_push_args fa_avail fa_avail_set)]].
  intros r s3 [(argv & ptrs & -> & Hal & Hlo & Ht & Hv) Hav3]. cbv beta iota. apply wp_ret. split; [done|].
  split; [|intros h' (Hh' & _ & _); rewrite Hh in Hh'; injection Hh' as <-; unfold image_frames; cbn [k_mem set_mem]; lia].
  pose proof (ho_brk _ _ _ _ _ _ Hho) as [Hdiv Hrange]. cbn [built k_mem set_mem]. split_and!; [done|done| | |lia|lia|done].
  { by eapply building_touched. }
  split; [|intros a Ha|done|by exists ptrs].
  - exists h, (li_space loaded), (fa_mem s1). split_and!; [done|done|done|]. intros a Ha. case_decide as Hd; [by apply Hnone|].
    rewrite (tc_mem _ _ _ _ _ _ Ht) by lia. rewrite Hm by done. by rewrite decide_False.
  - assert (0 ≤ STACK_BOTTOM) by done. rewrite (tc_mem _ _ _ _ _ _ Ht) by lia. rewrite Hm by lia. rewrite decide_True by lia. done.
Qed.

Lemma build_image_spec image args k :
  fa_inv (k_mem k) → pt_kernel (table (k_space k)) (k_mem k) → Z.of_nat (length image) < 2 ^ 63 → args_size args ≤ USER_STACK_SIZE →
  wp (build_image image args) (λ r k', k' = set_mem (k_mem k') k ∧ built image args r (k_space k) (k_mem k) (k_mem k')) k.
Proof.
  intros Hinv Hk Hlen Hargs. eapply wp_mono; [|exact (build_image_full image args k Hinv Hk Hlen Hargs)].
  by intros r k' (? & ? & _).
Qed.
End kernel.
