(* ===== verification/ProcessProps.v ===== *)
(** * Processes: exec, fork, the program break and exit

    What the operations of task/process.rs do to a process and to the rest of
    the kernel, on top of the address-space, loader and argument theorems. *)
From stdpp Require Import base numbers functions gmap list.
From coqutil Require Import Byte.
From Stdlib Require Import Lia.
From S2P Require Import Prelude Memory Config Addr FrameIface FrameProps PageTable PageTableInv PageTableOps.
From S2P Require Import Space SpaceInv SpaceMap SpaceOps SpaceUser SpaceWrite SpaceProps Loader LoaderProps.
From S2P Require Import Device Trap Task Sched SchedProps Kernel Process ArgsProps ImageProps.

Section process.
Context {S D : Type} `{FrameAllocator S, !FrameAllocatorLaws S} `{Bus D} `{Firmware D}.
Implicit Types (k : Kernel S D).

Abbreviation kt k := (kernel_tables (k_space k)).

(** The kernel's own structures: the allocator, the kernel half, the heap. *)
Record kernel_ok k : Prop := {
  ko_mem : fa_inv (k_mem k);
  ko_half : pt_kernel (table (k_space k)) (k_mem k);
  ko_boxes : ∀ a, is_Some (live (k_boxes k) !! a) → a < next_box (k_boxes k);
  ko_pids : ∀ q, is_Some (tasks (k_sched k) !! q) → q < next_pid (k_sched k) }.

(** [p] is a user process with task [t] and address space [sp], in its own kernel stack. *)
Record process k (p : Pid) (t : Task) sp (ksp : Z) : Prop := {
  pr_task : tasks (k_sched k) !! p = Some t;
  pr_space : space (user t) = Some sp;
  pr_ok : space_ok (kt k) sp (k_mem k);
  pr_frame : ∃ b, frame (user t) = Some b ∧ is_Some (live (k_boxes k) !! b);
  pr_stack : stack_top (kstack t) = Ret ksp }.

Lemma wp_get_task_k p t Q k : tasks (k_sched k) !! p = Some t → Q t k → wp (in_sched (get_task p)) Q k.
Proof. intros Ht HQ. apply wp_in_sched. apply (wp_get_task p t); [done|]. by destruct k. Qed.

(** The register file a program starts with. *)
Definition start_regs (usp argc argv : Z) : list Z := <[11%nat := argv]> (<[10%nat := argc]> (<[2%nat := usp]> (replicate 32 0))).

Lemma image_frame_spec pc usp ksp argc argv Q k :
  (∀ f, tf_x f = start_regs usp argc argv → tf_sepc f = pc → tf_kernel_sp f = ksp → tf_kernel_satp f = AS_token (k_space k) →
    tf_kernel_hartid f = hart_id (k_hart k) → Z.land (tf_sstatus f) sstatus_bits.SPP = 0 → Q f k) →
  wp (image_frame pc usp ksp argc argv) Q k.
Proof.
  intros HQ. unfold image_frame, kernel_token. wp_steps. unfold TrapFrame_new_user, set_sp.
  eapply wp_lift; [by apply set_reg_ok|]. wp_step. eapply wp_lift; [by apply set_reg_ok|]. eapply wp_lift; [by apply set_reg_ok|].
  apply HQ; try done. cbn. rewrite !Z.land_lor_distr_l, <-!Z.land_assoc. cbn.
  change (Z.land (u64_not sstatus_bits.SIE) sstatus_bits.SPP) with sstatus_bits.SPP.
  change (Z.land (u64_not sstatus_bits.SPP) sstatus_bits.SPP) with 0.
  by rewrite Z.land_0_r.
Qed.

(** The state after [exec]: only the calling task, its trap frame, memory and
    [satp] change. *)
Record execed k (p : Pid) (t : Task) old nm image args k' : Prop := {
  ex_ok : kernel_ok k';
  ex_frame : k' = set_mem (k_mem k') (set_boxes (k_boxes k') (set_hart (set_satp (satp (k_hart k')) (k_hart k))
    (set_sched (set_tasks (tasks (k_sched k')) (k_sched k)) k)));
  ex_other q : q ≠ p → tasks (k_sched k') !! q = tasks (k_sched k) !! q;
  ex_task : ∃ sp b f lbrk argv, let heap := Z.max lbrk USER_HEAP_BASE in
    tasks (k_sched k') !! p = Some (with_user (λ u, mkUser (Some sp) (Some b) heap heap (parent u) (children u)) (with_name nm t)) ∧
    live (k_boxes k') !! b = Some f ∧ tf_x f = start_regs argv (Z.of_nat (length args)) argv ∧
    image_in image args (tf_sepc f) lbrk argv sp (fa_mem (k_mem k')) ∧ Z.land (tf_sstatus f) sstatus_bits.SPP = 0 ∧
    space_ok (kt k) sp (k_mem k') ∧ satp (k_hart k') = AS_token sp ∧
    ∀ q, fa_used (k_mem k') q ↔ (fa_used (k_mem k) q ∧ (q ∉ sp_ppns old) ∧ q ∉ table_pages (table old)) ∨
      q ∈ table_pages (table sp) ∨ q ∈ sp_ppns sp;
  ex_freed b : frame (user t) = Some b → live (k_boxes k') !! b = None;
  ex_pages q : fa_used (k_mem k) q → fa_used (k_mem k') q → agree (page q) (fa_mem (k_mem k)) (fa_mem (k_mem k')) }.

Lemma pt_kernel_pages pt (s : S) q : pt_kernel pt s → q ∈ table_pages pt → fa_used s q.
Proof. intros [role Hok] [pa Hq]%(pt_total _ _ _ _ Hok). by eapply pt_used. Qed.

Lemma exec_install_spec image args nm p t old ksp sp loaded argv s1 k :
  kernel_ok k → process k p t old ksp → building (kt k) (k_mem k) [] sp s1 →
  image_in image args (li_entry loaded) (li_brk loaded) argv sp (fa_mem s1) →
  wp (in_sched (upd_task p (with_name nm));;
      t ← in_sched (get_task p);
      kernel_sp ← lift (stack_top (kstack t));
      f ← image_frame (li_entry loaded) argv kernel_sp (Z.of_nat (length args)) argv;
      b ← box_new f;
      activate (AS_token sp);;
      let brk := Z.max (li_brk loaded) USER_HEAP_BASE in
      in_sched (upd_task p (with_user (λ u, mkUser (Some sp) (Some b) brk brk (parent u) (children u))));;
      box_free (frame (user t));;
      drop_space (space (user t));;
      mret (Ok (E := ExecError) tt)) (λ r k', r = Ok tt ∧ execed k p t old nm image args k') (set_mem s1 k).
Proof.
  intros [Hinv Hhalf Hbox Hpids] [Ht Hsp Hok (b0 & Hb0 & Hl0) Hst] Hb Hi. wp_step. apply wp_in_sched. unfold upd_task. wp_steps.
  apply (wp_get_task_k p (with_name nm t)); [cbn; by rewrite lookup_alter_eq, Ht|]. wp_step. eapply wp_lift; [exact Hst|].
  wp_step. apply image_frame_spec. intros f Hx Hpc _ _ _ Hspp. unfold box_new, activate, on_hart, upd_task. wp_steps. apply wp_in_sched. wp_steps.
  cbn [user with_name]. rewrite Hb0, Hsp. unfold box_free, drop_space. wp_steps. apply wp_in_mem. cbn [k_mem set_mem set_boxes set_sched set_hart].
  eapply wp_mono; [|by apply (drop_old_space (kt k) old sp (k_mem k) s1)]. intros [] s2 (Hok2 & Hm2 & Hu2 & Ha2). apply wp_ret. split; [done|].
  pose proof (maps_inv _ _ _ _ (so_maps _ _ _ Hok2)) as Hinv2.
  assert (Hne : b0 ≠ next_box (k_boxes k)) by (apply Hbox in Hl0; lia). split.
  - split; [exact Hinv2| | |].
    + apply (pt_kernel_stable _ (k_mem k)); [done|done|]. intros q Hq. pose proof (mp_K _ _ _ _ (so_maps _ _ _ Hok2) q Hq) as [? _].
      split; [done|]. apply Ha2; [|done]. apply (mp_K _ _ _ _ (so_maps _ _ _ Hok) q Hq).
    + intros a. cbn. destruct (decide (a = b0)) as [->|]; [rewrite lookup_delete_eq; by intros []|]. rewrite lookup_delete_ne by done.
      destruct (decide (a = next_box (k_boxes k))) as [->|]; [lia|]. rewrite lookup_insert_ne by done. intros ?%Hbox. lia.
    + intros q. cbn. rewrite !lookup_alter_is_Some. apply Hpids.
  - done.
  - intros q Hq. cbn. by rewrite !lookup_alter_ne.
  - exists sp, (next_box (k_boxes k)), f, (li_brk loaded), argv. cbn. split_and!; try done.
    + by rewrite !lookup_alter_eq, Ht.
    + by rewrite lookup_delete_ne, lookup_insert_eq.
    + rewrite Hpc. by eapply image_in_ext.
    + unfold activate_token. by destruct (Z.eqb_spec (satp (k_hart k)) (AS_token sp)).
  - intros b Hb'. rewrite Hb0 in Hb'. injection Hb' as <-. cbn. by rewrite lookup_delete_eq.
  - done.
Qed.

Lemma exec_current_spec nm image args p t old ksp k :
  kernel_ok k → process k p t old ksp → Z.of_nat (length image) < 2 ^ 63 → args_size args ≤ USER_STACK_SIZE →
  wp (exec_current p nm image args) (λ r k', match r with
    | Ok _ => execed k p t old nm image args k'
    | Err _ => k' = set_mem (k_mem k') k ∧ restored (k_mem k) (k_mem k')
    end) k.
Proof.
  intros Hk Hp Hlen Hargs. unfold exec_current. wp_step.
  eapply wp_mono; [|apply (build_image_spec image args k (ko_mem _ Hk) (ko_half _ Hk) Hlen Hargs)].
  intros [[[sp loaded] [[usp argc] argv]]|e] k1 [Hk1 Hb]; cbv beta iota; [|by apply wp_ret].
  destruct Hb as (-> & -> & Hb & Hi & _). revert Hk1 Hb Hi. generalize (k_mem k1). intros s1 -> Hb Hi.
  eapply wp_mono; [|by apply (exec_install_spec image args nm p t old ksp sp loaded argv s1 k)].
  by intros r k' [-> He].
Qed.


(** A new kernel stack: eight fresh frames with the canary at the bottom. *)
Record new_stack (s : S) (ks : Frame) (ksp : Z) (s' : S) : Prop := {
  nk_inv : fa_inv s';
  nk_top : stack_top ks = Ret ksp ∧ ksp = page_base (f_ppn ks + 8);
  nk_canary : canary_intact (fa_mem s') ks = true;
  nk_used q : fa_used s' q ↔ fa_used s q ∨ f_ppn ks ≤ q < f_ppn ks + 8;
  nk_fresh q : f_ppn ks ≤ q < f_ppn ks + 8 → ¬ fa_used s q;
  nk_agree q : fa_used s q → agree (page q) (fa_mem s) (fa_mem s') }.

Lemma KernelStack_new_spec (s : S) : fa_inv s →
  wp KernelStack_new (λ r s', match r with None => s' = s | Some ks => ∃ ksp, new_stack s ks ksp s' end) s.
Proof.
  intros Hinv. unfold KernelStack_new, frame_alloc. change (Frame.order_for _) with 3. wp_steps.
  eapply wp_mono; [|by apply (fa_alloc_ok s 3)]. intros [p|] s1; [|by intros ->]. intros (Hi & _ & _ & Hu & Hf & _ & Ha).
  cbn. wp_steps. apply wp_update_mem. wp_steps. change (2 ^ 3) with 8 in *.
  assert (Hp : ∀ q, p ≤ q < p + 8 → 0 ≤ q < 2 ^ 26 - 1) by (intros q Hq; apply (fa_used_top s1); [done|apply Hu; by right]).
  pose proof (Hp p ltac:(lia)) as Hp0. pose proof (Hp (p + 7) ltac:(lia)) as Hp7.
  assert (Hb : stack_bottom (mkFrame p 3) = page_base p) by (unfold stack_bottom; cbn; by rewrite as_ptr_eq by lia).
  assert (Hw : ∀ x, span (stack_bottom (mkFrame p 3)) 8 x → page p x).
  { intros x Hx. apply (page_word p 0); [lia|]. rewrite Hb in Hx. by rewrite Z.mul_0_r, Z.add_0_r. }
  destruct (fa_write_ok s1 (store64 (fa_mem s1) (stack_bottom (mkFrame p 3)) STACK_CANARY) Hi) as [Hi2 Hu2].
  { intros a Hd. exists p. split; [apply Hu; right; lia|]. apply Hw. destruct (decide (span (stack_bottom (mkFrame p 3)) 8 a)); [done|].
    by rewrite store64_out in Hd. }
  exists (page_base (p + 8)). split; try done.
  - split; [|done]. unfold stack_top. rewrite Hb. cbn [f_order].
    change (1 <<! 3) with (Ret 8). cbn [mbind outcome_bind]. rewrite u64_mul_ok by done. cbn [mbind outcome_bind].
    rewrite u64_add_ok; [f_equal; unfold page_base, PAGE_SIZE; cbn [f_ppn]; lia|].
    unfold page_base, PAGE_SIZE, VIRT_OFFSET, U64. lia.
  - unfold canary_intact. rewrite fa_mem_set, load_store64 by done. done.
  - intros q. by rewrite Hu2, Hu.
  - intros q Hq. etransitivity; [by apply Ha|]. rewrite fa_mem_set. apply store64_agree. intros x Hx Hpq.
    apply (Hf p); [lia|]. by rewrite <-(page_disjoint q p x) by auto.
Qed.

Lemma kernel_ok_mem k s' : kernel_ok k → fa_inv s' →
  (∀ q, fa_used (k_mem k) q → fa_used s' q ∧ agree (page q) (fa_mem (k_mem k)) (fa_mem s')) → kernel_ok (set_mem s' k).
Proof.
  intros [Hi Hh Hb Hp] Hi' Hs. split; try done. apply (pt_kernel_stable _ (k_mem k)); [done|done|].
  intros q Hq. apply Hs. by apply (pt_kernel_pages _ _ q Hh).
Qed.

(** The child of a fork: a ready task with the parent's memory, program break
    and registers, except that [fork] returns 0 in it. *)
Record forked (task_entry : Z) k (p : Pid) (t : Task) sp ksp (f : TrapFrame) (c : Pid) k' : Prop := {
  fk_ok : kernel_ok k';
  fk_pid : c = next_pid (k_sched k);
  fk_frame : k' = set_mem (k_mem k') (set_boxes (k_boxes k') (set_sched (mkS (tasks (k_sched k')) (wrapping_add c 1)
    (run_queue (k_sched k)) (current (k_sched k)) (previous (k_sched k)) (all_tasks (k_sched k))) k));
  fk_parent : process k' p t sp ksp ∧ ∀ a, umem sp (fa_mem (k_mem k')) a = umem sp (fa_mem (k_mem k)) a;
  fk_pages : ∀ q, fa_used (k_mem k) q → fa_used (k_mem k') q ∧ agree (page q) (fa_mem (k_mem k)) (fa_mem (k_mem k'));
  fk_child : ∃ csp cks cksp b fc,
    tasks (k_sched k') = <[c := user_task task_entry (name t) cks cksp
      (mkUser (Some csp) (Some b) (brk (user t)) (heap_top (user t)) (Some p) [])]> (tasks (k_sched k)) ∧
    live (k_boxes k') = <[b := fc]> (live (k_boxes k)) ∧ live (k_boxes k) !! b = None ∧
    tf_x fc = <[10%nat := 0]> (tf_x f) ∧ tf_sepc fc = tf_sepc f ∧ tf_sstatus fc = tf_sstatus f ∧ tf_kernel_sp fc = cksp ∧
    stack_top cks = Ret cksp ∧ canary_intact (fa_mem (k_mem k')) cks = true ∧ space_ok (kt k) csp (k_mem k') ∧
    (∀ q, fa_used (k_mem k') q ↔ fa_used (k_mem k) q ∨ q ∈ table_pages (table csp) ∨ q ∈ sp_ppns csp ∨ f_ppn cks ≤ q < f_ppn cks + 8) ∧
    (∀ a, umem csp (fa_mem (k_mem k')) a = umem sp (fa_mem (k_mem k)) a) ∧ (∀ a, can_write csp a = can_write sp a) ∧
    (∀ a b x, user_addr csp a = Some x → user_addr sp b = Some x → False) }.

Lemma fork_install_spec task_entry p t sp ksp f csp cks cksp s1 s2 k :
  kernel_ok k → process k p t sp ksp → length (tf_x f) = 32%nat → 0 ≤ next_pid (k_sched k) < U64 - 1 →
  building (kt k) (k_mem k) [] csp s1 → new_stack s1 cks cksp s2 →
  (∀ a, umem csp (fa_mem s1) a = umem sp (fa_mem (k_mem k)) a) → (∀ a, can_write csp a = can_write sp a) →
  wp (kernel_sp ← lift (stack_top cks);
      satp ← kernel_token;
      k ← get;
      f ← lift (set_return (with_kernel kernel_sp satp (hart_id (k_hart k)) f) 0);
      b ← box_new f;
      p' ← in_sched alloc_pid;
      in_sched (arc_new p' (user_task task_entry (name t) cks kernel_sp
        (mkUser (Some csp) (Some b) (brk (user t)) (heap_top (user t)) (Some p) [])));;
      mret (Some p')) (λ r k', ∃ c, r = Some c ∧ forked task_entry k p t sp ksp f c k') (set_mem s2 k).
Proof.
  intros Hk [Ht Hsp Hok Hfr Hst] Hf Hpid Hb Hn Hm Hc. pose proof (building_ok _ _ _ _ Hb) as Hcok. destruct Hb as [_ _ _ Hu Hfresh Ha].
  destruct Hn as [Hi2 [Htop _] Hcan Hu2 Hf2 Ha2]. pose proof (ow_used _ _ _ _ (so_owns _ _ _ Hok)) as Hused.
  wp_step. eapply wp_lift; [exact Htop|]. unfold kernel_token. wp_steps. eapply wp_lift; [by apply set_reg_ok|].
  unfold box_new, alloc_pid, arc_new. wp_steps. apply wp_in_sched. wp_steps. apply wp_in_sched. wp_steps. eexists. split; [done|].
  assert (Hs2 : ∀ q, fa_used (k_mem k) q → fa_used s2 q ∧ agree (page q) (fa_mem (k_mem k)) (fa_mem s2)).
  { intros q Hq. assert (fa_used s1 q) by (apply Hu; by left). split; [apply Hu2; by left|]. etransitivity; [by apply Ha|by apply Ha2]. }
  destruct (kernel_ok_mem k s2 Hk Hi2 Hs2) as [_ Hh Hbx Hps]. cbn in *.
  assert (Hnp : ∀ q, is_Some (tasks (k_sched k) !! q) → q ≠ next_pid (k_sched k)) by (intros q ?%Hps; lia).
  assert (Hnb : live (k_boxes k) !! next_box (k_boxes k) = None).
  { apply eq_None_not_Some. intros ?%Hbx. lia. }
  split; cbn.
  - split; cbn; [done|done|intros a|intros q; unfold wrapping_add; rewrite Z.mod_small by (unfold U64 in *; lia)].
    + rewrite lookup_insert_is_Some. intros [<-|[_ ?%Hbx]]; lia.
    + rewrite lookup_insert_is_Some. intros [<-|[_ ?%Hps]]; lia.
  - done.
  - done.
  - split; [split; cbn; [by rewrite lookup_insert_ne by (apply not_eq_sym, Hnp; by rewrite Ht)|done|by apply (space_ok_stable _ _ (k_mem k))| |done]|].
    + destruct Hfr as (b & Hb & Hl). exists b. split; [done|]. rewrite lookup_insert_is_Some'. by right.
    + intros a. apply umem_agree. intros q Hq%Hused. by apply Hs2.
  - exact Hs2.
  - destruct (space_ok_stable _ csp s1 s2 Hcok Hi2) as [Q1 Q2 Q3]; [intros q Hq; split; [apply Hu2; by left|by apply Ha2]|].
    eexists csp, cks, cksp, _, _. split_and!; try done; cbn.
    + intros q. rewrite Hu2, Hu. tauto.
    + intros a. rewrite <-Hm. apply umem_agree. intros q Hq. apply Ha2, Hu. by right; right.
    + intros a b x (q & Hq & Hp)%user_addr_ppn (q' & Hq' & Hp')%user_addr_ppn.
      apply (Hfresh q); [by right|]. rewrite <- (page_disjoint q' q x) by done. by apply Hused.
Qed.

Lemma fork_from_spec task_entry p t sp ksp f k :
  kernel_ok k → process k p t sp ksp → length (tf_x f) = 32%nat → 0 ≤ next_pid (k_sched k) < U64 - 1 →
  wp (fork_from task_entry p f) (λ r k', match r with
    | Some c => forked task_entry k p t sp ksp f c k'
    | None => k' = set_mem (k_mem k') k ∧ restored (k_mem k) (k_mem k')
    end) k.
Proof.
  intros Hk Hp Hf Hpid. unfold fork_from. wp_step. apply (wp_get_task_k p t); [apply Hp|]. rewrite (pr_space _ _ _ _ _ Hp).
  wp_steps. apply wp_in_mem. eapply wp_mono; [|apply (duplicate_mem (k_space k) sp (k_mem k) (pr_ok _ _ _ _ _ Hp) (ko_half _ Hk))].
  intros [csp|] s1; cbv beta iota; [|intros Hr; by apply wp_ret]. intros (Hb & Hm & Hc). wp_step. apply wp_in_mem. cbn [k_mem set_mem].
  pose proof (maps_inv _ _ _ _ (so_maps _ _ _ (building_ok _ _ _ _ Hb))) as Hi1.
  eapply wp_mono; [|by apply KernelStack_new_spec]. intros [cks|] s2; cbv beta iota.
  - intros [cksp Hn]. eapply wp_mono; [|by apply (fork_install_spec task_entry p t sp ksp f csp cks cksp s1 s2 k)].
    by intros r k' (c & -> & Hfk).
  - intros ->. wp_step. apply wp_in_mem. cbn [k_mem set_mem]. eapply wp_mono; [|exact (building_drop _ _ _ _ _ Hb)].
    intros [] s3 Hr. by apply wp_ret.
Qed.

(** C6: [fork].  It returns for every live process.  When memory runs out the
    only trace is in frames nobody held.  Otherwise there is one more task,
    with a fresh pid, that is the parent's image: equal flat memory with equal
    write permissions in frames of its own, the same break, the same registers
    except that [a0] is 0, and an intact kernel stack of its own; the parent and
    everything else in the kernel are unchanged, every byte of every page that
    was in use included. *)
Theorem fork_correct task_entry p t sp ksp f k :
  kernel_ok k → process k p t sp ksp → length (tf_x f) = 32%nat → 0 ≤ next_pid (k_sched k) < U64 - 1 →
  ∃ r k', fork_from task_entry p f k = Ret (r, k') ∧
    match r with
    | Some c => forked task_entry k p t sp ksp f c k'
    | None => k' = set_mem (k_mem k') k ∧ restored (k_mem k) (k_mem k')
    end.
Proof. intros. apply wp_run. by apply fork_from_spec. Qed.

(** ** The program break *)

(** Between the end of the heap's last page and the stack nothing is mapped. *)
Record heap_ok (u : UserInfo) sp (m : mem) : Prop := {
  hp_brk : USER_HEAP_BASE ≤ brk u ≤ heap_top u;
  hp_top : (PAGE_SIZE | heap_top u) ∧ heap_top u ≤ STACK_BOTTOM;
  hp_free : ∀ a, heap_top u ≤ a < STACK_BOTTOM → umem sp m a = None }.

Lemma heap_region lim top new : (PAGE_SIZE | lim) → lim ≤ USER_MAX_ADDR → (PAGE_SIZE | top) → USER_HEAP_BASE ≤ top < new → new ≤ lim →
  ∃ to r, next_multiple_of new PAGE_SIZE = Ret to ∧ (PAGE_SIZE | to) ∧ new ≤ to < new + PAGE_SIZE ∧ to ≤ lim ∧
    Region_new top to Framed user_rw_flags = Ret r ∧ region_shape r ∧ r_frames r = [] ∧ r_start r = top ∧ r_end r = to.
Proof.
  unfold USER_HEAP_BASE. intros [z Hz] Hlim [x Hx] Hr Hn. unfold USER_MAX_ADDR in Hlim.
  destruct (next_multiple_of_spec new PAGE_SIZE) as (to & Hto & [y Hy] & Hb); [done|unfold U64, PAGE_SIZE in *; lia|].
  assert (Hle : to ≤ lim) by (unfold PAGE_SIZE in *; lia).
  destruct (Region_new_shape top to user_rw_flags) as (r & R1 & R2 & R3 & R4 & R5 & R6); [lia|unfold USER_MAX_ADDR; lia|done|].
  exists to, r. split_and!; try done; [by exists y|lia|lia| |].
  - rewrite R5, Hx, Z.mod_mul by done. lia.
  - rewrite R6, Hy. pose proof (div_ceil_spec (y * PAGE_SIZE) PAGE_SIZE ltac:(done)). unfold PAGE_SIZE in *. lia.
Qed.

Lemma umem_None_vpn sp m lo hi : (PAGE_SIZE | lo) → (PAGE_SIZE | hi) → (∀ a, lo ≤ a < hi → umem sp m a = None) →
  ∀ x, vpn lo ≤ x < vpn hi → x ∉ (sp_pages sp).*1.
Proof.
  intros [i ->] [j ->] Hf x Hx. rewrite !vpn_div, !Z.div_mul in Hx by done. apply bt_get_None.
  specialize (Hf (x * PAGE_SIZE) ltac:(unfold PAGE_SIZE; lia)). unfold umem, user_addr in Hf. rewrite vpn_div, Z.div_mul in Hf by done.
  by destruct (bt_get x (sp_pages sp)) as [[]|].
Qed.

(** The space [sp] becomes [sp'] in a growth that failed: same regions, same bytes,
    no page in use touched but [sp]'s own tables, no frame taken but for tables. *)
Record unmoved sp (s s' : S) sp' : Prop := {
  uv_regions : regions sp' = regions sp;
  uv_bytes : ∀ a, umem sp' (fa_mem s') a = umem sp (fa_mem s) a;
  uv_used : ∀ q, fa_used s' q ↔ fa_used s q ∨ q ∈ table_pages (table sp');
  uv_agree : ∀ q, fa_used s q → q ∉ table_pages (table sp) → agree (page q) (fa_mem s) (fa_mem s') }.

Lemma push_failed_unmoved K sp r s sp' s' new : space_ok K sp s → push_failed K sp r s sp' s' new → unmoved sp s s' sp'.
Proof.
  intros [_ [_ Hu Ht] _] (Hr & _ & _ & Hus & Hag). split; [done| |done|done].
  intros a. transitivity (umem sp (fa_mem s') a); [unfold umem, user_addr, sp_pages; by rewrite Hr|].
  apply umem_agree. intros q Hq. apply Hag; [by apply Hu|by apply Ht].
Qed.

(** Frames that growing the heap to [new] may take: each page and two tables. *)
Definition heap_frames (u : UserInfo) (new : Z) : Z := 3 * ((new - heap_top u) `div` PAGE_SIZE + 1).

Lemma grow_heap_spec p t sp ksp new k :
  process k p t sp ksp → heap_ok (user t) sp (fa_mem (k_mem k)) → heap_top (user t) < new < USER_MAX_ADDR →
  wp (grow_heap p (user t) new) (λ r k', ∃ sp',
    k' = set_mem (k_mem k') (set_sched (set_tasks (alter (with_user (set_space (Some sp'))) p (tasks (k_sched k))) (k_sched k)) k) ∧
    match r with
    | Some to => (PAGE_SIZE | to) ∧ new ≤ to < new + PAGE_SIZE ∧ space_ok (kt k) sp' (k_mem k') ∧
        (∀ a, heap_top (user t) ≤ a < to → umem sp (fa_mem (k_mem k)) a = None) ∧
        (∀ a, 0 ≤ a → umem sp' (fa_mem (k_mem k')) a =
           if decide (heap_top (user t) ≤ a < to) then Some x00 else umem sp (fa_mem (k_mem k)) a)
    | None => unmoved sp (k_mem k) (k_mem k') sp' ∧
        (new ≤ STACK_BOTTOM → fa_avail (k_mem k) < heap_frames (user t) new)
    end) k.
Proof.
  intros [Ht Hsp Hok _ _] [Hb [Hd Hle] Hfree] Hn. unfold grow_heap.
  destruct (heap_region USER_MAX_ADDR (heap_top (user t)) new) as (to & r & R1 & R2 & R3 & R4 & R5 & R6 & R7 & R8 & R9);
    [by exists 67108864|done|done|lia|lia|].
  wp_step. eapply wp_lift; [exact R1|]. rewrite Hsp. wp_step. eapply wp_lift; [exact R5|]. wp_step. apply wp_in_mem.
  eapply wp_mono; [|apply (AS_push_full (kt k) sp r (k_mem k) Hok R6 R7)].
  assert (Hpg : ∀ a, vpn (r_start r) ≤ vpn a < vpn (r_end r) ↔ heap_top (user t) ≤ a < to).
  { intros a. rewrite R8, R9, !vpn_div. destruct R2 as [y ->], Hd as [x Hx]. rewrite Hx, !Z.div_mul by done.
    unfold PAGE_SIZE in *. Z.div_mod_to_equations. lia. }
  intros [[[]|e] sp'] s'; cbv beta iota.
  - intros (newf & Hsp' & Hok' & Hg & _ & Hnew). wp_step. apply wp_in_sched. unfold upd_task. wp_steps. exists sp'. split; [done|].
    split_and!; [done|lia|lia|done| |].
    + intros a Ha. unfold umem, user_addr. rewrite (proj2 (bt_get_None (vpn a) (sp_pages sp))); [done|]. by apply Hnew, Hpg.
    + cbn. rewrite <-R8, <-R9. intros a Ha. rewrite Hsp'.
      apply (umem_push (kt k) sp (with_frames newf r) (table sp') (k_mem k) s' Hok); [by rewrite <-Hsp'|done|done].
  - intros (newf & n & Hf & Hnn & _ & He). wp_step. apply wp_in_sched. unfold upd_task. wp_steps. exists sp'. split; [done|].
    split; [exact (push_failed_unmoved _ _ _ _ _ _ _ Hok Hf)|]. intros Hlow.
    assert (to ≤ STACK_BOTTOM) by (destruct R2 as [y ->]; change STACK_BOTTOM with (67108799 * PAGE_SIZE) in *; unfold PAGE_SIZE in *; lia).
    destruct He as [[_ Hfew]|(x & Hx & Hin)].
    + unfold heap_frames, region_size in *. rewrite R8, R9, !vpn_div in Hnn. cbn [k_mem] in *.
      destruct R2 as [y ->], Hd as [x Hx]. rewrite Hx, !Z.div_mul in * by done. unfold PAGE_SIZE in *. Z.div_mod_to_equations. lia.
    + exfalso. revert Hin. apply (umem_None_vpn sp (fa_mem (k_mem k)) (heap_top (user t)) to); [done|done| |by rewrite <-R8, <-R9].
      intros a Ha. apply Hfree. lia.
Qed.

(** Moving the break changes these two fields only. *)
Definition brk_moved k p new top sp' k' : Prop :=
  k' = set_mem (k_mem k') (set_sched (set_tasks
    (alter (with_user (λ u, mkUser (Some sp') (frame u) new top (parent u) (children u))) p (tasks (k_sched k))) (k_sched k)) k).

Lemma brk_moved_intro k k' s' m p new top sp' :
  k' = set_mem s' (set_sched (set_tasks m (k_sched k)) k) →
  m = alter (with_user (λ u, mkUser (Some sp') (frame u) new top (parent u) (children u))) p (tasks (k_sched k)) →
  brk_moved k p new top sp' k'.
Proof. by intros -> ->. Qed.

(** C14: [sbrk], for every increment.  A zero increment reads the break.  A break
    below the heap's base, at or above [USER_MAX_ADDR], or out of the machine's
    range is refused without any effect.  Shrinking, or growing within the last
    page, moves only the break.  Growing past it up to the stack either maps
    zero-filled pages from the old end to the page boundary above the new break,
    changes no other byte of the process and keeps the stack apart from the
    heap, or, only when fewer frames are left than the growth may need, fails;
    growing into a mapped stack always fails.  After a failure the break, the
    regions, every byte the process sees and every other task are as before,
    and no page in use has changed but the process's own tables; what is left
    behind are table entries (see C40). *)
Theorem adjust_brk_correct p t sp ksp delta k :
  process k p t sp ksp → heap_ok (user t) sp (fa_mem (k_mem k)) →
  let u := user t in let new := brk u + delta in
  ∃ r k', adjust_brk p delta k = Ret (r, k') ∧
    if decide (delta = 0) then r = Some (brk u) ∧ k' = k
    else if decide (new < USER_HEAP_BASE ∨ USER_MAX_ADDR ≤ new) then r = None ∧ k' = k
    else if decide (new ≤ heap_top u) then r = Some (brk u) ∧ k_mem k' = k_mem k ∧ brk_moved k p new (heap_top u) sp k'
    else (STACK_BOTTOM < new → umem sp (fa_mem (k_mem k)) STACK_BOTTOM ≠ None → r = None) ∧
      match r with
      | Some old => old = brk u ∧ ∃ sp' to, brk_moved k p new to sp' k' ∧ space_ok (kt k) sp' (k_mem k') ∧
          new ≤ to < new + PAGE_SIZE ∧
          (new ≤ STACK_BOTTOM →
             heap_ok (mkUser (Some sp') (frame u) new to (parent u) (children u)) sp' (fa_mem (k_mem k'))) ∧
          ∀ a, 0 ≤ a → umem sp' (fa_mem (k_mem k')) a =
            if decide (heap_top u ≤ a < to) then Some x00 else umem sp (fa_mem (k_mem k)) a
      | None => ∃ sp', brk_moved k p (brk u) (heap_top u) sp' k' ∧ unmoved sp (k_mem k) (k_mem k') sp' ∧
          (new ≤ STACK_BOTTOM → fa_avail (k_mem k) < heap_frames u new)
      end.
Proof.
  intros Hp Hh u new. pose proof Hp as [Ht Hsp Hok _ _]. pose proof Hh as [Hb [Hd Hle] Hfree]. apply wp_run.
  fold u in Hb, Hle |- *. unfold adjust_brk. wp_step. apply (wp_get_task_k p t); [done|]. fold u.
  destruct (Z.eqb_spec delta 0) as [->|Hne]; [by apply wp_ret|]. destruct (decide (delta = 0)); [done|].
  unfold checked_add_signed. fold new. destruct (decide (new < USER_HEAP_BASE ∨ USER_MAX_ADDR ≤ new)) as [Hout|Hin].
  { destruct ((0 <=? new) && (new <? U64)); [|by apply wp_ret].
    destruct (Z.leb_spec USER_HEAP_BASE new), (Z.ltb_spec new USER_MAX_ADDR); try lia; by apply wp_ret. }
  assert (0 ≤ new < U64) by (unfold USER_HEAP_BASE, USER_MAX_ADDR, U64 in *; lia).
  rewrite (proj2 (Z.leb_le 0 new)), (proj2 (Z.ltb_lt new U64)) by lia. cbn [andb].
  rewrite (proj2 (Z.leb_le USER_HEAP_BASE new)), (proj2 (Z.ltb_lt new USER_MAX_ADDR)) by lia.
  cbn [andb negb]. destruct (Z.ltb_spec (heap_top u) new) as [Hgt|Hwithin].
  2: { wp_step. apply wp_in_sched. unfold upd_task. wp_steps. destruct (decide (new ≤ heap_top u)); [|done]. split_and!; [done|done|].
       eapply (brk_moved_intro k _ (k_mem k)); [reflexivity|]. apply alter_ext. intros t' Ht'. simplify_eq. unfold with_user, set_brk. by rewrite Hsp. }
  destruct (decide (new ≤ heap_top u)); [lia|]. wp_step.
  eapply wp_mono; [|apply (grow_heap_spec p t sp ksp new k Hp Hh); fold u; lia].
  intros [to|] k1 (sp' & Hk1 & Hpost); cbv beta iota; rewrite Hk1.
  - destruct Hpost as (T1 & T2 & T3 & T4 & T5). wp_step. apply wp_in_sched. unfold upd_task. wp_steps.
    fold u in T4, T5. split; [intros Hover Hstk; destruct Hstk; apply T4; lia|]. split; [done|]. exists sp', to.
    split_and!; [|done|lia|lia| |done].
    + eapply (brk_moved_intro k _ (k_mem k1)); [reflexivity|]. cbn. rewrite alter_alter_eq. done.
    + intros Hlow. split; cbn; [lia| |].
      * split; [done|]. destruct T1 as [y ->]. change STACK_BOTTOM with (67108799 * PAGE_SIZE) in *. unfold PAGE_SIZE in *. lia.
      * intros a Ha. cbn in T5. unfold USER_HEAP_BASE in *. rewrite T5 by lia. rewrite decide_False by lia. apply Hfree. fold u. lia.
  - apply wp_ret. split; [done|]. destruct Hpost as [Hum Hfew]. exists sp'. split_and!; [|done|done].
    eapply (brk_moved_intro k _ (k_mem k1)); [reflexivity|]. apply alter_ext. intros t' Ht'. simplify_eq. done.
Qed.
End process.
