(* ===== verification/LifeProps.v ===== *)
(** * Exit and reaping

    A process that exits gives back its address space and wakes its waiting
    parent; the parent's [waitpid] finds it and releases the rest. *)
From stdpp Require Import base numbers functions gmap list.
From coqutil Require Import Byte LittleEndianList.
From Stdlib Require Import Lia.
From S2P Require Import Prelude Memory Config Addr FrameIface FrameProps PageTable PageTableInv PageTableOps.
From S2P Require Import Space SpaceInv SpaceMap SpaceOps SpaceUser SpaceWrite SpaceProps.
From S2P Require Import Device Trap Task Sched SchedProps Kernel Process Syscall ArgsProps ImageProps ProcessProps.

(** What a wake-up does to a task. *)
Definition wake_info (i : SchedInfo) : SchedInfo :=
  if decide (state i = Blocked) then set_ticks 0 (set_level (saturating_sub (level i) 1) (set_state Ready i)) else set_pending true i.
(** It is not asleep: it is ready to run, or carries a note that keeps it from
    falling asleep. *)
Definition awake (i : SchedInfo) : Prop := state i ≠ Blocked ∧ (state i = Ready ∨ wakeup_pending i = true).

Lemma wake_info_awake i : awake (wake_info i).
Proof. unfold wake_info, awake. case_decide; cbn; [split; [done|by left]|split; [done|by right]]. Qed.
Lemma wake_info_code i : exit_code (wake_info i) = exit_code i.
Proof. unfold wake_info. by case_decide. Qed.

Definition wake_tasks (l : list Pid) (m : gmap Z Task) : gmap Z Task := foldl (λ m w, alter (with_sched wake_info) w m) m l.

Lemma wake_tasks_lookup l : ∀ m q t, m !! q = Some t →
  ∃ i, wake_tasks l m !! q = Some (with_sched (λ _, i) t) ∧ exit_code i = exit_code (sched t) ∧ (q ∈ l ∨ awake (sched t) → awake i).
Proof.
  induction l as [|w l IH]; intros m q t Hq; cbn.
  { exists (sched t). rewrite Hq. split_and!; [by destruct t|done|]. intros [?%elem_of_nil|?]; done. }
  destruct (decide (w = q)) as [->|Hne].
  - destruct (IH (alter (with_sched wake_info) q m) q (with_sched wake_info t)) as (i & Hi & Hc & Ha); [by rewrite lookup_alter_eq, Hq|].
    exists i. split_and!; [done|by rewrite Hc; cbn; rewrite wake_info_code|]. intros _. apply Ha. right. apply wake_info_awake.
  - destruct (IH (alter (with_sched wake_info) w m) q t) as (i & Hi & Hc & Ha); [by rewrite lookup_alter_ne|].
    exists i. split_and!; [done|done|]. rewrite elem_of_cons. intros [[?|?]|?]; [done|auto..].
Qed.

Lemma wake_spec p s : sched_ok s → previous s = None → is_Some (tasks s !! p) →
  wp (wake p) (λ _ s', sched_ok s' ∧ s' = set_rq (run_queue s') (set_tasks (alter (with_sched wake_info) p (tasks s)) s)) s.
Proof.
  intros Hok Hprev [t Ht]. apply wp_conj; [by apply wake_ok|]. unfold wake. wp_step. apply (wp_get_task p t); [done|].
  destruct (so_task s Hok p t Ht) as [L1 _ _ _ _ _]. case_decide as Hb.
  - wp_step. apply wp_upd_sched. apply wp_queue_push; [apply Hok|unfold saturating_sub; lia|]. intros q _ _ _. unfold upd_sched, set_rq, set_tasks. cbn.
    f_equal. apply alter_ext. intros t' Ht'. simplify_eq. unfold with_sched, wake_info. by rewrite decide_True.
  - apply wp_upd_sched. destruct s. unfold upd_sched, set_rq, set_tasks. cbn in *. f_equal. apply alter_ext. intros t' Ht'. simplify_eq.
    unfold with_sched, wake_info. by rewrite decide_False.
Qed.

Lemma switch_zombie_spec intact p t s : sched_ok s → current s = Some p → tasks s !! p = Some t → intact (kstack t) = true →
  wp (switch_out intact Zombie) (λ _ s', sched_ok s' ∧
    s' = set_cpu None (Some p) (set_tasks (alter (with_sched (set_state Zombie)) p (tasks s)) s)) s.
Proof.
  intros Hok Hc Ht Hi. apply wp_conj.
  - eapply wp_mono; [|apply (switch_out_ok s Hok intact Zombie p); [done|done|]]; [by intros [] s' [? _]|]. intros t' ?. by simplify_eq.
  - unfold switch_out. wp_steps. rewrite Hc. eapply wp_lift; [done|]. wp_steps. apply (wp_get_task p t); [done|]. wp_step. apply wp_upd_sched.
    rewrite Hi. wp_steps. done.
Qed.

Section life.
Context {S D : Type} `{FrameAllocator S, !FrameAllocatorLaws S} `{Bus D} `{Firmware D}.
Implicit Types (k : Kernel S D).

Lemma wake_list_spec l : ∀ k, sched_ok (k_sched k) → previous (k_sched k) = None → Forall (λ w, is_Some (tasks (k_sched k) !! w)) l →
  wp (wake_list l) (λ _ k', sched_ok (k_sched k') ∧
    ∃ rq, k' = set_sched (set_rq rq (set_tasks (wake_tasks l (tasks (k_sched k))) (k_sched k))) k) k.
Proof.
  induction l as [|w l IH]; intros k Hok Hp Hl; cbn [wake_list].
  { wp_step. split; [done|]. exists (run_queue (k_sched k)). destruct k as [? ? [] ? ? ? ? ? ?]. done. }
  apply Forall_cons in Hl as [Hw Hl]. wp_step. apply wp_in_sched. eapply wp_mono; [|by apply wake_spec].
  intros [] s1 [Hok1 Hs1]. eapply wp_mono; [|apply (IH (set_sched s1 k)); cbn; [done|by rewrite Hs1|]].
  - intros [] k' (Hok' & rq & ->). split; [done|]. exists rq. cbn. by rewrite Hs1.
  - eapply Forall_impl; [exact Hl|]. intros x Hx. rewrite Hs1. cbn. by rewrite lookup_alter_is_Some.
Qed.

(** The tasks sleeping in [waitpid] on the parent's queue. *)
Definition parent_waiters k (t : Task) : list Pid :=
  match parent (user t) with Some q => waiters (ChildExit q) k | None => [] end.

(** Another task's side of an exit: at most its scheduling fields and its queue
    of waiters change. *)
Definition kept (t t' : Task) : Prop :=
  user t' = user t ∧ kstack t' = kstack t ∧ name t' = name t ∧ exit_code (sched t') = exit_code (sched t).

Lemma on_exit_spec p t k : sched_ok (k_sched k) → previous (k_sched k) = None → tasks (k_sched k) !! p = Some t →
  Forall (λ w, is_Some (tasks (k_sched k) !! w)) (parent_waiters k t) →
  wp (on_exit p) (λ _ k', sched_ok (k_sched k') ∧ ∃ rq m, k' = set_sched (set_rq rq (set_tasks m (k_sched k))) k ∧
    ∀ q tq, tasks (k_sched k) !! q = Some tq → ∃ tq', m !! q = Some tq' ∧ kept tq tq' ∧ (q ∈ parent_waiters k t → awake (sched tq'))) k.
Proof.
  intros Hok Hpv Ht Hw. assert (Hself : ∃ rq m, k = set_sched (set_rq rq (set_tasks m (k_sched k))) k ∧ m = tasks (k_sched k)).
  { exists (run_queue (k_sched k)), (tasks (k_sched k)). by destruct k as [? ? [] ? ? ? ? ? ?]. }
  unfold on_exit. wp_step. apply (wp_get_task_k p t); [done|]. wp_steps. unfold parent_waiters in *.
  destruct (parent (user t)) as [par|].
  2: { wp_step. split; [done|]. destruct Hself as (rq & m & Hk & ->). exists rq, (tasks (k_sched k)). split; [done|].
       intros q tq Hq. exists tq. split_and!; [done|done|]. by intros ?%elem_of_nil. }
  case_decide as Hd.
  2: { wp_step. split; [done|]. destruct Hself as (rq & m & Hk & ->). exists rq, (tasks (k_sched k)). split; [done|].
       intros q tq Hq. exists tq. split_and!; [done|done|]. cbn. destruct (tasks (k_sched k) !! par); [by destruct Hd|]. by intros ?%elem_of_nil. }
  unfold wake_all. wp_steps. set (l := waiters (ChildExit par) k) in *.
  pose proof (wp_ret_inv _ _ _ _ _ (eq_refl : upd_task par (with_child_exit []) (k_sched k) = _)
    (edit_ok (k_sched k) par (with_child_exit []) Hok ltac:(done))) as Hok1.
  eapply wp_mono; [|apply (wake_list_spec l (set_waiters (ChildExit par) [] k)); [exact Hok1|done|]].
  2: { eapply Forall_impl; [exact Hw|]. intros x Hx. cbn. by rewrite lookup_alter_is_Some. }
  intros [] k' (Hok' & rq & ->). split; [done|]. eexists rq, _. split; [done|]. cbn. intros q tq Hq.
  set (f := if decide (q = par) then with_child_exit [] else id).
  destruct (wake_tasks_lookup l (alter (with_child_exit []) par (tasks (k_sched k))) q (f tq)) as (i & Hi & Hc & Ha).
  { unfold f. case_decide as Hqp; [subst; by rewrite lookup_alter_eq, Hq|by rewrite lookup_alter_ne]. }
  exists (with_sched (λ _, i) (f tq)). split_and!; [done| |intros Hin; apply Ha; by left].
  unfold kept. cbn. rewrite Hc. unfold f. by case_decide.
Qed.

(** What is left of a process that has exited. *)
Record exited k (p : Pid) (t : Task) sp (code : Z) k' : Prop := {
  xt_ok : kernel_ok k';
  xt_sched : sched_ok (k_sched k') ∧ current (k_sched k') = None ∧ previous (k_sched k') = Some p;
  xt_task : ∃ t', tasks (k_sched k') !! p = Some t' ∧ user t' = set_space None (user t) ∧ state (sched t') = Zombie ∧ exit_code (sched t') = code;
  xt_other q tq : q ≠ p → tasks (k_sched k) !! q = Some tq →
    ∃ tq', tasks (k_sched k') !! q = Some tq' ∧ kept tq tq' ∧ (q ∈ parent_waiters k t → awake (sched tq'));
  xt_satp : satp (k_hart k') = AS_token (k_space k);
  xt_used q : fa_used (k_mem k') q ↔ fa_used (k_mem k) q ∧ (q ∉ sp_ppns sp) ∧ q ∉ table_pages (table sp);
  xt_pages q : fa_used (k_mem k') q → agree (page q) (fa_mem (k_mem k)) (fa_mem (k_mem k')) }.

(** The state once the address space is gone. *)
Record unmapped k (p : Pid) sp (code : Z) k' : Prop := {
  um_sched : sched_ok (k_sched k');
  um_state : k' = set_mem (k_mem k') (set_hart (set_satp (AS_token (k_space k)) (k_hart k)) (set_sched
    (set_tasks (alter (with_user (set_space None) ∘ with_sched (set_exit_code code)) p (tasks (k_sched k))) (k_sched k)) k));
  um_inv : fa_inv (k_mem k');
  um_used q : fa_used (k_mem k') q ↔ fa_used (k_mem k) q ∧ (q ∉ sp_ppns sp) ∧ q ∉ table_pages (table sp);
  um_pages q : fa_used (k_mem k') q → agree (page q) (fa_mem (k_mem k)) (fa_mem (k_mem k')) }.

Lemma exit_space_spec p t sp code (m : ST (Kernel S D) unit) Q k :
  sched_ok (k_sched k) → tasks (k_sched k) !! p = Some t → space (user t) = Some sp →
  space_ok (kernel_tables (k_space k)) sp (k_mem k) → (∀ k', unmapped k p sp code k' → wp m Q k') →
  wp (in_sched (upd_task p (with_sched (set_exit_code code)));;
      t ← in_sched (get_task p);
      in_sched (upd_task p (with_user (set_space None)));;
      (match space (user t) with
       | None => mret tt
       | Some sp => token ← kernel_token; activate token;; in_mem (AddressSpace_drop sp)
       end);;
      m) Q k.
Proof.
  intros Hok Ht Hsp Hspok Hm. wp_step. apply wp_in_sched.
  pose proof (wp_ret_inv _ _ _ _ _ (eq_refl : upd_task p (with_sched (set_exit_code code)) (k_sched k) = _)
    (edit_ok (k_sched k) p (with_sched (set_exit_code code)) Hok ltac:(done))) as Hok1. unfold upd_task at 1. wp_steps.
  apply (wp_get_task_k p (with_sched (set_exit_code code) t)); [cbn; by rewrite lookup_alter_eq, Ht|]. wp_step. apply wp_in_sched.
  pose proof (wp_ret_inv _ _ _ _ _ (eq_refl : upd_task p (with_user (set_space None)) _ = _)
    (edit_ok _ p (with_user (set_space None)) Hok1 ltac:(done))) as Hok2. unfold upd_task. wp_steps. cbn [user with_sched]. rewrite Hsp.
  unfold kernel_token, activate, on_hart. wp_steps. apply wp_in_mem.
  eapply wp_mono; [|apply (AddressSpace_drop_spec (kernel_tables (k_space k)) sp [] [] (k_mem k)); [apply Hspok|rewrite app_nil_r; apply Hspok|rewrite app_nil_r; apply Hspok]].
  intros [] s2 (Hi & Hu & Ha). apply Hm. split; [exact Hok2| |done|done|done].
  cbn. unfold set_mem, set_hart, set_sched, set_satp, set_tasks. cbn. rewrite alter_alter_eq. repeat f_equal.
  unfold activate_token. by destruct (Z.eqb_spec (satp (k_hart k)) (AS_token (k_space k))) as [->|].
Qed.

Lemma exited_intro p t sp code k k1 m rq k' :
  kernel_ok k → tasks (k_sched k) !! p = Some t → space_ok (kernel_tables (k_space k)) sp (k_mem k) → unmapped k p sp code k1 →
  (∀ q tq, tasks (k_sched k1) !! q = Some tq → ∃ tq', m !! q = Some tq' ∧ kept tq tq' ∧ (q ∈ parent_waiters k t → awake (sched tq'))) →
  sched_ok (k_sched k') → k' = set_sched (set_cpu None (Some p) (set_tasks (alter (with_sched (set_state Zombie)) p m)
    (set_rq rq (k_sched k1)))) (set_hart (intr_disable (k_hart k1)) k1) →
  exited k p t sp code k'.
Proof.
  intros Hk Ht Hsp [_ Hk1 Hi Hu Ha] Hm Hok' Hk'. assert (Hmem : k_mem k' = k_mem k1) by by rewrite Hk'.
  assert (HK : ∀ q, q ∈ table_pages (table (k_space k)) → fa_used (k_mem k1) q).
  { intros q Hq. apply Hu. destruct (mp_K _ _ _ _ (so_maps _ _ _ Hsp) q Hq) as [? ?]. split_and!; [done| |done].
    intros Hin. by apply (ow_tables _ _ _ _ (so_owns _ _ _ Hsp) q). }
  split.
  - split; [by rewrite Hmem| | |intros q Hq; apply (so_pids _ Hok'); by right].
    + rewrite Hmem, Hk', Hk1. cbn. apply (pt_kernel_stable _ (k_mem k)); [apply Hk|done|]. intros q Hq. split; [by apply HK|by apply Ha, HK].
    + rewrite Hk', Hk1. apply Hk.
  - split; [done|]. by rewrite Hk'.
  - set (t1 := with_user (set_space None) (with_sched (set_exit_code code) t)).
    destruct (Hm p t1) as (t2 & Ht2 & (E1 & _ & _ & E4) & _); [rewrite Hk1; cbn; by rewrite lookup_alter_eq, Ht|].
    exists (with_sched (set_state Zombie) t2). rewrite Hk'. cbn. rewrite lookup_alter_eq, Ht2, E1. split_and!; [done|done|done|by rewrite E4].
  - intros q tq Hne Hq. destruct (Hm q tq) as (tq' & Hq' & Hke & Haw); [rewrite Hk1; cbn; by rewrite lookup_alter_ne by done|].
    exists tq'. rewrite Hk'. cbn. by rewrite lookup_alter_ne by done.
  - by rewrite Hk', Hk1.
  - intros q. by rewrite Hmem.
  - intros q. rewrite Hmem. apply Ha.
Qed.

Lemma exit_exited p t sp ksp code k :
  kernel_ok k → sched_ok (k_sched k) → process k p t sp ksp → current (k_sched k) = Some p →
  canary_intact (fa_mem (k_mem k)) (kstack t) = true → 0 ≤ f_ppn (kstack t) < 2 ^ 26 → fa_used (k_mem k) (f_ppn (kstack t)) →
  f_ppn (kstack t) ∉ sp_ppns sp → f_ppn (kstack t) ∉ table_pages (table sp) →
  Forall (λ w, is_Some (tasks (k_sched k) !! w)) (parent_waiters k t) →
  ∃ k', exit_current code k = Ret (tt, k') ∧ exited k p t sp code k'.
Proof.
  intros Hk Hok [Ht Hsp Hspok Hfr Hst] Hcur Hcan Hrange Hku Hk1 Hk2 Hw.
  assert (Hwp : wp (exit_current code) (λ _ k', exited k p t sp code k') k); [|destruct (wp_run _ _ _ Hwp) as ([] & k' & ? & ?); by exists k'].
  unfold exit_current. wp_steps. rewrite Hcur. apply (exit_space_spec p t sp); try done. intros k1 Hum. pose proof Hum as [Hok1 Hk1s Hi1 Hu1 Ha1].
  pose proof (so_switch _ Hok ltac:(by rewrite Hcur)) as Hpv.
  set (t1 := with_user (set_space None) (with_sched (set_exit_code code) t)).
  assert (Ht1 : tasks (k_sched k1) !! p = Some t1) by (rewrite Hk1s; cbn; by rewrite lookup_alter_eq, Ht).
  assert (Hpw : parent_waiters k1 t1 = parent_waiters k t).
  { unfold parent_waiters. cbn. destruct (parent (user t)) as [q|]; [|done]. rewrite Hk1s. cbn.
    destruct (decide (q = p)) as [->|]; [rewrite lookup_alter_eq, Ht; done|by rewrite lookup_alter_ne]. }
  eapply wp_mono; [|apply (on_exit_spec p t1 k1 Hok1); [by rewrite Hk1s|done|]].
  2: { rewrite Hpw. eapply Forall_impl; [exact Hw|]. intros x Hx. rewrite Hk1s. cbn. by rewrite lookup_alter_is_Some. }
  intros [] k2 (Hok2 & rq & m & Hk2s & Hkept). rewrite Hpw in Hkept. destruct (Hkept p t1 Ht1) as (t2 & Ht2 & (E1 & E2 & _ & E4) & _).
  assert (Hcan1 : canary_intact (fa_mem (k_mem k1)) (kstack t) = true).
  { rewrite <-Hcan. unfold canary_intact. f_equal. apply load64_ext. intros x Hx. apply (Ha1 (f_ppn (kstack t))); [by apply Hu1|].
    apply (page_word _ 0); [lia|]. unfold stack_bottom in Hx. rewrite as_ptr_eq in Hx by done. by rewrite Z.mul_0_r, Z.add_0_r. }
  unfold switch_to_idle, on_hart. wp_steps. apply wp_in_sched.
  eapply wp_mono; [|apply (switch_zombie_spec _ p t2); [done| | |]].
  - intros [] s3 [Hok3 Hs3]. wp_steps. apply (exited_intro p t sp code k k1 m rq); try done. rewrite Hs3, Hk2s. done.
  - rewrite Hk2s, Hk1s. done.
  - by rewrite Hk2s.
  - rewrite Hk2s. cbn. by rewrite E2.
Qed.

(** The state in which [exit] starts to release the address space: the task has
    its code and no space, [satp] is the kernel's, memory is untouched. *)
Definition detached (p : Pid) (code : Z) k : Kernel S D :=
  set_hart (set_satp (AS_token (k_space k)) (k_hart k)) (set_sched (set_tasks
    (alter (with_user (set_space None) ∘ with_sched (set_exit_code code)) p (tasks (k_sched k))) (k_sched k)) k).

Lemma exit_current_detached p t sp code k : current (k_sched k) = Some p → tasks (k_sched k) !! p = Some t → space (user t) = Some sp →
  exit_current code k = (in_mem (AddressSpace_drop sp);; on_exit p;; switch_to_idle Zombie;; mret tt) (detached p code k).
Proof.
  intros Hc Ht Hsp. unfold exit_current, in_sched, upd_task, get_task, kernel_token, activate, on_hart, mbind, ST_bind, get, put, mret, ST_ret.
  rewrite Hc. cbn [k_sched set_sched set_tasks tasks]. rewrite lookup_alter_eq, Ht. cbn [fmap option_fmap option_map expect lift user with_sched].
  rewrite Hsp. unfold detached. cbn [k_hart k_space k_sched set_sched set_tasks tasks].
  assert (Hsat : (activate_token (satp (k_hart k)) (AS_token (k_space k))).1 = AS_token (k_space k))
    by (unfold activate_token; by destruct (Z.eqb_spec (satp (k_hart k)) (AS_token (k_space k)))).
  rewrite Hsat, alter_alter_eq. change (set_tasks ?m (set_tasks _ ?s)) with (set_tasks m s).
  change (set_sched ?a (set_sched _ ?b)) with (set_sched a b).
  by destruct (in_mem (AddressSpace_drop sp) _) as [[[] k1]|]; [destruct (on_exit p k1) as [[[] k2]|]|].
Qed.

(** ** Reaping *)

(** A zombie as [exit] leaves it, with nothing left but its kernel stack. *)
Record zombie k (c : Pid) (tc : Task) : Prop := {
  zb_task : tasks (k_sched k) !! c = Some tc;
  zb_state : state (sched tc) = Zombie;
  zb_space : space (user tc) = None;
  zb_children : children (user tc) = [];
  zb_waiters : child_exit tc = [];
  zb_stack : f_order (kstack tc) = 3 ∧ (8 | f_ppn (kstack tc));
  zb_used q : f_ppn (kstack tc) ≤ q < f_ppn (kstack tc) + 8 → fa_used (k_mem k) q }.

Definition stack_pages (t : Task) (q : Z) : Prop := f_ppn (kstack t) ≤ q < f_ppn (kstack t) + 8.

Definition forget (b : option Z) (m : gmap Z TrapFrame) : gmap Z TrapFrame := match b with Some a => delete a m | None => m end.

(** Dropping the last reference releases the stack and the frame box. *)
Lemma drop_zombie_spec fuel c tc k :
  fa_inv (k_mem k) → zombie k c tc → referenced k c = false →
  wp (drop_arc (Datatypes.S fuel) c) (λ _ k', k' = set_mem (k_mem k') (set_boxes (mkBoxes (forget (frame (user tc)) (live (k_boxes k))) (next_box (k_boxes k)))
      (set_sched (set_tasks (delete c (tasks (k_sched k))) (k_sched k)) k)) ∧ fa_inv (k_mem k') ∧
    (∀ q, fa_used (k_mem k') q ↔ fa_used (k_mem k) q ∧ ¬ stack_pages tc q) ∧
    (∀ q, fa_used (k_mem k') q → agree (page q) (fa_mem (k_mem k)) (fa_mem (k_mem k')))) k.
Proof.
  intros Hi [Ht _ Hsp Hch Hw [Ho Hd] Hu] Href. cbn [drop_arc]. wp_steps. rewrite Ht, Href. wp_steps. rewrite Hw. cbn [foldr]. wp_steps.
  apply wp_in_mem. unfold frame_drop. rewrite Ho.
  eapply wp_mono; [|apply (fa_free_ok (k_mem k) (f_ppn (kstack tc)) 3); [done|lia|done|done]].
  intros [] s2 (Hi2 & Hu2 & Ha2). rewrite Hsp, Hch. unfold drop_space, box_free. cbn [foldr]. wp_steps. change (2 ^ 3) with 8 in *.
  destruct (frame (user tc)) as [b|]; wp_steps; (split; [|done]); [done|]. by destruct k as [? ? ? ? [] ? ? ? ?].
Qed.

(** The status word: nothing without a pointer, all four bytes when they are
    writable. *)
Definition status_at sp (ptr code : Z) (m m' : mem) : Prop := ∃ n, 0 ≤ n ≤ 4 ∧ (ptr = 0 → n = 0) ∧
  (ptr ≠ 0 → all_writable sp ptr (ptr + 4) → n = 4) ∧
  ∀ a, 0 ≤ a → umem sp m' a = if decide (ptr ≤ a < ptr + n) then le_split 4 code !! Z.to_nat (a - ptr) else umem sp m a.

Lemma store_status_spec p t sp ksp ptr code k : process k p t sp ksp → current (k_sched k) = Some p → 0 ≤ ptr →
  wp (if ptr =? 0 then mret tt
      else
        o ← current_space;
        match o with
        | None => mret tt
        | Some sp => _ ← in_mem (copy_to_user sp ptr (le_split 4 code)); mret tt
        end)
    (λ _ k', k' = set_mem (k_mem k') k ∧ space_ok (kernel_tables (k_space k)) sp (k_mem k') ∧
      (∀ q, fa_used (k_mem k') q ↔ fa_used (k_mem k) q) ∧
      (∀ q, q ∉ sp_ppns sp → agree (page q) (fa_mem (k_mem k)) (fa_mem (k_mem k'))) ∧
      status_at sp ptr code (fa_mem (k_mem k)) (fa_mem (k_mem k'))) k.
Proof.
  intros [Ht Hsp Hok _ _] Hc Hptr. destruct (Z.eqb_spec ptr 0) as [->|Hne].
  { wp_step. split_and!; [by destruct k|done|done|done|]. exists 0. split_and!; [lia|lia|done|done|]. intros a Ha. by rewrite decide_False by lia. }
  unfold current_space. wp_step. wp_step. apply wp_in_sched. unfold current_task. wp_steps. rewrite Hc. eapply wp_lift; [done|].
  wp_step. apply (wp_get_task_k p t); [by destruct k|]. rewrite Hsp. wp_steps. apply wp_in_mem.
  eapply wp_mono; [|apply (copy_to_user_stored (kernel_tables (k_space k)) sp ptr (le_split 4 code) (k_mem k) Hok Hptr)].
  intros r s' (n & Hn & Hok' & Hu & Ha & Hm & _ & Hr). wp_step. rewrite length_le_split, Z.add_0_r in *.
  split_and!; [by destruct k|done|done|done|]. exists n. split_and!; [lia|lia|done| |done].
  intros _ Hw. destruct r; [lia|]. destruct Hr as [Hlt Hno]. rewrite Hw in Hno by lia. done.
Qed.

(** The parent has taken the child off its list. *)
Definition disown (p c : Pid) (t : Task) k : Kernel S D :=
  set_sched (set_tasks (alter (with_user (set_children (remove_first c (children (user t))))) p (tasks (k_sched k))) (k_sched k)) k.

Record reaped k (p c : Pid) (t tc : Task) sp (ptr : Z) k' : Prop := {
  rp_ok : kernel_ok k';
  rp_tasks : tasks (k_sched k') = delete c (alter (with_user (set_children (remove_first c (children (user t))))) p (tasks (k_sched k)));
  rp_boxes : live (k_boxes k') = forget (frame (user tc)) (live (k_boxes k));
  rp_used q : fa_used (k_mem k') q ↔ fa_used (k_mem k) q ∧ ¬ stack_pages tc q;
  rp_space : space_ok (kernel_tables (k_space k)) sp (k_mem k');
  rp_status : status_at sp ptr (exit_code (sched tc)) (fa_mem (k_mem k)) (fa_mem (k_mem k'));
  rp_pages q : fa_used (k_mem k') q → q ∉ sp_ppns sp → agree (page q) (fa_mem (k_mem k)) (fa_mem (k_mem k')) }.

Lemma reap_spec p t sp ksp c tc ptr k :
  kernel_ok k → process k p t sp ksp → current (k_sched k) = Some p → 0 ≤ ptr → c ≠ p → zombie k c tc →
  (∀ q, stack_pages tc q → (q ∉ sp_ppns sp) ∧ (q ∉ table_pages (table sp)) ∧ q ∉ table_pages (table (k_space k))) →
  referenced (disown p c t k) c = false →
  wp (reap p c ptr) (λ r k', r = Done (as_isize c) ∧ reaped k p c t tc sp ptr k') (disown p c t k).
Proof.
  intros Hk [Ht Hsp Hok (b & Hb & Hl) Hst] Hc Hptr Hne Hz Hdis Href. pose proof Hz as [Hzt Hzs Hz2 Hz3 Hz4 Hz5 Hz6].
  unfold reap. wp_step. apply wp_in_sched. unfold task_exit_code. wp_step. apply (wp_get_task c tc); [cbn; by rewrite lookup_alter_ne|]. wp_steps.
  eapply wp_mono; [|apply (store_status_spec p (with_user (set_children (remove_first c (children (user t)))) t) sp ksp ptr (exit_code (sched tc)) (disown p c t k)); [|done|done]].
  2: { split; [cbn; by rewrite lookup_alter_eq, Ht|done|done|by exists b|done]. }
  intros [] k1 (Hk1 & Hok1 & Hu1 & Ha1 & Hs1). wp_steps. cbn [k_mem disown set_sched k_space] in *.
  pose proof (maps_inv _ _ _ _ (so_maps _ _ _ Hok1)) as Hi1.
  eapply wp_mono; [|apply (drop_zombie_spec _ c tc k1 Hi1); [|by rewrite Hk1]].
  2: { split; try done; [rewrite Hk1; cbn; by rewrite lookup_alter_ne|]. intros q Hq. by apply Hu1, Hz6. }
  intros [] k2 (Hk2 & Hi2 & Hu2 & Ha2). unfold Syscall.done. wp_step. split; [done|].
  assert (HK : ∀ q, q ∈ table_pages (table (k_space k)) → fa_used (k_mem k2) q ∧ q ∉ sp_ppns sp).
  { intros q Hq. split; [|intros Hin; by apply (ow_tables _ _ _ _ (so_owns _ _ _ Hok) q)]. apply Hu2. split.
    - apply Hu1. by apply (mp_K _ _ _ _ (so_maps _ _ _ Hok) q Hq).
    - intros Hq'. by apply (Hdis q). }
  destruct (space_ok_local (kernel_tables (k_space k)) sp (k_mem k1) (k_mem k2) Hok1 Hi2) as [Hok2 Hm2].
  { intros q Hq. assert (fa_used (k_mem k2) q) as Hq2; [|split; [done|by apply Ha2]]. apply Hu2. pose proof (Hdis q).
    destruct Hq as [Hq|[Hq|Hq]]; [|by apply HK in Hq as [[? ?]%Hu2 _]|].
    - split; [by apply (pt_wf_pages 256 _ _ _ q (mp_wf _ _ _ _ (so_maps _ _ _ Hok1)))|tauto].
    - split; [by apply (ow_used _ _ _ _ (so_owns _ _ _ Hok1))|tauto]. }
  assert (Hag : ∀ q, fa_used (k_mem k2) q → q ∉ sp_ppns sp → agree (page q) (fa_mem (k_mem k)) (fa_mem (k_mem k2))).
  { intros q Hq Hn. etransitivity; [by apply Ha1|by apply Ha2]. }
  split; try done.
  - split; [done| | |].
    + rewrite Hk2, Hk1. cbn. apply (pt_kernel_stable _ (k_mem k)); [apply Hk|done|]. intros q Hq. split; [by apply HK|by apply Hag; apply HK].
    + rewrite Hk2, Hk1. cbn. intros a Ha. apply (ko_boxes _ Hk). destruct (frame (user tc)); [|done]. cbn in Ha.
      by apply lookup_delete_is_Some in Ha as [_ ?].
    + rewrite Hk2, Hk1. cbn. intros q [_ Hq]%lookup_delete_is_Some. apply (ko_pids _ Hk). by apply lookup_alter_is_Some in Hq.
  - by rewrite Hk2, Hk1.
  - by rewrite Hk2, Hk1.
  - intros q. rewrite Hu2, Hu1. done.
  - destruct Hs1 as (n & ? & ? & ? & Hm). exists n. split_and!; [lia|lia|done|done|]. intros a Ha. by rewrite Hm2, Hm.
Qed.

(** The scan finds the first child that matches and is a zombie. *)
Lemma find_zombie_first s want l1 c l2 tc :
  (want < 0 ∨ as_isize c = want) → tasks s !! c = Some tc → state (sched tc) = Zombie →
  (∀ x tx, x ∈ l1 → want < 0 ∨ as_isize x = want → tasks s !! x = Some tx → state (sched tx) ≠ Zombie) →
  find_zombie s want (l1 ++ c :: l2) = Some c.
Proof.
  intros Hm Hc Hz Hl1. assert (Hmatch : ∀ x, matches want x = true ↔ want < 0 ∨ as_isize x = want).
  { intros x. unfold matches. by rewrite orb_true_iff, Z.ltb_lt, Z.eqb_eq. }
  induction l1 as [|x l1 IH]; cbn [app find_zombie].
  - rewrite (proj2 (Hmatch c) Hm), bool_decide_true by (rewrite Hc; cbn; by rewrite Hz). done.
  - rewrite (proj2 (andb_false_iff _ _)); [apply IH; intros y ty Hy; apply Hl1; by apply list_elem_of_further|].
    destruct (matches want x) eqn:Hx; [right|by left]. apply bool_decide_eq_false. intros (tx & Htx & Hst)%fmap_Some.
    apply (Hl1 x tx); [apply list_elem_of_here|by apply Hmatch|done|]. by cbn in Hst.
Qed.

Lemma remove_first_split (c : Pid) l1 l2 : c ∉ l1 → remove_first c (l1 ++ c :: l2) = l1 ++ l2.
Proof.
  intros Hn. induction l1 as [|x l1 IH]; cbn [app remove_first]; [by rewrite Z.eqb_refl|].
  apply not_elem_of_cons in Hn as [Hne Hn]. rewrite (proj2 (Z.eqb_neq _ _)) by congruence. by rewrite IH.
Qed.

End life.
