(* ===== verification/SyscallProps.v ===== *)
(** * System calls

    Console input and output end to end, the errors, and the frame [exec]
    leaves behind. *)
From stdpp Require Import base numbers functions gmap list.
From coqutil Require Import Byte.
From Stdlib Require Import Lia.
From S2P Require Import Prelude Memory Config Addr FrameIface FrameProps PageTable PageTableInv PageTableOps.
From S2P Require Import Space SpaceInv SpaceMap SpaceOps SpaceUser SpaceWrite SpaceProps.
From S2P Require Import Device Trap Task Sched SchedProps Kernel Process Syscall ArgsProps ImageProps ProcessProps.
From S2P Require Uart UartProps.

Section calls.
Context {S D : Type} `{FrameAllocator S, !FrameAllocatorLaws S} `{UartProps.Uart16550 D} `{Firmware D}.
Implicit Types (k : Kernel S D).

Lemma wp_current_space p t sp ksp Q k : process k p t sp ksp → current (k_sched k) = Some p → Q (Some sp) k → wp current_space Q k.
Proof.
  intros [Ht Hsp _ _ _] Hc HQ. unfold current_space. wp_step. apply wp_in_sched. unfold current_task. wp_steps. rewrite Hc.
  eapply wp_lift; [done|]. wp_step. apply (wp_get_task_k p t); [by destruct k|]. rewrite Hsp. wp_steps. by destruct k.
Qed.
Lemma wp_in_con {A} (m : ST (Uart.uart D) A) Q k : wp m (λ a u, Q a (set_con u k)) (k_con k) → wp (in_con m) Q k.
Proof. unfold wp, in_con. by destruct (m (k_con k)) as [[a s]|]. Qed.

Definition all_mapped sp lo hi : bool := forallb (user_mapped sp) (seqZ lo (hi - lo)).
Lemma all_mapped_spec sp lo hi : all_mapped sp lo hi = true ↔ ∀ a, lo ≤ a < hi → user_mapped sp a = true.
Proof.
  unfold all_mapped. rewrite forallb_forall. split; intros Hr a Ha; apply Hr; revert Ha; rewrite <-list_elem_of_In, elem_of_seqZ; lia.
Qed.

(** The buffer the kernel reads out of user memory. *)
Definition in_range (ptr len : Z) : bool := (len <=? MAX_IO) && (ptr + len <=? USER_MAX_ADDR).

Lemma read_user_buf_spec p t sp ksp ptr len k : process k p t sp ksp → current (k_sched k) = Some p → 0 ≤ ptr → 0 ≤ len →
  ptr < U64 → len < U64 →
  wp (read_user_buf ptr len) (λ r k', k' = k ∧ match r with
    | Some buf => in_range ptr len = true ∧ all_mapped sp ptr (ptr + len) = true ∧ length buf = Z.to_nat len ∧
        ∀ i, 0 ≤ i < len → buf !! Z.to_nat i = umem sp (fa_mem (k_mem k)) (ptr + i)
    | None => in_range ptr len && all_mapped sp ptr (ptr + len) = false
    end) k.
Proof.
  intros Hp Hc Hptr Hlen HpU HlU. unfold read_user_buf, in_range, in_user_range, checked_add.
  destruct (Z.ltb_spec MAX_IO len) as [Hm|Hm]; cbn [orb].
  { wp_step. split; [done|]. by rewrite (proj2 (Z.leb_gt _ _)) by lia. }
  rewrite (proj2 (Z.leb_le len MAX_IO)) by lia. destruct (Z.leb_spec (ptr + len) USER_MAX_ADDR) as [Hr|Hr].
  2: { destruct (ptr + len <? U64); cbn [negb]; [rewrite (proj2 (Z.leb_gt _ _)) by lia|]; cbn [negb]; by wp_step. }
  rewrite (proj2 (Z.ltb_lt (ptr + len) U64)), (proj2 (Z.leb_le (ptr + len) USER_MAX_ADDR)) by (unfold USER_MAX_ADDR, U64 in *; lia).
  cbn [negb andb]. wp_step. apply (wp_current_space p t sp ksp); [done|done|]. wp_step. apply wp_in_mem.
  destruct (copy_from_user_loaded _ sp ptr (replicate (Z.to_nat len) x00) (k_mem k) (pr_ok _ _ _ _ _ Hp) Hptr)
    as (r & buf & Hrun & n & Hn & Hl & Hb & Hrd & Hres).
  eapply wp_of_run; [exact Hrun|]. rewrite length_replicate in *. rewrite Z2Nat.id in * by done. cbv beta iota. wp_step. split; [by destruct k|].
  destruct r as [[]|].
  - subst n. split_and!; [done| |done|].
    + apply all_mapped_spec. intros a Ha. replace a with (ptr + (a - ptr)) by lia. apply Hrd. lia.
    + intros i Hi. rewrite Hb by lia. rewrite decide_True by lia. f_equal.
  - destruct Hres as [Hlt Hno]. apply not_true_is_false. intros Hr'. rewrite all_mapped_spec in Hr'. rewrite Hr' in Hno by lia. done.
Qed.

(** The bytes of flat memory from [ptr] on. *)
Definition bytes_of sp (m : mem) (ptr len : Z) (buf : list byte) : Prop :=
  length buf = Z.to_nat len ∧ ∀ i, 0 ≤ i < len → buf !! Z.to_nat i = umem sp m (ptr + i).


Lemma take_input_spec n : ∀ buf k, UartProps.ring_ok (Uart.rx_queue (k_con k)) →
  wp (take_input n buf) (λ r k', r = buf ++ take n (UartProps.ring_list (Uart.rx_queue (k_con k))) ∧
    ∃ q, k' = set_con (Uart.set_rx q (k_con k)) k ∧ UartProps.ring_ok q ∧
      UartProps.ring_list q = drop n (UartProps.ring_list (Uart.rx_queue (k_con k)))) k.
Proof.
  induction n as [|n IH]; intros buf k Hr; cbn [take_input].
  { wp_step. split; [by rewrite take_0, app_nil_r|]. exists (Uart.rx_queue (k_con k)). destruct k as [? [] ? ? ? ? ? ? ?]. done. }
  wp_step. apply wp_in_con. unfold Uart.read_byte. wp_steps. pose proof (UartProps.ring_pop_spec _ Hr) as Hpop.
  destruct (UartProps.ring_list (Uart.rx_queue (k_con k))) as [|b l] eqn:E.
  - eapply wp_lift; [exact Hpop|]. cbv beta iota. wp_steps. split; [by rewrite app_nil_r|]. exists (Uart.rx_queue (k_con k)). done.
  - destruct Hpop as (q & Hq & Hok & Hl). eapply wp_lift; [exact Hq|]. cbv beta iota. wp_steps.
    eapply wp_mono; [|by apply IH]. cbn. rewrite Hl. intros r k' (-> & q' & -> & Hok' & Hl'). split; [by rewrite <-app_assoc|]. by exists q'.
Qed.

(** What [read] delivers: the [n] bytes the user could receive of the input
    taken from the ring; all of it exactly when the call succeeds. *)
Record input_taken sp (ptr len v : Z) k k' : Prop := {
  it_frame : k' = set_mem (k_mem k') (set_con (k_con k') k);
  it_dev : Uart.dev (k_con k') = Uart.dev (k_con k);
  it_ring : UartProps.ring_ok (Uart.rx_queue (k_con k'));
  it_left : UartProps.ring_list (Uart.rx_queue (k_con k')) = drop (Z.to_nat len) (UartProps.ring_list (Uart.rx_queue (k_con k)));
  it_ok : space_ok (kernel_tables (k_space k)) sp (k_mem k');
  it_mem : let got := take (Z.to_nat len) (UartProps.ring_list (Uart.rx_queue (k_con k))) in let n := Z.of_nat (length got) in
    ∃ m, 0 ≤ m ≤ n ∧ (∀ a, 0 ≤ a → umem sp (fa_mem (k_mem k')) a =
      if decide (ptr ≤ a < ptr + m) then (z_byte <$> got) !! Z.to_nat (a - ptr) else umem sp (fa_mem (k_mem k)) a) ∧
    (v = n ∧ m = n ∨ v = nr.EFAULT ∧ m < n ∧ can_write sp (ptr + m) = false) }.

(** C18: [read] when input is waiting in the ring.  A wrong descriptor answers
    EBADF, a length of zero 0, a buffer that is too long or leaves user space
    EFAULT, all without touching the input.  Otherwise the call takes the oldest
    bytes of the ring, at most as many as asked for, in order, stores them in
    the caller's flat memory and returns their number.  If the caller may not
    write some byte of the destination it answers EFAULT after the fact: the
    bytes before that one have been stored, and all that was taken off the ring
    is gone. *)
Theorem sys_read_correct wakes fd ptr len p t sp ksp k :
  process k p t sp ksp → current (k_sched k) = Some p → 0 ≤ ptr < U64 → 0 ≤ len < U64 →
  UartProps.ring_ok (Uart.rx_queue (k_con k)) → Uart.has_input (k_con k) = true →
  ∃ v k', sys_read (Datatypes.S wakes) fd ptr len k = Ret (Done v, k') ∧
    if decide (fd = 0) then
      if decide (len = 0) then v = 0 ∧ k' = k
      else if in_range ptr len then input_taken sp ptr len v k k'
      else v = nr.EFAULT ∧ k' = k
    else v = nr.EBADF ∧ k' = k.
Proof.
  intros Hp Hc Hptr Hlen Hring Hin. unfold sys_read, nr.STDIN. destruct (Z.eqb_spec fd 0) as [->|Hfd]; cbn [negb].
  2: { exists nr.EBADF, k. by rewrite decide_False. }
  destruct (decide (0 = 0)); [|done]. destruct (Z.eqb_spec len 0) as [->|Hl0]; [by exists 0, k|]. destruct (decide (len = 0)); [done|].
  unfold in_range, in_user_range, checked_add. destruct (Z.ltb_spec MAX_IO len) as [Hm|Hm]; cbn [orb].
  { exists nr.EFAULT, k. by rewrite (proj2 (Z.leb_gt _ _)) by lia. }
  rewrite (proj2 (Z.leb_le len MAX_IO)) by lia. destruct (Z.leb_spec (ptr + len) USER_MAX_ADDR) as [Hr|Hr]; cbn [andb].
  2: { exists nr.EFAULT, k. destruct (ptr + len <? U64); cbn [negb]; [rewrite (proj2 (Z.leb_gt _ _)) by lia|]; done. }
  rewrite (proj2 (Z.ltb_lt (ptr + len) U64)), (proj2 (Z.leb_le (ptr + len) USER_MAX_ADDR)) by (unfold USER_MAX_ADDR, U64 in *; lia).
  cbn [negb wait_until].
  assert (Hwp : ∀ m : ST (Kernel S D) (prog S D Z), wp m (λ r k', ∃ v, r = Done v ∧ input_taken sp ptr len v k k') k →
    ∃ v k', m k = Ret (Done v, k') ∧ input_taken sp ptr len v k k').
  { intros m Hm'. destruct (wp_run _ _ _ Hm') as (r & k' & ? & v & -> & ?). by exists v, k'. }
  apply Hwp. clear Hwp. wp_step. wp_step. rewrite Hin. wp_step. eapply wp_mono; [|by apply take_input_spec]. intros r k1 (-> & q & -> & Hq & Hql). cbn [app].
  wp_step. apply (wp_current_space p t sp ksp); [by destruct Hp|done|]. wp_step. apply wp_in_mem. set (got := take _ _).
  eapply wp_mono; [|apply (copy_to_user_stored (kernel_tables (k_space k)) sp ptr (z_byte <$> got) (k_mem k) (pr_ok _ _ _ _ _ Hp)); lia].
  intros o s' (m & Hm' & Hok & _ & _ & Hmem & _ & Hres). rewrite length_fmap, Z.add_0_r in *. unfold Syscall.done.
  destruct o as [[]|]; wp_step; eexists; (split; [done|]); split; try done; exists m; fold got; (split_and!; [lia|lia|done|]).
  - left. cbn. lia.
  - right. split; [done|]. done.
Qed.

(** After [exec] has succeeded, the frame the trap came with is gone: the result of
    the call is stored through a freed box, and reaches no frame. *)
Theorem exec_return_uses_freed_frame nm image args p t old ksp b v k k' :
  kernel_ok k → process k p t old ksp → frame (user t) = Some b → Z.of_nat (length image) < 2 ^ 63 → args_size args ≤ USER_STACK_SIZE →
  exec_current p nm image args k = Ret (Ok tt, k') →
  live (k_boxes k') !! b = None ∧ ecall_done b v k' = (on_hart intr_disable;; return_to_user) k'.
Proof.
  intros Hk Hp Hb Hlen Hargs Hrun.
  assert (Hl : live (k_boxes k') !! b = None).
  { eapply ex_freed; [|exact Hb]. by apply (wp_ret_inv _ _ _ _ _ Hrun (exec_current_spec nm image args p t old ksp k Hk Hp Hlen Hargs)). }
  split; [done|]. unfold ecall_done, store_return, on_hart, mbind, ST_bind, get, put. cbn. by rewrite Hl.
Qed.
End calls.
