(* ===== verification/KernelDemo.v ===== *)
(** * A running kernel

    One concrete state, with a user process, a zombie child and a console, on
    which the theorems about processes and system calls are instantiated. *)
From stdpp Require Import base numbers functions gmap list.
From coqutil Require Import Byte.
From Stdlib Require Import Lia.
From S2P Require Frame.
From S2P Require Import Prelude Memory Config Addr FrameIface FrameProps PageTable PageTableInv PageTableOps PageTableProps.
From S2P Require Import Space SpaceInv SpaceMap SpaceOps SpaceUser SpaceWrite SpaceProps Loader LoaderProps.
From S2P Require Import Device Trap Task Sched SchedProps Kernel Process Syscall ArgsProps ImageProps ProcessProps LifeProps SyscallProps.
From S2P Require Uart.
From S2P Require Import UartProps.

#[export] Instance demo_firmware : Firmware chip := { ecall _ _ _ _ _ c := ((0, 0), c); rdtime c := (0, c) }.

(** Two kernel stacks on top of the address-space example. *)
Definition two_stacks : ST Frame.PhysMem (option (Frame * Frame)) :=
  a ← KernelStack_new; b ← KernelStack_new;
  mret (match a, b with Some a, Some b => Some (a, b) | _, _ => None end).
Definition demo_two : option (Frame * Frame) * Frame.PhysMem := run_or (two_stacks demo_st) None demo_st.
Definition no_frame : Frame := mkFrame 0 0.
Definition demo_ks1 : Frame := (default (no_frame, no_frame) demo_two.1).1.
Definition demo_ks2 : Frame := (default (no_frame, no_frame) demo_two.1).2.
Definition demo_mem : Frame.PhysMem := demo_two.2.

Lemma demo_stacks : ∃ s1 ksp1 ksp2, new_stack demo_st demo_ks1 ksp1 s1 ∧ new_stack s1 demo_ks2 ksp2 demo_mem.
Proof.
  pose proof (maps_inv _ _ _ _ (so_maps _ _ _ (proj1 demo_ok))) as Hi.
  assert (Hs : match demo_two.1 with Some _ => true | None => false end = true) by (vm_compute; reflexivity).
  unfold demo_ks1, demo_ks2, demo_mem. revert Hs. unfold demo_two.
  assert (Hwp : wp two_stacks (λ r s', match r with
    | Some (a, b) => ∃ s1 ksp1 ksp2, new_stack demo_st a ksp1 s1 ∧ new_stack s1 b ksp2 s' | None => True end) demo_st).
  { unfold two_stacks. wp_step. eapply wp_mono; [|by apply KernelStack_new_spec]. intros [a|] s1.
    - intros [ksp1 H1]. wp_step. eapply wp_mono; [|apply KernelStack_new_spec; apply H1]. intros [b|] s2; [|by intros ->; wp_step].
      intros [ksp2 H2]. wp_step. by exists s1, ksp1, ksp2.
    - intros ->. wp_step. eapply wp_mono; [|by apply KernelStack_new_spec]. intros [b|] s2 _; by wp_step. }
  unfold run_or. unfold wp in Hwp. destruct (two_stacks demo_st) as [[[[a b]|] s]|]; done.
Qed.
#[global] Opaque demo_two.

Lemma demo_keep q : fa_used demo_st q → fa_used demo_mem q ∧ agree (page q) (fa_mem demo_st) (fa_mem demo_mem).
Proof.
  destruct demo_stacks as (s1 & k1 & k2 & [_ _ _ U1 _ A1] & [_ _ _ U2 _ A2]). intros Hq. assert (fa_used s1 q) by (apply U1; by left).
  split; [apply U2; by left|]. etransitivity; [by apply A1|by apply A2].
Qed.
Lemma demo_mem_inv : fa_inv demo_mem.
Proof. by destruct demo_stacks as (s1 & k1 & k2 & _ & []). Qed.

(** The parent, its zombie child, and the kernel around them. *)
Definition demo_frame : TrapFrame := mkTF (replicate 32 7) 0 0x10004 0 0 0 0.
Definition demo_parent : Task :=
  mkTask [] enter_user_mode [] TaskContext_zeroed demo_ks1 (mkSched Running 0 0 false false 0)
    (mkUser (Some demo_sp) (Some 5) USER_HEAP_BASE USER_HEAP_BASE None [2]).
Definition demo_zombie : Task :=
  mkTask [] enter_user_mode [] TaskContext_zeroed demo_ks2 (mkSched Zombie 0 0 false false 42)
    (mkUser None (Some 6) USER_HEAP_BASE USER_HEAP_BASE (Some 1) []).
Definition demo_sched : Sched :=
  mkS {[1 := demo_parent; 2 := demo_zombie]} 3 (mkRQ [[]; []; []] 2) (Some 1) None [1; 2].
Definition demo_ring : Uart.RxRing := match Uart.ring_push Uart.RxRing_new 108 with Ret (_, r) => r | Panic => Uart.RxRing_new end.
Definition demo_k : Kernel Frame.PhysMem chip :=
  mkK demo_mem (chip_uart [] demo_ring) demo_sched [] (mkBoxes {[5 := demo_frame; 6 := demo_frame]} 7)
    (mkHart 0 0 kernel_trap_entry 0 0 0) (mkTimer 0 0) demo_kernel_sp [].

Lemma demo_kernel_ok : kernel_ok demo_k.
Proof.
  split.
  - exact demo_mem_inv.
  - apply (pt_kernel_stable _ demo_st); [apply demo_ok|exact demo_mem_inv|]. intros q Hq. apply demo_keep.
    by apply (pt_kernel_pages (table demo_kernel_sp) demo_st q (proj1 (proj2 demo_ok))).
  - cbn. intros a [f [[<- _]|[_ [<- _]%lookup_singleton_Some]]%lookup_insert_Some]; done.
  - cbn. intros a [f [[<- _]|[_ [<- _]%lookup_singleton_Some]]%lookup_insert_Some]; done.
Qed.

Lemma demo_process : ∃ ksp, process demo_k 1 demo_parent demo_sp ksp.
Proof.
  destruct demo_stacks as (s1 & k1 & k2 & [_ [T1 _] _ _ _ _] & _). exists k1. split.
  - exact (lookup_insert_eq _ 1 demo_parent).
  - reflexivity.
  - apply (space_ok_stable _ _ demo_st); [apply demo_ok|exact demo_mem_inv|exact demo_keep].
  - exists 5. split; [reflexivity|]. eexists. exact (lookup_insert_eq _ 5 demo_frame).
  - exact T1.
Qed.

Lemma demo_sched_ok : sched_ok demo_sched.
Proof.
  split; try done.
  - constructor.
  - intros p [Hp|[[= <-]|?]]; [by apply elem_of_nil in Hp| |done]. split; [list_side|done].
  - cbn. intros p [Hp|[t [[<- _]|[_ [<- _]%lookup_singleton_Some]]%lookup_insert_Some]]; [|done|done].
    apply elem_of_cons in Hp as [->|[->|?%elem_of_nil]%elem_of_cons]; done.
  - intros p t Ht. cbn in Ht. apply lookup_insert_Some in Ht as [[<- <-]|[Hne [<- <-]%lookup_singleton_Some]].
    + split; try done; [by intros ?%elem_of_nil|intros []; list_side].
    + split; try done; [by intros ?%elem_of_nil|intros []; list_side].
Qed.

Lemma demo_ring_ok : ring_ok demo_ring ∧ ring_list demo_ring = [108].
Proof. split; [split; vm_compute; done|vm_compute; reflexivity]. Qed.

(** ** Instances of the theorems *)


(** [exec] does succeed on this image. *)
Definition demo_execed : Kernel Frame.PhysMem chip :=
  match exec_current 1 [] demo_image demo_args demo_k with Ret (_, k') => k' | Panic => demo_k end.
Lemma demo_exec_run : exec_current 1 [] demo_image demo_args demo_k = Ret (Ok tt, demo_execed).
Proof.
  assert (Hs : match exec_current 1 [] demo_image demo_args demo_k with Ret (Ok tt, _) => true | _ => false end = true)
    by (vm_compute; reflexivity).
  unfold demo_execed. destruct (exec_current 1 [] demo_image demo_args demo_k) as [[[[]|] ?]|]; [reflexivity|discriminate Hs|discriminate Hs].
Qed.

Lemma exec_return_uses_freed_frame_witness :
  live (k_boxes demo_execed) !! 5 = None ∧ ecall_done 5 0 demo_execed = (on_hart intr_disable;; return_to_user) demo_execed.
Proof.
  destruct demo_process as [ksp Hp].
  apply (exec_return_uses_freed_frame [] demo_image demo_args 1 demo_parent demo_sp ksp 5 0 demo_k demo_execed demo_kernel_ok Hp);
    [reflexivity|vm_compute; reflexivity|vm_compute; discriminate|exact demo_exec_run].
Defined.

Lemma fork_correct_witness : ∃ ksp r k', process demo_k 1 demo_parent demo_sp ksp ∧
  fork_from 0x80200000 1 demo_frame demo_k = Ret (r, k') ∧
  match r with
  | Some c => forked 0x80200000 demo_k 1 demo_parent demo_sp ksp demo_frame c k'
  | None => k' = set_mem (k_mem k') demo_k ∧ restored (k_mem demo_k) (k_mem k')
  end.
Proof.
  destruct demo_process as [ksp Hp].
  destruct (fork_correct 0x80200000 1 demo_parent demo_sp ksp demo_frame demo_k demo_kernel_ok Hp) as (r & k' & Hr & Hpost);
    [reflexivity|split; [discriminate|reflexivity]|].
  exists ksp, r, k'. split; [exact Hp|]. split; [exact Hr|exact Hpost].
Defined.

Lemma demo_heap m : heap_ok (user demo_parent) demo_sp m.
Proof.
  destruct demo_ok as (Hok & _ & fs & Hr). split; [split; discriminate|split; [by exists 0x10000|discriminate]|]. intros a Ha.
  change (heap_top (user demo_parent)) with USER_HEAP_BASE in Ha.
  pose proof (so_regions _ _ _ Hok) as Hro. rewrite Hr in Hro. apply Forall_cons in Hro as [Hro _].
  pose proof (region_pages_range (with_frames fs demo_region) a Hro) as Hrange. unfold umem, user_addr, sp_pages. rewrite Hr. cbn [mbind list_bind].
  rewrite app_nil_r, (proj2 (bt_get_None (vpn a) _)); [done|]. intros Hin. apply Hrange in Hin. cbn in Hin. unfold USER_HEAP_BASE in Ha. lia.
Qed.

Lemma adjust_brk_correct_witness : ∃ ksp r k', process demo_k 1 demo_parent demo_sp ksp ∧ adjust_brk 1 0x1800 demo_k = Ret (r, k') ∧
  match r with
  | Some old => old = USER_HEAP_BASE ∧ ∃ sp' to, brk_moved demo_k 1 (USER_HEAP_BASE + 0x1800) to sp' k'
  | None => ∃ sp', brk_moved demo_k 1 USER_HEAP_BASE USER_HEAP_BASE sp' k' ∧ fa_avail (k_mem demo_k) < 6
  end.
Proof.
  destruct demo_process as [ksp Hp].
  destruct (adjust_brk_correct 1 demo_parent demo_sp ksp 0x1800 demo_k Hp (demo_heap _)) as (r & k' & Hr & Hpost).
  exists ksp, r, k'. split; [exact Hp|]. split; [exact Hr|].
  destruct (decide (0x1800 = 0)) as [Hd|_]; [discriminate Hd|].
  destruct (decide (brk (user demo_parent) + 0x1800 < USER_HEAP_BASE ∨ USER_MAX_ADDR ≤ brk (user demo_parent) + 0x1800)) as [Hd|_];
    [destruct Hd as [Hd|Hd]; [discriminate Hd|destruct Hd; reflexivity]|].
  destruct (decide (brk (user demo_parent) + 0x1800 ≤ heap_top (user demo_parent))) as [Hd|_]; [by destruct Hd|].
  destruct Hpost as [_ Hpost]. destruct r as [old|].
  2: { destruct Hpost as (sp' & Hb & _ & Hfew). exists sp'. split; [exact Hb|]. apply Hfew. discriminate. }
  destruct Hpost as (Ho & sp' & to & Hb & _). split; [exact Ho|]. exists sp', to. exact Hb.
Defined.

(** The stacks are apart from everything that was in use. *)
Lemma demo_old_pages q : q ∈ sp_ppns demo_sp ∨ q ∈ table_pages (table demo_sp) ∨ q ∈ table_pages (table demo_kernel_sp) → fa_used demo_st q.
Proof.
  destruct demo_ok as (Hok & Hk & _). intros [Hq|[Hq|Hq]].
  - by apply (ow_used _ _ _ _ (so_owns _ _ _ Hok)).
  - by apply (pt_wf_pages 256 _ _ _ q (mp_wf _ _ _ _ (so_maps _ _ _ Hok))).
  - by apply (pt_kernel_pages (table demo_kernel_sp) demo_st q Hk).
Qed.

Lemma demo_stack1 : canary_intact (fa_mem demo_mem) demo_ks1 = true ∧ 0 ≤ f_ppn demo_ks1 < 2 ^ 26 ∧ fa_used demo_mem (f_ppn demo_ks1) ∧
  (f_ppn demo_ks1 ∉ sp_ppns demo_sp) ∧ f_ppn demo_ks1 ∉ table_pages (table demo_sp).
Proof.
  destruct demo_stacks as (s1 & k1 & k2 & [I1 _ C1 U1 F1 _] & [I2 _ _ U2 _ A2]).
  assert (Hu : fa_used s1 (f_ppn demo_ks1)) by (apply U1; right; lia). pose proof (fa_used_range s1 _ I1 Hu) as Hr.
  assert (Hn : ¬ fa_used demo_st (f_ppn demo_ks1)) by (apply F1; lia). split_and!; [|lia|lia|apply U2; by left| |].
  - rewrite <-C1. unfold canary_intact. f_equal. apply load64_ext. intros x Hx. apply (A2 _ Hu).
    apply (page_word _ 0); [lia|]. unfold stack_bottom in Hx. rewrite as_ptr_eq in Hx by done. by rewrite Z.mul_0_r, Z.add_0_r.
  - intros Hq. apply Hn, demo_old_pages. by left.
  - intros Hq. apply Hn, demo_old_pages. right. by left.
Qed.


Lemma demo_zombie_ok : zombie demo_k 2 demo_zombie ∧
  ∀ q, stack_pages demo_zombie q → (q ∉ sp_ppns demo_sp) ∧ (q ∉ table_pages (table demo_sp)) ∧ q ∉ table_pages (table demo_kernel_sp).
Proof.
  destruct demo_stacks as (s1 & k1 & k2 & [_ _ _ U1 _ _] & [_ _ _ U2 F2 _]). split.
  - split; [reflexivity|reflexivity|reflexivity|reflexivity|reflexivity| |].
    + assert (Hs : (f_order demo_ks2 =? 3) && (f_ppn demo_ks2 `mod` 8 =? 0) = true) by (vm_compute; reflexivity).
      apply andb_true_iff in Hs as [Ho Hd]. split; [by apply Z.eqb_eq|]. apply Z.mod_divide; [done|by apply Z.eqb_eq].
    + intros q Hq. apply U2. by right.
  - intros q Hq. assert (Hn : ¬ fa_used demo_st q) by (intros Hu; apply (F2 q Hq), U1; by left).
    split_and!; intros Hin; apply Hn, demo_old_pages; [by left|right; by left|right; by right].
Qed.



Lemma sys_read_correct_witness : ∃ v k', sys_read 1 0 0x10ffe 3 demo_k = Ret (Done v, k') ∧ input_taken demo_sp 0x10ffe 3 v demo_k k'.
Proof.
  destruct demo_process as [ksp Hp].
  destruct (sys_read_correct 0 0 0x10ffe 3 1 demo_parent demo_sp ksp demo_k Hp) as (v & k' & Hr & Hpost);
    [reflexivity|split; [discriminate|reflexivity]|split; [discriminate|reflexivity]|apply demo_ring_ok|vm_compute; reflexivity|].
  exists v, k'. split; [exact Hr|]. destruct (decide (0 = 0)) as [_|Hn]; [|destruct Hn; reflexivity].
  destruct (decide (3 = 0)) as [Hn|_]; [discriminate Hn|]. exact Hpost.
Defined.

(** ** A parent that waits for ever (task/scheduler.rs [exit_current],
    task/process.rs [on_exit], syscall/mod.rs [sys_waitpid])

    [exit_current] wakes the parent before it makes the task a zombie, and the
    kernel is preemptible in between. *)

(** Task 1 sleeps in [waitpid]; its child 2 runs and is about to exit. *)
Definition waiting_parent : Task :=
  mkTask [] enter_user_mode [1] TaskContext_zeroed no_frame (mkSched Blocked 0 0 false false 0) (mkUser None None 0 0 None [2]).
Definition exiting_child : Task :=
  mkTask [] enter_user_mode [] TaskContext_zeroed no_frame (mkSched Running 0 0 false false 42) (mkUser None None 0 0 (Some 1) []).
Definition race_sched : Sched :=
  mkS {[1 := waiting_parent; 2 := exiting_child]} 3 (mkRQ [[]; []; []] 2) (Some 2) None [1; 2].
Definition race_k : Kernel Frame.PhysMem chip := set_sched race_sched demo_k.

(** The running task leaves the processor in state [st] and the idle loop picks
    the next one. *)
Definition hand_over (st : TaskState) : ST (Kernel Frame.PhysMem chip) (option Pid) :=
  in_sched (switch_out (λ _, true) st);; _ ← in_sched run_requeue; in_sched run_pick.

(** The child tells its parent and is preempted before it is a zombie; the parent
    looks, finds no zombie, and waits again; then the child finishes. *)
Definition race : ST (Kernel Frame.PhysMem chip) (option Pid * bool) :=
  on_exit 2;;
  hand_over Ready;;
  wait_leave (ChildExit 1) 1;;
  r ← scan_children 1 (-1);
  wait_enter (ChildExit 1);;
  hand_over Blocked;;
  hand_over Zombie;;
  mret r.

(** At the end the child is a zombie nobody will announce, the parent is asleep,
    and nothing is left to run. *)
Theorem exit_wakes_too_early : ∃ k', race race_k = Ret ((None, true), k') ∧
  (state ∘ sched <$> tasks (k_sched k') !! 1) = Some Blocked ∧ (state ∘ sched <$> tasks (k_sched k') !! 2) = Some Zombie ∧
  current (k_sched k') = None ∧ previous (k_sched k') = None ∧ levels (run_queue (k_sched k')) = [[]; []; []].
Proof.
  assert (Hs : match race race_k with
    | Ret (r, k') => Some (r, (state ∘ sched <$> tasks (k_sched k') !! 1), (state ∘ sched <$> tasks (k_sched k') !! 2),
        current (k_sched k'), previous (k_sched k'), levels (run_queue (k_sched k')))
    | Panic => None end = Some ((None, true), Some Blocked, Some Zombie, None, None, [[]; []; []])) by (vm_compute; reflexivity).
  destruct (race race_k) as [[r k']|]; [|discriminate]. injection Hs as -> ? ? ? ? ?. by exists k'.
Qed.
