(* ===== verification/FrameTypes.v ===== *)
(** * The types of trap frames

    A trap frame is what the assembly restores the registers from, so every
    frame in the kernel heap has 32 registers of 64 bits and six more words.
    [kernel_typed] says so, with the parts of the state new frames are filled
    from, and every trap keeps it, through every sleep on the way. *)
From stdpp Require Import base numbers gmap list.
From coqutil Require Import Byte LittleEndianList.
From Stdlib Require Import Lia.
From S2P Require Import Prelude Memory Config Addr FrameIface FrameProps PageTable PageTableInv Space Loader LoaderProps Device Trap Task Sched Kernel Process Syscall UartProps.
From S2P Require Uart Frame.

Definition u64 (z : Z) : Prop := 0 ≤ z < U64.

Record frame_typed (f : TrapFrame) : Prop := {
  ft_regs : length (tf_x f) = 32%nat;
  ft_words : Forall u64 (tf_words f) }.

(** ** Machine words *)
Lemma u64_lor a b : u64 a → u64 b → u64 (Z.lor a b).
Proof. unfold u64, U64. intros. by apply (lor_range a b 64). Qed.
Lemma u64_land a b : 0 ≤ a → u64 b → u64 (Z.land a b).
Proof.
  unfold u64, U64. intros Ha Hb. change 18446744073709551616 with (2 ^ 64) in *.
  replace (Z.land a b) with (Z.land a b `mod` 2 ^ 64); [apply Z.mod_pos_bound; lia|].
  rewrite <- Z.land_ones, <- Z.land_assoc, Z.land_ones, (Z.mod_small b) by lia. done.
Qed.
Lemma u64_not_range z : u64 z → u64 (u64_not z).
Proof. unfold u64, u64_not, usize_max, U64. lia. Qed.

Lemma set_reg_typed f i v f' : frame_typed f → u64 v → set_reg f i v = Ret f' → frame_typed f'.
Proof.
  intros [Hl Hw] Hv. unfold set_reg, arr_set. destruct (_ && _); [|done]. cbn. intros [= <-].
  unfold tf_words in *. apply Forall_app in Hw as [Hx Hw]. split; cbn; [by rewrite length_insert|].
  apply Forall_app. split; [by apply Forall_insert|done].
Qed.
Lemma with_sepc_typed f v : frame_typed f → u64 v → frame_typed (with_sepc v f).
Proof.
  intros [Hl Hw] Hv. unfold tf_words in *. apply Forall_app in Hw as [Hx Hw]. rewrite !Forall_cons in Hw. destruct_and!.
  split; [done|]. unfold tf_words. cbn. apply Forall_app. split; [done|]. auto 10 using Forall_cons_2, Forall_nil_2.
Qed.
Lemma with_kernel_typed f a b c : frame_typed f → u64 a → u64 b → u64 c → frame_typed (with_kernel a b c f).
Proof.
  intros [Hl Hw] Ha Hb Hc. unfold tf_words in *. apply Forall_app in Hw as [Hx Hw]. rewrite !Forall_cons in Hw. destruct_and!.
  split; [done|]. unfold tf_words. cbn. apply Forall_app. split; [done|]. auto 10 using Forall_cons_2, Forall_nil_2.
Qed.

Lemma stack_top_typed ks v : stack_top ks = Ret v → u64 v.
Proof.
  unfold stack_top, u64_shl. destruct (_ <? 64); [|done]. cbn. set (n := _ `mod` U64).
  assert (Hn : 0 ≤ n) by (apply Z.mod_pos_bound; done). unfold u64_mul. case_match; [|done]. cbn. intros [-> Hlt]%u64_add_inv.
  assert (Hb : 0 ≤ stack_bottom ks) by (unfold stack_bottom, as_ptr, wrapping_add; apply Z.mod_pos_bound; done).
  unfold u64, PAGE_SIZE in *. lia.
Qed.

(** ** The state *)
Section typed.
Context {S D : Type} `{FrameAllocator S} `{Bus D} `{Firmware D}.
Abbreviation Kst := (Kernel S D).
Abbreviation K := (ST Kst).
Implicit Types (k : Kst).

Record kernel_typed k : Prop := {
  kty_frames : ∀ a f, live (k_boxes k) !! a = Some f → frame_typed f;
  kty_sstatus : u64 (sstatus (k_hart k));
  kty_hart : u64 (hart_id (k_hart k));
  kty_token : u64 (AS_token (k_space k)) }.

(** A step that keeps the types and whose result has [P]. *)
Definition gives {A} (m : K A) (P : A → Prop) : Prop :=
  ∀ k, kernel_typed k → wlp m (λ a k', kernel_typed k' ∧ P a) k.
Abbreviation keeps m := (gives m (λ _, True)).

Lemma gives_weaken {A} (m : K A) (P Q : A → Prop) : (∀ a, P a → Q a) → gives m P → gives m Q.
Proof. intros HP Hm k Hk. eapply wlp_mono; [|by apply Hm]. cbv beta. intros a k' [? ?]. auto. Qed.
Lemma gives_bind {A B} (m : K A) (f : A → K B) P Q : gives m P → (∀ a, P a → gives (f a) Q) → gives (m ≫= f) Q.
Proof. intros Hm Hf k Hk. apply wlp_bind. eapply wlp_mono; [|by apply Hm]. cbv beta. intros a k' [Hk' Ha]. by apply Hf. Qed.
Lemma gives_ret {A} (a : A) (P : A → Prop) : P a → gives (mret a) P.
Proof. intros Ha k Hk. by apply wlp_ret. Qed.
Lemma gives_lift {A} (o : outcome A) (P : A → Prop) : (∀ a, o = Ret a → P a) → gives (lift o) P.
Proof. intros Ho k Hk. apply wlp_lift. auto. Qed.
Lemma gives_get : gives get kernel_typed.
Proof. intros k Hk. by apply wlp_get. Qed.
Lemma gives_put k : kernel_typed k → keeps (put k).
Proof. intros Hk k0 _. by apply wlp_put. Qed.

(** Memory, the console and the scheduler hold no frames. *)
Lemma gives_mem {A} (m : ST S A) (P : A → Prop) : (∀ s, wlp m (λ a _, P a) s) → gives (in_mem m) P.
Proof.
  intros Hm k Hk a k'. unfold in_mem. destruct (m (k_mem k)) as [[b s]|] eqn:Hr; [|done]. intros [= <- <-].
  split; [by destruct Hk|by apply (Hm (k_mem k) _ s)].
Qed.
Lemma keeps_mem {A} (m : ST S A) : keeps (in_mem m).
Proof. by apply gives_mem. Qed.
Lemma keeps_con {A} (m : ST (Uart.uart D) A) : keeps (in_con m).
Proof. intros k Hk a k'. unfold in_con. destruct (m (k_con k)) as [[b s]|]; [|done]. intros [= <- <-]. split; [by destruct Hk|done]. Qed.
Lemma keeps_sched {A} (m : ST Sched A) : keeps (in_sched m).
Proof. intros k Hk a k'. unfold in_sched. destruct (m (k_sched k)) as [[b s]|]; [|done]. intros [= <- <-]. split; [by destruct Hk|done]. Qed.
Lemma keeps_hart (f : Hart → Hart) : (∀ h, u64 (sstatus h) → u64 (sstatus (f h)) ∧ hart_id (f h) = hart_id h) → keeps (on_hart f).
Proof.
  intros Hf. unfold on_hart. eapply gives_bind; [apply gives_get|]. intros k [T1 T2 T3 T4]. apply gives_put.
  destruct (Hf (k_hart k) T2) as [? Hid]. split; cbn; [done|done|by rewrite Hid|done].
Qed.

(** ** Boxes *)
Lemma keeps_box_new f : frame_typed f → keeps (box_new f).
Proof.
  intros Hf. unfold box_new. eapply gives_bind; [apply gives_get|]. intros k [T1 T2 T3 T4].
  eapply gives_bind; [apply gives_put|intros; by apply gives_ret]. split; cbn; try done.
  intros a g [[_ <-]|[_ ?]]%lookup_insert_Some; eauto.
Qed.
Lemma gives_box_get a : gives (box_get a) frame_typed.
Proof.
  unfold box_get. eapply gives_bind; [apply gives_get|]. intros k Hk. apply gives_lift. intros f Hf.
  destruct (live (k_boxes k) !! a) as [g|] eqn:Hg; [|done]. injection Hf as ->. by apply (kty_frames _ Hk a).
Qed.
Lemma keeps_box_set a f : frame_typed f → keeps (box_set a f).
Proof.
  intros Hf. unfold box_set. eapply gives_bind; [apply gives_box_get|]. intros _ _. eapply gives_bind; [apply gives_get|].
  intros k [T1 T2 T3 T4]. apply gives_put. split; cbn; try done. intros b g [[_ <-]|[_ ?]]%lookup_insert_Some; eauto.
Qed.
Lemma keeps_box_free b : keeps (box_free b).
Proof.
  unfold box_free. destruct b as [a|]; [|by apply gives_ret]. eapply gives_bind; [apply gives_get|]. intros k [T1 T2 T3 T4].
  apply gives_put. split; cbn; try done. intros c g [_ ?]%lookup_delete_Some. eauto.
Qed.

Lemma typed_same k k' : k_boxes k' = k_boxes k → k_hart k' = k_hart k → k_space k' = k_space k → kernel_typed k → kernel_typed k'.
Proof. intros E1 E2 E3 []. split; by rewrite ?E1, ?E2, ?E3. Qed.
Lemma typed_waiters q l k : kernel_typed k → kernel_typed (set_waiters q l k).
Proof. destruct q; by apply typed_same. Qed.
End typed.
Create HintDb typed.
#[export] Hint Resolve keeps_mem keeps_con keeps_sched gives_get gives_box_get keeps_box_free : typed.

(** Symbolic execution: binds one by one, writes to other parts of the state. *)
Ltac ty_put := apply gives_put; first [by apply typed_waiters | eapply typed_same; [..|eassumption]; reflexivity].
Ltac ty_step :=
  lazymatch goal with
  | |- gives (_ ≫= _) _ => eapply gives_bind; [|intros ? ?]
  | |- @gives _ _ ?A (mret _) ?P => try (is_evar P; unify P (λ _ : A, True)); apply gives_ret; try exact I
  | |- @gives _ _ ?A (lift ?o) ?P =>
      tryif is_evar P
      then first [apply (gives_lift o (λ a, o = Ret a)); by intros | apply (gives_lift o (λ _ : A, True)); by intros]
      else (apply gives_lift; intros ? ?; first [exact I|discriminate|idtac])
  | |- gives (put _) _ => ty_put
  | |- @gives _ _ ?A (match ?x with _ => _ end) ?P => try (is_evar P; unify P (λ _ : A, True)); destruct x
  | |- gives (let _ := _ in _) _ => cbv zeta
  | |- gives _ _ => solve [eauto 2 with typed nocore | assumption | eapply gives_weaken; [|eauto 2 with typed nocore]; try done]
  end; cbv beta.
Ltac ty := repeat ty_step.

Section kernel.
Context {S D : Type} `{FrameAllocator S} `{Bus D} `{Firmware D}.
Abbreviation Kst := (Kernel S D).
Abbreviation K := (ST Kst).
Implicit Types (k : Kst).
Abbreviation keeps m := (gives m (λ _, True)).

(** ** Interrupt masks, switching, queues *)
Lemma sstatus_enable h : u64 (sstatus h) → u64 (sstatus (intr_enable h)) ∧ hart_id (intr_enable h) = hart_id h.
Proof. intros Hh. split; [|done]. by apply u64_lor. Qed.
Lemma sstatus_disable h : u64 (sstatus h) → u64 (sstatus (intr_disable h)) ∧ hart_id (intr_disable h) = hart_id h.
Proof. intros Hh. split; [|done]. apply u64_land; [apply Hh|]. by apply u64_not_range. Qed.
Lemma keeps_enable : keeps (on_hart (S := S) (D := D) intr_enable).
Proof. apply keeps_hart, sstatus_enable. Qed.
Lemma keeps_disable : keeps (on_hart (S := S) (D := D) intr_disable).
Proof. apply keeps_hart, sstatus_disable. Qed.
Lemma keeps_vector v : keeps (on_hart (S := S) (D := D) (set_vector v)).
Proof. apply keeps_hart. done. Qed.
Lemma keeps_sip m : keeps (on_hart (S := S) (D := D) (clear_sip m)).
Proof. apply keeps_hart. done. Qed.
Lemma keeps_activate tok : keeps (activate (S := S) (D := D) tok).
Proof. apply keeps_hart. done. Qed.
#[local] Hint Resolve keeps_enable keeps_disable keeps_vector keeps_sip keeps_activate : typed.

Lemma keeps_switch_back b : keeps (switch_back (S := S) (D := D) b).
Proof. unfold switch_back. ty. Qed.
Lemma keeps_switch st : keeps (switch_to_idle (S := S) (D := D) st).
Proof. unfold switch_to_idle. ty. Qed.
#[local] Hint Resolve keeps_switch_back keeps_switch : typed.
Lemma keeps_resched_if : keeps (resched_if_needed (S := S) (D := D)).
Proof. unfold resched_if_needed, yield_now. ty. Qed.

Lemma keeps_wait_enter q : keeps (wait_enter (S := S) (D := D) q).
Proof. unfold wait_enter. ty. Qed.
Lemma keeps_wait_leave q p : keeps (wait_leave (S := S) (D := D) q p).
Proof. unfold wait_leave. ty. Qed.
Lemma keeps_wake_list l : keeps (wake_list (S := S) (D := D) l).
Proof. induction l; cbn [wake_list]; ty. Qed.
#[local] Hint Resolve keeps_wake_list : typed.
Lemma keeps_wake_all q : keeps (wake_all (S := S) (D := D) q).
Proof. unfold wake_all. ty. Qed.
#[local] Hint Resolve keeps_resched_if keeps_wait_enter keeps_wait_leave keeps_wake_all : typed.

(** ** Dropping a task *)
Lemma keeps_drop_space o : keeps (drop_space (S := S) (D := D) o).
Proof. unfold drop_space. ty. Qed.
#[local] Hint Resolve keeps_drop_space : typed.
Lemma keeps_foldr (l : list Pid) (g : Pid → K unit) : (∀ p, keeps (g p)) → keeps (foldr (λ q m, g q;; m) (mret tt) l).
Proof. intros Hg. induction l as [|p l IH]; cbn; [ty|]. eapply gives_bind; [apply Hg|]. intros _ _. exact IH. Qed.
Lemma keeps_drop_arc fuel : ∀ p, keeps (drop_arc (S := S) (D := D) fuel p).
Proof.
  induction fuel as [|fuel IH]; intros p; cbn [drop_arc]; [ty|]. assert (Hl : ∀ l, keeps (foldr (λ q m, drop_arc fuel q;; m) (mret tt) l)) by (intros; by apply keeps_foldr). ty.
Qed.

(** ** Devices *)
Lemma keeps_read_time : keeps (read_time (S := S) (D := D)).
Proof. unfold read_time. ty. Qed.
Lemma keeps_set_timer v : keeps (set_timer (S := S) (D := D) v).
Proof. unfold set_timer. ty. Qed.
#[local] Hint Resolve keeps_read_time keeps_set_timer : typed.
Lemma keeps_tick : keeps (on_tick (S := S) (D := D)).
Proof. unfold on_tick, set_deadline. ty. Qed.
Lemma keeps_uptime : keeps (uptime_ms (S := S) (D := D)).
Proof. unfold uptime_ms. ty. Qed.
Lemma keeps_plic_read o : keeps (plic_read (S := S) (D := D) o).
Proof. unfold plic_read. ty. Qed.
Lemma keeps_plic_write o v : keeps (plic_write (S := S) (D := D) o v).
Proof. unfold plic_write. ty. Qed.
#[local] Hint Resolve keeps_plic_read keeps_plic_write : typed.
Lemma keeps_external irqs : keeps (handle_external_interrupt (S := S) (D := D) irqs).
Proof.
  assert (Hl : ∀ hart, keeps (claim_loop (S := S) (D := D) irqs hart)).
  { intros hart. induction irqs as [|irqs IH]; cbn [claim_loop]; [ty|]. unfold claim, complete, service, notify_readers. ty. }
  unfold handle_external_interrupt. ty.
Qed.
#[local] Hint Resolve keeps_drop_arc keeps_tick keeps_uptime keeps_external : typed.

(** ** Images

    An entry point is eight bytes of the file; the stack pointer and the
    argument count passed the overflow checks. *)
Lemma load_typed kernel image s :
  wlp (load (S := S) kernel image) (λ r _, match r with Ok li => u64 (li_entry li) | Err _ => True end) s.
Proof.
  unfold load. wlp_steps. match goal with E : read_header _ = Ret ?h |- _ => rename h into r, E into Hr end.
  pose proof (sat_read_header image) as Hsat. rewrite Hr in Hsat. destruct r as [h|]; wlp_steps; [|done]. cbn in Hsat.
  intros c s1 _. destruct c as [sp|]; wlp_steps; [|done]. intros ? s2 _. wlp_steps. intros r s3 _.
  destruct r as [[sp' brk]|]; wlp_steps; [|done]. destruct (brk =? 0); wlp_steps; [intros ? ? _; by wlp_steps|]. cbn. apply Hsat.
Qed.
Lemma push_args_typed sp usp args s :
  wlp (push_args (S := S) sp usp args)
    (λ o _, match o with Some (usp, argc, argv) => u64 usp ∧ u64 argc ∧ u64 argv | None => True end) s.
Proof.
  unfold push_args. wlp_steps. intros r s1 _. destruct r as [[usp1 ptrs]|]; wlp_steps; [|done]. intros r s2 _.
  repeat match goal with E : _ +! _ = Ret _ |- _ => apply u64_add_inv in E as [-> ?] | E : _ -! _ = Ret _ |- _ => apply u64_sub_inv in E as [-> ?] end.
  assert (Hsp : u64 (Z.land (usp1 - a0) (u64_not 15))) by (apply u64_land; [lia|by apply u64_not_range]).
  destruct r; wlp_steps; [|done]. intros r s3 _. destruct r; wlp_steps; [|done]. split_and!; [done|unfold u64; lia|done].
Qed.

Definition built (r : result ExecError (AddressSpace * LoadedImage * (Z * Z * Z))) : Prop :=
  match r with Ok (_, li, (usp, argc, argv)) => u64 (li_entry li) ∧ u64 usp ∧ u64 argc ∧ u64 argv | Err _ => True end.
Lemma gives_build image args : gives (build_image (S := S) (D := D) image args) built.
Proof.
  unfold build_image. ty_step; [ty|]. ty_step; [apply gives_mem, load_typed|]. cbv beta. destruct a0 as [li|]; [|ty].
  ty_step; [ty|]. destruct a0 as [[top|] sp]; [|ty; done]. ty_step; [apply gives_mem; intros; apply push_args_typed|].
  destruct a0 as [[[usp argc] argv]|]; ty; done.
Qed.
Lemma gives_image_frame entry usp ksp argc argv :
  u64 entry → u64 usp → u64 ksp → u64 argc → u64 argv → gives (image_frame (S := S) (D := D) entry usp ksp argc argv) frame_typed.
Proof.
  intros. unfold image_frame, kernel_token.
  eapply gives_bind with (P := u64). { ty_step; [ty|]. apply gives_ret. by apply kty_token. }
  intros tok Htok. do 2 (ty_step; [ty|]). cbv beta in *. match goal with E : TrapFrame_new_user _ _ _ _ _ = Ret _ |- _ => rename E into Ef end.
  ty_step; [ty|]. apply gives_lift. intros f' Hf'.
  cbv beta in *. refine (set_reg_typed _ _ _ _ _ _ Hf'); [|done]. eapply set_reg_typed; [| |eassumption]; [|done].
  apply with_kernel_typed; [|done|done|by apply kty_hart]. refine (set_reg_typed _ _ _ _ _ _ Ef); [|done]. split; [done|]. cbn.
  repeat (apply Forall_cons_2; [split; done|]). repeat apply Forall_cons_2; try done.
  apply u64_land; [|by apply u64_not_range]. apply u64_lor; [|done]. apply u64_land; [by apply kty_sstatus|by apply u64_not_range].
Qed.
#[local] Hint Resolve gives_build : typed.

(** ** Processes *)
Lemma keeps_user_frame entry usp ksp argc argv ks :
  u64 entry ∧ u64 usp ∧ u64 argc ∧ u64 argv → stack_top ks = Ret ksp → gives (image_frame (S := S) (D := D) entry usp ksp argc argv) frame_typed.
Proof. intros (? & ? & ? & ?) ?%stack_top_typed. by apply gives_image_frame. Qed.

Lemma keeps_exec p nm image args : keeps (exec_current (S := S) (D := D) p nm image args).
Proof.
  unfold exec_current. ty_step; [ty|]. destruct a as [[[sp li] [[usp argc] argv]]|]; [|ty].
  do 3 (ty_step; [ty|]). ty_step; [cbv beta in *; eapply keeps_user_frame; eassumption|]. ty_step; [by apply keeps_box_new|]. ty.
Qed.
Lemma keeps_fork entry par f : frame_typed f → keeps (fork_from (S := S) (D := D) entry par f).
Proof.
  intros Hf. unfold fork_from, kernel_token. ty_step; [ty|]. destruct (space (user a)) as [psp|]; [|ty].
  do 2 (ty_step; [ty|]). destruct a1 as [sp|]; [|ty]. ty_step; [ty|]. destruct a1 as [ks|]; [|ty]. ty_step; [ty|].
  eapply gives_bind with (P := u64). { ty_step; [ty|]. apply gives_ret. by apply kty_token. }
  intros tok Htok. do 2 (ty_step; [ty|]). ty_step; [|ty]. apply keeps_box_new. cbv beta in *.
  eapply set_reg_typed; [| |eassumption]; [|done]. apply with_kernel_typed; [done|by eapply stack_top_typed|done|by apply kty_hart].
Qed.
Lemma keeps_brk p d : keeps (adjust_brk (S := S) (D := D) p d).
Proof. unfold adjust_brk, grow_heap. ty. Qed.
Lemma keeps_exit code : keeps (exit_current (S := S) (D := D) code).
Proof. unfold exit_current, on_exit, kernel_token. ty. Qed.
#[local] Hint Resolve keeps_exec keeps_fork keeps_brk keeps_exit : typed.

(** ** System calls

    A handler that went to sleep goes on from any typed state. *)
Fixpoint stays {A} (p : prog S D A) : Prop :=
  match p with
  | Done _ | Gone => True
  | Away r => ∀ k, kernel_typed k → match r k with Ret (p', k') => kernel_typed k' ∧ stays p' | Panic => True end
  end.
Abbreviation safe m := (gives m stays).

Lemma safe_done {A} (a : A) : safe (done (S := S) (D := D) a).
Proof. by apply gives_ret. Qed.
Lemma safe_away {A} b (m : K (prog S D A)) : safe m → stays (Away (λ k, (switch_back b;; m) k)).
Proof.
  intros Hm k Hk. assert (Hall : safe (switch_back b;; m)) by ty. specialize (Hall k Hk).
  unfold wlp in Hall. destruct ((switch_back b;; m) k) as [[p k']|]; [by apply Hall|done].
Qed.
Lemma safe_switch {A} (sw : K bool) (m : K (prog S D A)) : keeps sw → safe m → safe (away sw m).
Proof. intros Hs Hm. unfold away. ty_step; [exact Hs|]. apply gives_ret. by apply safe_away. Qed.
Lemma safe_wait {A} q (m : K (prog S D A)) : safe m → safe (wait q m).
Proof. intros Hm. unfold wait. ty_step; [ty|]. apply safe_switch; [apply keeps_switch|]. ty. Qed.
Lemma safe_wait_until {A} fuel q c (m : K (prog S D A)) : safe m → safe (wait_until fuel q c m).
Proof.
  intros Hm. induction fuel as [|fuel IH]; cbn [wait_until]; [ty|]. ty_step; [ty|]. destruct (c a); [done|by apply safe_wait].
Qed.
Lemma safe_pbind {A B} (p : prog S D A) (f : A → K (prog S D B)) : stays p → (∀ a, safe (f a)) → safe (pbind p f).
Proof.
  intros Hp Hf. induction p as [a| |r IH] using prog_deep_ind; cbn [pbind]; [apply Hf|by apply gives_ret|].
  apply gives_ret. intros k Hk. specialize (Hp k Hk). destruct (r k) as [[p' k']|] eqn:Hr; [|done]. destruct Hp as [Hk' Hp'].
  specialize (IH _ _ _ Hr Hp' k' Hk'). unfold wlp in IH. destruct (pbind p' f k') as [[p2 k2]|]; [by apply IH|done].
Qed.
#[local] Hint Resolve safe_done safe_switch safe_wait safe_wait_until : typed.

Section calls.
Context (programs : list (list byte * list byte)) (entry : Z).

Lemma keeps_space : keeps (current_space (S := S) (D := D)).
Proof. unfold current_space. ty. Qed.
Lemma keeps_take_input n : ∀ buf, keeps (take_input (S := S) (D := D) n buf).
Proof. induction n; intros; cbn [take_input]; ty. Qed.
Lemma keeps_read_argv n sp a : ∀ i args, keeps (read_argv (S := S) (D := D) n sp a i args).
Proof. induction n; intros; cbn [read_argv]; ty. Qed.
#[local] Hint Resolve keeps_space keeps_take_input keeps_read_argv : typed.

Lemma safe_write poll fd ptr len : safe (sys_write (S := S) (D := D) poll fd ptr len).
Proof. unfold sys_write, read_user_buf. ty. Qed.
Lemma safe_read wakes fd ptr len : safe (sys_read (S := S) (D := D) wakes fd ptr len).
Proof. unfold sys_read. ty. apply safe_wait_until. ty. Qed.
Lemma safe_fork f : frame_typed f → safe (sys_fork (S := S) (D := D) entry f).
Proof. intros Hf. unfold sys_fork. ty. Qed.
Lemma safe_exec path argv : safe (sys_exec (S := S) (D := D) programs path argv).
Proof. unfold sys_exec. ty. Qed.
Lemma safe_waitpid want ptr wakes : safe (sys_waitpid (S := S) (D := D) wakes want ptr).
Proof. induction wakes; cbn [sys_waitpid]; [ty|]. unfold scan_children, reap. ty. Qed.
#[local] Hint Resolve safe_write safe_read safe_fork safe_exec safe_waitpid : typed.
Lemma safe_dispatch poll wakes f : frame_typed f → safe (dispatch (S := S) (D := D) programs entry poll wakes f).
Proof. intros Hf. unfold dispatch, sys_exit, sys_getpid, sys_getppid, sys_sbrk, sys_ps, yield_now. ty. Qed.

Lemma safe_resched {A} (m : K (prog S D A)) : safe m → safe (resched m).
Proof. intros Hm. unfold resched. ty_step; [ty|]. destruct a; [|done]. apply gives_ret. by apply safe_away. Qed.
Lemma safe_return : safe (return_to_user (S := S) (D := D)).
Proof. apply safe_resched. unfold frame_ptr. ty. Qed.
#[local] Hint Resolve safe_dispatch safe_return : typed.
Lemma keeps_store_return b v : keeps (store_return (S := S) (D := D) b v).
Proof.
  unfold store_return. eapply gives_bind; [apply gives_get|]. intros k Hk. destruct (live (k_boxes k) !! b) as [f|] eqn:Hb; [|by apply gives_ret].
  eapply gives_bind; [apply (gives_lift _ (λ f', set_return f (of_isize v) = Ret f')); by intros|]. intros f' Hf'. apply keeps_box_set.
  eapply set_reg_typed; [| |exact Hf']; [by eapply kty_frames|]. by apply Z.mod_pos_bound.
Qed.
Lemma safe_ecall_done b v : safe (ecall_done (S := S) (D := D) b v).
Proof.
  unfold ecall_done. ty_step; [ty|]. eapply gives_bind; [apply keeps_store_return|intros ? ?; ty].
Qed.
Lemma safe_ecall poll wakes b : safe (ecall_from_user (S := S) (D := D) programs entry poll wakes b).
Proof.
  unfold ecall_from_user. do 2 (ty_step; [ty|]). ty_step; [apply keeps_box_set; cbv beta in *|].
  - match goal with E : _ +! _ = Ret _ |- _ => apply u64_add_inv in E as [-> ?] end. apply with_sepc_typed; [done|].
    pose proof (ft_words _ ltac:(eassumption)) as Hw. apply Forall_app in Hw as [_ Hw]. rewrite !Forall_cons in Hw.
    unfold u64 in *. lia.
  - do 2 (ty_step; [ty|]). ty_step; [ty|]. by apply safe_pbind; [|apply safe_ecall_done].
Qed.
Lemma safe_user_trap poll wakes irqs scause b : safe (user_trap_handler (S := S) (D := D) programs entry poll wakes irqs scause b).
Proof. pose proof safe_ecall. unfold user_trap_handler, kill_current. ty. Qed.
Lemma safe_kernel_trap irqs scause : safe (kernel_trap_handler (S := S) (D := D) irqs scause).
Proof. unfold kernel_trap_handler. ty_step; [ty|]. apply safe_resched, safe_done. Qed.
Lemma keeps_user_entry : keeps (user_entry (S := S) (D := D)).
Proof. unfold user_entry, frame_ptr. ty. Qed.
Lemma keeps_run_iter : keeps (run_iter (S := S) (D := D)).
Proof. unfold run_iter, space_token. ty. Qed.
Lemma keeps_new_user nm image args : keeps (new_user (S := S) (D := D) entry nm image args).
Proof.
  unfold new_user. ty_step; [ty|]. destruct a as [[[sp li] [[usp argc] argv]]|]; [|ty]. ty_step; [ty|]. destruct a as [ks|]; [|ty].
  ty_step; [ty|]. ty_step; [cbv beta in *; eapply keeps_user_frame; eassumption|]. ty_step; [by apply keeps_box_new|]. ty.
Qed.

(** The registers saved by a trap entry, and what the hardware sets. *)
Definition saved (b : Z) (f : TrapFrame) (k : Kst) : Kst :=
  set_boxes (mkBoxes (<[b := f]> (live (k_boxes k))) (next_box (k_boxes k))) k.
Definition hardware (st pending : Z) (k : Kst) : Kst :=
  let h := k_hart k in set_hart (mkHart st pending (stvec h) (satp h) (hart_id h) (sie h)) k.

Lemma saved_typed b f st pending k : frame_typed f → u64 st → kernel_typed k → kernel_typed (saved b f (hardware st pending k)).
Proof. intros Hf Hst []. split; cbn; try done. intros a g [[_ <-]|[_ ?]]%lookup_insert_Some; eauto. Qed.
End calls.
End kernel.
