(* ===== verification/Holdings.v ===== *)
(** * Who holds what

    Every task holds its kernel stack, its address space and the box of its
    trap frame.  [wf X k] says that these, and the resources [X] that are on
    their way from one holder to another, are intact and that no two of them
    share a page or a box.  The operations of the kernel move resources in and
    out of [X]. *)
From stdpp Require Import base numbers functions gmap list.
From coqutil Require Import Byte.
From Stdlib Require Import Lia.
From S2P Require Import Prelude Memory Config Addr FrameIface FrameProps PageTable PageTableInv PageTableOps.
From S2P Require Import Space SpaceInv SpaceMap SpaceOps SpaceUser SpaceWrite SpaceProps Loader LoaderProps.
From S2P Require Import Device Trap Task Sched SchedProps Kernel Process ArgsProps ImageProps ProcessProps Syscall.

(** ** Resources *)
Inductive item := IStack (f : Frame) | ISpace (sp : AddressSpace) | IBox (b : Z).
Inductive key := Page (q : Z) | Box (b : Z).

Definition claims (i : item) (x : key) : Prop :=
  match i, x with
  | IStack f, Page q => f_ppn f ≤ q < f_ppn f + 8
  | ISpace sp, Page q => q ∈ sp_ppns sp ∨ q ∈ table_pages (table sp)
  | IBox b, Box c => b = c
  | _, _ => False
  end.
Definition apart (i j : item) : Prop := ∀ x, claims i x → claims j x → False.

Fixpoint separate (l : list item) : Prop :=
  match l with [] => True | i :: l => Forall (apart i) l ∧ separate l end.

Lemma apart_sym i j : apart i j → apart j i.
Proof. unfold apart. eauto. Qed.
Lemma separate_perm l l' : l ≡ₚ l' → separate l → separate l'.
Proof.
  induction 1 as [|i l l' Hp IH|i j l|l1 l2 l3 _ IH1 _ IH2]; cbn; [done| | |tauto].
  - intros [Hi Hl]. split; [by rewrite <-Hp|by apply IH].
  - intros (Hj & Hi & Hl). apply Forall_cons in Hj as [Hji Hj]. split_and!; [|done|done].
    constructor; [by apply apart_sym|done].
Qed.
Lemma separate_app l l' : separate (l ++ l') → separate l ∧ separate l' ∧ ∀ i j, i ∈ l → j ∈ l' → apart i j.
Proof.
  induction l as [|i l IH]; cbn; [intros Hl; split_and!; [done|done|by intros ? ? ?%elem_of_nil]|].
  intros [Hi Hl]. apply Forall_app in Hi as [Hi1 Hi2]. destruct (IH Hl) as (? & ? & Hx). split_and!; [done|done|done|].
  intros j j' [->|Hj]%elem_of_cons Hj'; [by apply (proj1 (Forall_forall _ _) Hi2)|by apply Hx].
Qed.

(** What a task holds. *)
Definition opt {A} (f : A → item) (o : option A) : list item := match o with Some a => [f a] | None => [] end.
Definition items (t : Task) : list item := IStack (kstack t) :: opt ISpace (space (user t)) ++ opt IBox (frame (user t)).
Definition task_items (m : gmap Z Task) : list item := map_to_list (items <$> m) ≫= snd.

Lemma task_items_insert m p t : m !! p = None → task_items (<[p := t]> m) ≡ₚ items t ++ task_items m.
Proof.
  intros Hp. unfold task_items. rewrite fmap_insert, map_to_list_insert by (by rewrite lookup_fmap, Hp). done.
Qed.
Lemma task_items_delete m p t : m !! p = Some t → task_items m ≡ₚ items t ++ task_items (delete p m).
Proof.
  intros Hp. rewrite <- task_items_insert by apply lookup_delete_eq. by rewrite insert_delete_id.
Qed.
Lemma task_items_alter m p t g : m !! p = Some t → task_items (alter g p m) ≡ₚ items (g t) ++ task_items (delete p m).
Proof.
  intros Hp. rewrite (task_items_delete _ p (g t)) by (by rewrite lookup_alter_eq, Hp).
  by rewrite delete_alter_eq.
Qed.
Lemma elem_of_task_items m i : i ∈ task_items m ↔ ∃ p t, m !! p = Some t ∧ i ∈ items t.
Proof.
  unfold task_items. rewrite list_elem_of_bind. split.
  - intros ([p l] & Hi & Hl%elem_of_map_to_list). rewrite lookup_fmap in Hl. apply fmap_Some in Hl as (t & Ht & ->). by exists p, t.
  - intros (p & t & Ht & Hi). exists (p, items t). split; [done|]. apply elem_of_map_to_list. by rewrite lookup_fmap, Ht.
Qed.

(** The fields the resources depend on. *)
Definition res (t : Task) : Frame * option AddressSpace * option Z * Z * Z :=
  (kstack t, space (user t), frame (user t), brk (user t), heap_top (user t)).
Lemma res_items t t' : res t = res t' → items t = items t'.
Proof. unfold res, items. by intros [= -> -> -> _ _]. Qed.

Section wf.
Context {S D : Type} `{FrameAllocator S, !FrameAllocatorLaws S} `{Bus D} `{Firmware D}.
Implicit Types (k : Kernel S D) (s : S) (X : list item).
Abbreviation kt k := (kernel_tables (k_space k)).

Definition item_ok k (i : item) : Prop :=
  match i with
  | IStack f => (f_order f = 3 ∧ (8 | f_ppn f) ∧ canary_intact (fa_mem (k_mem k)) f = true) ∧
      ∀ q, f_ppn f ≤ q < f_ppn f + 8 → fa_used (k_mem k) q ∧ ¬ kt k q
  | ISpace sp => space_ok (kt k) sp (k_mem k)
  | IBox b => is_Some (live (k_boxes k) !! b)
  end.

(** A user process has a trap frame, room for its heap, and a stack. *)
Record user_ok (t : Task) sp (m : mem) : Prop := {
  uo_frame : is_Some (frame (user t));
  uo_heap : heap_ok (user t) sp m;
  uo_stack : umem sp m STACK_BOTTOM ≠ None }.

Definition world X k : list item := X ++ task_items (tasks (k_sched k)).

Record wf X k : Prop := {
  wf_ok : kernel_ok k;
  wf_items : ∀ i, i ∈ world X k → item_ok k i;
  wf_apart : separate (world X k);
  wf_user p t sp : tasks (k_sched k) !! p = Some t → space (user t) = Some sp →
    user_ok t sp (fa_mem (k_mem k)) }.

(** What [i] holds is the same in [k'] as in [k]. *)
Definition same_in k k' (i : item) : Prop :=
  (∀ q, claims i (Page q) → agree (page q) (fa_mem (k_mem k)) (fa_mem (k_mem k'))) ∧
  (∀ b, claims i (Box b) → live (k_boxes k') !! b = live (k_boxes k) !! b).

(** [b] is [p]'s box, or freed. *)
Definition its_box (p : Pid) (b : Z) k : Prop :=
  b < next_box (k_boxes k) ∧ ∀ t, tasks (k_sched k) !! p = Some t → frame (user t) = Some b ∨ live (k_boxes k) !! b = None.

(** A step on behalf of [a]: pids and boxes are not reused, and of every other
    task that is still there all it holds is as before. *)
Record advance (a : option Pid) k k' : Prop := {
  av_pid : next_pid (k_sched k) ≤ next_pid (k_sched k');
  av_box p b : p < next_pid (k_sched k) → its_box p b k → its_box p b k';
  av_other q t' : Some q ≠ a → q < next_pid (k_sched k) → tasks (k_sched k') !! q = Some t' →
    ∃ t, tasks (k_sched k) !! q = Some t ∧ res t' = res t ∧ ∀ i, i ∈ items t → same_in k k' i }.

Lemma same_in_refl k i : same_in k k i.
Proof. by split. Qed.
Lemma same_in_trans k1 k2 k3 i : same_in k1 k2 i → same_in k2 k3 i → same_in k1 k3 i.
Proof. intros [A1 B1] [A2 B2]. split; [intros q Hq; etransitivity; [by apply A1|by apply A2]|intros b Hb; rewrite B2 by done; by apply B1]. Qed.

Lemma advance_refl a k : advance a k k.
Proof. split; [done|done|]. intros q t Hq Hn Ht. exists t. split_and!; [done|done|]. intros; apply same_in_refl. Qed.
Lemma advance_trans a k1 k2 k3 : advance a k1 k2 → advance a k2 k3 → advance a k1 k3.
Proof.
  intros [P1 B1 O1] [P2 B2 O2]. split; [lia|intros p b Hp Hb; apply B2; [lia|by apply B1]|].
  intros q t3 Hq Hn Ht3. destruct (O2 q t3 Hq ltac:(lia) Ht3) as (t2 & Ht2 & R2 & S2). destruct (O1 q t2 Hq Hn Ht2) as (t1 & Ht1 & R1 & S1).
  exists t1. split_and!; [done|by rewrite R2|]. intros i Hi. eapply same_in_trans; [by apply S1|]. apply S2. by rewrite (res_items _ _ R1).
Qed.
Lemma advance_weaken a k k' : advance None k k' → advance a k k'.
Proof. intros [P B O]. split; [done|done|]. intros q t' _. by apply O. Qed.

(** ** Basic facts *)
Lemma claims_used X k i q : wf X k → i ∈ world X k → claims i (Page q) → fa_used (k_mem k) q ∧ ¬ kt k q.
Proof.
  intros Hw Hi Hq. pose proof (wf_items _ _ Hw i Hi) as Hok. destruct i as [f|sp|b]; cbn in *; [by apply Hok| |done].
  destruct Hok as [Hm [_ Hu Ht] _]. destruct Hq as [Hq|Hq]; [split; [by apply Hu|by apply Ht]|].
  split; [by apply (pt_wf_pages 256 (kt k) (table sp) (k_mem k) q (mp_wf _ _ _ _ Hm))|]. intros HK. by destruct (mp_K _ _ _ _ Hm q HK).
Qed.
Lemma world_task X k p t i : tasks (k_sched k) !! p = Some t → i ∈ items t → i ∈ world X k.
Proof. intros Ht Hi. apply elem_of_app. right. apply elem_of_task_items. by exists p, t. Qed.
Lemma canary_agree f m m' : 0 ≤ f_ppn f < 2 ^ 26 → agree (page (f_ppn f)) m m' → canary_intact m' f = canary_intact m f.
Proof.
  intros Hr Ha. unfold canary_intact. f_equal. apply load64_ext. intros x Hx. apply Ha.
  apply (page_word _ 0); [lia|]. unfold stack_bottom in Hx. rewrite as_ptr_eq in Hx by lia. by rewrite Z.mul_0_r, Z.add_0_r.
Qed.
Lemma item_ok_mem k s' i : item_ok k i → fa_inv s' →
  (∀ q, claims i (Page q) ∨ kt k q → fa_used s' q ∧ agree (page q) (fa_mem (k_mem k)) (fa_mem s')) → item_ok (set_mem s' k) i.
Proof.
  intros Hok Hi Hs. destruct i as [f|sp|b]; cbn in *; [|apply (space_ok_local (kt k) sp (k_mem k)); [done|done|]|done].
  - destruct Hok as ((? & ? & Hc) & Hu). split; [|intros q Hq; split; [apply Hs; by left|by apply Hu]].
    split_and!; [done|done|]. destruct (Hs (f_ppn f)) as [Hf Ha]; [left; lia|].
    rewrite (canary_agree f (fa_mem (k_mem k))); [done| |done]. by apply (fa_used_range s').
  - intros q Hq. apply Hs. tauto.
Qed.
Lemma umem_same k k' sp : same_in k k' (ISpace sp) → ∀ a, umem sp (fa_mem (k_mem k')) a = umem sp (fa_mem (k_mem k)) a.
Proof. intros [Hp _] a. apply umem_agree. intros q Hq. apply Hp. by left. Qed.
Lemma umem_none sp m m' a : umem sp m' a = None ↔ umem sp m a = None.
Proof. unfold umem. by destruct (user_addr sp a). Qed.
Lemma user_ok_same t t' sp sp' m m' : is_Some (frame (user t')) → brk (user t') = brk (user t) → heap_top (user t') = heap_top (user t) →
  (∀ a, umem sp' m' a = None ↔ umem sp m a = None) → user_ok t sp m → user_ok t' sp' m'.
Proof.
  intros R2 R3 R4 He [U1 [T1 T2 T3] U3]. split; [done| |by rewrite He]. split; rewrite ?R3, ?R4; [done|done|].
  intros a Ha. rewrite He. by apply T3.
Qed.
Lemma user_ok_mem t sp m m' : user_ok t sp m → user_ok t sp m'.
Proof. intros Hu. pose proof (uo_frame _ _ _ Hu). eapply user_ok_same; [done|done|done|intros; apply umem_none|exact Hu]. Qed.
Lemma space_item t sp : space (user t) = Some sp → ISpace sp ∈ items t.
Proof. intros Hs. unfold items. rewrite Hs. cbn. set_solver. Qed.

(** ** Memory *)

(** A change of memory that leaves alone what is held, the resources [X0]
    apart. *)
Lemma wf_mem X0 X k s' : wf (X0 ++ X) k → fa_inv s' →
  (∀ q, fa_used (k_mem k) q → (∀ i, i ∈ X0 → ¬ claims i (Page q)) → fa_used s' q ∧ agree (page q) (fa_mem (k_mem k)) (fa_mem s')) →
  wf X (set_mem s' k) ∧ advance None k (set_mem s' k).
Proof.
  intros Hw Hi Hs. pose proof Hw as [Hk Hit Hap Hus]. unfold world in Hit, Hap. rewrite <- app_assoc in Hit, Hap.
  destruct (separate_app _ _ Hap) as (_ & Hap' & Hx).
  assert (Hst : ∀ i, i ∈ world X k → ∀ q, claims i (Page q) → fa_used s' q ∧ agree (page q) (fa_mem (k_mem k)) (fa_mem s')).
  { intros i Hii q Hq. apply Hs; [eapply claims_used; [exact Hw| |exact Hq]; unfold world; rewrite <-app_assoc; apply elem_of_app; by right|].
    intros j Hj Hjq. by apply (Hx j i Hj Hii (Page q)). }
  assert (HK : ∀ q, kt k q → fa_used s' q ∧ agree (page q) (fa_mem (k_mem k)) (fa_mem s')).
  { intros q Hq. apply Hs; [by apply (pt_kernel_pages (table (k_space k)) (k_mem k) q (ko_half _ Hk))|].
    intros i Hii Hq'. eapply claims_used; [exact Hw| |exact Hq'|exact Hq]. unfold world. rewrite <-app_assoc. apply elem_of_app. by left. }
  assert (Hsame : ∀ i, i ∈ world X k → same_in k (set_mem s' k) i) by (intros i Hii; split; [intros q Hq; by apply (Hst i)|done]).
  split; [split|].
  - destruct Hk as [_ Hh Hb Hp]. split; [done| |done|done]. by apply (pt_kernel_stable _ (k_mem k)).
  - intros i Hii. apply item_ok_mem; [apply Hit; apply elem_of_app; by right|done|]. intros q [Hq|Hq]; [by apply (Hst i)|by apply HK].
  - exact Hap'.
  - intros p t sp Ht Hsp. eapply user_ok_mem. by apply (Hus p t sp).
  - split; [done|done|]. intros q t _ _ Ht. exists t. split_and!; [done|done|]. intros i Hii. apply Hsame. by eapply world_task.
Qed.
Lemma wf_perm X X' k : X ≡ₚ X' → wf X k → wf X' k.
Proof.
  intros HX [Hk Hit Hap Hus]. split; [done| | |done]; unfold world in *.
  - intros i. rewrite <-HX. apply Hit.
  - eapply separate_perm; [|exact Hap]. by rewrite HX.
Qed.
Lemma wf_add X k i : wf X k → item_ok k i → (∀ j, j ∈ world X k → apart i j) → wf (i :: X) k.
Proof.
  intros [Hk Hit Hap Hus] Hi Hn. split; [done| | |done]; unfold world in *; cbn.
  - intros j [->|Hj]%elem_of_cons; [done|by apply Hit].
  - split; [by apply Forall_forall|done].
Qed.

Lemma wf_restored X k s' : wf X k → restored (k_mem k) s' → wf X (set_mem s' k) ∧ advance None k (set_mem s' k).
Proof. intros Hw (Hi & Hu & Ha). apply (wf_mem []); [done|done|]. intros q Hq _. split; [by apply Hu|by apply Ha]. Qed.

(** A new space, a new stack: in pages nobody held. *)
Lemma wf_building X k sp s' : wf X k → building (kt k) (k_mem k) [] sp s' → wf (ISpace sp :: X) (set_mem s' k) ∧ advance None k (set_mem s' k).
Proof.
  intros Hw Hb. pose proof (building_ok _ _ _ _ Hb) as Hok. destruct Hb as [_ _ _ Hu Hf Ha].
  destruct (wf_mem [] X k s' Hw) as [Hw' Hav].
  { apply (maps_inv _ _ _ _ (so_maps _ _ _ Hok)). }
  { intros q Hq _. split; [apply Hu; by left|by apply Ha]. }
  split; [|done]. apply wf_add; [done|done|]. intros j Hj [q|b] Hq Hq'; [|done].
  apply (Hf q); [cbn in Hq; tauto|]. by apply (claims_used X k j q Hw).
Qed.
Lemma wf_stack X k ks ksp s' : wf X k → new_stack (k_mem k) ks ksp s' → f_order ks = 3 → (8 | f_ppn ks) →
  wf (IStack ks :: X) (set_mem s' k) ∧ advance None k (set_mem s' k).
Proof.
  intros Hw [Hi _ Hc Hu Hf Ha] Ho Hd. destruct (wf_mem [] X k s' Hw Hi) as [Hw' Hav].
  { intros q Hq _. split; [apply Hu; by left|by apply Ha]. }
  split; [|done]. apply wf_add; [done| |].
  - split; [done|]. intros q Hq. split; [apply Hu; by right|]. intros HK. apply (Hf q Hq).
    by apply (pt_kernel_pages (table (k_space k)) (k_mem k) q (ko_half _ (wf_ok _ _ Hw))).
  - intros j Hj [q|b] Hq Hq'; [|done]. apply (Hf q Hq). by apply (claims_used X k j q Hw).
Qed.

Lemma KernelStack_new_shape s : fa_inv s →
  wp KernelStack_new (λ r _, match r with Some ks => f_order ks = 3 ∧ (8 | f_ppn ks) | None => True end) s.
Proof.
  intros Hinv. unfold KernelStack_new, frame_alloc. change (Frame.order_for _) with 3. wp_steps.
  eapply wp_mono; [|by apply (fa_alloc_ok s 3)]. intros [p|] s1; [|done]. intros (_ & Hd & _). cbn. wp_steps. apply wp_update_mem. by wp_steps.
Qed.

(** ** Operations that move resources *)

(** The running task goes on running. *)
Record kept k k' : Prop := {
  kp_current : current (k_sched k') = current (k_sched k);
  kp_task p : current (k_sched k) = Some p → is_Some (tasks (k_sched k) !! p) → is_Some (tasks (k_sched k') !! p) }.
Lemma kept_trans k1 k2 k3 : kept k1 k2 → kept k2 k3 → kept k1 k3.
Proof. intros [C1 T1] [C2 T2]. split; [congruence|]. intros p Hp Ht. apply T2; [congruence|by apply T1]. Qed.

(** And under the same translation. *)
Record steady k k' : Prop := {
  sd_kept : kept k k';
  sd_satp : satp (k_hart k') = satp (k_hart k);
  sd_space : k_space k' = k_space k }.
Lemma steady_trans k1 k2 k3 : steady k1 k2 → steady k2 k3 → steady k1 k3.
Proof. intros [C1 T1 S1] [C2 T2 S2]. split; [by eapply kept_trans|congruence|congruence]. Qed.

(** [m] turns the resources [X] into [X'] and leaves the rest alone. *)
Definition moves {A} X (m : ST (Kernel S D) A) (X' : A → list item) : Prop :=
  ∀ k, wf X k → wlp m (λ a k', wf (X' a) k' ∧ advance None k k' ∧ steady k k') k.

Lemma moves_bind {A B} X (m : ST (Kernel S D) A) (X' : A → list item) (f : A → ST (Kernel S D) B) (X'' : B → list item) :
  moves X m X' → (∀ a, moves (X' a) (f a) X'') → moves X (m ≫= f) X''.
Proof.
  intros Hm Hf k Hw. apply wlp_bind. eapply wlp_mono; [|by apply Hm]. cbv beta. intros a k1 (Hw1 & Ha1 & Hc1).
  eapply wlp_mono; [|by apply Hf]. cbv beta. intros b k2 (Hw2 & Ha2 & Hc2). split_and!; [done|by eapply advance_trans|by eapply steady_trans].
Qed.
Lemma moves_ret {A} X (a : A) : moves X (mret a) (λ _, X).
Proof. intros k Hw. apply wlp_ret. split_and!; [done|apply advance_refl|done]. Qed.
Lemma moves_panic {A} X (X' : A → list item) : moves X (lift (A := A) Panic) X'.
Proof. intros k Hw. by apply wlp_lift. Qed.

(** What is given back is given back without a panic. *)
Lemma drop_space_total X sp k : wf (ISpace sp :: X) k →
  wp (in_mem (AddressSpace_drop sp)) (λ _ k', wf X k' ∧ advance None k k' ∧ steady k k' ∧ k' = set_mem (k_mem k') k) k.
Proof.
  intros Hw. apply wp_in_mem. assert (Hok : space_ok (kt k) sp (k_mem k)) by (apply (wf_items _ _ Hw (ISpace sp)); set_solver).
  eapply wp_mono; [|apply (AddressSpace_drop_spec (kt k) sp [] []); [apply Hok|rewrite app_nil_r; apply Hok|rewrite app_nil_r; apply Hok]].
  intros [] s' (Hi & Hu & Ha). destruct (wf_mem [ISpace sp] X k s' Hw Hi) as [Hw' Hav]; [|done].
  intros q Hq Hn. assert (fa_used s' q); [|split; [done|by apply Ha]]. apply Hu. specialize (Hn (ISpace sp)). cbn in Hn. set_solver.
Qed.
Lemma drop_stack_total X f k : wf (IStack f :: X) k →
  wp (in_mem (frame_drop f)) (λ _ k', wf X k' ∧ advance None k k' ∧ steady k k' ∧ k' = set_mem (k_mem k') k) k.
Proof.
  intros Hw. apply wp_in_mem. destruct (wf_items _ _ Hw (IStack f)) as ((Ho & Hd & _) & Hu); [set_solver|].
  unfold frame_drop. rewrite Ho. eapply wp_mono; [|apply (fa_free_ok (k_mem k) (f_ppn f) 3); [apply Hw|lia|done|intros q Hq; by apply Hu]].
  intros [] s' (Hi & Hu' & Ha). change (2 ^ 3) with 8 in *. destruct (wf_mem [IStack f] X k s' Hw Hi) as [Hw' Hav]; [|done].
  intros q Hq Hn. assert (fa_used s' q); [|split; [done|by apply Ha]]. apply Hu'. split; [done|]. apply (Hn (IStack f)). set_solver.
Qed.
Lemma moves_drop_space X sp : moves (ISpace sp :: X) (in_mem (AddressSpace_drop sp)) (λ _, X).
Proof. intros k Hw. apply wp_wlp. eapply wp_mono; [|by apply drop_space_total]. by intros [] k' (? & ? & ? & _). Qed.
Lemma moves_drop_stack X f : moves (IStack f :: X) (in_mem (frame_drop f)) (λ _, X).
Proof. intros k Hw. apply wp_wlp. eapply wp_mono; [|by apply drop_stack_total]. by intros [] k' (? & ? & ? & _). Qed.

(** ** Boxes *)
Lemma item_ok_boxes k B i : item_ok k i → (∀ b, claims i (Box b) → is_Some (live B !! b)) → item_ok (set_boxes B k) i.
Proof. destruct i; cbn; [done|done|]. intros _ Hb. by apply Hb. Qed.

(** Only the box [c] changes, which nobody but [X0] holds. *)
Lemma wf_boxes X0 X k B c : wf (X0 ++ X) k → next_box (k_boxes k) ≤ next_box B →
  (∀ b, is_Some (live B !! b) → b < next_box B) → (∀ b, b ≠ c → live B !! b = live (k_boxes k) !! b) →
  (∀ i, i ∈ world X k → ¬ claims i (Box c)) → (is_Some (live B !! c) → next_box (k_boxes k) ≤ c) →
  wf X (set_boxes B k) ∧ advance None k (set_boxes B k).
Proof.
  intros [Hk Hit Hap Hus] Hn Hlt Hoth Hc Hnew. unfold world in Hit, Hap. rewrite <- app_assoc in Hit, Hap.
  destruct (separate_app _ _ Hap) as (_ & Hap' & _).
  assert (Hlive : ∀ i b, i ∈ world X k → claims i (Box b) → live B !! b = live (k_boxes k) !! b).
  { intros i b Hi Hb. apply Hoth. intros ->. by apply (Hc i). }
  split; [split|].
  - destruct Hk. by split.
  - intros i Hi. apply item_ok_boxes; [apply Hit, elem_of_app; by right|]. intros b Hb. rewrite (Hlive i b Hi Hb).
    specialize (Hit i ltac:(apply elem_of_app; by right)). destruct i; try done. cbn in *. by subst.
  - exact Hap'.
  - exact Hus.
  - split; [done| |].
    + intros p b Hp [Hb Ht]. split; [cbn; lia|]. intros t Htt. destruct (Ht t Htt) as [Hf|Hf]; [by left|right].
      cbn. destruct (decide (b = c)) as [->|]; [|by rewrite Hoth]. apply eq_None_not_Some. intros Hs%Hnew. cbn in *. lia.
    + intros q t _ _ Ht. exists t. split_and!; [done|done|]. intros i Hi. split; [done|]. intros b Hb. cbn. apply (Hlive i b); [|done].
      by eapply world_task.
Qed.

Lemma moves_box_new X f : moves X (box_new f) (λ b, IBox b :: X).
Proof.
  intros k Hw. unfold box_new. wlp_steps. set (c := next_box (k_boxes k)). set (B := mkBoxes _ _).
  assert (Hfresh : live (k_boxes k) !! c = None) by (apply eq_None_not_Some; intros ?%(ko_boxes _ (wf_ok _ _ Hw)); unfold c in *; lia).
  assert (Hnone : ∀ i, i ∈ world X k → ¬ claims i (Box c)).
  { intros i Hi Hc. pose proof (wf_items _ _ Hw i Hi) as Hok. destruct i; try done. cbn in *. subst. by rewrite Hfresh in Hok; destruct Hok. }
  destruct (wf_boxes [] X k B c Hw) as [Hw' Hav]; [cbn; lia| | |done|cbn; unfold c; lia|].
  - intros b. cbn. rewrite lookup_insert_is_Some. intros [<-|[_ ?%(ko_boxes _ (wf_ok _ _ Hw))]]; lia.
  - intros b Hb. cbn. by rewrite lookup_insert_ne.
  - split_and!; [|done|done]. apply wf_add; [done|cbn; rewrite lookup_insert_eq; by eexists|].
    intros j Hj [q|b] Hq Hq'; [done|]. cbn in Hq. subst. by apply (Hnone j).
Qed.
Lemma moves_box_free X b : moves (IBox b :: X) (box_free (Some b)) (λ _, X).
Proof.
  intros k Hw. unfold box_free. wlp_steps. set (B := mkBoxes _ _).
  destruct (wf_boxes [IBox b] X k B b Hw) as [Hw' Hav]; [cbn; lia| | | |cbn; rewrite lookup_delete_eq; by intros []|done].
  - intros c. cbn. intros [_ ?]%lookup_delete_is_Some. by apply (ko_boxes _ (wf_ok _ _ Hw)).
  - intros c Hc. cbn. by rewrite lookup_delete_ne.
  - intros i Hi Hc. destruct (separate_app [IBox b] _ (wf_apart _ _ Hw)) as (_ & _ & Hx). by apply (Hx (IBox b) i ltac:(set_solver) Hi (Box b)).
Qed.

(** ** Tasks *)

(** Nothing that is held changes. *)
Record quiet k k' : Prop := {
  qt_mem : k_mem k' = k_mem k;
  qt_boxes : k_boxes k' = k_boxes k;
  qt_space : k_space k' = k_space k;
  qt_pid : next_pid (k_sched k') = next_pid (k_sched k);
  qt_res : res <$> tasks (k_sched k') = res <$> tasks (k_sched k) }.

Lemma quiet_refl k : quiet k k.
Proof. done. Qed.
Lemma quiet_trans k1 k2 k3 : quiet k1 k2 → quiet k2 k3 → quiet k1 k3.
Proof. intros [A1 B1 C1 D1 E1] [A2 B2 C2 D2 E2]. split; by etransitivity. Qed.
Lemma quiet_task k k' q t' : quiet k k' → tasks (k_sched k') !! q = Some t' → ∃ t, tasks (k_sched k) !! q = Some t ∧ res t' = res t.
Proof.
  intros Hq Ht'. pose proof (f_equal (.!! q) (qt_res _ _ Hq)) as He. cbv beta in He. rewrite !lookup_fmap, Ht' in He.
  destruct (tasks (k_sched k) !! q) as [t|]; [|done]. exists t. split; [done|]. cbn in He. congruence.
Qed.
Lemma quiet_kept k k' : quiet k k' → current (k_sched k') = current (k_sched k) → kept k k'.
Proof.
  intros Hq Hc. split; [done|]. intros p _ [t Ht]. pose proof (f_equal (.!! p) (qt_res _ _ Hq)) as He. cbv beta in He.
  rewrite !lookup_fmap, Ht in He. destruct (tasks (k_sched k') !! p); [by eexists|done].
Qed.
Lemma quiet_items k k' : quiet k k' → task_items (tasks (k_sched k')) = task_items (tasks (k_sched k)).
Proof.
  intros Hq. unfold task_items. do 2 f_equal. apply map_eq. intros p. pose proof (f_equal (.!! p) (qt_res _ _ Hq)) as He. cbv beta in He.
  rewrite !lookup_fmap in *. destruct (tasks (k_sched k') !! p), (tasks (k_sched k) !! p); try done. cbn in *. f_equal. apply res_items. congruence.
Qed.
Lemma wf_quiet X k k' : wf X k → quiet k k' → wf X k' ∧ advance None k k'.
Proof.
  intros [Hk Hit Hap Hus] Hq. pose proof Hq as [E1 E2 E3 E4 E5]. pose proof (quiet_items _ _ Hq) as Ei. split; [split|split].
  - destruct Hk as [K1 K2 K3 K4]. split; [by rewrite E1|by rewrite E1, E3|by rewrite E2|].
    intros q [t Ht]. rewrite E4. apply K4. destruct (quiet_task _ _ _ _ Hq Ht) as (t0 & -> & _). by eexists.
  - unfold world. rewrite Ei. intros i Hi. specialize (Hit i Hi). destruct i; cbn; rewrite ?E1, ?E2, ?E3; done.
  - unfold world. by rewrite Ei.
  - intros p t' sp Ht' Hsp. destruct (quiet_task _ _ _ _ Hq Ht') as (t & Ht & Hr). injection Hr as _ R1 R2 R3 R4.
    rewrite R1 in Hsp. pose proof (Hus p t sp Ht Hsp) as Hu. eapply user_ok_same; [rewrite R2; apply Hu|done|done|intros; apply umem_none|exact Hu].
  - by rewrite E4.
  - intros p b Hp [Hb Ht]. split; [by rewrite E2|]. intros t' Ht'. destruct (quiet_task _ _ _ _ Hq Ht') as (t & Htt & Hr).
    injection Hr as _ _ R2 _ _. rewrite R2, E2. by apply Ht.
  - intros q t' _ _ Ht'. destruct (quiet_task _ _ _ _ Hq Ht') as (t & Htt & Hr). exists t. split_and!; [done|done|].
    intros i Hi. split; [by rewrite E1|by rewrite E2].
Qed.

(** A task is dropped, or appears. *)
Lemma wf_delete X k p t : wf X k → tasks (k_sched k) !! p = Some t →
  let k' := set_sched (set_tasks (delete p (tasks (k_sched k))) (k_sched k)) k in wf (items t ++ X) k' ∧ advance None k k'.
Proof.
  intros [Hk Hit Hap Hus] Ht k'. assert (Hp : world (items t ++ X) k' ≡ₚ world X k).
  { unfold world. cbn. rewrite (task_items_delete _ p t Ht). solve_Permutation. }
  subst k'. split; [split|split].
  - destruct Hk as [K1 K2 K3 K4]. split; [done|done|done|]. cbn. intros q [_ ?]%lookup_delete_is_Some. by apply K4.
  - intros i. rewrite Hp. apply Hit.
  - eapply separate_perm; [symmetry; exact Hp|done].
  - cbn. intros q u sp [_ Hu]%lookup_delete_Some. by apply (Hus q u).
  - done.
  - intros q b _ [Hb Hu]. split; [done|]. cbn. intros u [_ Hu']%lookup_delete_Some. by apply Hu.
  - cbn. intros q u _ _ [_ Hu]%lookup_delete_Some. exists u. split_and!; [done|done|]. by intros; split.
Qed.
Lemma wf_insert X k t : wf (items t ++ X) k → 0 ≤ next_pid (k_sched k) < U64 - 1 →
  (∀ sp, space (user t) = Some sp → user_ok t sp (fa_mem (k_mem k))) →
  let p := next_pid (k_sched k) in
  let k' := set_sched (mkS (<[p := t]> (tasks (k_sched k))) (wrapping_add p 1) (run_queue (k_sched k)) (current (k_sched k))
    (previous (k_sched k)) (all_tasks (k_sched k))) k in wf X k' ∧ advance None k k'.
Proof.
  intros [Hk Hit Hap Hus] Hn Hu p k'.
  assert (Hfresh : tasks (k_sched k) !! p = None) by (apply eq_None_not_Some; intros ?%(ko_pids _ Hk); unfold p in *; lia).
  assert (Hnext : wrapping_add p 1 = p + 1) by (unfold wrapping_add; apply Z.mod_small; unfold p; lia).
  assert (Hp : world X k' ≡ₚ world (items t ++ X) k).
  { unfold world. cbn. rewrite (task_items_insert _ p t Hfresh). solve_Permutation. }
  subst k'. split; [split|split].
  - destruct Hk as [K1 K2 K3 K4]. split; [done|done|done|]. cbn. rewrite Hnext. intros q.
    rewrite lookup_insert_is_Some. intros [<-|[_ ?%K4]]; [lia|]. unfold p. lia.
  - intros i. rewrite Hp. apply Hit.
  - eapply separate_perm; [symmetry; exact Hp|done].
  - cbn. intros q u sp [[<- <-]|[_ Hq]]%lookup_insert_Some; [by apply Hu|by apply (Hus q u)].
  - cbn. rewrite Hnext. unfold p. lia.
  - intros q b Hq [Hb Ht]. split; [done|]. cbn. intros u [[<- <-]|[_ Hu']]%lookup_insert_Some; [unfold p in Hq; lia|by apply Ht].
  - cbn. intros q u _ Hq [[<- <-]|[_ Hu']]%lookup_insert_Some; [unfold p in Hq; lia|]. exists u. split_and!; [done|done|]. by intros; split.
Qed.

(** One task exchanges resources with [X]; its box stays. *)
Lemma wf_alter X X' k p t g : wf X k → tasks (k_sched k) !! p = Some t → X' ++ items (g t) ≡ₚ X ++ items t →
  (∀ sp, space (user (g t)) = Some sp → user_ok (g t) sp (fa_mem (k_mem k))) →
  let k' := set_sched (set_tasks (alter g p (tasks (k_sched k))) (k_sched k)) k in
  wf X' k' ∧ (frame (user (g t)) = frame (user t) → advance (Some p) k k') ∧
  ∀ q t', q ≠ p → tasks (k_sched k') !! q = Some t' → tasks (k_sched k) !! q = Some t'.
Proof.
  intros [Hk Hit Hap Hus] Ht HX Hu k'. assert (Hp : world X' k' ≡ₚ world X k).
  { unfold world. cbn. rewrite (task_items_alter _ p t g Ht), (task_items_delete _ p t Ht), !app_assoc, HX. done. }
  assert (Hoth : ∀ q t', q ≠ p → tasks (k_sched k') !! q = Some t' → tasks (k_sched k) !! q = Some t').
  { intros q t' Hq. cbn. by rewrite lookup_alter_ne. }
  subst k'. cbn in Hoth. split; [split|split; [|done]].
  - destruct Hk as [K1 K2 K3 K4]. split; [done|done|done|]. intros q. cbn. rewrite lookup_alter_is_Some. apply K4.
  - intros i. rewrite Hp. apply Hit.
  - eapply separate_perm; [symmetry; exact Hp|done].
  - intros q u sp Hq Hsp. destruct (decide (q = p)) as [->|Hne]; [|by apply (Hus q u); [apply Hoth|]].
    cbn in Hq. rewrite lookup_alter_eq, Ht in Hq. injection Hq as <-. by apply Hu.
  - intros Hfr. split; [done| |].
    + intros q b _ [Hb Hq]. split; [done|]. intros u Hu'. destruct (decide (q = p)) as [->|]; [|by apply Hq, Hoth].
      cbn in Hu'. rewrite lookup_alter_eq, Ht in Hu'. injection Hu' as <-. rewrite Hfr. by apply Hq.
    + intros q u Hq _ Hu'. exists u. split_and!; [apply Hoth; [congruence|done]|done|]. by intros; split.
Qed.

(** ** Writing user memory *)
Lemma items_space t sp : space (user t) = Some sp → items t ≡ₚ ISpace sp :: IStack (kstack t) :: opt IBox (frame (user t)).
Proof. intros Hs. unfold items. rewrite Hs. cbn. constructor. Qed.

(** Bytes of [p]'s pages change. *)
Lemma wf_write k p t sp s' : wf [] k → tasks (k_sched k) !! p = Some t → space (user t) = Some sp →
  space_ok (kt k) sp s' → (∀ q, fa_used s' q ↔ fa_used (k_mem k) q) →
  (∀ q, q ∉ sp_ppns sp → agree (page q) (fa_mem (k_mem k)) (fa_mem s')) →
  wf [] (set_mem s' k) ∧ advance (Some p) k (set_mem s' k).
Proof.
  intros Hw Ht Hsp Hok Hu Ha. pose proof Hw as [Hk Hit Hap Hus]. pose proof (maps_inv _ _ _ _ (so_maps _ _ _ Hok)) as Hi.
  set (rest := IStack (kstack t) :: opt IBox (frame (user t)) ++ task_items (delete p (tasks (k_sched k)))).
  assert (Hp : world [] k ≡ₚ ISpace sp :: rest).
  { unfold world, rest. cbn. rewrite (task_items_delete _ p t Ht), (items_space t sp Hsp). done. }
  pose proof (separate_perm _ _ Hp Hap) as [Hr _]. rewrite Forall_forall in Hr.
  assert (Hst : ∀ i, i ∈ rest → ∀ q, claims i (Page q) → fa_used s' q ∧ agree (page q) (fa_mem (k_mem k)) (fa_mem s')).
  { intros i Hii q Hq. split; [apply Hu; eapply claims_used; [exact Hw|rewrite Hp; by right|exact Hq]|].
    apply Ha. intros Hin. apply (Hr i Hii (Page q)); [by left|done]. }
  assert (HK : ∀ q, kt k q → fa_used s' q ∧ agree (page q) (fa_mem (k_mem k)) (fa_mem s')).
  { intros q Hq. split; [apply Hu; by apply (pt_kernel_pages (table (k_space k)) (k_mem k) q (ko_half _ Hk))|].
    apply Ha. intros Hin. by apply (ow_tables _ _ _ _ (so_owns _ _ _ Hok) q). }
  assert (Hsame : ∀ q u, q ≠ p → tasks (k_sched k) !! q = Some u → ∀ i, i ∈ items u → same_in k (set_mem s' k) i).
  { intros q u Hq Hu' i Hii. split; [|done]. intros x Hx. apply (Hst i); [|done]. unfold rest. right. apply elem_of_app. right.
    apply elem_of_task_items. exists q, u. by rewrite lookup_delete_ne. }
  split; [split|split].
  - destruct Hk as [_ Hh Hb Hpd]. split; [done| |done|done]. by apply (pt_kernel_stable _ (k_mem k)).
  - intros i Hii. change (world [] (set_mem s' k)) with (world [] k) in Hii. pose proof Hii as Hii'. rewrite Hp in Hii'.
    apply elem_of_cons in Hii' as [->|Hii']; [done|]. apply item_ok_mem; [by apply Hit|done|]. intros q [Hq|Hq]; [by apply (Hst i)|by apply HK].
  - exact Hap.
  - intros q u sp' Hq Hs. eapply user_ok_mem. by apply (Hus q u sp').
  - done.
  - done.
  - intros q u Hq _ Hu'. exists u. split_and!; [done|done|]. apply (Hsame q u); [congruence|done].
Qed.
End wf.
