(* ===== verification/Isolation.v ===== *)
(** * System calls keep processes apart

    What every operation does to the resources of [Holdings]: a call made by
    one process leaves the memory and the trap frame of every other one as they
    were, and keeps the holdings of all tasks disjoint. *)
From stdpp Require Import base numbers functions gmap list.
From coqutil Require Import Byte LittleEndianList.
From Stdlib Require Import Lia.
From S2P Require Import Prelude Memory Config Addr FrameIface FrameProps PageTable PageTableInv PageTableOps.
From S2P Require Import Space SpaceInv SpaceMap SpaceOps SpaceUser SpaceWrite SpaceProps Loader LoaderProps.
From S2P Require Import Device Trap Task Sched SchedProps Kernel Process Syscall ArgsProps ImageProps ProcessProps Holdings.
From S2P Require Uart.

Section drop.
Context {S D : Type} `{FrameAllocator S, !FrameAllocatorLaws S} `{Bus D} `{Firmware D}.
Implicit Types (k : Kernel S D) (X : list item).

Lemma moves_foldr X (g : Pid → ST (Kernel S D) unit) l : (∀ q, moves X (g q) (λ _, X)) → moves X (foldr (λ q m, g q;; m) (mret tt) l) (λ _, X).
Proof. intros Hg. induction l as [|q l IH]; cbn; [apply moves_ret|]. eapply moves_bind; [apply Hg|]. intros []. exact IH. Qed.
Lemma moves_drop_opt X o : moves (opt ISpace o ++ X) (drop_space (S := S) (D := D) o) (λ _, X).
Proof. destruct o; cbn; [apply moves_drop_space|apply moves_ret]. Qed.
Lemma moves_box_opt X o : moves (opt IBox o ++ X) (box_free (S := S) (D := D) o) (λ _, X).
Proof. destruct o; [apply moves_box_free|apply moves_ret]. Qed.

(** Dropping a reference: whatever is dropped gives back all it held. *)
Lemma moves_drop_arc fuel : ∀ q X, moves X (drop_arc (S := S) (D := D) fuel q) (λ _, X).
Proof.
  induction fuel as [|fuel IH]; intros q X; cbn [drop_arc]; [apply moves_panic|]. intros k Hw. apply wlp_bind, wlp_get.
  destruct (tasks (k_sched k) !! q) as [t|] eqn:Ht; [|by apply moves_ret]. destruct (referenced k q) eqn:Hr; [by apply moves_ret|].
  apply wlp_bind, wlp_put. destruct (wf_delete X k q t Hw Ht) as [Hw' Ha'].
  assert (Hrest : moves (S := S) (D := D) (items t ++ X)
    (foldr (λ q m, drop_arc fuel q;; m) (mret tt) (child_exit t);; in_mem (frame_drop (kstack t));; drop_space (space (user t));;
     box_free (frame (user t));; foldr (λ q m, drop_arc fuel q;; m) (mret tt) (children (user t))) (λ _, X)).
  { eapply moves_bind; [by apply moves_foldr|]. intros []. cbn [items app]. eapply moves_bind; [apply moves_drop_stack|]. intros [].
    rewrite <- app_assoc. eapply moves_bind; [apply moves_drop_opt|]. intros []. eapply moves_bind; [apply moves_box_opt|].
    intros []. by apply moves_foldr. }
  eapply wlp_mono; [|apply Hrest, Hw']. cbv beta. intros [] k' (Hw2 & Ha2 & Hc2). split_and!; [done|by eapply advance_trans|].
  eapply steady_trans; [|exact Hc2]. split; [split; [done|]|done|done]. cbn. intros p Hp Hin. rewrite lookup_delete_ne; [done|]. intros ->. revert Hr.
  unfold referenced. rewrite (bool_decide_eq_true_2 (current _ = _) Hp), orb_true_r. done.
Qed.
End drop.

(** ** Operations that move nothing *)

(** On the scheduler's store: tasks keep what they hold. *)
Record soft (s s' : Sched) : Prop := {
  sf_pid : next_pid s' = next_pid s;
  sf_res : res <$> tasks s' = res <$> tasks s }.
Definition mild {A} (m : ST Sched A) : Prop := ∀ s, wlp m (λ _ s', soft s s' ∧ current s' = current s) s.

Lemma res_alter (m : gmap Z Task) p g : (∀ t, res (g t) = res t) → res <$> alter g p m = res <$> m.
Proof.
  intros Hg. apply map_eq. intros q. rewrite !lookup_fmap. destruct (decide (q = p)) as [->|]; [|by rewrite lookup_alter_ne].
  rewrite lookup_alter_eq. destruct (m !! p); cbn; [by rewrite Hg|done].
Qed.
Lemma mild_bind {A B} (m : ST Sched A) (f : A → ST Sched B) : mild m → (∀ a, mild (f a)) → mild (m ≫= f).
Proof.
  intros Hm Hf s. apply wlp_bind. eapply wlp_mono; [|apply Hm]. cbv beta. intros a s1 [[P1 R1] C1].
  eapply wlp_mono; [|apply Hf]. cbv beta. intros b s2 [[P2 R2] C2]. split; [split; congruence|congruence].
Qed.
Lemma mild_upd p g : (∀ t, res (g t) = res t) → mild (upd_task p g).
Proof. intros Hg s. unfold upd_task. wlp_steps. split; [split; [done|by apply res_alter]|done]. Qed.
Lemma mild_get {A} (f : Sched → ST Sched A) : (∀ s, mild (f s)) → mild (get ≫= f).
Proof. intros Hf s. apply wlp_bind, wlp_get, Hf. Qed.
Lemma mild_get_task p : mild (get_task p).
Proof. intros s. unfold get_task. by wlp_steps. Qed.
Lemma mild_lift {A} (o : outcome A) : mild (lift o).
Proof. intros s. by wlp_steps. Qed.
Lemma mild_ret {A} (a : A) : mild (mret a).
Proof. intros s. by wlp_steps. Qed.
Lemma mild_current : mild current_task.
Proof. intros s. unfold current_task. by wlp_steps. Qed.
Lemma mild_push p l : mild (queue_push p l).
Proof. intros s. unfold queue_push. by wlp_steps. Qed.

Create HintDb mild.
#[export] Hint Resolve mild_get_task mild_lift mild_ret mild_current mild_push : mild.
#[export] Hint Extern 4 (mild (upd_task _ _)) => apply mild_upd; done : mild.
Ltac mild :=
  repeat (cbv beta; lazymatch goal with
  | |- mild (get ≫= _) => apply mild_get; intros ?
  | |- mild (_ ≫= _) => apply mild_bind; [|intros ?]
  | |- mild (match ?x with _ => _ end) => destruct x
  | |- mild _ => solve [eauto with mild]
  end).

Lemma mild_wake p : mild (wake p).
Proof. unfold wake. mild. Qed.
Lemma mild_exit_code p : mild (task_exit_code p).
Proof. unfold task_exit_code. mild. Qed.
Lemma mild_tick : mild on_timer_tick.
Proof. unfold on_timer_tick. mild. Qed.
Lemma mild_take_resched : mild take_resched.
Proof. unfold take_resched. mild. Qed.
Lemma mild_dump : mild dump_tasks.
Proof. intros s. unfold dump_tasks. by wlp_steps. Qed.
Lemma mild_pop : mild run_pop.
Proof. intros s. unfold run_pop. wlp_steps. destruct (rq_pop (run_queue s)). by wlp_steps. Qed.
Lemma mild_then {A} (m : ST Sched A) s0 s : soft s0 s ∧ current s = current s0 → mild m →
  wlp m (λ _ s', soft s0 s' ∧ current s' = current s0) s.
Proof.
  intros [[P1 R1] C1] Hm. eapply wlp_mono; [|apply Hm]. cbv beta. intros a s' [[P2 R2] C2]. split; [split; congruence|congruence].
Qed.
Lemma mild_admit p : mild (admit_task p).
Proof. intros s. unfold admit_task. wlp_steps. by apply mild_then; [|apply mild_push]. Qed.
Lemma mild_requeue : mild run_requeue.
Proof.
  intros s. unfold run_requeue. apply wlp_bind, wlp_get. destruct (previous s) as [p|]; [|by wlp_steps].
  apply wlp_bind, wlp_put. apply mild_then; [done|]. mild.
Qed.
#[export] Hint Resolve mild_wake mild_exit_code mild_tick mild_take_resched mild_dump mild_pop mild_admit mild_requeue : mild.

(** The two that change who runs. *)
Lemma soft_switch_out intact st s : wlp (switch_out intact st) (λ _ s', soft s s' ∧ current s' = None) s.
Proof.
  unfold switch_out, get_task, upd_task. wlp_steps. destruct (intact _); wlp_steps; [|done]. split; [|done]. split; [done|]. by apply res_alter.
Qed.
Lemma soft_run_start p s : wlp (run_start p) (λ _ s', soft s s' ∧ current s' = Some p ∧ is_Some (tasks s' !! p)) s.
Proof.
  unfold run_start, get_task, upd_task. wlp_steps. cbn. split_and!; [split; [done|by apply res_alter]|done|].
  apply lookup_alter_is_Some. destruct (tasks s !! p); [by eexists|done].
Qed.

Section quiet.
Context {S D : Type} `{FrameAllocator S, !FrameAllocatorLaws S} `{Bus D} `{Firmware D}.
Abbreviation Kst := (Kernel S D).
Abbreviation K := (ST Kst).
Implicit Types (k : Kst).

Record calm k k' : Prop := {
  cm_quiet : quiet k k';
  cm_current : current (k_sched k') = current (k_sched k);
  cm_satp : satp (k_hart k') = satp (k_hart k) }.
Definition still {A} (m : K A) : Prop := ∀ k, wlp m (λ _ k', calm k k') k.

Lemma calm_refl k : calm k k.
Proof. done. Qed.
Lemma calm_trans k1 k2 k3 : calm k1 k2 → calm k2 k3 → calm k1 k3.
Proof. intros [Q1 C1 T1] [Q2 C2 T2]. split; [by eapply quiet_trans|congruence|congruence]. Qed.
Lemma calm_steady k k' : calm k k' → steady k k'.
Proof. intros [Q C T]. split; [by apply quiet_kept|done|apply Q]. Qed.

Lemma still_bind {A B} (m : K A) (f : A → K B) : still m → (∀ a, still (f a)) → still (m ≫= f).
Proof.
  intros Hm Hf k. apply wlp_bind. eapply wlp_mono; [|apply Hm]. cbv beta. intros a k1 T1.
  eapply wlp_mono; [|apply Hf]. cbv beta. intros b k2 T2. by eapply calm_trans.
Qed.
Lemma still_get {A} (f : Kst → K A) : (∀ k, still (f k)) → still (get ≫= f).
Proof. intros Hf k. apply wlp_bind, wlp_get, Hf. Qed.
Lemma still_put {A} (g : Kst → Kst) (f : Kst → K A) : (∀ k, calm k (g k)) → (∀ k, still (f k)) → still (k ← get; put (g k);; f k).
Proof.
  intros Hg Hf k. apply wlp_bind, wlp_get, wlp_bind, wlp_put. eapply wlp_mono; [|apply Hf]. cbv beta. intros a k2 T2. by eapply calm_trans.
Qed.
Lemma still_put1 (g : Kst → Kst) : (∀ k, calm k (g k)) → still (k ← get; put (g k)).
Proof. intros Hg k. apply wlp_bind, wlp_get, wlp_put, Hg. Qed.
Lemma still_state : still (A := Kst) get.
Proof. intros k. by apply wlp_get. Qed.
Lemma still_lift {A} (o : outcome A) : still (lift o).
Proof. intros k. by wlp_steps. Qed.
Lemma still_ret {A} (a : A) : still (mret a).
Proof. intros k. by wlp_steps. Qed.
Lemma still_sched {A} (m : ST Sched A) : mild m → still (in_sched m).
Proof.
  intros Hm k a k'. unfold in_sched. destruct (m (k_sched k)) as [[b s]|] eqn:E; [|done]. intros [= <- <-].
  destruct (Hm _ _ _ E) as [[P R] C]. by split.
Qed.
Lemma still_con {A} (m : ST (Uart.uart D) A) : still (in_con m).
Proof. intros k a k'. unfold in_con. destruct (m (k_con k)) as [[b u]|]; [|done]. intros [= <- <-]. done. Qed.
Lemma still_hart f : (∀ h, satp (f h) = satp h) → still (on_hart (S := S) (D := D) f).
Proof. intros Hf. apply still_put1. intros k. split; [done|done|apply Hf]. Qed.

Lemma calm_waiters q l k : calm k (set_waiters q l k).
Proof. destruct q as [|p]; [done|]. split; [|done|done]. split; try done. by apply res_alter. Qed.
End quiet.
Create HintDb still.
#[export] Hint Resolve still_state still_lift still_ret still_con calm_waiters : still.
#[export] Hint Extern 2 (still (on_hart _)) => apply still_hart; done : still.
#[export] Hint Extern 3 (still (in_sched _)) => apply still_sched; solve [eauto with mild] : still.
Ltac still_step :=
  cbv beta; lazymatch goal with
  | |- still (get ≫= _) => first [apply still_put; [intros ?; solve [done|apply calm_waiters]|intros ?]
                               | apply still_put1; intros ?; solve [done|apply calm_waiters] | apply still_get; intros ?]
  | |- still (_ ≫= _) => apply still_bind; [|intros ?]
  | |- still (let _ := _ in _) => cbv zeta
  | |- still (match ?x with _ => _ end) => destruct x
  | |- still _ => solve [eauto 3 with still]
  end.
Ltac still := repeat still_step.

Section still.
Context {S D : Type} `{FrameAllocator S, !FrameAllocatorLaws S} `{Bus D} `{Firmware D}.
Abbreviation Kst := (Kernel S D).
Implicit Types (k : Kst).

Lemma still_wait_enter q : still (wait_enter (S := S) (D := D) q).
Proof. unfold wait_enter. still. Qed.
Lemma still_wait_leave q p : still (wait_leave (S := S) (D := D) q p).
Proof. unfold wait_leave. still. Qed.
Lemma still_wake_list l : still (wake_list (S := S) (D := D) l).
Proof. induction l; cbn [wake_list]; still. Qed.
#[local] Hint Resolve still_wake_list : still.
Lemma still_wake_all q : still (wake_all (S := S) (D := D) q).
Proof. unfold wake_all. still. Qed.
Lemma still_switch_back b : still (switch_back (S := S) (D := D) b).
Proof. unfold switch_back. still. Qed.
Lemma still_read_time : still (read_time (S := S) (D := D)).
Proof. intros k. unfold read_time. apply wlp_bind, wlp_get. destruct (rdtime _). by wlp_steps. Qed.
Lemma still_set_timer v : still (set_timer (S := S) (D := D) v).
Proof. intros k. unfold set_timer. apply wlp_bind, wlp_get. destruct (ecall _ _ _ _ _ _). by wlp_steps. Qed.
#[local] Hint Resolve still_read_time still_set_timer : still.
Lemma still_tick : still (on_tick (S := S) (D := D)).
Proof. unfold on_tick, set_deadline. still. Qed.
Lemma still_uptime : still (uptime_ms (S := S) (D := D)).
Proof. unfold uptime_ms. still. Qed.
Lemma still_plic_read o : still (plic_read (S := S) (D := D) o).
Proof. unfold plic_read. do 2 (apply still_bind; [still|intros ?]). intros k. apply wlp_bind, wlp_get. destruct (read_volatile _ _). by wlp_steps. Qed.
Lemma still_plic_write o v : still (plic_write (S := S) (D := D) o v).
Proof. unfold plic_write. still. Qed.
#[local] Hint Resolve still_plic_read still_plic_write still_wake_all : still.
Lemma still_external irqs : still (handle_external_interrupt (S := S) (D := D) irqs).
Proof.
  unfold handle_external_interrupt. apply still_get. intros k. generalize (hart_id (k_hart k)). intros hart.
  induction irqs as [|irqs IH]; cbn [claim_loop]; unfold claim, complete, service, notify_readers; still.
Qed.
End still.
#[export] Hint Resolve still_wait_enter still_wait_leave still_wake_all still_switch_back still_tick still_uptime still_external : still.

(** ** Calls of one process *)
Lemma activate_token_satp old new : (activate_token old new).1 = new.
Proof. unfold activate_token. by destruct (Z.eqb_spec old new). Qed.

Section calls.
Context {S D : Type} `{FrameAllocator S, !FrameAllocatorLaws S} `{Bus D} `{Firmware D}.
Abbreviation Kst := (Kernel S D).
Abbreviation K := (ST Kst).
Implicit Types (k : Kst).
Context (p : Pid) (b : Z).

(** The hart translates with the table of task [p]. *)
Definition task_token k (t : Task) : Z := AS_token (match space (user t) with Some sp => sp | None => k_space k end).
Definition runs k : Prop := ∃ t, tasks (k_sched k) !! p = Some t ∧ satp (k_hart k) = task_token k t.

(** [p] runs, and trapped with the frame in box [b]. *)
Record alive k : Prop := {
  al_wf : wf [] k;
  al_current : current (k_sched k) = Some p;
  al_runs : runs k;
  al_pid : p < next_pid (k_sched k);
  al_box : its_box p b k }.

Definition does {A} (m : K A) (P : A → Prop) : Prop := ∀ k, alive k → wlp m (λ a k', alive k' ∧ advance (Some p) k k' ∧ P a) k.
(** The last thing a handler does may give up the processor. *)
Definition ends {A} (m : K A) (P : A → Kst → Prop) : Prop := ∀ k, alive k → wlp m (λ a k', wf [] k' ∧ advance (Some p) k k' ∧ P a k') k.

Lemma alive_advance k k' : alive k → wf [] k' → advance (Some p) k k' → current (k_sched k') = current (k_sched k) → runs k' → alive k'.
Proof. intros [Hw Hc Ht Hp Hb] Hw' Ha Hc' Ht'. split; [done|congruence|done|pose proof (av_pid _ _ _ Ha); lia|by apply (av_box _ _ _ Ha)]. Qed.
Lemma runs_steady k k' : current (k_sched k) = Some p → p < next_pid (k_sched k) → runs k → advance None k k' → steady k k' → runs k'.
Proof.
  intros Hc Hp (t & Ht & Htok) Ha [[_ Hk'] Hs Hsp]. destruct (Hk' p Hc ltac:(by rewrite Ht)) as [t' Ht'].
  destruct (av_other _ _ _ Ha p t') as (u & Hu & R & _); [done|done|done|].
  rewrite Ht in Hu. injection Hu as <-. exists t'. split; [done|]. rewrite Hs, Htok. unfold task_token. injection R as _ -> _ _ _. by rewrite Hsp.
Qed.
Lemma alive_steady k k' : alive k → wf [] k' → advance None k k' → steady k k' → alive k'.
Proof.
  intros Hk Hw' Ha Hs. pose proof Hk as [Hw Hc Hr Hp Hb]. apply (alive_advance k); [done|done|by apply advance_weaken|apply Hs|by eapply runs_steady].
Qed.
Lemma does_weaken {A} (m : K A) (P Q : A → Prop) : (∀ a, P a → Q a) → does m P → does m Q.
Proof. intros HP Hm k Hk. eapply wlp_mono; [|by apply Hm]. cbv beta. intros a k' (? & ? & ?). auto. Qed.
Lemma does_bind {A B} (m : K A) (f : A → K B) P Q : does m P → (∀ a, P a → does (f a) Q) → does (m ≫= f) Q.
Proof.
  intros Hm Hf k Hk. apply wlp_bind. eapply wlp_mono; [|by apply Hm]. cbv beta. intros a k1 (Hk1 & A1 & Ha).
  eapply wlp_mono; [|by apply Hf]. cbv beta. intros c k2 (Hk2 & A2 & Hc). split; [done|split; [by eapply advance_trans|done]].
Qed.
Lemma ends_bind {A B} (m : K A) (f : A → K B) P Q : does m P → (∀ a, P a → ends (f a) Q) → ends (m ≫= f) Q.
Proof.
  intros Hm Hf k Hk. apply wlp_bind. eapply wlp_mono; [|by apply Hm]. cbv beta. intros a k1 (Hk1 & A1 & Ha).
  eapply wlp_mono; [|by apply Hf]. cbv beta. intros c k2 (Hk2 & A2 & Hc). split; [done|split; [by eapply advance_trans|done]].
Qed.
Lemma ends_ret {A} (a : A) (P : A → Kst → Prop) : (∀ k, alive k → P a k) → ends (mret a) P.
Proof. intros Ha k Hk. apply wlp_ret. split_and!; [apply Hk|apply advance_refl|by apply Ha]. Qed.
Lemma does_ret {A} (a : A) (P : A → Prop) : P a → does (mret a) P.
Proof. intros Ha k Hk. apply wlp_ret. split_and!; [done|apply advance_refl|done]. Qed.
Lemma ends_panic {A} (P : A → Kst → Prop) : ends (lift Panic) P.
Proof. intros k Hk. by apply wlp_lift. Qed.
Lemma does_lift {A} (o : outcome A) : does (lift o) (λ a, o = Ret a).
Proof. intros k Hk. apply wlp_lift. intros a E. split_and!; [done|apply advance_refl|done]. Qed.
Lemma does_still {A} (m : K A) : still m → does m (λ _, True).
Proof.
  intros Hm k Hk. eapply wlp_mono; [|apply Hm]. cbv beta. intros a k' Hq. destruct (wf_quiet [] k k' (al_wf _ Hk) (cm_quiet _ _ Hq)) as [Hw Ha].
  split_and!; [eapply alive_steady; [done|done|done|by apply calm_steady]|by apply advance_weaken|done].
Qed.
Lemma does_moves {A} (m : K A) : moves [] m (λ _, []) → does m (λ _, True).
Proof.
  intros Hm k Hk. eapply wlp_mono; [|apply Hm, Hk]. cbv beta. intros a k' (Hw & Ha & Hc).
  split_and!; [by eapply alive_steady|by apply advance_weaken|done].
Qed.
Lemma does_get {A} (f : Kst → K A) P : (∀ k, alive k → wlp (f k) (λ a k', alive k' ∧ advance (Some p) k k' ∧ P a) k) → does (get ≫= f) P.
Proof. intros Hf k Hk. apply wlp_bind, wlp_get. by apply Hf. Qed.
Lemma does_current : does (in_sched current_task) (λ a, a = p).
Proof.
  intros k Hk a k'. unfold in_sched, current_task, mbind, ST_bind, get, lift. rewrite (al_current _ Hk). cbn. intros [= <- <-].
  assert (set_sched (k_sched k) k = k) as -> by by destruct k. split_and!; [done|apply advance_refl|done].
Qed.

(** Giving up the processor. *)
Definition quits {A} (m : K A) : Prop := ∀ k, wlp m (λ _ k', quiet k k' ∧ current (k_sched k') = None) k.
Lemma quits_switch st : quits (switch_to_idle (S := S) (D := D) st).
Proof.
  intros k. unfold switch_to_idle, on_hart. wlp_steps. intros a k'. unfold in_sched. cbn [k_sched set_hart].
  destruct (switch_out _ st (k_sched k)) as [[c s]|] eqn:E; [|done]. intros [= <- <-]. wlp_steps. by destruct (soft_switch_out _ _ _ _ _ E) as [[] ?].
Qed.
Lemma ends_quits {A} (m : K A) : quits m → ends m (λ _ k', current (k_sched k') = None).
Proof.
  intros Hm k Hk. eapply wlp_mono; [|apply Hm]. cbv beta. intros a k' [Hq Hc]. destruct (wf_quiet [] k k' (al_wf _ Hk) Hq) as [Hw Ha].
  split_and!; [done|by apply advance_weaken|done].
Qed.

(** A handler that has returned left [p] running; one that sleeps goes on from
    any such state. *)
Fixpoint goes {A} (pr : prog S D A) k : Prop :=
  match pr with
  | Done _ => alive k
  | Gone => current (k_sched k) = None
  | Away r => current (k_sched k) = None ∧ ∀ k1, alive k1 → match r k1 with Ret (pr', k') => wf [] k' ∧ advance (Some p) k1 k' ∧ goes pr' k' | Panic => True end
  end.
Abbreviation call m := (ends m goes).

Lemma call_done {A} (a : A) : call (done (S := S) (D := D) a).
Proof. by apply ends_ret. Qed.
Lemma call_away {A} w (m : K (prog S D A)) k0 : current (k_sched k0) = None → call m → goes (Away (λ k, (switch_back w;; m) k)) k0.
Proof.
  intros Hc Hm. split; [done|]. intros k Hk. assert (Hall : call (switch_back w;; m)).
  { eapply ends_bind; [apply does_still, still_switch_back|]. by intros. }
  specialize (Hall k Hk). unfold wlp in Hall. destruct ((switch_back w;; m) k) as [[pr k']|]; [by apply Hall|done].
Qed.
Lemma call_switch {A} sw (m : K (prog S D A)) : quits sw → call m → call (away sw m).
Proof.
  intros Hs Hm k Hk. unfold away. apply wlp_bind. eapply wlp_mono; [|by apply (ends_quits sw Hs k)].
  cbv beta. intros w k' (Hw & Ha & Hc). apply wlp_ret. split; [done|split; [done|by apply call_away]].
Qed.
Lemma call_wait {A} q (m : K (prog S D A)) : call m → call (wait q m).
Proof.
  intros Hm. unfold wait. eapply ends_bind; [apply does_still; still|]. intros c _. apply call_switch; [apply quits_switch|].
  eapply ends_bind; [apply does_still; still|]. by intros.
Qed.
Lemma call_wait_until {A} fuel q c (m : K (prog S D A)) : call m → call (wait_until fuel q c m).
Proof.
  intros Hm. induction fuel as [|fuel IH]; cbn [wait_until]; [by apply ends_panic|]. intros k Hk. apply wlp_bind, wlp_get.
  destruct (c k); [by apply Hm|by apply call_wait].
Qed.
Lemma goes_pbind {A B} (f : A → K (prog S D B)) : (∀ a, call (f a)) → ∀ pr k, wf [] k → goes pr k →
  wlp (pbind pr f) (λ pr' k', wf [] k' ∧ advance (Some p) k k' ∧ goes pr' k') k.
Proof.
  intros Hf. induction pr as [a| |r IH] using prog_deep_ind; intros k Hw Hg; cbn [pbind].
  - by apply Hf.
  - apply wlp_ret. split; [done|split; [apply advance_refl|done]].
  - destruct Hg as [Hc Hg]. apply wlp_ret. split; [done|split; [apply advance_refl|]]. split; [done|]. intros k1 Hk1. specialize (Hg k1 Hk1).
    destruct (r k1) as [[pr' k2]|] eqn:Hr; [|done]. destruct Hg as (Hw2 & Ha2 & Hg2). specialize (IH _ _ _ Hr k2 Hw2 Hg2).
    unfold wlp in IH. destruct (pbind pr' f k2) as [[pr3 k3]|]; [|done]. destruct (IH _ _ eq_refl) as (? & ? & ?).
    split; [done|split; [by eapply advance_trans|done]].
Qed.
Lemma call_pbind {A B} (m : K (prog S D A)) (f : A → K (prog S D B)) k :
  wlp m (λ pr k', wf [] k' ∧ advance (Some p) k k' ∧ goes pr k') k → (∀ a, call (f a)) →
  wlp (r ← m; pbind r f) (λ pr k', wf [] k' ∧ advance (Some p) k k' ∧ goes pr k') k.
Proof.
  intros Hm Hf. apply wlp_bind. eapply wlp_mono; [|exact Hm]. cbv beta. intros pr k1 (Hw1 & Ha1 & Hg1).
  eapply wlp_mono; [|by apply goes_pbind]. cbv beta. intros pr' k2 (? & ? & ?). split; [done|split; [by eapply advance_trans|done]].
Qed.

(** ** Memory of the caller *)
Definition holds_space sp k : Prop := ∃ t, tasks (k_sched k) !! p = Some t ∧ space (user t) = Some sp.

Lemma space_held sp k : wf [] k → holds_space sp k → space_ok (kernel_tables (k_space k)) sp (k_mem k).
Proof. intros Hw (t & Ht & Hs). apply (wf_items _ _ Hw (ISpace sp)). eapply world_task; [exact Ht|by apply space_item]. Qed.

(** Reading changes nothing. *)
Definition reads {A} k (m : K A) (P : A → Prop) : Prop := wlp m (λ a k', k' = k ∧ P a) k.
Lemma reads_bind {A B} k (m : K A) (f : A → K B) P Q : reads k m P → (∀ a, P a → reads k (f a) Q) → reads k (m ≫= f) Q.
Proof. intros Hm Hf. apply wlp_bind. eapply wlp_mono; [|exact Hm]. cbv beta. intros a k' [-> Ha]. by apply Hf. Qed.
Lemma reads_ret {A} k (a : A) (P : A → Prop) : P a → reads k (mret a) P.
Proof. intros Ha. by apply wlp_ret. Qed.
Lemma reads_lift {A} k (o : outcome A) : reads k (lift o) (λ a, o = Ret a).
Proof. apply wlp_lift. by intros. Qed.
Lemma reads_mem {A} k (m : ST S A) (P : A → Prop) : wlp m (λ a s', s' = k_mem k ∧ P a) (k_mem k) → reads k (in_mem m) P.
Proof. intros Hm. apply wlp_in_mem. eapply wlp_mono; [|exact Hm]. cbv beta. intros a s' [-> Ha]. split; [by destruct k|done]. Qed.
Lemma ends_reads {A B} (m : K A) (f : A → K B) P (Q : B → Kst → Prop) k : reads k m P →
  (∀ a, P a → wlp (f a) (λ c k', wf [] k' ∧ advance (Some p) k k' ∧ Q c k') k) →
  wlp (m ≫= f) (λ c k', wf [] k' ∧ advance (Some p) k k' ∧ Q c k') k.
Proof. intros Hm Hf. apply wlp_bind. eapply wlp_mono; [|exact Hm]. cbv beta. intros a k' [-> Ha]. by apply Hf. Qed.

Lemma reads_current k : alive k → reads k (in_sched current_task) (λ a, a = p).
Proof.
  intros Hk a k'. unfold in_sched, current_task, mbind, ST_bind, get, lift. rewrite (al_current _ Hk). cbn. intros [= <- <-]. split; [by destruct k|done].
Qed.
Lemma reads_task k q : reads k (in_sched (get_task q)) (λ t, tasks (k_sched k) !! q = Some t).
Proof.
  intros t k'. unfold in_sched, get_task, mbind, ST_bind, get, lift. destruct (tasks (k_sched k) !! q) as [t'|]; [|done]. cbn. intros [= <- <-].
  split; [by destruct k|done].
Qed.
Lemma reads_space k : alive k → reads k current_space (λ o, ∀ sp, o = Some sp → holds_space sp k).
Proof.
  intros Hk. unfold current_space. eapply reads_bind; [by apply reads_current|]. intros a ->. eapply reads_bind; [apply reads_task|].
  intros t Ht. apply reads_ret. intros sp Hs. by exists t.
Qed.
Lemma reads_copy_from k sp ptr buf : wf [] k → holds_space sp k → 0 ≤ ptr →
  reads k (in_mem (copy_from_user sp ptr buf)) (λ _, True).
Proof.
  intros Hw Hs Hptr. apply reads_mem. destruct (copy_from_user_loaded _ sp ptr buf (k_mem k) (space_held sp k Hw Hs) Hptr) as (r & d & E & _).
  intros a s'. rewrite E. by intros [= _ <-].
Qed.
Lemma cstr_length sp m fuel : ∀ addr acc bs, cstr fuel sp m addr acc = Some bs → (length bs ≤ fuel + length acc)%nat.
Proof.
  induction fuel as [|fuel IH]; intros addr acc bs; cbn; [done|]. destruct (user_mapped sp addr); [|done]. destruct (umem sp m addr) as [c|]; [|done].
  destruct (_ =? 0); [intros [= <-]; lia|]. intros Hc%IH. rewrite length_app in Hc. cbn in Hc. lia.
Qed.
Lemma reads_cstr k sp ptr : wf [] k → holds_space sp k → 0 ≤ ptr →
  reads k (in_mem (read_cstr sp ptr MAX_STR)) (λ o, ∀ l, o = Some l → (length l ≤ 256)%nat).
Proof.
  intros Hw Hs Hptr. apply reads_mem. unfold read_cstr. intros o s'.
  rewrite (read_cstr_run _ sp _ ptr 0 [] (k_mem k) (space_held sp k Hw Hs) Hptr ltac:(done)). intros [<- <-]%Ret_inj. split; [done|].
  destruct (cstr _ sp _ _ _) as [bs|] eqn:E; [|done]. apply cstr_length in E. destruct (utf8_valid bs); [|done]. intros l [= <-].
  change (Z.to_nat MAX_STR) with 256%nat in E. cbn in E. lia.
Qed.

(** The argument vector of [exec] is small. *)
Lemma reads_argv n k sp argv : wf [] k → holds_space sp k → 0 ≤ argv → ∀ i args, 0 ≤ i →
  Forall (λ l, (length l ≤ 256)%nat) args →
  reads k (read_argv n sp argv i args) (λ o, ∀ l, o = Some l → (length l ≤ n + length args)%nat ∧ Forall (λ a, (length a ≤ 256)%nat) l).
Proof.
  intros Hw Hs Ha. induction n as [|n IH]; intros i args Hi Hargs; cbn [read_argv].
  { apply reads_ret. by intros l [= <-]. }
  eapply reads_bind; [apply reads_lift|]. intros o Ho. eapply reads_bind; [apply reads_lift|]. intros a [-> _]%u64_add_inv.
  assert (0 ≤ o) by (unfold u64_mul in Ho; case_match; [|done]; injection Ho as <-; lia).
  eapply reads_bind; [apply reads_copy_from; [done|done|lia]|]. intros [r slot] _. destruct r; [|by apply reads_ret].
  destruct (_ =? 0); [apply reads_ret; intros l [= <-]; split; [lia|done]|].
  eapply reads_bind; [apply reads_cstr; [done|done|apply le_combine_bound]|]. intros [l|] Hl; [|by apply reads_ret].
  eapply wlp_mono; [|apply (IH (i + 1) (args ++ [l])); [lia|apply Forall_app; auto]].
  cbv beta. intros x k' [-> Hx]. split; [done|]. intros l' Hl'. specialize (Hx l' Hl'). rewrite length_app in Hx. cbn in Hx. split; [lia|apply Hx].
Qed.

Lemma copy_out_spec sp ptr l k : alive k → holds_space sp k → 0 ≤ ptr →
  wp (in_mem (copy_to_user sp ptr l)) (λ _ k', alive k' ∧ advance (Some p) k k') k.
Proof.
  intros Hk Hs Hptr. apply wp_in_mem. pose proof (space_held sp k (al_wf _ Hk) Hs) as Hok. destruct Hs as (t & Ht & Hs).
  eapply wp_mono; [|apply (copy_to_user_stored _ sp ptr l (k_mem k) Hok Hptr)]. intros r s' (n & _ & Hok' & Hu & Ha & _).
  destruct (wf_write k p t sp s' (al_wf _ Hk) Ht Hs Hok' Hu Ha) as [Hw Hav]. split; [|done].
  eapply alive_advance; [done|done|done|done|]. apply (al_runs _ Hk).
Qed.

(** ** The calls *)
Lemma call_still {A} (m : K A) (f : A → K (prog S D Z)) : still m → (∀ a, call (f a)) → call (m ≫= f).
Proof. intros Hm Hf. eapply ends_bind; [by apply does_still|]. intros a _. apply Hf. Qed.

Lemma still_take_input n : ∀ buf, still (take_input (S := S) (D := D) n buf).
Proof. induction n; intros; cbn [take_input]; still. Qed.

Lemma call_write poll fd ptr len : 0 ≤ ptr → call (sys_write poll fd ptr len).
Proof.
  intros Hptr. unfold sys_write. destruct (_ && _); [apply call_done|]. intros k Hk. eapply (ends_reads _ _ (λ _, True)).
  - unfold read_user_buf. destruct (_ || _); [by apply reads_ret|]. eapply reads_bind; [by apply reads_space|]. intros [sp|] Ho; [|by apply reads_ret].
    eapply reads_bind; [apply reads_copy_from; [apply Hk|by apply Ho|done]|]. intros [r buf] _. by apply reads_ret.
  - intros [buf|] _; [|by apply call_done]. apply call_still; [still|intros; apply call_done|done].
Qed.
Lemma call_read wakes fd ptr len : 0 ≤ ptr → call (sys_read wakes fd ptr len).
Proof.
  intros Hptr. unfold sys_read. destruct (negb _); [apply call_done|]. destruct (len =? 0); [apply call_done|].
  destruct (_ || _); [apply call_done|]. apply call_wait_until. eapply ends_bind; [apply does_still, still_take_input|]. intros buf _ k Hk.
  eapply ends_reads; [by apply reads_space|]. intros [sp|] Ho; [|by apply call_done]. apply wlp_bind.
  eapply wlp_mono; [|apply wp_wlp, (copy_out_spec sp ptr (z_byte <$> buf) k Hk); [by apply Ho|done]]. cbv beta. intros r k1 [Hk1 A1].
  assert (Hd : call (match r with Some _ => done (Z.of_nat (length buf)) | None => done (A := Z) nr.EFAULT end)) by (destruct r; apply call_done).
  eapply wlp_mono; [|by apply Hd]. cbv beta. intros pr k2 (? & ? & ?). split; [done|split; [by eapply advance_trans|done]].
Qed.
Lemma call_getpid : call (sys_getpid (S := S) (D := D)).
Proof. apply call_still; [still|intros; apply call_done]. Qed.
Lemma call_getppid : call (sys_getppid (S := S) (D := D)).
Proof. unfold sys_getppid. do 3 (apply call_still; [still|intros]). apply call_done. Qed.

Lemma box_new_spec X f k : wf X k →
  wlp (box_new f) (λ c k1, wf (IBox c :: X) k1 ∧ advance None k k1 ∧ k1 = set_boxes (k_boxes k1) k) k.
Proof.
  intros Hw c k1 E. destruct (moves_box_new X f k Hw c k1 E) as (Hw1 & A1 & _). split_and!; [done|done|].
  unfold box_new, mbind, ST_bind, get, put in E. by injection E as _ <-.
Qed.

(** A new task takes what was built for it. *)
Lemma install_spec ks sp f (mk : Z → Task) k : wf [IStack ks; ISpace sp] k → 0 ≤ next_pid (k_sched k) < U64 - 1 →
  (∀ c, kstack (mk c) = ks ∧ space (user (mk c)) = Some sp ∧ frame (user (mk c)) = Some c ∧ user_ok (mk c) sp (fa_mem (k_mem k))) →
  wlp (c ← box_new f; q ← in_sched alloc_pid; in_sched (arc_new q (mk c));; mret (Some q))
    (λ _ k', wf [] k' ∧ advance None k k' ∧ steady k k') k.
Proof.
  intros Hw Hpid Hmk. apply wlp_bind. eapply wlp_mono; [|by apply box_new_spec]. cbv beta. intros c k1 (Hw1 & A1 & Hk1). destruct (Hmk c) as (M1 & M2 & M3 & M4).
  assert (Hi : items (mk c) ++ [] ≡ₚ IBox c :: [IStack ks; ISpace sp]).
  { unfold items. rewrite M1, M2, M3. cbn. solve_Permutation. }
  pose proof (wf_perm _ _ _ (symmetry Hi) Hw1) as Hw1'.
  destruct (wf_insert [] k1 (mk c) Hw1') as [Hw2 A2]; [by rewrite Hk1|rewrite M2; intros ? [= <-]; by rewrite Hk1|].
  unfold alloc_pid, arc_new. intros r k2 E. unfold in_sched, mbind, ST_bind, get, put, mret, ST_ret in E. cbn in E. injection E as _ <-.
  split_and!; [exact Hw2|by eapply advance_trans|]. rewrite Hk1. split; [split; [done|]|done|done]. cbn. intros p' _ Ht. apply lookup_insert_is_Some'. by right.
Qed.

(** [fork]: the child gets pages, a stack and a box nobody held. *)
Lemma fork_spec entry f k : alive k → 0 ≤ next_pid (k_sched k) < U64 - 1 →
  wlp (fork_from entry p f) (λ _ k', alive k' ∧ advance (Some p) k k') k.
Proof.
  intros Hk Hpid. pose proof Hk as [Hw Hc Hin Hp Hb].
  assert (Hend : ∀ k', wf [] k' → advance None k k' → steady k k' → alive k' ∧ advance (Some p) k k').
  { intros k' Hw' Ha' Hc'. split; [by eapply alive_steady|by apply advance_weaken]. }
  unfold fork_from. apply wlp_bind. eapply wlp_mono; [|apply reads_task]. cbv beta. intros t k0 [-> Ht].
  destruct (space (user t)) as [psp|] eqn:Hsp; [|apply wlp_ret; apply Hend; [done|apply advance_refl|done]].
  apply wlp_bind, wlp_get, wlp_bind, wlp_in_mem, wp_wlp. assert (Hps : holds_space psp k) by by exists t.
  eapply wp_mono; [|apply (duplicate_mem (k_space k) psp (k_mem k) (space_held psp k Hw Hps) (ko_half _ (wf_ok _ _ Hw)))].
  intros [csp|] s1; cbv beta iota.
  2: { intros Hr. apply wlp_ret. destruct (wf_restored [] k s1 Hw Hr) as [Hw1 A1]. apply Hend; done. }
  intros (Hbd & Hmem & _). destruct (wf_building [] k csp s1 Hw Hbd) as [Hw1 A1]. set (k1 := set_mem s1 k) in *.
  apply wlp_bind, wlp_in_mem, wp_wlp. pose proof (ko_mem _ (wf_ok _ _ Hw1)) as Hi1.
  eapply wp_mono; [|apply wp_conj; [by apply KernelStack_new_spec|by apply KernelStack_new_shape]]. intros [ks|] s2; cbv beta iota.
  2: { intros [-> _]. change (set_mem (k_mem k1) k1) with k1. apply wlp_bind. eapply wlp_mono; [|by apply (moves_drop_space [] csp k1)].
       cbv beta. intros [] k2 (Hw2 & A2 & C2). apply wlp_ret. apply Hend; [done|by eapply advance_trans|by eapply steady_trans; [|exact C2]]. }
  intros [[ksp Hn] [Ho Hd]]. destruct (wf_stack _ k1 ks ksp s2 Hw1 Hn Ho Hd) as [Hw2 A2]. set (k2 := set_mem s2 k1) in *.
  unfold kernel_token. do 10 wlp_step. eapply wlp_mono; [|apply (install_spec ks csp _ _ k2 Hw2); [done|]].
  { cbv beta. intros r k3 (Hw3 & A3 & C3). apply Hend; [done|by eapply advance_trans; [|eapply advance_trans]|by eapply steady_trans; [|exact C3]]. }
  intros c. split_and!; [done..|]. apply (user_ok_same t _ psp _ (fa_mem (k_mem k))); [by eexists|done|done| |by apply (wf_user _ _ Hw p t psp)].
  intros x. rewrite <- Hmem. apply umem_none.
Qed.
End calls.
