(* ===== verification/CallIsolation.v ===== *)
(** * The calls that move resources

    [exec], [exit], [waitpid] and [sbrk] in the setting of [Isolation], and the
    trap handlers built from all calls. *)
From stdpp Require Import base numbers functions gmap list.
From coqutil Require Import Byte LittleEndianList.
From Stdlib Require Import Lia.
From S2P Require Import Prelude Memory Config Addr FrameIface FrameProps PageTable PageTableInv PageTableOps.
From S2P Require Import Space SpaceInv SpaceMap SpaceOps SpaceUser SpaceWrite SpaceProps Loader LoaderProps.
From S2P Require Import Device Trap Task Sched SchedProps Kernel Process Syscall ArgsProps ImageProps ProcessProps Holdings Isolation.

(** An embedded program whose segments end below the stack. *)
Record fits (image : list byte) : Prop := {
  ft_len : Z.of_nat (length image) < 2 ^ 63;
  ft_low h j seg : read_header image = Ret (Ok h) → 0 ≤ j < e_phnum h → header image h j = Ret (Ok (Some seg)) → seg_hi seg ≤ STACK_BOTTOM }.

(** The same as a check. *)
Definition fits_check (image : list byte) : bool :=
  (Z.of_nat (length image) <? 2 ^ 63) &&
  match read_header image with
  | Ret (Ok h) => forallb (λ j, match header image h j with Ret (Ok (Some seg)) => seg_hi seg <=? STACK_BOTTOM | _ => true end) (seqZ 0 (e_phnum h))
  | _ => true
  end.
Lemma fits_check_fits image : fits_check image = true → fits image.
Proof.
  intros [Hl%Z.ltb_lt Hs]%andb_true_iff. split; [done|]. intros h j seg Hh Hj Hseg. rewrite Hh, forallb_forall in Hs.
  specialize (Hs j). rewrite Hseg in Hs. apply Z.leb_le, Hs, list_elem_of_In, elem_of_seqZ. lia.
Qed.

Lemma image_user image args pc top argv sp m (t : Task) c par ch : fits image → image_in image args pc top argv sp m → 0 < top → (PAGE_SIZE | top) →
  user t = mkUser (Some sp) (Some c) (Z.max top USER_HEAP_BASE) (Z.max top USER_HEAP_BASE) par ch → user_ok t sp m.
Proof.
  intros [_ Hfit] [(h & sp0 & m0 & Hh & _ & [Hseg Honly _ Htight] & Hsp) Hst [_ Hargv] (ptrs & [Hv _])] Htop Hdiv Ht.
  assert (Hle : top ≤ STACK_BOTTOM).
  { destruct Htight as [->|(j & seg & Hj & Hs & ->)]; [done|by apply (Hfit h j)]. }
  assert (Hbase : USER_HEAP_BASE ≤ STACK_BOTTOM) by done.
  split; rewrite ?Ht; [by eexists|split; cbn|].
  - lia.
  - split; [|lia]. destruct (Z.max_spec top USER_HEAP_BASE) as [[_ ->]|[_ ->]]; [by exists 65536|done].
  - intros a Ha. assert (0 ≤ a) by lia. pose proof (Hsp a ltac:(lia)) as Hm. rewrite decide_False in Hm by lia. rewrite Hm.
    destruct (umem sp0 m0 a) eqn:Hu; [|done]. exfalso. destruct (Honly a ltac:(lia) ltac:(by rewrite Hu)) as (j & seg & Hj & Hs & Hr).
    destruct (Hseg j Hj) as (o & Ho & Hin). rewrite Hs in Ho. injection Ho as <-. destruct (Hin seg eq_refl) as (_ & _ & ?). lia.
  - destruct (decide (argv = STACK_BOTTOM)) as [->|]; [|by rewrite Hst by lia].
    assert (is_Some ((ptrs ++ [0]) !! 0%nat)) as [w Hw] by (apply lookup_lt_is_Some; rewrite length_app; cbn; lia).
    destruct (le_split 8 w) as [|x l] eqn:Hx; [done|]. specialize (Hv 0%nat w Hw 0%nat x). cbn in Hv.
    rewrite Hx in Hv. specialize (Hv eq_refl). rewrite !Z.add_0_r in Hv. by rewrite Hv.
Qed.

Section calls.
Context {S D : Type} `{FrameAllocator S, !FrameAllocatorLaws S} `{Bus D} `{Firmware D}.
Abbreviation Kst := (Kernel S D).
Abbreviation K := (ST Kst).
Implicit Types (k : Kst).

Lemma quiet_hart h k : quiet k (set_hart h k).
Proof. done. Qed.

(** A change of memory, boxes and of [p]'s task during which [p]'s box is freed or kept. *)
Definition put_task p (g : Task → Task) k : Kst := set_sched (set_tasks (alter g p (tasks (k_sched k))) (k_sched k)) k.

Lemma upd_task_run p g k : in_sched (upd_task p g) k = Ret (tt, put_task p g k).
Proof. done. Qed.

(** [p] takes the image built for it; its old box is freed, its old space is
    on its way out. *)
Lemma exec_swap p t sp c g k : wf [IBox c; ISpace sp] k → tasks (k_sched k) !! p = Some t →
  kstack (g t) = kstack t → space (user (g t)) = Some sp → frame (user (g t)) = Some c → user_ok (g t) sp (fa_mem (k_mem k)) →
  wlp (box_free (frame (user t))) (λ _ k', wf (opt ISpace (space (user t))) k' ∧ advance (Some p) k k' ∧
    k_sched k' = k_sched (put_task p g k) ∧ k_hart k' = k_hart k) (put_task p g k).
Proof.
  intros Hw Ht G1 G2 G3 Hu [] k2 E.
  destruct (wf_alter _ (opt IBox (frame (user t)) ++ opt ISpace (space (user t))) k p t g Hw Ht) as (Hw1 & _ & Hoth).
  { unfold items. rewrite G1, G2, G3. cbn. solve_Permutation. }
  { rewrite G2. by intros ? [= <-]. }
  destruct (moves_box_opt _ _ (put_task p g k) Hw1 _ _ E) as (Hw2 & [P2 B2 O2] & C2).
  assert (Hfree : ∀ x, frame (user t) = Some x ∨ live (k_boxes k) !! x = None → live (k_boxes k2) !! x = None).
  { intros x Hx. revert E. unfold box_free. destruct (frame (user t)) as [y|].
    - unfold mbind, ST_bind, get, put. intros [= <-]. cbn. destruct Hx as [[= ->]|Hx]; [apply lookup_delete_eq|].
      apply lookup_delete_None. by right.
    - intros [= <-]. by destruct Hx. }
  assert (Hnext : next_box (k_boxes k2) = next_box (k_boxes k) ∧ k_sched k2 = k_sched (put_task p g k) ∧ k_hart k2 = k_hart k).
  { revert E. unfold box_free. by destruct (frame (user t)); intros [= <-]. }
  destruct Hnext as (Hnext & Hsc & Hha). split_and!; [done| |done|done]. split.
  - done.
  - intros q x Hq [Hx Hb]. destruct (decide (q = p)) as [->|].
    + split; [by rewrite Hnext|]. intros u _. right. by apply Hfree, Hb.
    + apply B2; [done|]. split; [done|]. intros u Hq'. by apply Hb, Hoth.
  - intros q u Hq Hlt Hu'. destruct (O2 q u ltac:(done) Hlt Hu') as (u0 & Hu0 & R & Hs). exists u0.
    split_and!; [by apply Hoth; [congruence|]|done|exact Hs].
Qed.

Context (p : Pid) (b : Z).

Lemma exec_spec nm image args k : alive p b k → fits image → args_size args ≤ USER_STACK_SIZE →
  wlp (exec_current p nm image args) (λ _ k', alive p b k' ∧ advance (Some p) k k') k.
Proof.
  intros Hk Hfit Hargs. pose proof Hk as [Hw Hc Hin Hp Hb]. pose proof (wf_ok _ _ Hw) as Hko.
  unfold exec_current. apply wlp_bind, wp_wlp.
  eapply wp_mono; [|apply (build_image_spec image args k); [apply Hko|apply Hko|apply Hfit|done]].
  intros [[[sp ld] [[usp argc] argv]]|e] k1; generalize (k_mem k1); intros s1 [-> Hbt]; cbv beta iota; cbn [built] in Hbt.
  2: { apply wlp_ret. destruct (wf_restored [] k _ Hw Hbt) as [Hw1 A1]. split; [by eapply alive_steady|by apply advance_weaken]. }
  destruct Hbt as (_ & _ & Hbd & Him & Hbrk & Hdiv). destruct (wf_building [] k sp _ Hw Hbd) as [Hw1 A1].
  set (k2 := set_mem _ k) in *. apply wlp_bind. eapply wlp_mono; [|apply (still_sched (S := S) (D := D)), mild_upd; done].
  cbv beta. intros [] k3 [Q3 C3 _]. destruct (wf_quiet _ _ _ Hw1 Q3) as [Hw3 A3].
  apply wlp_bind. eapply wlp_mono; [|apply reads_task]. cbv beta. intros t k4 [E4 Ht]. subst k4. do 2 wlp_step.
  apply wlp_bind, wp_wlp. apply image_frame_spec. intros f _ _ _ _ _ _.
  apply wlp_bind. eapply wlp_mono; [|by apply box_new_spec]. cbv beta. intros c k5 (Hw5 & A5 & E5).
  unfold activate, on_hart. do 4 wlp_step. set (k6 := set_hart _ k5). destruct (wf_quiet _ k5 k6 Hw5 (quiet_hart _ _)) as [Hw6 A6].
  assert (Ht6 : tasks (k_sched k6) !! p = Some t) by (subst k6; by rewrite E5).
  assert (C6 : current (k_sched k6) = Some p) by (subst k6; rewrite E5; cbn; by rewrite C3).
  assert (P6 : p < next_pid (k_sched k6)) by (subst k6; rewrite E5; cbn; by rewrite (qt_pid _ _ Q3)).
  assert (Hm6 : k_mem k6 = s1) by (subst k6; rewrite E5; apply (qt_mem _ _ Q3)).
  apply wlp_bind. intros u k7. rewrite upd_task_run. intros [= <- <-].
  apply wlp_bind. eapply wlp_mono; [|apply (exec_swap p t sp c _ k6 Hw6 Ht6); [done|done|done|]].
  2: { rewrite Hm6. by eapply image_user; [| |apply Hbrk| |]. }
  cbv beta. intros [] k8 (Hw8 & A8 & C8 & H8). apply wlp_bind.
  eapply wlp_mono; [|apply (moves_drop_opt [] (space (user t)) k8); by rewrite app_nil_r]. cbv beta. intros [] k9 (Hw9 & A9 & C9).
  assert (A : advance (Some p) k k9).
  { do 4 (eapply advance_trans; [by apply advance_weaken|]). eapply advance_trans; [exact A8|by apply advance_weaken]. }
  apply wlp_ret. split; [|done]. apply (alive_advance p b k); [done|done|done|by rewrite (kp_current _ _ (sd_kept _ _ C9)), C8, Hc|].
  eapply runs_steady; [rewrite C8; exact C6|rewrite C8; exact P6| |done|done].
  eexists. rewrite C8, H8. cbn. rewrite lookup_alter_eq. split; [by erewrite (Ht6 : tasks (k_sched k5) !! p = Some t)|].
  unfold task_token. cbn. apply activate_token_satp.
Qed.

(** [call m] for this [p] and [b]. *)
Abbreviation calls m := (ends (S := S) (D := D) p b m (goes p b)).

Lemma strings_size_le args : Forall (λ a, (length a ≤ 256)%nat) args → strings_size args ≤ 264 * Z.of_nat (length args).
Proof. induction 1; cbn [strings_size length]; lia. Qed.

(** After a step that leaves [p] running, a handler ends. *)
Lemma ends_after {A B} (m : K A) (f : A → K B) (Q : B → Kst → Prop) k : wlp m (λ _ k', alive p b k' ∧ advance (Some p) k k') k →
  (∀ a, ends p b (f a) Q) → wlp (m ≫= f) (λ c k', wf [] k' ∧ advance (Some p) k k' ∧ Q c k') k.
Proof.
  intros Hm Hf. apply wlp_bind. eapply wlp_mono; [|exact Hm]. cbv beta. intros a k1 [Hk1 A1].
  eapply wlp_mono; [|by apply Hf]. cbv beta. intros c k2 (? & ? & ?). split; [done|split; [by eapply advance_trans|done]].
Qed.

Lemma call_exec programs path argv : Forall (fits ∘ snd) programs → 0 ≤ path → 0 ≤ argv → calls (sys_exec programs path argv).
Proof.
  intros Hfit Hpath Hargv k Hk. pose proof (al_wf _ _ _ Hk) as Hw. unfold sys_exec.
  eapply (ends_reads p); [by eapply reads_current|]. intros a ->.
  eapply (ends_reads p); [by eapply reads_space|]. intros [sp|] Hsp; [|by apply call_done].
  eapply (ends_reads p); [apply (reads_cstr p); [done|by apply Hsp|done]|]. intros [nm|] _; [|by apply call_done].
  eapply (ends_reads p _ _ (λ o, ∀ l, o = Some l → (length l ≤ 32)%nat ∧ Forall (λ a, (length a ≤ 256)%nat) l)).
  { destruct (argv =? 0); [apply reads_ret; intros l [= <-]; split; [cbn; lia|done]|].
    eapply wlp_mono; [|apply (reads_argv p (Z.to_nat MAX_ARGS) k sp argv Hw); [by apply Hsp|done|done|done]].
    cbv beta. intros o k' [-> Ho]. split; [done|]. intros l Hl. by destruct (Ho l Hl). }
  intros [args|] Hargs; [|by apply call_done]. destruct (find_program programs nm) as [image|] eqn:Hf; [|by apply call_done].
  destruct (Hargs args eq_refl) as [Hn Hl]. apply find_program_in in Hf as [n Hin].
  pose proof (strings_size_le args Hl). apply ends_after; [apply exec_spec; [done| |unfold args_size, USER_STACK_SIZE in *; cbn; lia]|].
  - by apply (proj1 (Forall_forall _ _) Hfit _ Hin).
  - intros [|[]]; apply call_done.
Qed.

Lemma call_fork entry f k : alive p b k → 0 ≤ next_pid (k_sched k) < U64 - 1 →
  wlp (sys_fork entry f) (λ pr k', wf [] k' ∧ advance (Some p) k k' ∧ goes p b pr k') k.
Proof.
  intros Hk Hpid. unfold sys_fork. eapply (ends_reads p); [by eapply reads_current|]. intros a ->.
  apply ends_after; [by apply fork_spec|]. intros [c|]; [|apply call_done]. do 2 (apply call_still; [still|intros _]). apply call_done.
Qed.

(** ** [waitpid] *)
Lemma still_scan want : still (scan_children (S := S) (D := D) p want).
Proof. unfold scan_children. still. Qed.
Lemma call_reap c ptr : 0 ≤ ptr → calls (reap p c ptr).
Proof.
  intros Hptr. unfold reap. apply call_still; [still|]. intros code. eapply (ends_bind p b _ _ (λ _, True)).
  - destruct (ptr =? 0); [by apply does_ret|]. intros k Hk. apply wlp_bind. eapply wlp_mono; [|by eapply reads_space].
    cbv beta. intros o k1 [-> Ho]. destruct o as [sp|]; [|by apply does_ret]. apply wlp_bind.
    eapply wlp_mono; [|apply wp_wlp, (copy_out_spec p b sp); [done|by apply Ho|done]]. cbv beta. intros _ k1 [Hk1 A1]. by apply wlp_ret.
  - intros [] _ k Hk. apply wlp_bind, wlp_get. revert k Hk.
    assert (Hd : ∀ n, calls (drop_arc n c;; done (S := S) (D := D) (as_isize c))); [|intros; by apply Hd].
    intros n. eapply ends_bind; [apply does_moves, moves_drop_arc|]. intros [] _. apply call_done.
Qed.
Lemma call_waitpid wakes want ptr : 0 ≤ ptr → calls (sys_waitpid wakes want ptr).
Proof.
  intros Hptr. induction wakes as [|wakes IH]; cbn [sys_waitpid]; [by apply ends_panic|]. eapply ends_bind; [apply does_current|].
  intros a ->. apply call_still; [apply still_scan|]. intros [[c|] any]; [by apply call_reap|].
  destruct (negb any); [apply call_done|by apply call_wait].
Qed.

(** ** [exit] *)
Lemma still_on_exit : still (on_exit (S := S) (D := D) p).
Proof. unfold on_exit. still. Qed.
Lemma detach_spec t k : alive p b k → tasks (k_sched k) !! p = Some t →
  wp (match space (user t) with
       | None => mret tt
       | Some sp => token ← kernel_token; activate token;; in_mem (AddressSpace_drop sp)
       end) (λ _ k', alive p b k' ∧ advance (Some p) k k') (put_task p (with_user (set_space None)) k).
Proof.
  intros Hk Ht. pose proof Hk as [Hw Hc Hin Hp Hb].
  destruct (wf_alter [] (opt ISpace (space (user t))) k p t (with_user (set_space None)) Hw Ht) as (Hw1 & A1 & _);
    [unfold items; cbn; solve_Permutation|done|].
  specialize (A1 eq_refl). fold (put_task p (with_user (set_space None)) k) in *. set (k1 := put_task p _ k) in *.
  assert (Ht1 : tasks (k_sched k1) !! p = Some (with_user (set_space None) t)) by (cbn; by rewrite lookup_alter_eq, Ht).
  destruct (al_runs _ _ _ Hk) as (t0 & Ht0 & Hr). rewrite Ht in Ht0. injection Ht0 as <-.
  destruct (space (user t)) as [sp|] eqn:Hsp.
  2: { apply wp_ret. split; [|done]. apply (alive_advance p b k); [done|done|done|done|]. eexists. split; [exact Ht1|].
       unfold task_token in *. rewrite Hsp in Hr. exact Hr. }
  unfold kernel_token, activate, on_hart. do 8 wp_step. set (k2 := set_hart _ k1).
  destruct (wf_quiet _ k1 k2 Hw1 (quiet_hart _ _)) as [Hw2 A2].
  eapply wp_mono; [|by apply (drop_space_total [] sp k2)]. cbv beta. intros [] k3 (Hw3 & A3 & C3 & _).
  assert (A : advance (Some p) k k3).
  { eapply advance_trans; [exact A1|]. eapply advance_trans; by apply advance_weaken. }
  split; [|done]. apply (alive_advance p b k); [done|done|done|by rewrite (kp_current _ _ (sd_kept _ _ C3))|].
  eapply (runs_steady p k2); [done|done| |done|done]. eexists. split; [exact Ht1|]. apply activate_token_satp.
Qed.
Lemma ends_exit code : ends (S := S) (D := D) p b (exit_current code) (λ _ k', current (k_sched k') = None).
Proof.
  intros k Hk. unfold exit_current. apply wlp_bind, wlp_get. rewrite (al_current _ _ _ Hk). revert k Hk.
  change (ends (S := S) (D := D) p b ((in_sched (upd_task p (with_sched (set_exit_code code)));; t ← in_sched (get_task p);
    in_sched (upd_task p (with_user (set_space None)));;
    (match space (user t) with None => mret tt | Some sp => token ← kernel_token; activate token;; in_mem (AddressSpace_drop sp) end);;
    on_exit p);; switch_to_idle Zombie;; mret tt) (λ _ k', current (k_sched k') = None)).
  eapply (ends_bind p b _ _ (λ _, True)).
  - eapply does_bind; [apply does_still; still|]. intros [] _ k Hk. apply wlp_bind. eapply wlp_mono; [|apply reads_task].
    cbv beta. intros t k' [-> Ht]. apply wlp_bind. intros u k1. rewrite upd_task_run. intros [= <- <-]. apply wlp_bind.
    eapply wlp_mono; [|by apply wp_wlp, detach_spec]. cbv beta. intros [] k2 [Hk2 A2].
    eapply wlp_mono; [|apply (does_still p b _ still_on_exit _ Hk2)]. cbv beta. intros [] k3 (Hk3 & A3 & _).
    split_and!; [done|by eapply advance_trans|done].
  - intros [] _ k Hk. apply wlp_bind. eapply wlp_mono; [|by apply (ends_quits p b _ (quits_switch Zombie))].
    cbv beta. intros w k1 Hk1. by apply wlp_ret.
Qed.
Lemma call_exit code : calls (sys_exit code).
Proof.
  intros k Hk. unfold sys_exit. apply wlp_bind. eapply wlp_mono; [|by apply ends_exit]. cbv beta. intros [] k1 Hk1. by apply wlp_ret.
Qed.
Lemma call_kill : calls kill_current.
Proof.
  unfold kill_current. eapply ends_bind; [apply does_current|]. intros a ->.
  intros k Hk. apply wlp_bind, wlp_get, wlp_bind, wlp_put. set (k1 := set_pinned _ k).
  destruct (wf_quiet [] k k1 (al_wf _ _ _ Hk)) as [Hw1 A1]; [done|].
  assert (Hk1 : alive p b k1) by (by eapply alive_steady). eapply wlp_mono; [|by apply (call_exit (-11))].
  cbv beta. intros pr k2 (? & ? & ?). split; [done|split; [eapply advance_trans; [by apply advance_weaken|done]|done]].
Qed.

(** ** [sbrk] *)

(** A region that was mapped went where nothing was. *)
Lemma push_ok (R : Z → Prop) sp r s : space_ok R sp s → region_shape r → r_frames r = [] →
  wp (AS_push sp r) (λ '(res, sp') s', res = Ok tt → ∃ new, let r' := with_frames new r in
    sp' = push_region r' (with_table (table sp') sp) ∧ space_ok R sp' s' ∧ grew (table sp) s (table sp') s' (region_ppns r') ∧
    ∀ a, r_start r ≤ a < r_end r → umem sp (fa_mem s) a = None) s.
Proof.
  intros Hok Hsh Hnil. eapply wp_mono; [|exact (AS_push_full R sp r s Hok Hsh Hnil)].
  intros [res sp'] s' Hpost ->. destruct Hpost as (new & H1' & H2' & H3' & _ & H5'). exists new. cbn zeta. split_and!; [done..|].
  intros a Ha. unfold umem, user_addr. rewrite (proj2 (bt_get_None (vpn a) (sp_pages sp))); [done|]. apply H5'.
  destruct Hsh as [_ _ [x Hx] [y Hy] _ _]. rewrite !vpn_div, Hx, Hy in *. rewrite !Z.div_mul by done.
  unfold PAGE_SIZE in *. Z.div_mod_to_equations. lia.
Qed.

(** A space on its way grows by fresh pages. *)
Lemma wf_grow sp sp' r s' k : wf [ISpace sp] k → space_ok (kernel_tables (k_space k)) sp' s' →
  sp' = push_region r (with_table (table sp') sp) → grew (table sp) (k_mem k) (table sp') s' (region_ppns r) →
  wf [ISpace sp'] (set_mem s' k) ∧ advance None k (set_mem s' k).
Proof.
  intros Hw Hok Hsp [_ _ G3 G4 G5 _ G7]. destruct (wf_mem [ISpace sp] [] k s' Hw) as [Hw1 A1].
  { apply (maps_inv _ _ _ _ (so_maps _ _ _ Hok)). }
  { intros q Hq Hn. specialize (Hn (ISpace sp) ltac:(set_solver)). split; [apply G4; by left|]. apply G7; [done|]. intros ?. apply Hn. by right. }
  split; [|done]. apply wf_add; [done|done|]. intros j Hj [q|c] Hq Hq'; [|done].
  destruct (separate_app [ISpace sp] _ (wf_apart _ _ Hw)) as (_ & _ & Hx).
  assert (Hold : ¬ claims (ISpace sp) (Page q)) by (intros Hc; by apply (Hx (ISpace sp) j ltac:(set_solver) Hj (Page q))).
  assert (Hu : fa_used (k_mem k) q) by (apply (claims_used [ISpace sp] k j q Hw); [by apply elem_of_cons; right|done]).
  destruct Hq as [Hq|Hq].
  - rewrite Hsp, sp_ppns_push in Hq. apply elem_of_app in Hq as [Hq|Hq]; [by apply Hold; left|by destruct (G5 q Hq)].
  - destruct (G3 q Hq) as [?|?]; [by apply Hold; right|done].
Qed.

Lemma grow_user t sp sp' r s s' new to f : user_ok t sp (fa_mem s) → space_ok f sp s → space_ok f sp' s' →
  sp' = push_region r (with_table (table sp') sp) → grew (table sp) s (table sp') s' (region_ppns r) →
  (∀ a, r_start r ≤ a < r_end r → umem sp (fa_mem s) a = None) →
  r_start r = heap_top (user t) → r_end r = to → USER_HEAP_BASE ≤ new ≤ to → heap_top (user t) < to → (PAGE_SIZE | to) →
  user_ok (with_user (set_brk new to) (with_user (set_space (Some sp')) t)) sp' (fa_mem s').
Proof.
  intros [U1 [T1 T2 T3] U3] Hok Hok' Hsp Hg Hfree Hst Hen Hnew Hlt Hdiv.
  pose proof (umem_push f sp r (table sp') s s' Hok) as Hm. cbv zeta in Hm. rewrite <- Hsp in Hm. specialize (Hm Hok' Hg). rewrite Hst, Hen in *.
  assert (Hle : to ≤ STACK_BOTTOM).
  { destruct (decide (to ≤ STACK_BOTTOM)); [done|]. exfalso. apply U3, Hfree. lia. }
  assert (0 ≤ heap_top (user t)) by (unfold USER_HEAP_BASE in *; lia).
  split; [done|split; cbn; [lia|done|]|].
  - intros a Ha. rewrite Hm, decide_False by lia. apply T3. lia.
  - by rewrite Hm, decide_False by (done || lia).
Qed.

Lemma put_task_twice g g' k : put_task p g' (put_task p g k) = put_task p (g' ∘ g) k.
Proof.
  assert (E : ∀ m : gmap Z Task, alter g' p (alter g p m) = alter (g' ∘ g) p m); [|unfold put_task; cbn; by rewrite E].
  intros m. apply map_eq. intros q. destruct (decide (q = p)) as [->|]; [|by rewrite !lookup_alter_ne].
  rewrite !lookup_alter_eq. by destruct (m !! p).
Qed.

(** [p]'s space is replaced by one that grew out of it. *)
Lemma wf_regrow t sp sp' r s' new to k : let g := with_user (set_brk new to) ∘ with_user (set_space (Some sp')) in
  wf [] k → tasks (k_sched k) !! p = Some t → space (user t) = Some sp → space_ok (kernel_tables (k_space k)) sp' s' →
  sp' = push_region r (with_table (table sp') sp) → grew (table sp) (k_mem k) (table sp') s' (region_ppns r) →
  user_ok (g t) sp' (fa_mem s') → wf [] (put_task p g (set_mem s' k)) ∧ advance (Some p) k (put_task p g (set_mem s' k)).
Proof.
  intros g Hw Ht Hsp Hok Esp Hg Hu. set (d := with_user (set_space None)).
  destruct (wf_alter [] [ISpace sp] k p t d Hw Ht) as (Hw1 & A1 & _); [unfold items; cbn; rewrite Hsp; cbn; solve_Permutation|done|].
  fold (put_task p d k) in *. destruct (wf_grow sp sp' r s' (put_task p d k) Hw1 Hok Esp Hg) as [Hw2 A2].
  assert (Ht2 : tasks (k_sched (set_mem s' (put_task p d k))) !! p = Some (d t)) by (cbn; by rewrite lookup_alter_eq, Ht).
  destruct (wf_alter [ISpace sp'] [] _ p (d t) g Hw2 Ht2) as (Hw3 & A3 & _); [unfold items; cbn; solve_Permutation|by intros ? [= <-]|].
  fold (put_task p g (set_mem s' (put_task p d k))) in *.
  assert (E : put_task p g (set_mem s' (put_task p d k)) = put_task p g (set_mem s' k)); [|rewrite <- E; split; [done|]].
  - change (set_mem s' (put_task p d k)) with (put_task p d (set_mem s' k)). by rewrite put_task_twice.
  - eapply advance_trans; [by apply A1|]. eapply advance_trans; [by apply advance_weaken|by apply A3].
Qed.

Lemma sbrk_done delta k : alive p b k → wlp (adjust_brk p delta) (λ o k', o ≠ None → alive p b k' ∧ advance (Some p) k k') k.
Proof.
  intros Hk. pose proof Hk as [Hw Hc Hin Hp Hb]. unfold adjust_brk. apply wlp_bind. eapply wlp_mono; [|apply reads_task].
  cbv beta. intros t k' [-> Ht]. destruct (delta =? 0); [apply wlp_ret; split; [done|apply advance_refl]|].
  destruct (checked_add_signed (brk (user t)) delta) as [new|]; [|by apply wlp_ret].
  destruct (negb _) eqn:Hrange; [by apply wlp_ret|]. apply negb_false_iff, andb_true_iff in Hrange as [Hlo%Z.leb_le Hhi%Z.ltb_lt].
  destruct (Z.ltb_spec (heap_top (user t)) new) as [Hlt|Hge].
  2: { apply wlp_bind. intros u k1. rewrite upd_task_run. intros [= <- <-]. apply wlp_ret. intros _.
       destruct (wf_alter [] [] k p t (with_user (set_brk new (heap_top (user t)))) Hw Ht) as (Hw1 & A1 & _).
       { done. }
       { intros sp Hsp. destruct (wf_user _ _ Hw p t sp Ht Hsp) as [U1 [T1 T2 T3] U3]. split; [done|split; cbn; [lia|done|done]|done]. }
       specialize (A1 eq_refl). split; [|done]. apply (alive_advance p b k); [done|done|done|done|].
       destruct (al_runs _ _ _ Hk) as (t0 & Ht0 & Hr). rewrite Ht in Ht0. injection Ht0 as <-. eexists. cbn. by rewrite lookup_alter_eq, Ht. }
  unfold grow_heap. apply wlp_bind. destruct (space (user t)) as [sp|] eqn:Hsp; [|apply wlp_bind; wlp_step; by do 2 wlp_step].
  pose proof (wf_user _ _ Hw p t sp Ht Hsp) as Hu. pose proof (uo_heap _ _ _ Hu) as [T1 [T2 _] _].
  destruct (heap_region USER_MAX_ADDR (heap_top (user t)) new) as (to & r & R1 & R2 & R3 & R4 & R5 & R6 & R7 & R8 & R9);
    [by exists 67108864|done|done|lia|lia|]. apply wlp_bind, wlp_lift. rewrite R1. intros ? [= <-]. apply wlp_bind, wlp_lift. rewrite R5. intros ? [= <-].
  pose proof (space_held p sp k Hw ltac:(by exists t)) as Hok. apply wlp_bind, wlp_in_mem. eapply wlp_mono; [|by apply wp_wlp, push_ok].
  intros [res sp'] s1 Hpush. apply wlp_bind. intros u k1. rewrite upd_task_run. intros [= <- <-].
  destruct res as [[]|e]; [|apply wlp_ret; by apply wlp_ret]. destruct (Hpush eq_refl) as (fs & Esp & Hok1 & Hg & Hfree).
  apply wlp_ret. apply wlp_bind. intros u k1. rewrite upd_task_run, put_task_twice. intros [= <- <-]. apply wlp_ret. intros _.
  destruct (wf_regrow t sp sp' (with_frames fs r) s1 new to k Hw Ht Hsp Hok1 Esp Hg) as [Hw1 A1].
  { apply (grow_user t sp sp' (with_frames fs r) (k_mem k) s1 new to (kernel_tables (k_space k))); try done; lia. }
  split; [|done]. apply (alive_advance p b k); [done|done|done|done|]. destruct (al_runs _ _ _ Hk) as (t0 & Ht0 & Hr).
  rewrite Ht in Ht0. injection Ht0 as <-. eexists. cbn. rewrite lookup_alter_eq, Ht. split; [done|]. cbn. rewrite Hr. unfold task_token.
  cbn. rewrite Hsp. unfold AS_token, PageTable.token. by rewrite (gw_root _ _ _ _ _ Hg).
Qed.

(** A refused [sbrk] must have changed nothing: a heap that could not grow
    leaves the pages it mapped first in the table, and frees them. *)
Definition sbrk_clean delta k : Prop := ∀ k', adjust_brk p delta k = Ret (None, k') → k' = k.
Lemma call_sbrk delta k : alive p b k → sbrk_clean delta k →
  wlp (sys_sbrk delta) (λ pr k', wf [] k' ∧ advance (Some p) k k' ∧ goes p b pr k') k.
Proof.
  intros Hk Hcl. unfold sys_sbrk. eapply (ends_reads p); [by eapply reads_current|]. intros a ->.
  apply ends_after; [|intros; apply call_done]. intros o k' E. destruct o as [old|]; [by apply (sbrk_done _ _ Hk _ _ E)|].
  rewrite (Hcl _ E). split; [done|apply advance_refl].
Qed.
End calls.
