(* ===== verification/TrapIsolation.v ===== *)
(** * Traps keep processes apart

    The calls of [Isolation] and [CallIsolation] put together: the dispatcher,
    the trap handlers, the idle loop and the creation of processes. *)
From stdpp Require Import base numbers functions gmap list.
From coqutil Require Import Byte LittleEndianList.
From Stdlib Require Import Lia.
From S2P Require Import Prelude Memory Config Addr FrameIface FrameProps PageTable PageTableInv PageTableOps.
From S2P Require Import Space SpaceInv SpaceMap SpaceOps SpaceUser SpaceWrite SpaceProps Loader LoaderProps.
From S2P Require Import Device Trap Task Sched SchedProps Kernel Process Syscall ArgsProps ImageProps ProcessProps Holdings Isolation CallIsolation.

(** Registers are unsigned. *)
Definition unsigned_regs (f : TrapFrame) : Prop := Forall (λ x, 0 ≤ x) (tf_x f).

Lemma tf_reg_pos f i a : unsigned_regs f → tf_reg f i = Ret a → 0 ≤ a.
Proof.
  intros Hf. unfold tf_reg, arr_get. destruct (i <? 0); [done|]. destruct (tf_x f !! Z.to_nat i) eqn:E; [|done].
  intros [= <-]. by apply (proj1 (Forall_lookup _ _) Hf _ _ E).
Qed.
Lemma arg_pos f i a : unsigned_regs f → arg f i = Ret a → 0 ≤ a.
Proof. intros Hf. unfold arg. destruct (10 +! i); [|done]. by apply tf_reg_pos. Qed.

Section traps.
Context {S D : Type} `{FrameAllocator S, !FrameAllocatorLaws S} `{Bus D} `{Firmware D}.
Abbreviation Kst := (Kernel S D).
Abbreviation K := (ST Kst).
Implicit Types (k : Kst).

(** ** The box of the running task *)
Lemma tasks_apart X k p q t u i j : wf X k → p ≠ q → tasks (k_sched k) !! p = Some t → tasks (k_sched k) !! q = Some u →
  i ∈ items t → j ∈ items u → apart i j.
Proof.
  intros Hw Hpq Ht Hu Hi Hj. destruct (separate_app _ _ (wf_apart _ _ Hw)) as (_ & Hap & _).
  pose proof (separate_perm _ _ (task_items_delete _ p t Ht) Hap) as Hap'. apply separate_app in Hap' as (_ & _ & Hx).
  apply Hx; [done|]. apply elem_of_task_items. exists q, u. by rewrite lookup_delete_ne.
Qed.
Lemma frame_item t c : frame (user t) = Some c → IBox c ∈ items t.
Proof. intros Hf. unfold items. rewrite Hf. cbn. set_solver. Qed.

Section own.
Context (p : Pid) (b : Z).
Abbreviation calls m := (ends (S := S) (D := D) p b m (goes p b)).

Lemma reads_box k a : reads k (box_get a) (λ f, live (k_boxes k) !! a = Some f).
Proof. intros f k'. unfold box_get, mbind, ST_bind, get, lift, expect. destruct (live (k_boxes k) !! a); [|done]. by intros [= <- <-]. Qed.

Definition set_box (f : TrapFrame) k : Kst := set_boxes (mkBoxes (<[b := f]> (live (k_boxes k))) (next_box (k_boxes k))) k.

Lemma wf_set_box f k : wf [] k → runs p k → its_box p b k → is_Some (live (k_boxes k) !! b) →
  wf [] (set_box f k) ∧ advance (Some p) k (set_box f k).
Proof.
  intros Hw (t & Ht & _) [Hlt Hb] Hlive. pose proof Hw as [[K1 K2 K3 K4] Hit Hap Hus].
  assert (Hfr : frame (user t) = Some b).
  { destruct (Hb t Ht) as [?|Hn]; [done|]. rewrite Hn in Hlive. by destruct Hlive. }
  assert (Hsame : ∀ x, is_Some (live (k_boxes (set_box f k)) !! x) ↔ is_Some (live (k_boxes k) !! x)).
  { intros x. cbn. rewrite lookup_insert_is_Some'. split; [intros [<-|?]; done|by right]. }
  split; [split|split].
  - split; [done|done| |done]. intros x Hx. apply K3. by apply Hsame.
  - intros i Hi. specialize (Hit i Hi). destruct i; [done|done|]. by apply Hsame.
  - exact Hap.
  - exact Hus.
  - done.
  - intros q x _ [Hx Hq]. split; [done|]. intros u Hu. destruct (Hq u Hu) as [?|Hn]; [by left|right].
    cbn. rewrite lookup_insert_ne; [done|]. intros ->. rewrite Hn in Hlive. by destruct Hlive.
  - intros q u Hq _ Hu. exists u. split_and!; [done|done|]. intros i Hi. split; [done|]. intros x Hx. cbn.
    rewrite lookup_insert_ne; [done|]. intros ->. apply (tasks_apart [] k p q t u (IBox x) i Hw) with (Box x); try done; [congruence|by apply frame_item].
Qed.
Lemma box_set_spec f k : alive p b k → wlp (box_set b f) (λ _ k', k' = set_box f k ∧ alive p b k' ∧ advance (Some p) k k') k.
Proof.
  intros Hk. unfold box_set. apply wlp_bind. eapply wlp_mono; [|apply reads_box]. cbv beta. intros g k' [-> Hg].
  apply wlp_bind, wlp_get, wlp_put. destruct (wf_set_box f k) as [Hw A]; [apply Hk|apply Hk|apply Hk|by eexists|].
  split_and!; [done| |done]. apply (alive_advance p b k); [done|done|done|done|apply (al_runs _ _ _ Hk)].
Qed.

(** ** The dispatcher *)
Lemma call_yield : calls (away yield_now (done 0)).
Proof. apply call_switch; [apply quits_switch|apply call_done]. Qed.

Context (programs : list (list byte * list byte)) (entry : Z) (Hfit : Forall (fits ∘ snd) programs).
Lemma call_dispatch poll wakes f k : alive p b k → unsigned_regs f → 0 ≤ next_pid (k_sched k) < U64 - 1 →
  (syscall_id f = Ret nr.SYS_SBRK → ∀ d, arg f 0 = Ret d → sbrk_clean p (as_isize d) k) →
  wlp (dispatch programs entry poll wakes f) (λ pr k', wf [] k' ∧ advance (Some p) k k' ∧ goes p b pr k') k.
Proof.
  intros Hk Hf Hpid Hsbrk. unfold dispatch. eapply (ends_reads p); [apply reads_lift|]. intros id Hid.
  eapply (ends_reads p); [apply reads_lift|]. intros a0 H0'. eapply (ends_reads p); [apply reads_lift|]. intros a1 H1'.
  eapply (ends_reads p); [apply reads_lift|]. intros a2 _. pose proof (arg_pos _ _ _ Hf H0'). pose proof (arg_pos _ _ _ Hf H1').
  destruct (id =? nr.SYS_EXIT); [by apply call_exit|]. destruct (id =? nr.SYS_WRITE); [by apply call_write|].
  destruct (id =? nr.SYS_READ); [by apply call_read|]. destruct (id =? nr.SYS_YIELD); [by apply call_yield|].
  destruct (id =? nr.SYS_GETPID); [by apply call_getpid|]. destruct (id =? nr.SYS_GETPPID); [by apply call_getppid|].
  destruct (id =? nr.SYS_FORK); [by apply call_fork|]. destruct (id =? nr.SYS_EXEC); [by apply call_exec|].
  destruct (id =? nr.SYS_WAITPID); [by apply call_waitpid|].
  destruct (Z.eqb_spec id nr.SYS_SBRK) as [->|]; [by apply call_sbrk; [|apply Hsbrk]|].
  destruct (id =? nr.SYS_UPTIME); [apply call_still; [still|intros; apply call_done|done]|].
  destruct (id =? nr.SYS_PS); apply call_still; try done; try still; intros; apply call_done.
Qed.

(** ** Traps from user mode *)
Lemma call_resched {A} (rest : K (prog S D A)) : calls rest → calls (resched rest).
Proof.
  intros Hr k Hk. unfold resched, resched_if_needed. apply wlp_bind, wlp_bind.
  eapply wlp_mono; [|apply (does_still p b (in_sched take_resched) ltac:(still) k Hk)]. cbv beta. intros c k1 (Hk1 & A1 & _). destruct c.
  - apply wlp_bind. eapply wlp_mono; [|by apply (ends_quits p b _ (quits_switch Ready))]. cbv beta. intros w k2 (Hw2 & A2 & C2).
    apply wlp_ret, wlp_ret. split; [done|split; [by eapply advance_trans|by apply call_away]].
  - apply wlp_ret. eapply wlp_mono; [|by apply Hr]. cbv beta. intros pr k2 (? & ? & ?).
    split; [done|split; [by eapply advance_trans|done]].
Qed.
Lemma call_return : calls return_to_user.
Proof.
  apply call_resched. unfold frame_ptr. eapply ends_bind; [apply does_still; still|]. intros [] _.
  do 2 (eapply ends_bind; [apply does_still; still|intros ? _]). apply call_done.
Qed.
Lemma call_ecall_done v : calls (ecall_done b v).
Proof.
  unfold ecall_done. eapply ends_bind; [apply does_still; still|]. intros [] _ k Hk. apply (ends_after p b); [|intros; apply call_return].
  unfold store_return. apply wlp_bind, wlp_get. destruct (live (k_boxes k) !! b) as [f|]; [|apply wlp_ret; split; [done|apply advance_refl]].
  apply wlp_bind, wlp_lift. intros f' _. eapply wlp_mono; [|by apply box_set_spec]. cbv beta. by intros [] k' (_ & ? & ?).
Qed.

(** ** [sbrk] looks at tasks and memory only *)
Definition local {A} (m : K A) : Prop := ∀ h B k, m (set_hart h (set_boxes B k)) =
  match m k with Ret (a, k') => Ret (a, set_hart h (set_boxes B k')) | Panic => Panic end.
Lemma local_bind {A B} (m : K A) (f : A → K B) : local m → (∀ a, local (f a)) → local (m ≫= f).
Proof. intros Hm Hf h B' k. unfold mbind, ST_bind. rewrite Hm. destruct (m k) as [[a k1]|]; [apply Hf|done]. Qed.
Lemma local_sched {A} (m : ST Sched A) : local (in_sched m).
Proof. intros h B k. unfold in_sched. cbn. by destruct (m (k_sched k)) as [[]|]. Qed.
Lemma local_mem {A} (m : ST S A) : local (in_mem m).
Proof. intros h B k. unfold in_mem. cbn. by destruct (m (k_mem k)) as [[]|]. Qed.
Lemma local_lift {A} (o : outcome A) : local (lift o).
Proof. intros h B k. by destruct o. Qed.
Lemma local_ret {A} (a : A) : local (mret a).
Proof. done. Qed.
Lemma local_sbrk delta : local (adjust_brk p delta).
Proof.
  unfold adjust_brk, grow_heap.
  repeat (cbv beta zeta; lazymatch goal with
    | |- local (_ ≫= _) => apply local_bind; [|intros ?]
    | |- local (in_sched _) => apply local_sched
    | |- local (in_mem _) => apply local_mem
    | |- local (lift _) => apply local_lift
    | |- local (mret _) => apply local_ret
    | |- local (match ?x with _ => _ end) => destruct x
    end).
Qed.
Lemma sbrk_clean_local delta h B k : sbrk_clean p delta k → sbrk_clean p delta (set_hart h (set_boxes B k)).
Proof.
  intros Hc k'. rewrite local_sbrk. destruct (adjust_brk p delta k) as [[o k1]|] eqn:E; [|done]. intros [= -> <-]. by rewrite (Hc k1 E).
Qed.

(** What is asked of a system call: pids are left, and an [sbrk] it makes is
    clean. *)
Record call_ok k : Prop := {
  ck_pid : 0 ≤ next_pid (k_sched k) < U64 - 1;
  ck_regs f : live (k_boxes k) !! b = Some f → unsigned_regs f;
  ck_sbrk f d : live (k_boxes k) !! b = Some f → syscall_id f = Ret nr.SYS_SBRK → arg f 0 = Ret d → sbrk_clean p (as_isize d) k }.

Lemma ecall_spec poll wakes k : alive p b k → call_ok k →
  wlp (ecall_from_user programs entry poll wakes b) (λ pr k', wf [] k' ∧ advance (Some p) k k' ∧ goes p b pr k') k.
Proof.
  intros Hk [C1 C2 C3]. unfold ecall_from_user. eapply (ends_reads p); [apply reads_box|]. intros f Hf.
  eapply (ends_reads p); [apply reads_lift|]. intros pc _. apply wlp_bind. eapply wlp_mono; [|by apply box_set_spec].
  cbv beta. intros [] k1 (Ek1 & Hk1 & A1). apply wlp_bind. intros [] k2 E2.
  destruct (does_still p b (on_hart intr_enable) ltac:(still) k1 Hk1 _ _ E2) as (Hk2 & A2 & _). injection E2 as Ek2.
  assert (C : 0 ≤ next_pid (k_sched k2) < U64 - 1 ∧ live (k_boxes k2) !! b = Some (with_sepc pc f) ∧
    ∀ d, syscall_id f = Ret nr.SYS_SBRK → arg f 0 = Ret d → sbrk_clean p (as_isize d) k2).
  { rewrite <- Ek2, Ek1. cbn. rewrite lookup_insert_eq. split_and!; [lia|lia|done|]. intros d Hid Hd. apply sbrk_clean_local. by apply (C3 f). }
  clear Ek1 Ek2. destruct C as (D1 & D2 & D3).
  assert (Hd : wlp (f' ← box_get b; r ← dispatch programs entry poll wakes f'; pbind r (ecall_done b))
    (λ pr k', wf [] k' ∧ advance (Some p) k2 k' ∧ goes p b pr k') k2).
  { eapply (ends_reads p); [apply reads_box|]. intros f' Hf'. rewrite D2 in Hf'. injection Hf' as <-.
    apply call_pbind; [|intros; apply call_ecall_done]. apply call_dispatch; [done|by apply (C2 f)|done|]. intros Hid d Hd. by apply D3. }
  eapply wlp_mono; [|exact Hd]. cbv beta. intros pr k3 (? & ? & ?).
  split; [done|split; [by eapply advance_trans; [|eapply advance_trans]|done]].
Qed.

Lemma user_trap_spec poll wakes irqs scause k : alive p b k → call_ok k →
  wlp (user_trap_handler programs entry poll wakes irqs scause b) (λ pr k', wf [] k' ∧ advance (Some p) k k' ∧ goes p b pr k') k.
Proof.
  intros Hk Hok. unfold user_trap_handler. apply wlp_bind. intros [] k1 E1.
  destruct (does_still p b (on_hart (set_vector kernel_trap_entry)) ltac:(still) k Hk _ _ E1) as (Hk1 & A1 & _). injection E1 as Ek1.
  assert (Hok1 : call_ok k1).
  { destruct Hok as [C1 C2 C3]. rewrite <- Ek1. split; [done|done|]. intros f d Hf Hid Hd.
    assert (k = set_boxes (k_boxes k) k) as Ek by by destruct k. rewrite Ek at 2. apply sbrk_clean_local. by apply (C3 f). }
  assert (Hend : ∀ m : K (prog S D Z), wlp m (λ pr k', wf [] k' ∧ advance (Some p) k1 k' ∧ goes p b pr k') k1 →
    wlp m (λ pr k', wf [] k' ∧ advance (Some p) k k' ∧ goes p b pr k') k1).
  { intros m Hm. eapply wlp_mono; [|exact Hm]. cbv beta. intros pr k2 (? & ? & ?). split; [done|split; [by eapply advance_trans|done]]. }
  destruct (decode scause); apply Hend; (by apply ecall_spec) || (by apply call_kill) ||
    (apply call_still; [still|intros; apply call_return|done]).
Qed.
End own.

(** ** The rest of the kernel *)

(** No task is in the wrong space. *)
Record settled k : Prop := {
  st_wf : wf [] k;
  st_runs p : current (k_sched k) = Some p → runs p k }.

Lemma settled_pid k p : settled k → current (k_sched k) = Some p → p < next_pid (k_sched k).
Proof. intros [Hw Hr] Hc. destruct (Hr p Hc) as (t & Ht & _). apply (ko_pids _ (wf_ok _ _ Hw)). by eexists. Qed.
Lemma settled_steady k k' : settled k → wf [] k' → advance None k k' → steady k k' → settled k'.
Proof.
  intros Hs Hw Ha Hst. split; [done|]. intros p Hc. rewrite (kp_current _ _ (sd_kept _ _ Hst)) in Hc.
  apply (runs_steady p k k'); [done|by apply settled_pid|by apply Hs|done|done].
Qed.
Lemma settled_calm k k' : settled k → calm k k' → settled k' ∧ advance None k k'.
Proof.
  intros Hs Hc. destruct (wf_quiet [] k k' (st_wf _ Hs) (cm_quiet _ _ Hc)) as [Hw Ha]. split; [|done].
  by apply (settled_steady k); [| | |apply calm_steady].
Qed.
Lemma settled_idle k k' : settled k → quiet k k' → current (k_sched k') = None → settled k' ∧ advance None k k'.
Proof. intros Hs Hq Hc. destruct (wf_quiet [] k k' (st_wf _ Hs) Hq) as [Hw Ha]. split; [|done]. split; [done|]. intros p Hp. congruence. Qed.

(** An interrupt of the kernel. *)
Fixpoint rests {A} (pr : prog S D A) : Prop :=
  match pr with
  | Away r => ∀ k, match r k with Ret (pr', k') => calm k k' ∧ rests pr' | Panic => True end
  | _ => True
  end.
Lemma settled_still {A B} (m : K A) (f : A → K B) (P : B → Prop) k : settled k → still m →
  (∀ a k', settled k' → wlp (f a) (λ c k2, settled k2 ∧ advance None k' k2 ∧ P c) k') →
  wlp (m ≫= f) (λ c k2, settled k2 ∧ advance None k k2 ∧ P c) k.
Proof.
  intros Hs Hm Hf. apply wlp_bind. eapply wlp_mono; [|apply Hm]. cbv beta. intros a k1 C1. destruct (settled_calm _ _ Hs C1) as [Hs1 A1].
  eapply wlp_mono; [|by apply Hf]. cbv beta. intros c k2 (? & ? & ?). split; [done|split; [by eapply advance_trans|done]].
Qed.
Lemma rests_away w : rests (Away (λ k, (switch_back w;; done (S := S) (D := D) tt) k)).
Proof.
  intros k. assert (Hb : wlp (switch_back w;; done (S := S) (D := D) tt) (λ pr k', calm k k' ∧ rests pr) k).
  { apply wlp_bind. eapply wlp_mono; [|apply still_switch_back]. cbv beta. intros [] k' Hc. by apply wlp_ret. }
  unfold wlp in Hb. destruct ((switch_back w;; done tt) k) as [[pr k']|]; [by apply Hb|done].
Qed.
Lemma kernel_trap_spec irqs scause k : settled k →
  wlp (kernel_trap_handler irqs scause) (λ pr k', settled k' ∧ advance None k k' ∧ rests pr) k.
Proof.
  intros Hs. unfold kernel_trap_handler. apply settled_still; [done|destruct (decode scause); still|]. intros [] k1 Hs1.
  unfold resched, resched_if_needed. apply wlp_bind.
  assert (Hq : wlp (c ← in_sched take_resched; if c : bool then w ← yield_now; mret (Some w) else mret None)
    (λ o k', settled k' ∧ advance None k1 k' ∧ True) k1).
  { apply settled_still; [done|still|]. intros c k2 Hs2. destruct c; [|apply wlp_ret; split; [done|split; [apply advance_refl|done]]].
    apply wlp_bind. eapply wlp_mono; [|apply (quits_switch Ready)]. cbv beta. intros w k3 [Q3 C3].
    apply wlp_ret. by destruct (settled_idle _ _ Hs2 Q3 C3). }
  eapply wlp_mono; [|exact Hq]. cbv beta. intros o k2 (Hs2 & A2 & _).
  destruct o as [w|]; apply wlp_ret; (split; [done|split; [done|]]); [apply rests_away|done].
Qed.

(** One round of the idle loop. *)
Lemma settled_moves {A B} (m : K A) (f : A → K B) (P : B → Prop) k : settled k → moves [] m (λ _, []) →
  (∀ a k', settled k' → wlp (f a) (λ c k2, settled k2 ∧ advance None k' k2 ∧ P c) k') →
  wlp (m ≫= f) (λ c k2, settled k2 ∧ advance None k k2 ∧ P c) k.
Proof.
  intros Hs Hm Hf. apply wlp_bind. eapply wlp_mono; [|apply Hm, Hs]. cbv beta. intros a k1 (Hw1 & A1 & C1).
  pose proof (settled_steady _ _ Hs Hw1 A1 C1) as Hs1. eapply wlp_mono; [|by apply Hf].
  cbv beta. intros c k2 (? & ? & ?). split; [done|split; [by eapply advance_trans|done]].
Qed.
Lemma start_spec p k : settled k → wlp (token ← space_token p; activate token;; in_sched (run_start p);; mret (Some p))
  (λ _ k', settled k' ∧ advance None k k' ∧ True) k.
Proof.
  intros Hs. unfold space_token, activate, on_hart. apply wlp_bind, wlp_bind. eapply wlp_mono; [|apply reads_task].
  cbv beta. intros t k' [-> Ht]. do 7 wlp_step. apply wlp_bind. intros u k1. unfold in_sched. cbn [k_sched set_hart].
  destruct (run_start p (k_sched k)) as [[v s]|] eqn:E; [|done]. intros [= <- <-]. apply wlp_ret.
  destruct (soft_run_start _ _ _ _ E) as ([P R] & C & [t' Ht']). match goal with |- settled ?x ∧ _ => set (k1 := x) end.
  assert (Hq : quiet k k1) by by split.
  destruct (wf_quiet [] k k1 (st_wf _ Hs) Hq) as [Hw A]. split; [|done]. split; [done|]. intros q Hq'. cbn in Hq'. rewrite C in Hq'.
  injection Hq' as <-. exists t'. split; [done|]. destruct (quiet_task k k1 p t' Hq Ht') as (t0 & Ht0 & Hr). rewrite Ht in Ht0.
  injection Ht0 as <-. injection Hr as _ Hsp _ _ _. unfold task_token. rewrite Hsp. cbn. rewrite activate_token_satp.
  by destruct (space (user t)).
Qed.
Lemma run_iter_spec k : settled k → wlp run_iter (λ _ k', settled k' ∧ advance None k k' ∧ True) k.
Proof.
  intros Hs. unfold run_iter. apply settled_still; [done|still|]. intros o k1 Hs1. apply settled_moves; [done| |].
  { destruct o as [q|]; [|apply moves_ret]. intros k2 Hw. apply wlp_bind, wlp_get. by apply moves_drop_arc. }
  intros [] k2 Hs2. apply settled_still; [done|still|]. intros [q|] k3 Hs3; [by apply start_spec|].
  do 2 (apply settled_still; [done|still|intros [] ? ?]). apply wlp_ret. split; [done|split; [apply advance_refl|done]].
Qed.

Lemma user_entry_spec k : settled k → wlp user_entry (λ _ k', settled k' ∧ advance None k k' ∧ True) k.
Proof.
  intros Hs. unfold user_entry, frame_ptr. do 3 (apply settled_still; [done|still|intros ? ? ?]).
  apply wlp_lift. intros ? _. split; [done|split; [apply advance_refl|done]].
Qed.
Lemma admit_spec p k : settled k → wlp (in_sched (admit_task p)) (λ _ k', settled k' ∧ advance None k k') k.
Proof. intros Hs. eapply wlp_mono; [|apply still_sched, mild_admit]. cbv beta. intros [] k'. by apply settled_calm. Qed.

(** A process from nothing. *)
Lemma new_user_steady entry nm image args k : wf [] k → fits image → args_size args ≤ USER_STACK_SIZE → 0 ≤ next_pid (k_sched k) < U64 - 1 →
  wlp (new_user entry nm image args) (λ _ k', wf [] k' ∧ advance None k k' ∧ steady k k') k.
Proof.
  intros Hw Hf Hargs Hpid. pose proof (wf_ok _ _ Hw) as Hko. unfold new_user. apply wlp_bind, wp_wlp.
  eapply wp_mono; [|apply (build_image_spec image args k); [apply Hko|apply Hko|apply Hf|done]].
  intros [[[sp ld] [[usp argc] argv]]|e] k1; generalize (k_mem k1); intros s1 [-> Hbt]; cbv beta iota; cbn [built] in Hbt.
  2: { apply wlp_ret. destruct (wf_restored [] k _ Hw Hbt) as [Hw1 A1]. by split. }
  destruct Hbt as (_ & _ & Hbd & Him & Hbrk & Hdiv). destruct (wf_building [] k sp _ Hw Hbd) as [Hw1 A1]. set (k2 := set_mem s1 k) in *.
  apply wlp_bind, wlp_in_mem, wp_wlp. pose proof (ko_mem _ (wf_ok _ _ Hw1)) as Hi1.
  eapply wp_mono; [|apply wp_conj; [by apply KernelStack_new_spec|by apply KernelStack_new_shape]]. intros [ks|] s2; cbv beta iota.
  2: { intros [-> _]. change (set_mem (k_mem k2) k2) with k2. apply wlp_bind. eapply wlp_mono; [|by apply (moves_drop_space [] sp k2)].
       cbv beta. intros [] k3 (Hw3 & A3 & C3). apply wlp_ret. split; [done|split; [by eapply advance_trans|by eapply steady_trans; [|exact C3]]]. }
  intros [[ksp Hn] [Ho Hd]]. destruct (wf_stack _ k2 ks ksp s2 Hw1 Hn Ho Hd) as [Hw2 A2]. set (k3 := set_mem s2 k2) in *.
  do 2 wlp_step. apply wlp_bind, wp_wlp. apply image_frame_spec. intros f _ _ _ _ _ _.
  eapply wlp_mono; [|apply (install_spec ks sp _ _ k3 Hw2); [done|]].
  { cbv beta. intros r k4 (Hw4 & A4 & C4). split; [done|]. split; [by eapply advance_trans; [|eapply advance_trans]|by eapply steady_trans; [|exact C4]]. }
  intros c. split; [done|split; [done|split; [done|]]].
  apply (user_ok_mem _ _ (fa_mem s1)). by eapply image_user; [| |apply Hbrk| |].
Qed.
Lemma create_spec entry nm image args k : settled k → fits image → args_size args ≤ USER_STACK_SIZE → 0 ≤ next_pid (k_sched k) < U64 - 1 →
  wlp (new_user entry nm image args) (λ _ k', settled k' ∧ advance None k k') k.
Proof.
  intros Hs Hf Hargs Hpid. eapply wlp_mono; [|by apply new_user_steady; [apply Hs|..]]. cbv beta. intros o k' (Hw & A & C).
  split; [by apply (settled_steady k)|done].
Qed.
End traps.
