(* ===== verification/ProcessIsolation.v ===== *)
(** * Process isolation

    The kernel with everything that happens to it: stores of user programs
    through the MMU, traps, sleepers that resume, interrupts, the idle loop and
    new processes, in any order.  From boot on, no two tasks ever hold a page
    or a trap frame in common, a running program reaches only pages of its own,
    and what happens on behalf of one process leaves the memory and the trap
    frame of every other one alone. *)
From stdpp Require Import base numbers functions gmap list.
From coqutil Require Import Byte LittleEndianList.
From Stdlib Require Import Lia.
From S2P Require Import Prelude Memory Config Addr FrameIface FrameProps PageTable PageTableInv PageTableWalk PageTableOps KernelMap.
From S2P Require Import Space SpaceInv SpaceMap SpaceOps SpaceUser SpaceWrite SpaceProps Loader LoaderProps.
From S2P Require Import Device Trap Task Sched SchedProps Kernel Process Syscall ArgsProps ImageProps ProcessProps.
From S2P Require Import KernelDemo FrameTypes Holdings Isolation CallIsolation TrapIsolation.
From S2P Require Import PageTableProps UartProps.
From S2P Require KernelSpaceProps Frame Uart.

(** ** What the MMU gives a process *)
Lemma hw_tr m i j l t e rest : clear m [i; j; l] 2 t → hw m [i; j; l] t = Some (e, rest) → rest = [] ∧ tr m [i; j; l] t = Some e.
Proof.
  intros [L1 C1]. cbn [hw tr]. unfold interior. rewrite L1. destruct (is_valid (ent m t i)); [|done]. destruct (C1 eq_refl) as [L2 _].
  rewrite L2. cbn. destruct (is_valid (ent m _ j)); [|done]. cbn. unfold filter_valid.
  set (x := ent m _ l).
  destruct (is_leaf x) eqn:L3; [|destruct (is_valid x); discriminate]. rewrite (is_leaf_valid _ L3). by intros [= <- <-].
Qed.

Section mmu.
Context {S : Type} `{FrameAllocator S, !FrameAllocatorLaws S}.
Implicit Types (s : S).

(** The walk under a space's token ends on a page the space lists. *)
Lemma user_hw K sp s va pa g : space_ok K sp s → 0 ≤ va < USER_MAX_ADDR → hw_addr (fa_mem s) (AS_token sp) va = Some (pa, g) →
  user_addr sp va = Some (pa + VIRT_OFFSET).
Proof.
  intros Hok Hva. destruct (mp_wf _ _ _ _ (so_maps _ _ _ Hok)) as (role & Hpt & Hfl & _).
  pose proof (proj2 (pt_root _ _ _ _ Hpt _) eq_refl) as Hroot. pose proof (pt_used _ _ _ _ Hpt _ _ Hroot) as Hu.
  pose proof (fa_used_range _ _ (pt_inv _ _ _ _ Hpt) Hu) as Hr.
  unfold hw_addr, AS_token. destruct (KernelSpaceProps.token_root (table sp)) as [-> ->]; [lia|]. cbn [Z.eqb andb].
  destruct (_ || _); [|done]. pose proof (user_vpn_addr va Hva) as Hv. unfold hw_page.
  destruct (hw (fa_mem s) (indices (vpn va)) (root (table sp))) as [[e rest]|] eqn:Hh; [|done].
  destruct (indices_ok (vpn va)) as [Hix _]. apply hw_tr in Hh as [-> Htr].
  2: { apply (flat_clear 256 role (table sp) s _ Hpt Hfl 2 []); [done|cbn; lia|done|by apply user_owned]. }
  pose proof (sp_view K sp s (vpn va) Hok Hv) as Hview. unfold view in Hview. fold (indices (vpn va)) in Htr. rewrite Htr in Hview.
  unfold user_addr. destruct (bt_get (vpn va) (sp_pages sp)) as [[q f]|] eqn:Hg; [|done]. injection Hview as ->.
  apply (sp_get K sp s _ _ Hok) in Hg. destruct (mp_range _ _ _ _ (so_maps _ _ _ Hok) _ _ _ Hg) as (_ & Hq & Hf). cbn [fst snd length num].
  rewrite Pte_new_ppn by (lia || by apply leaf_flags_range). change (512 ^ Z.of_nat 0) with 1. rewrite Z.mod_1_r, page_offset_mod. cbn.
  intros [= <- <-]. f_equal. unfold page_base. lia.
Qed.
End mmu.

(** ** The system *)
Section system.
Context {S D : Type} `{FrameAllocator S, !FrameAllocatorLaws S} `{Bus D} `{Firmware D}.
Abbreviation Kst := (Kernel S D).
Implicit Types (k : Kst).
Context (programs : list (list byte * list byte)) (entry : Z).

(** Handlers under way: of a trap of [p] that came with the frame in box [b],
    or of an interrupt of the kernel. *)
Inductive handler := trap_of (p : Pid) (b : Z) (pr : prog S D Z) | irq (pr : prog S D unit).
Record system := mkSystem { sy_kernel : Kst; sy_handlers : list handler }.

(** The byte [v] is stored at physical address [pa]. *)
Definition stored_at (pa : Z) (v : byte) k : Kst :=
  set_mem (fa_set_mem (store_bytes (fa_mem (k_mem k)) (pa + VIRT_OFFSET) [v]) (k_mem k)) k.

(** One step, and the process it is made for.  A system call is one step up to
    the point where it gives up the hart, and [do_resume] takes it from there. *)
Inductive sstep (m : system) : option Pid → system → Prop :=
| do_store p t sp va pa g v :
    current (k_sched (sy_kernel m)) = Some p → tasks (k_sched (sy_kernel m)) !! p = Some t → space (user t) = Some sp → 0 ≤ va < USER_MAX_ADDR →
    hw_addr (fa_mem (k_mem (sy_kernel m))) (satp (k_hart (sy_kernel m))) va = Some (pa, g) →
    contains g (Z.lor Flags.WRITE Flags.USER) = true →
    sstep m (Some p) (mkSystem (stored_at pa v (sy_kernel m)) (sy_handlers m))
| do_trap p t b f st pending poll wakes irqs scause pr k' :
    current (k_sched (sy_kernel m)) = Some p → tasks (k_sched (sy_kernel m)) !! p = Some t → frame (user t) = Some b →
    call_ok p b (saved b f (hardware st pending (sy_kernel m))) →
    user_trap_handler programs entry poll wakes irqs scause b (saved b f (hardware st pending (sy_kernel m))) = Ret (pr, k') →
    sstep m (Some p) (mkSystem k' (trap_of p b pr :: sy_handlers m))
| do_resume i p b r pr k' :
    sy_handlers m !! i = Some (trap_of p b (Away r)) → current (k_sched (sy_kernel m)) = Some p →
    r (sy_kernel m) = Ret (pr, k') → sstep m (Some p) (mkSystem k' (<[i := trap_of p b pr]> (sy_handlers m)))
| do_irq irqs scause pr k' :
    kernel_trap_handler irqs scause (sy_kernel m) = Ret (pr, k') → sstep m None (mkSystem k' (irq pr :: sy_handlers m))
| do_resume_irq i r pr k' :
    sy_handlers m !! i = Some (irq (Away r)) → r (sy_kernel m) = Ret (pr, k') →
    sstep m None (mkSystem k' (<[i := irq pr]> (sy_handlers m)))
| do_idle o k' : run_iter (sy_kernel m) = Ret (o, k') → sstep m None (mkSystem k' (sy_handlers m))
| do_enter b k' : user_entry (sy_kernel m) = Ret (b, k') → sstep m None (mkSystem k' (sy_handlers m))
| do_new nm image args o k' :
    fits image → args_size args ≤ USER_STACK_SIZE → 0 ≤ next_pid (k_sched (sy_kernel m)) < U64 - 1 →
    new_user entry nm image args (sy_kernel m) = Ret (o, k') → sstep m None (mkSystem k' (sy_handlers m))
| do_admit p k' : in_sched (admit_task p) (sy_kernel m) = Ret (tt, k') → sstep m None (mkSystem k' (sy_handlers m)).

(** ** The invariant *)
Definition handler_ok k (h : handler) : Prop :=
  match h with
  | trap_of p b pr => p < next_pid (k_sched k) ∧ its_box p b k ∧
      match pr with
      | Away r => ∀ k1, alive p b k1 → match r k1 with Ret (pr', k') => wf [] k' ∧ advance (Some p) k1 k' ∧ goes p b pr' k' | Panic => True end
      | _ => True
      end
  | irq pr => rests pr
  end.
Definition sound (m : system) : Prop := settled (sy_kernel m) ∧ Forall (handler_ok (sy_kernel m)) (sy_handlers m).

Lemma handler_advance a k k' h : advance a k k' → handler_ok k h → handler_ok k' h.
Proof. intros [P B O]. destruct h as [p b pr|pr]; [|done]. intros (Hp & Hb & Hpr). split; [lia|split; [by apply B|done]]. Qed.
Lemma handlers_advance a k k' l : advance a k k' → Forall (handler_ok k) l → Forall (handler_ok k') l.
Proof. intros Ha Hl. eapply Forall_impl; [exact Hl|]. intros h. by apply (handler_advance a). Qed.

(** A handler that has run left things in order. *)
Lemma goes_settled {A} p b (pr : prog S D A) k : wf [] k → goes p b pr k → settled k.
Proof.
  intros Hw Hg. split; [done|]. intros q Hq. destruct pr; cbn in Hg.
  - pose proof (al_current _ _ _ Hg) as Hc. rewrite Hq in Hc. injection Hc as ->. apply (al_runs _ _ _ Hg).
  - destruct Hg as [Hc _]. congruence.
  - congruence.
Qed.
Lemma goes_handler p b (pr : prog S D Z) k k' : goes p b pr k' → p < next_pid (k_sched k) → its_box p b k →
  advance (Some p) k k' → handler_ok k' (trap_of p b pr).
Proof.
  intros Hg Hp Hb [P B O]. split; [lia|]. split; [by apply B|]. destruct pr; try done. by destruct Hg.
Qed.

(** ** Steps *)
Lemma own_space k p t sp : settled k → current (k_sched k) = Some p → tasks (k_sched k) !! p = Some t → space (user t) = Some sp →
  satp (k_hart k) = AS_token sp ∧ space_ok (kernel_tables (k_space k)) sp (k_mem k).
Proof.
  intros Hs Hc Ht Hsp. destruct (st_runs _ Hs p Hc) as (u & Hu & Hr). rewrite Ht in Hu. injection Hu as <-.
  unfold task_token in Hr. rewrite Hsp in Hr. split; [done|]. apply (space_held p); [apply Hs|by exists t].
Qed.
Lemma store_spec p t sp va pa g v k : settled k → current (k_sched k) = Some p → tasks (k_sched k) !! p = Some t → space (user t) = Some sp →
  0 ≤ va < USER_MAX_ADDR → hw_addr (fa_mem (k_mem k)) (satp (k_hart k)) va = Some (pa, g) →
  settled (stored_at pa v k) ∧ advance (Some p) k (stored_at pa v k).
Proof.
  intros Hs Hc Ht Hsp Hva Hh. destruct (own_space k p t sp Hs Hc Ht Hsp) as [Hsatp Hok]. rewrite Hsatp in Hh.
  pose proof (user_hw _ sp (k_mem k) va pa g Hok Hva Hh) as Ha. apply user_addr_ppn in Ha as (q & Hq & Hpg).
  destruct (space_ok_write _ sp (k_mem k) (store_bytes (fa_mem (k_mem k)) (pa + VIRT_OFFSET) [v]) Hok) as (Hok' & Hu & Hag).
  { intros x Hx. exists q. split; [done|]. unfold store_bytes in Hx.
    destruct (Z.leb_spec (pa + VIRT_OFFSET) x), (Z.ltb_spec x (pa + VIRT_OFFSET + Z.of_nat (length [v]))); try done.
    replace x with (pa + VIRT_OFFSET) by (cbn in *; lia). done. }
  destruct (wf_write k p t sp _ (st_wf _ Hs) Ht Hsp Hok' Hu Hag) as [Hw A]. split; [|done]. split; [exact Hw|]. apply (st_runs _ Hs).
Qed.

Lemma trap_alive p t b f st pending k : settled k → current (k_sched k) = Some p → tasks (k_sched k) !! p = Some t → frame (user t) = Some b →
  let k0 := saved b f (hardware st pending k) in alive p b k0 ∧ advance (Some p) k k0 ∧ its_box p b k.
Proof.
  intros Hs Hc Ht Hf k0. pose proof (st_wf _ Hs) as Hw. destruct (settled_calm k (hardware st pending k) Hs ltac:(done)) as [Hs1 A1].
  assert (Hlive : is_Some (live (k_boxes k) !! b)).
  { apply (wf_items _ _ Hw (IBox b)). eapply world_task; [exact Ht|by apply frame_item]. }
  assert (Hb : its_box p b k).
  { split; [by apply (ko_boxes _ (wf_ok _ _ Hw))|]. intros u Hu. rewrite Ht in Hu. injection Hu as <-. by left. }
  destruct (wf_set_box p b f (hardware st pending k)) as [Hw2 A2]; [apply Hs1|by apply Hs1|done|done|].
  assert (A : advance (Some p) k k0) by (eapply advance_trans; [by apply advance_weaken|exact A2]).
  split; [|done]. pose proof (settled_pid k p Hs Hc). split; [exact Hw2|done|apply (st_runs _ Hs1 p Hc)|done|by apply (av_box _ _ _ A)].
Qed.

Context (Hfit : Forall (fits ∘ snd) programs).
Lemma sstep_sound m a m' : sstep m a m' → sound m → sound m' ∧ advance a (sy_kernel m) (sy_kernel m').
Proof.
  intros Hstep [Hs Hh]. destruct Hstep as [p t sp va pa g v Hc Ht Hsp Hva Hhw _|p t b f st pending poll wakes irqs scause pr k' Hc Ht Hf Hok E|
    i p b r pr k' Hi Hc E|irqs scause pr k' E|i r pr k' Hi E|o k' E|b k' E|nm image args o k' Hf Ha Hp E|p k' E]; unfold sound; cbn [sy_kernel sy_handlers].
  - destruct (store_spec p t sp va pa g v _ Hs Hc Ht Hsp Hva Hhw) as [Hs' A]. split; [split; [done|by eapply handlers_advance]|done].
  - destruct (trap_alive p t b f st pending _ Hs Hc Ht Hf) as (Hal & A & Hb).
    destruct (user_trap_spec p b programs entry Hfit poll wakes irqs scause _ Hal Hok _ _ E) as (Hw' & A' & Hg).
    assert (A2 : advance (Some p) (sy_kernel m) k') by (by eapply advance_trans).
    split; [|done]. split; [by eapply goes_settled|]. constructor; [|by eapply handlers_advance].
    eapply goes_handler; [done|by apply settled_pid|done|done].
  - pose proof (proj1 (Forall_lookup _ _) Hh i _ Hi) as (Hp & Hb & Hr).
    assert (Hal : alive p b (sy_kernel m)) by (split; [apply Hs|done|by apply Hs|done|done]).
    specialize (Hr _ Hal). rewrite E in Hr. destruct Hr as (Hw' & A & Hg). split; [|done]. split; [by eapply goes_settled|].
    apply Forall_insert; [by eapply handlers_advance|]. by eapply goes_handler.
  - destruct (kernel_trap_spec irqs scause _ Hs _ _ E) as (Hs' & A & Hr). split; [|done]. split; [done|].
    constructor; [done|by eapply handlers_advance].
  - pose proof (proj1 (Forall_lookup _ _) Hh i _ Hi (sy_kernel m)) as Hr. cbn in Hr. rewrite E in Hr. destruct Hr as [Hc Hr].
    destruct (settled_calm _ _ Hs Hc) as [Hs' A]. split; [|done]. split; [done|]. apply Forall_insert; [by eapply handlers_advance|done].
  - destruct (run_iter_spec _ Hs _ _ E) as (Hs' & A & _). split; [split; [done|by eapply handlers_advance]|done].
  - destruct (user_entry_spec _ Hs _ _ E) as (Hs' & A & _). split; [split; [done|by eapply handlers_advance]|done].
  - destruct (create_spec entry nm image args _ Hs Hf Ha Hp _ _ E) as (Hs' & A). split; [split; [done|by eapply handlers_advance]|done].
  - destruct (admit_spec p _ Hs _ _ E) as (Hs' & A). split; [split; [done|by eapply handlers_advance]|done].
Qed.

Definition step (m m' : system) : Prop := ∃ a, sstep m a m'.
Lemma steps_sound m m' : rtc step m m' → sound m → sound m'.
Proof. induction 1 as [|x y z [a Ha] _ IH]; [done|]. intros Hx. by apply IH, (sstep_sound x a). Qed.

(** A kernel without tasks. *)
Lemma boot_sound k : kernel_ok k → tasks (k_sched k) = ∅ → current (k_sched k) = None → sound (mkSystem k []).
Proof.
  intros Hk Ht Hc. split; [|constructor]. cbn [sy_kernel]. split; [|cbn; intros p Hp; congruence]. split; [done| | |].
  - unfold world. rewrite Ht. by intros i ?%elem_of_nil.
  - unfold world. by rewrite Ht.
  - intros p t sp Hp. by rewrite Ht in Hp.
Qed.

(** The task has [x]: a page of its stack, its memory or its tables, or the
    box of its trap frame. *)
Definition has (t : Task) (x : key) : Prop := ∃ i, i ∈ items t ∧ claims i x.

(** What a program reaches is its own. *)
Lemma reach_own k p t sp va pa g : settled k → current (k_sched k) = Some p → tasks (k_sched k) !! p = Some t → space (user t) = Some sp →
  0 ≤ va < USER_MAX_ADDR → hw_addr (fa_mem (k_mem k)) (satp (k_hart k)) va = Some (pa, g) → has t (Page (pa `div` PAGE_SIZE)).
Proof.
  intros Hs Hc Ht Hsp Hva Hh. destruct (own_space k p t sp Hs Hc Ht Hsp) as [Hsatp Hok]. rewrite Hsatp in Hh.
  pose proof (user_hw _ sp (k_mem k) va pa g Hok Hva Hh) as Ha. apply user_addr_ppn in Ha as (q & Hq & Hpg).
  exists (ISpace sp). split; [by apply space_item|left]. replace (pa `div` PAGE_SIZE) with q; [done|].
  unfold page, span, page_base, PAGE_SIZE in *. Z.div_mod_to_equations. lia.
Qed.

(** C1: process isolation.  Start from a kernel that has booted and has no
    tasks, and let these steps follow in any order: programs store through the
    MMU, trap for any cause with any registers, sleep in system calls and are
    resumed in states others have changed; interrupts arrive, the idle loop
    switches and drops tasks, processes are created.  Then at every moment no
    page and no trap frame belongs to two tasks; every user address the hart
    translates for the running process lies on a page of that process; and a
    step made for one process, or for none, leaves each other task that
    survives it with the same space, stack, frame and program break, and every
    byte of its memory and its trap frame unchanged.

    Assumed of every trap, as [call_ok]: pids do not run out, registers are
    unsigned, and no [sbrk] runs out of memory part way, which would leave
    entries to freed frames in the table.  Assumed of the embedded programs: they
    end below the stack.  A system call runs without interruption up to the point
    where it gives up the hart, although the source lets interrupts in there. *)
Theorem process_isolation k0 m a m' :
  kernel_ok k0 → tasks (k_sched k0) = ∅ → current (k_sched k0) = None → rtc step (mkSystem k0 []) m → sstep m a m' →
  (∀ p q t u x, p ≠ q → tasks (k_sched (sy_kernel m')) !! p = Some t → tasks (k_sched (sy_kernel m')) !! q = Some u →
     has t x → has u x → False) ∧
  (∀ p t sp va pa g, current (k_sched (sy_kernel m')) = Some p → tasks (k_sched (sy_kernel m')) !! p = Some t →
     space (user t) = Some sp → 0 ≤ va < USER_MAX_ADDR →
     hw_addr (fa_mem (k_mem (sy_kernel m'))) (satp (k_hart (sy_kernel m'))) va = Some (pa, g) → has t (Page (pa `div` PAGE_SIZE))) ∧
  (∀ q t', Some q ≠ a → q < next_pid (k_sched (sy_kernel m)) → tasks (k_sched (sy_kernel m')) !! q = Some t' →
     ∃ t, tasks (k_sched (sy_kernel m)) !! q = Some t ∧ res t' = res t ∧
       (∀ sp va, space (user t) = Some sp → umem sp (fa_mem (k_mem (sy_kernel m'))) va = umem sp (fa_mem (k_mem (sy_kernel m))) va) ∧
       (∀ b, frame (user t) = Some b → live (k_boxes (sy_kernel m')) !! b = live (k_boxes (sy_kernel m)) !! b)).
Proof.
  intros Hk Ht Hc Hr Hs. pose proof (steps_sound _ _ Hr (boot_sound k0 Hk Ht Hc)) as Hm.
  destruct (sstep_sound m a m' Hs Hm) as [[Hset _] [_ _ Hoth]]. split; [|split].
  - intros p q t u x Hpq Hp Hq (i & Hi & Hx) (j & Hj & Hx'). by apply (tasks_apart [] _ p q t u i j (st_wf _ Hset) Hpq Hp Hq Hi Hj x).
  - intros p t sp va pa g. by apply reach_own.
  - intros q t' Hq Hlt Hq'. destruct (Hoth q t' Hq Hlt Hq') as (u & Hu & Hres & Hsame). exists u. split_and!; [done|done| |].
    + intros sp va Hsp. apply umem_same, Hsame. by apply space_item.
    + intros b Hb. by apply (Hsame (IBox b)); [apply frame_item|].
Qed.
End system.

(** ** A kernel that starts its first process *)
Definition fresh_k : Kernel Frame.PhysMem chip :=
  mkK demo_mem (chip_uart [] Uart.RxRing_new) (mkS ∅ 1 (mkRQ [[]; []; []] 2) None None []) [] (mkBoxes ∅ 1)
    (mkHart 0 0 kernel_trap_entry 0 0 0) (mkTimer 0 0) demo_kernel_sp [].
Lemma fresh_kernel_ok : kernel_ok fresh_k.
Proof. destruct demo_kernel_ok as [K1 K2 _ _]. split; [exact K1|exact K2|intros a [? ?]; done|intros a [? ?]; done]. Qed.

Definition first_k : Kernel Frame.PhysMem chip := (run_or (new_user 0x80200000 [] demo_image demo_args fresh_k) None fresh_k).2.
Lemma first_run : new_user 0x80200000 [] demo_image demo_args fresh_k = Ret (Some 1, first_k).
Proof.
  assert (Hs : match new_user 0x80200000 [] demo_image demo_args fresh_k with Ret (Some 1, _) => true | _ => false end = true)
    by (vm_compute; reflexivity).
  unfold first_k, run_or. destruct (new_user 0x80200000 [] demo_image demo_args fresh_k) as [[[[|[]|]|] k]|]; try discriminate Hs. reflexivity.
Qed.
#[global] Opaque first_k.
Definition queued_k : Kernel Frame.PhysMem chip := (run_or (in_sched (admit_task 1) first_k) tt first_k).2.
Lemma queued_run : in_sched (admit_task 1) first_k = Ret (tt, queued_k).
Proof.
  assert (Hs : match in_sched (admit_task 1) first_k with Ret (tt, _) => true | _ => false end = true) by (vm_compute; reflexivity).
  unfold queued_k, run_or. destruct (in_sched (admit_task 1) first_k) as [[[] k]|]; [reflexivity|discriminate Hs].
Qed.
#[global] Opaque queued_k.
Definition running_k : Kernel Frame.PhysMem chip := (run_or (run_iter queued_k) None queued_k).2.
Lemma running_run : run_iter queued_k = Ret (Some 1, running_k).
Proof.
  assert (Hs : match run_iter queued_k with Ret (Some 1, _) => true | _ => false end = true) by (vm_compute; reflexivity).
  unfold running_k, run_or. destruct (run_iter queued_k) as [[[[|[]|]|] k]|]; try discriminate Hs. reflexivity.
Qed.
#[global] Opaque running_k.

Lemma process_isolation_witness : current (k_sched running_k) = Some 1 ∧
  ∀ t sp va pa g, tasks (k_sched running_k) !! 1 = Some t → space (user t) = Some sp → 0 ≤ va < USER_MAX_ADDR →
    hw_addr (fa_mem (k_mem running_k)) (satp (k_hart running_k)) va = Some (pa, g) → has t (Page (pa `div` PAGE_SIZE)).
Proof.
  assert (Hc : current (k_sched running_k) = Some 1) by (vm_compute; reflexivity). split; [exact Hc|]. intros t sp va pa g.
  apply (process_isolation [] 0x80200000 (Forall_nil_2 _) fresh_k (mkSystem queued_k []) None (mkSystem running_k [])
    fresh_kernel_ok eq_refl eq_refl); [|exact (do_idle [] 0x80200000 (mkSystem queued_k []) _ _ running_run)|exact Hc].
  eapply rtc_l; [exists None; apply (do_new [] 0x80200000 (mkSystem fresh_k []) [] demo_image demo_args _ _)
    with (4 := first_run); [apply fits_check_fits; vm_compute; reflexivity|vm_compute; discriminate|split; [discriminate|reflexivity]]|].
  apply rtc_once. exists None. exact (do_admit [] 0x80200000 (mkSystem first_k []) 1 _ queued_run).
Defined.
