(* ===== verification/Spin.v ===== *)
(** * Spin locks (sync/spin.rs)

    The instructions of [SpinLock::lock], [try_lock] and the guard's [drop] as
    steps of a machine with any number of harts, any number of locks and nested
    interrupts.  A hart runs one context; an interrupt suspends it under a new
    one. *)
From stdpp Require Import base numbers gmap sets relations list.
From Stdlib Require Import Lia.
From S2P Require Import Prelude.

Abbreviation LockId := Z (only parsing).

(** Where a context is: in its own code, or inside one of the operations.  [r]
    is the local [restore_intr]. *)
Inductive Pc :=
| Run
| LockMask (l : LockId) (r : bool)
| LockCas (l : LockId) (r : bool)
| LockSpin (l : LockId) (r : bool)
| TryMask (l : LockId) (r : bool)
| TryCas (l : LockId) (r : bool)
| TryFail (r : bool)
| Unmask (r : bool).

(** The guards a context owns, newest first.  [base] is not in the code: the
    interrupt state the context itself last asked for. *)
Record Ctx := mkCtx { pc : Pc; guards : list (LockId * bool); base : bool }.
Record Hart := mkHart { sie : bool; running : Ctx; interrupted : list Ctx }.
Record Machine := mkM { locked : gset LockId; harts : gmap Z Hart }.

Definition at_pc (x : Pc) (h : Hart) : Hart :=
  mkHart (sie h) (mkCtx x (guards (running h)) (base (running h))) (interrupted h).
Definition set_sie (b : bool) (h : Hart) : Hart := mkHart b (running h) (interrupted h).
Definition with_guards (gs : list (LockId * bool)) (h : Hart) : Hart :=
  mkHart (sie h) (mkCtx (pc (running h)) gs (base (running h))) (interrupted h).

(** [if restore_intr { intr_disable() }] and [if restore_intr { intr_enable() }] *)
Definition mask (r : bool) (h : Hart) : Hart := if r then set_sie false h else h.
Definition unmask (r : bool) (h : Hart) : Hart := if r then set_sie true h else h.

(** A successful exchange makes a guard. *)
Definition acquire (l : LockId) (r : bool) (h : Hart) : Hart := at_pc Run (with_guards ((l, r) :: guards (running h)) h).

(** One step of [lock]. *)
Definition lock_go (lk : gset LockId) (h : Hart) : option (gset LockId * Hart) :=
  match pc (running h) with
  | LockMask l r => Some (lk, at_pc (LockCas l r) (mask r h))
  | LockCas l r => if decide (l ∈ lk) then Some (lk, at_pc (LockSpin l r) h) else Some ({[l]} ∪ lk, acquire l r h)
  | LockSpin l r => if decide (l ∈ lk) then Some (lk, h) else Some (lk, at_pc (LockCas l r) h)
  | _ => None
  end.

(** One step of [try_lock]. *)
Definition try_go (lk : gset LockId) (h : Hart) : option (gset LockId * Hart) :=
  match pc (running h) with
  | TryMask l r => Some (lk, at_pc (TryCas l r) (mask r h))
  | TryCas l r => if decide (l ∈ lk) then Some (lk, at_pc (TryFail r) h) else Some ({[l]} ∪ lk, acquire l r h)
  | TryFail r => Some (lk, at_pc Run (unmask r h))
  | _ => None
  end.

(** [drop] of the [i]-th newest guard: the store, then the restore. *)
Definition drop_store (i : nat) (lk : gset LockId) (h : Hart) : option (gset LockId * Hart) :=
  match pc (running h), guards (running h) !! i with
  | Run, Some (l, r) => Some (lk ∖ {[l]}, at_pc (Unmask r) (with_guards (delete i (guards (running h))) h))
  | _, _ => None
  end.
Definition drop_restore (lk : gset LockId) (h : Hart) : option (gset LockId * Hart) :=
  match pc (running h) with
  | Unmask r => Some (lk, at_pc Run (unmask r h))
  | _ => None
  end.

(** [force_unlock]: the bare store.  It is unsafe and nothing in the kernel calls
    it, so it is not an action of the machine. *)
Definition force_unlock (l : LockId) (lk : gset LockId) : gset LockId := lk ∖ {[l]}.

(** What a hart may do next. *)
Inductive act := Lock (l : LockId) | TryLock (l : LockId) | Drop (i : nat) | Go | Spurious | SetIntr (b : bool) | Trap | Sret.

Definition hart_step (a : act) (lk : gset LockId) (h : Hart) : option (gset LockId * Hart) :=
  let c := running h in
  match a, pc c with
  | Lock l, Run => Some (lk, at_pc (LockMask l (sie h)) h)
  | TryLock l, Run => Some (lk, at_pc (TryMask l (sie h)) h)
  | Drop i, Run => drop_store i lk h
  | Go, (LockMask _ _ | LockCas _ _ | LockSpin _ _) => lock_go lk h
  | Go, (TryMask _ _ | TryCas _ _ | TryFail _) => try_go lk h
  | Go, Unmask _ => drop_restore lk h
  | Spurious, LockCas l r => Some (lk, at_pc (LockSpin l r) h)
  | SetIntr b, Run =>
      if decide (guards c = []) then Some (lk, mkHart b (mkCtx Run [] b) (interrupted h)) else None
  | Trap, _ => if sie h then Some (lk, mkHart false (mkCtx Run [] false) (c :: interrupted h)) else None
  | Sret, Run =>
      match guards c, base c, interrupted h with
      | [], false, c' :: cs => Some (lk, mkHart true c' cs)
      | _, _, _ => None
      end
  | _, _ => None
  end.

Inductive step : Machine → Machine → Prop :=
| step_hart M i h a lk' h' : harts M !! i = Some h → hart_step a (locked M) h = Some (lk', h') →
    step M (mkM lk' (<[i := h']> (harts M))).

(** The clients' discipline: guards are dropped newest first, and a lock is not
    taken twice by one context. *)
Definition orderly (a : act) (h : Hart) : Prop :=
  match a with
  | Lock l => l ∉ (guards (running h)).*1
  | Drop i => i = 0%nat
  | _ => True
  end.
Inductive orderly_step : Machine → Machine → Prop :=
| orderly_hart M i h a lk' h' : harts M !! i = Some h → orderly a h → hart_step a (locked M) h = Some (lk', h') →
    orderly_step M (mkM lk' (<[i := h']> (harts M))).

(** Machines at boot: no lock held, no interrupt being handled. *)
Definition fresh (M : Machine) : Prop :=
  locked M = ∅ ∧ ∀ i h, harts M !! i = Some h → running h = mkCtx Run [] (sie h) ∧ interrupted h = [].

(** ** Mutual exclusion *)

Definition hart_locks (h : Hart) : list LockId := (guards (running h) ++ (interrupted h ≫= guards)).*1.
Definition all_locks (M : Machine) : list LockId := (map_to_list (harts M)).*2 ≫= hart_locks.

Definition exclusive (M : Machine) : Prop := NoDup (all_locks M) ∧ ∀ l, l ∈ locked M ↔ l ∈ all_locks M.

(** ** [Once] (sync/mod.rs): the slot behind its lock *)
Definition Once_new {A} : option A := None.
Definition Once_init {A} (slot : option A) (value : A) : outcome (option A) :=
  match slot with None => Ret (Some value) | Some _ => Panic end.
Definition Once_is_initialized {A} (slot : option A) : bool := match slot with Some _ => true | None => false end.
Definition Once_get {A} (slot : option A) : outcome A := expect slot.
