(* ===== verification/SpinProps.v ===== *)
(** * Spin locks exclude, do not deadlock against themselves, and restore interrupts *)
From stdpp Require Import base numbers gmap sets relations list.
From Stdlib Require Import Lia.
From S2P Require Import Prelude Spin.

Lemma hart_step_locks a lk h lk' h' : hart_step a lk h = Some (lk', h') →
  (lk' = lk ∧ hart_locks h' = hart_locks h) ∨
  (∃ l, (l ∉ lk) ∧ lk' = {[l]} ∪ lk ∧ hart_locks h' = l :: hart_locks h) ∨
  (∃ l, lk' = lk ∖ {[l]} ∧ hart_locks h ≡ₚ l :: hart_locks h').
Proof.
  destruct h as [ie [pc0 gs b] cs]. unfold hart_locks.
  destruct a, pc0; cbn; try done; intros Hs; repeat case_match; simplify_eq/=; try (by left);
    try (right; left; eexists; split_and!; done).
  2-5: left; by destruct r.
  right. right. exists z. split; [done|]. rewrite !fmap_app, (delete_Permutation gs i (z, b0)) at 1 by done. done.
Qed.

Lemma all_locks_hart M i h : harts M !! i = Some h →
  ∃ rest, all_locks M ≡ₚ hart_locks h ++ rest ∧ ∀ lk h', all_locks (mkM lk (<[i := h']> (harts M))) ≡ₚ hart_locks h' ++ rest.
Proof.
  intros Hi. exists ((map_to_list (delete i (harts M))).*2 ≫= hart_locks). unfold all_locks. split.
  - by rewrite <-(map_to_list_delete _ _ _ Hi).
  - intros lk h'. cbn. rewrite <-insert_delete_eq, map_to_list_insert by apply lookup_delete_eq. done.
Qed.

Lemma exclusive_step M M' : step M M' → exclusive M → exclusive M'.
Proof.
  intros [M0 i h a lk' h' Hi Hs] [Hnd Hin]. destruct (all_locks_hart M0 i h Hi) as (rest & Ha & Ha'). specialize (Ha' lk' h').
  unfold exclusive. setoid_rewrite Ha'. rewrite Ha in Hnd. setoid_rewrite Ha in Hin. cbn.
  destruct (hart_step_locks a (locked M0) h lk' h' Hs) as [[-> ->]|[(l & Hl & -> & ->)|(l & -> & Hp)]]; [done|..].
  - cbn. split.
    + apply NoDup_cons. split; [|done]. by rewrite <-Hin.
    + intros x. rewrite elem_of_union, elem_of_singleton, elem_of_cons. by rewrite Hin.
  - rewrite Hp in Hnd. cbn in Hnd. apply NoDup_cons in Hnd as [Hn Hnd]. split; [done|]. intros x.
    rewrite elem_of_difference, elem_of_singleton, Hin, Hp. cbn. rewrite elem_of_cons. set_solver.
Qed.

Lemma fresh_exclusive M : fresh M → exclusive M.
Proof.
  intros [Hl Hh]. assert (He : all_locks M = []).
  { unfold all_locks. assert (HF : Forall (λ h, hart_locks h = []) (map_to_list (harts M)).*2).
    { apply Forall_fmap, Forall_forall. intros [i h] Hin. apply elem_of_map_to_list in Hin. destruct (Hh i h Hin) as [Hr Hi].
      unfold hart_locks. cbn. by rewrite Hr, Hi. }
    induction HF as [|h l Hh' _ IH]; [done|]. cbn. by rewrite Hh'. }
  split; rewrite He; [constructor|]. intros l. rewrite Hl. set_solver.
Qed.

(** C22: mutual exclusion.  On any number of harts, with interrupts nesting in any
    way, spurious failures of the exchange, and guards dropped in any order:
    every lock has at most one guard in the whole system, and it is marked as
    locked exactly while that guard exists. *)
Theorem spin_mutual_exclusion M M' : fresh M → rtc step M M' →
  NoDup (all_locks M') ∧ ∀ l, l ∈ locked M' ↔ l ∈ all_locks M'.
Proof.
  intros Hf Hr. apply fresh_exclusive in Hf. change (exclusive M'). induction Hr as [|M1 M2 M3 Hs _ IH]; [done|].
  by apply IH, (exclusive_step M1).
Qed.

(** ** Interrupts *)

(** Interrupts are off in a context that owns a guard or is between the mask and
    the unmask of an operation. *)
Definition masked (c : Ctx) : bool :=
  match pc c, guards c with
  | (Run | LockMask _ _ | TryMask _ _), [] => false
  | _, _ => true
  end.

(** The flag an operation of [c] has read: the outermost one sees the context's
    own state, an inner one sees interrupts off. *)
Definition flag_ok (c : Ctx) (r : bool) : Prop := r = match guards c with [] => base c | _ => false end.
Fixpoint guards_ok (b : bool) (gs : list (Z * bool)) : Prop :=
  match gs with
  | [] => True
  | (_, r) :: gs => r = match gs with [] => b | _ => false end ∧ guards_ok b gs
  end.

Record ctx_ok (ie : bool) (c : Ctx) : Prop := {
  co_sie : ie = if masked c then false else base c;
  co_flag : match pc c with
    | Run => True
    | LockMask _ r | LockCas _ r | LockSpin _ r | TryMask _ r | TryCas _ r | TryFail r | Unmask r => flag_ok c r
    end;
  co_guards : guards_ok (base c) (guards c);
  co_fresh : match pc c with LockMask l _ | LockCas l _ | LockSpin l _ => l ∉ (guards c).*1 | _ => True end }.

(** A suspended context was interruptible. *)
Record hart_ok (h : Hart) : Prop := {
  ho_running : ctx_ok (sie h) (running h);
  ho_suspended : Forall (λ c, ctx_ok true c ∧ guards c = []) (interrupted h) }.

Lemma ctx_ok_on c : ctx_ok true c → guards c = [].
Proof.
  intros [Hs _ _ _]. unfold masked in Hs. destruct (pc c), (guards c); done.
Qed.

#[local] Instance act_eq_dec : EqDecision act.
Proof. solve_decision. Defined.

Lemma hart_ok_trap c cs : ctx_ok true c → Forall (λ c, ctx_ok true c ∧ guards c = []) cs →
  hart_ok (mkHart false (mkCtx Run [] false) (c :: cs)).
Proof. intros Hc Hcs. split; [by split|]. cbn. constructor; [|done]. split; [done|by apply ctx_ok_on]. Qed.

Lemma hart_ok_sret c cs : Forall (λ c, ctx_ok true c ∧ guards c = []) (c :: cs) → hart_ok (mkHart true c cs).
Proof. intros [[Hc _] Hcs]%Forall_cons. by split. Qed.

Lemma drop_newest lk ie l r gs b cs :
  drop_store 0 lk (mkHart ie (mkCtx Run ((l, r) :: gs) b) cs) = Some (lk ∖ {[l]}, mkHart ie (mkCtx (Unmask r) gs b) cs).
Proof. done. Qed.

Lemma hart_ok_step a lk h lk' h' : hart_ok h → orderly a h → hart_step a lk h = Some (lk', h') → hart_ok h'.
Proof.
  destruct (decide (a = Trap)) as [->|Ht]; [|destruct (decide (a = Sret)) as [->|Hsr]].
  - intros [Hr Hi] _. cbn. destruct (sie h) eqn:E; [|done]. intros [= <- <-]. by apply hart_ok_trap.
  - intros [Hr Hi] _. cbn. destruct (pc (running h)), (guards (running h)), (base (running h)), (interrupted h); try done.
    intros [= <- <-]. by apply hart_ok_sret.
  - destruct h as [ie [pc0 gs b] cs]. intros [[Hs Hf Hg Hr] Hi] Ho. unfold flag_ok, masked in *. cbn in *.
    assert (HS : ∀ x ie' gs', ctx_ok ie' (mkCtx x gs' b) → hart_ok (mkHart ie' (mkCtx x gs' b) cs)) by (intros; by split).
    destruct a as [l|l|i| | |b'| |], pc0 as [|l0 r|l0 r|l0 r|l0 r|l0 r|r|r]; try done; cbn; subst.
    + intros [= <- <-]. apply HS. split; try done; unfold flag_ok, masked; cbn; by destruct gs.
    + intros [= <- <-]. apply HS. split; try done; unfold flag_ok, masked; cbn; by destruct gs.
    + destruct gs as [|[l r] gs]; [done|]. cbn in Hg |- *. cbn in Ho. subst i. change (drop_store 0 lk (mkHart false (mkCtx Run ((l, r) :: gs) b) cs) = Some (lk', h') → hart_ok h'). rewrite drop_newest. destruct Hg as [-> Hg]. intros [= <- <-]. apply HS.
      split; try done; unfold flag_ok, masked; cbn; by destruct gs.
    + intros [= <- <-]. destruct gs; cbn in *; [destruct b|]; (apply HS; split; done).
    + case_decide; intros [= <- <-]; apply HS; (split; try done); unfold flag_ok, masked; cbn; by destruct gs.
    + case_decide; intros [= <- <-]; apply HS; (split; try done); unfold flag_ok, masked; cbn; by destruct gs.
    + intros [= <- <-]. destruct gs; cbn in *; [destruct b|]; (apply HS; split; done).
    + case_decide; intros [= <- <-]; apply HS; (split; try done); unfold flag_ok, masked; cbn; by destruct gs.
    + intros [= <- <-]. destruct gs; cbn in *; [destruct b|]; (apply HS; split; done).
    + intros [= <- <-]. destruct gs; cbn in *; [destruct b|]; (apply HS; split; done).
    + intros [= <- <-]. apply HS. split; try done; unfold flag_ok, masked; cbn; by destruct gs.
    + case_decide; [|done]. intros [= <- <-]. by split.
Qed.

Lemma orderly_is_step M M' : orderly_step M M' → step M M'.
Proof. intros [M0 i h a lk' h' Hi _ Hs]. by eapply step_hart. Qed.

Definition harts_ok (M : Machine) : Prop := ∀ i h, harts M !! i = Some h → hart_ok h.

Lemma fresh_harts_ok M : fresh M → harts_ok M.
Proof. intros [_ Hf] i h Hi. destruct (Hf i h Hi) as [Hr Hs]. split; [rewrite Hr; by split|by rewrite Hs]. Qed.

Lemma orderly_reach M M' : fresh M → rtc orderly_step M M' → exclusive M' ∧ harts_ok M'.
Proof.
  intros Hf Hr. assert (H0 : exclusive M ∧ harts_ok M) by (split; [by apply fresh_exclusive|by apply fresh_harts_ok]). clear Hf.
  induction Hr as [|M1 M2 M3 Hs _ IH]; [done|]. apply IH. destruct H0 as [He Hh]. split; [by eapply exclusive_step, He; apply orderly_is_step|].
  destruct Hs as [M0 i h a lk' h' Hi Ho Hs]. intros j x Hj. cbn in Hj. apply lookup_insert_Some in Hj as [[<- <-]|[_ Hj]]; [|by apply (Hh j)].
  by apply (hart_ok_step a (locked M0) h lk'); [apply (Hh i)|..].
Qed.

Lemma hart_ok_locks h : hart_ok h → hart_locks h = (guards (running h)).*1.
Proof.
  intros [_ Hs]. unfold hart_locks. assert (interrupted h ≫= guards = []) as ->; [|by rewrite app_nil_r].
  induction Hs as [|c cs [_ Hc] _ IH]; [done|]. cbn. by rewrite Hc.
Qed.

(** C31: no self-deadlock, under the discipline of [orderly]: guards are dropped
    newest first and no context takes a lock it already owns.  Then a hart that
    finds a lock taken never waits for itself, however interrupts nest: the guard belongs to the context running on another hart, never
    to one this hart has interrupted. *)
Theorem spin_no_self_deadlock M M' i h l r : fresh M → rtc orderly_step M M' →
  harts M' !! i = Some h → pc (running h) = LockCas l r ∨ pc (running h) = LockSpin l r → l ∈ locked M' →
  ∃ j h', j ≠ i ∧ harts M' !! j = Some h' ∧ l ∈ (guards (running h')).*1.
Proof.
  intros Hf Hr Hi Hpc Hl. destruct (orderly_reach M M' Hf Hr) as [[_ Hin] Hok]. apply Hin in Hl. unfold all_locks in Hl.
  apply list_elem_of_bind in Hl as (h' & Hl & Hh'). apply list_elem_of_fmap in Hh' as ([j x] & -> & Hj). apply elem_of_map_to_list in Hj.
  exists j, x. rewrite <-(hart_ok_locks x) by by apply (Hok j). split_and!; [|done|done]. intros ->. rewrite Hi in Hj. injection Hj as ->.
  cbn in Hl. rewrite (hart_ok_locks x) in Hl by by apply (Hok i). pose proof (co_fresh _ _ (ho_running _ (Hok i x Hi))) as Hn.
  destruct Hpc as [Hpc|Hpc]; by rewrite Hpc in Hn.
Qed.

(** interrupts.  In the same setting a context that owns a guard runs with
    interrupts off, an interrupted context owns none, and outside of all guards
    and operations the interrupt state is the one the context itself chose, so
    dropping the last guard restores it. *)
Theorem spin_interrupts M M' i h : fresh M → rtc orderly_step M M' → harts M' !! i = Some h →
  (guards (running h) ≠ [] → sie h = false) ∧ Forall (λ c, guards c = []) (interrupted h) ∧
  (guards (running h) = [] → pc (running h) = Run → sie h = base (running h)).
Proof.
  intros Hf Hr Hi. destruct (orderly_reach M M' Hf Hr) as [_ Hok]. destruct (Hok i h Hi) as [[Hs _ _ _] Hc]. unfold masked in Hs.
  split_and!.
  - intros Hg. destruct (pc (running h)), (guards (running h)); done.
  - eapply Forall_impl; [exact Hc|]. by intros c [_ ?].
  - intros Hg Hp. by rewrite Hg, Hp in Hs.
Qed.

(** ** Examples *)

Definition boot_machine : Machine := mkM ∅ {[0 := mkHart true (mkCtx Run [] true) []; 1 := mkHart true (mkCtx Run [] true) []]}.
Lemma boot_machine_fresh : fresh boot_machine.
Proof. split; [done|]. intros i h Hi. cbn in Hi. revert Hi. intros [[<- <-]|[_ [<- <-]%lookup_singleton_Some]]%lookup_insert_Some; done. Qed.

(** Running a script of actions. *)
Definition play1 (M : option Machine) (x : Z * act) : option Machine :=
  M ← M; h ← harts M !! x.1; '(lk, h') ← hart_step x.2 (locked M) h; Some (mkM lk (<[x.1 := h']> (harts M))).
Definition play (script : list (Z * act)) (M : Machine) : option Machine := foldl play1 (Some M) script.

(** Without that order the guarantee is lost: dropping the outer guard first turns
    interrupts on while the inner lock is still held, and a handler that takes
    it spins for ever on its own hart. *)
Lemma unordered_drop_deadlocks : ∃ M h, play [(0, Lock 7); (0, Go); (0, Go); (0, Lock 8); (0, Go); (0, Go); (0, Drop 1); (0, Go);
    (0, Trap); (0, Lock 8); (0, Go); (0, Go)] boot_machine = Some M ∧
  harts M !! 0 = Some h ∧ pc (running h) = LockSpin 8 false ∧ 8 ∈ locked M ∧ (guards <$> interrupted h) = [[(8, false)]].
Proof.
  eexists _, _. split; [vm_compute; reflexivity|]. split; [vm_compute; reflexivity|]. split; [reflexivity|]. split; [|reflexivity].
  refine (bool_decide_unpack _ _). vm_compute. exact I.
Qed.

(** Hart 0 holds lock 7, hart 1 spins on it. *)
Definition contended : Machine := default boot_machine (play [(0, Lock 7); (0, Go); (0, Go); (1, Lock 7); (1, Go); (1, Go)] boot_machine).
Lemma contended_reach : rtc orderly_step boot_machine contended.
Proof.
  assert (Hstep : ∀ M i a h lk h', harts M !! i = Some h → orderly a h → hart_step a (locked M) h = Some (lk, h') →
    ∀ M', rtc orderly_step (mkM lk (<[i := h']> (harts M))) M' → rtc orderly_step M M').
  { intros M i a h lk h' Hi Ho Hs M' Hr. eapply rtc_l; [|exact Hr]. by eapply orderly_hart. }
  unfold contended, boot_machine.
  eapply (Hstep _ 0 (Lock 7)); [reflexivity|apply not_elem_of_nil|reflexivity|].
  eapply (Hstep _ 0 Go); [reflexivity|exact I|reflexivity|].
  eapply (Hstep _ 0 Go); [reflexivity|exact I|reflexivity|].
  eapply (Hstep _ 1 (Lock 7)); [reflexivity|apply not_elem_of_nil|reflexivity|].
  eapply (Hstep _ 1 Go); [reflexivity|exact I|reflexivity|].
  eapply (Hstep _ 1 Go); [reflexivity|exact I|reflexivity|].
  apply rtc_refl.
Qed.

Lemma spin_mutual_exclusion_witness : NoDup (all_locks contended) ∧ ∀ l, l ∈ locked contended ↔ l ∈ all_locks contended.
Proof.
  apply (spin_mutual_exclusion boot_machine contended boot_machine_fresh).
  exact (rtc_subrel _ _ _ _ orderly_is_step contended_reach).
Defined.

Lemma spin_no_self_deadlock_witness : ∃ j h', j ≠ 1 ∧ harts contended !! j = Some h' ∧ 7 ∈ (guards (running h')).*1.
Proof.
  eapply (spin_no_self_deadlock boot_machine contended 1 _ 7 true boot_machine_fresh contended_reach);
    [vm_compute; reflexivity|right; reflexivity|list_side].
Defined.

Lemma spin_interrupts_witness : ∃ h, harts contended !! 0 = Some h ∧
  (guards (running h) ≠ [] → sie h = false) ∧ Forall (λ c, guards c = []) (interrupted h) ∧
  (guards (running h) = [] → pc (running h) = Run → sie h = base (running h)).
Proof.
  eexists. split; [vm_compute; reflexivity|].
  apply (spin_interrupts boot_machine contended 0 _ boot_machine_fresh contended_reach). vm_compute. reflexivity.
Defined.
