(* ===== verification/Blocking.v ===== *)
(** * Mutex and Semaphore (sync/wait.rs)

    Both primitives have one shape: try to take the resource; if that fails,
    [wait_until] it looks available and try again; on release, give it back and
    wake one waiter.  Each access to shared state is one step of the running
    task, and anything the scheduler does may come between two of them: the
    kernel is preemptible there. *)
From stdpp Require Import base numbers gmap relations list.
From Stdlib Require Import Lia.
From S2P Require Import Prelude Task Sched SchedProps Kernel.

(** ** [Mutex]: the object is [locked] *)
Definition mutex_take (locked : bool) : option bool := if locked then None else Some true.
Definition mutex_ready (locked : bool) : bool := negb locked.
Definition mutex_give (locked : bool) : outcome bool := Ret false.

(** ** [Semaphore]: the object is [count], an isize *)
Definition isize_add (x y : Z) : outcome Z := if (- 2 ^ 63 <=? x + y) && (x + y <? 2 ^ 63) then Ret (x + y) else Panic.
Definition sem_take (count : Z) : option Z := if 0 <? count then Some (count - 1) else None.
Definition sem_ready (count : Z) : bool := 0 <? count.
Definition sem_give (count : Z) : outcome Z := isize_add count 1.

Section blocking.
Context {O : Type} (take : O → option O) (ready : O → bool) (give : O → outcome O).
(** Does acquiring return a guard, whose drop is the release? *)
Context (guarded : bool).

(** Where a task is inside the primitive. *)
Inductive bpc := Idle | Take | Check | Enqueue | Block | Leave | Held | Pop | WakeTask (w : Pid).

(** [taken] and [given] count the acquisitions and releases so far; they are not
    in the code. *)
Record World := mkW { w_sched : Sched; w_obj : O; w_wait : list Pid; w_pc : gmap Z bpc; taken : Z; given : Z }.

Definition goto (p : Pid) (x : bpc) (w : World) : World :=
  mkW (w_sched w) (w_obj w) (w_wait w) (<[p := x]> (w_pc w)) (taken w) (given w).
Definition with_wait (l : list Pid) (w : World) : World := mkW (w_sched w) (w_obj w) l (w_pc w) (taken w) (given w).
Definition with_schedw (s : Sched) (w : World) : World := mkW s (w_obj w) (w_wait w) (w_pc w) (taken w) (given w).

Definition after_take : bpc := if guarded then Held else Idle.
Definition may_release (x : bpc) : bool := match x with Held => guarded | Idle => negb guarded | _ => false end.

(** [Mutex::lock], [Semaphore::acquire]: the loop, with [wait_until] and [wait]. *)
Definition acquire_step (p : Pid) (x : bpc) (w : World) : option World :=
  match x with
  | Take =>
      match take (w_obj w) with
      | Some o => Some (goto p after_take (mkW (w_sched w) o (w_wait w) (w_pc w) (taken w + 1) (given w)))
      | None => Some (goto p Check w)
      end
  | Check => Some (goto p (if ready (w_obj w) then Take else Enqueue) w)
  | Enqueue => Some (goto p Block (with_wait (w_wait w ++ [p]) w))
  | Block =>
      match switch_out (λ _, true) Blocked (w_sched w) with
      | Ret (_, s) => Some (goto p Leave (with_schedw s w))
      | Panic => None
      end
  | Leave => Some (goto p Check (with_wait (remove_first p (w_wait w)) w))
  | _ => None
  end.

(** [Mutex::try_lock]: one exchange, and no waiting. *)
Definition try_step (p : Pid) (w : World) : World :=
  match take (w_obj w) with
  | Some o => goto p Held (mkW (w_sched w) o (w_wait w) (w_pc w) (taken w + 1) (given w))
  | None => w
  end.

(** [Drop for MutexGuard], [Semaphore::release]. *)
Definition release_step (p : Pid) (x : bpc) (w : World) : option World :=
  match x with
  | Pop =>
      match w_wait w with
      | [] => Some (goto p Idle w)
      | q :: l => Some (goto p (WakeTask q) (with_wait l w))
      end
  | WakeTask q =>
      match wake q (w_sched w) with
      | Ret (_, s) => Some (goto p Idle (with_schedw s w))
      | Panic => None
      end
  | _ => None
  end.

Inductive move := Acquire | TryAcquire | Release | Go | Tick | Preempt | Exit | Requeue | Pick.

Definition sched_move {A} (m : ST Sched A) (w : World) : option World :=
  match m (w_sched w) with Ret (_, s) => Some (with_schedw s w) | Panic => None end.

(** One move: of the running task, or of the scheduler. *)
Definition do_move (a : move) (w : World) : option World :=
  match a with
  | Tick => sched_move on_timer_tick w
  | Preempt => sched_move (switch_out (λ _, true) Ready) w
  | Exit => sched_move (switch_out (λ _, true) Zombie) w
  | Requeue => if decide (current (w_sched w) = None) then sched_move run_requeue w else None
  | Pick => if decide (current (w_sched w) = None ∧ previous (w_sched w) = None) then sched_move run_pick w else None
  | Acquire | TryAcquire | Release | Go =>
      p ← current (w_sched w);
      let x := default Idle (w_pc w !! p) in
      match a, x with
      | Acquire, Idle => Some (goto p Take w)
      | TryAcquire, Idle => if guarded then Some (try_step p w) else None
      | Release, _ =>
          if may_release x then
            match give (w_obj w) with
            | Ret o => Some (goto p Pop (mkW (w_sched w) o (w_wait w) (w_pc w) (taken w) (given w + 1)))
            | Panic => None
            end
          else None
      | Go, (Take | Check | Enqueue | Block | Leave) => acquire_step p x w
      | Go, (Pop | WakeTask _) => release_step p x w
      | _, _ => None
      end
  end.

Definition play (script : list move) (w : World) : option World := foldl (λ w a, w ← w; do_move a w) (Some w) script.

(** Whatever else happens in the scheduler, and the moves above. *)
Inductive world_step : World → World → Prop :=
| ws_move a w w' : do_move a w = Some w' → world_step w w'
| ws_sched l w s : sched_step l (w_sched w) s → world_step w (with_schedw s w).

Definition initial (o : O) (w : World) : Prop := w_obj w = o ∧ w_wait w = [] ∧ w_pc w = ∅ ∧ taken w = 0 ∧ given w = 0.
End blocking.
Arguments World O : clear implicits.
