(* ===== verification/BlockingProps.v ===== *)
(** * Mutexes exclude, semaphores count, and a wake-up can be lost *)
From stdpp Require Import base numbers gmap relations list.
From Stdlib Require Import Lia.
From S2P Require Import Prelude Task Sched SchedProps SchedFair Kernel Blocking.

Section blocking.
Context {O : Type} (take : O → option O) (ready : O → bool) (give : O → outcome O) (guarded : bool).
Implicit Types w : World O.
Abbreviation stepw := (world_step take ready give guarded).

(** What a step does to the object. *)
Inductive effect w : World O → Prop :=
| ef_none w' : w_obj w' = w_obj w → taken w' = taken w → given w' = given w →
    (∀ p, w_pc w' !! p = Some Held → w_pc w !! p = Some Held) → (∀ p, w_pc w !! p = Some Held → w_pc w' !! p = Some Held) → effect w w'
| ef_take p o w' : take (w_obj w) = Some o → w_obj w' = o → taken w' = taken w + 1 → given w' = given w →
    w_pc w' = <[p := after_take guarded]> (w_pc w) → w_pc w !! p ≠ Some Held → effect w w'
| ef_give p o w' : give (w_obj w) = Ret o → w_obj w' = o → taken w' = taken w → given w' = given w + 1 →
    may_release guarded (default Idle (w_pc w !! p)) = true → w_pc w' = <[p := Pop]> (w_pc w) → effect w w'.

Lemma effect_goto w s l p x y : default Idle (w_pc w !! p) = x → x ≠ Held → y ≠ Held →
  effect w (goto p y (mkW s (w_obj w) l (w_pc w) (taken w) (given w))).
Proof.
  intros Hx Hx1 Hy. apply ef_none; cbn; try done; intros q.
  - intros [[-> ?]|[_ ?]]%lookup_insert_Some; [by subst|done].
  - intros Hq. rewrite lookup_insert_ne; [done|]. intros ->. rewrite Hq in Hx. by subst.
Qed.

Lemma effect_sched w s : effect w (with_schedw s w).
Proof. by apply ef_none. Qed.

Lemma step_effect w w' : stepw w w' → effect w w'.
Proof.
  intros [a w1 w2 Hm|l w1 s Hs]; [|apply effect_sched].
  assert (Hsm : ∀ A (m : ST Sched A), sched_move m w1 = Some w2 → effect w1 w2).
  { intros A m. unfold sched_move. destruct (m (w_sched w1)) as [[? s]|]; [|done]. intros [= <-]. apply effect_sched. }
  destruct a; cbn in Hm; try (by eapply Hsm); try (case_decide; [by eapply Hsm|done]).
  all: destruct (current (w_sched w1)) as [p|]; [|done]; cbn in Hm; destruct (default Idle (w_pc w1 !! p)) as [| | | | | | | |v] eqn:Ex;
    cbn in Hm; try discriminate Hm.
  1: injection Hm as <-; by eapply (effect_goto w1 (w_sched w1) (w_wait w1)).
  1: destruct guarded eqn:Eg; [|done]; injection Hm as <-; unfold try_step; destruct (take (w_obj w1)) as [o|] eqn:Eo; [|by apply ef_none];
    eapply (ef_take _ p o); try done; [by rewrite Eg|intros Hp; by rewrite Hp in Ex].
  1,2: destruct guarded eqn:Eg; try discriminate Hm; cbn in Hm; destruct (give (w_obj w1)) as [o|] eqn:Eo; [|done]; injection Hm as <-;
    eapply (ef_give _ p o); try done; by rewrite Ex, ?Eg.
  - destruct (take (w_obj w1)) as [o|] eqn:Eo; injection Hm as <-; [|by eapply (effect_goto w1 (w_sched w1) (w_wait w1))].
    eapply (ef_take _ p o); try done. intros Hp. by rewrite Hp in Ex.
  - injection Hm as <-. eapply (effect_goto w1 (w_sched w1) (w_wait w1)); [exact Ex|done|by destruct (ready (w_obj w1))].
  - injection Hm as <-. by eapply (effect_goto w1 (w_sched w1) _).
  - destruct (switch_out _ _ _) as [[? s]|]; [|done]. injection Hm as <-. by eapply (effect_goto w1 s (w_wait w1)).
  - injection Hm as <-. by eapply (effect_goto w1 (w_sched w1) _).
  - destruct (w_wait w1) as [|q l] eqn:El; injection Hm as <-; [by eapply (effect_goto w1 (w_sched w1) (w_wait w1))|by eapply (effect_goto w1 (w_sched w1) l)].
  - destruct (wake _ _) as [[? s]|]; [|done]. injection Hm as <-. by eapply (effect_goto w1 s (w_wait w1)).
Qed.
End blocking.

(** C32: the mutex excludes.  Whatever the scheduler does and however the tasks
    interleave, at most one task holds the guard, and the lock is marked as
    taken while one does. *)
Theorem mutex_exclusion w0 w p q : initial false w0 →
  rtc (world_step mutex_take mutex_ready mutex_give true) w0 w → w_pc w !! p = Some Held → w_pc w !! q = Some Held →
  p = q ∧ w_obj w = true.
Proof.
  intros (Ho & _ & Hpc & _ & _) Hr.
  assert (Hinv : ∀ w, rtc (world_step mutex_take mutex_ready mutex_give true) w0 w →
    ∀ p, w_pc w !! p = Some Held → w_obj w = true ∧ ∀ q, w_pc w !! q = Some Held → p = q).
  { clear w Hr p q. intros w. apply (rtc_ind_r (λ w, ∀ p, w_pc w !! p = Some Held → w_obj w = true ∧ ∀ q, w_pc w !! q = Some Held → p = q)).
    { intros p. by rewrite Hpc, lookup_empty. }
    intros w1 w2 _ Hs IH p. destruct (step_effect _ _ _ _ _ _ Hs) as [w2 E1 _ _ E2 E3|x o w2 E1 E2 _ _ E3 _|x o w2 E1 E2 _ _ E3 E4].
    - intros [? Hq]%E2%IH. rewrite E1. split; [done|]. intros q Hq'%E2. by apply Hq.
    - destruct (w_obj w1) eqn:E; [done|]. injection E1 as <-. assert (Hno : ∀ q, w_pc w1 !! q ≠ Some Held) by (intros q [? _]%IH; congruence).
      rewrite E3, E2. intros [[<- _]|[_ Hp]]%lookup_insert_Some; [|by apply Hno in Hp]. split; [done|].
      intros q [[<- _]|[_ Hq]]%lookup_insert_Some; [done|by apply Hno in Hq].
    - rewrite E4. intros [[_ ?]|[Hne Hp]]%lookup_insert_Some; [done|]. destruct (w_pc w1 !! x) as [[]|] eqn:Ex; cbn in E3; try done.
      destruct (IH x Ex) as [_ Hu]. by apply Hu in Hp. }
  intros Hp Hq. destruct (Hinv w Hr p Hp) as [? Hu]. split; [by apply Hu|done].
Qed.

(** the semaphore counts.  It never goes below zero, and at any time it is the
    initial number of permits plus the releases minus the acquisitions: no
    permit is handed out twice and none gets lost. *)
Theorem semaphore_permits n w0 w : 0 ≤ n → initial n w0 →
  rtc (world_step sem_take sem_ready sem_give false) w0 w →
  w_obj w = n + given w - taken w ∧ 0 ≤ w_obj w.
Proof.
  intros Hn (Ho & _ & _ & Ht & Hg). apply (rtc_ind_r (λ w, w_obj w = n + given w - taken w ∧ 0 ≤ w_obj w)); [lia|].
  intros w1 w2 _ Hs [IH1 IH2]. destruct (step_effect _ _ _ _ _ _ Hs) as [w2 E1 E2 E3 _ _|x o w2 E1 E2 E3 E4 _ _|x o w2 E1 E2 E3 E4 _ _].
  - lia.
  - unfold sem_take in E1. destruct (Z.ltb_spec 0 (w_obj w1)); [|done]. injection E1 as <-. lia.
  - unfold sem_give, isize_add in E1. case_match; [|done]. injection E1 as <-. lia.
Qed.

(** ** A lost wake-up

    Task 2 finds the mutex taken and is preempted between the check of
    [wait_until] and joining the queue; task 1 releases, finds nobody to wake,
    and exits; task 2 joins the queue and sleeps. *)
Definition start {O} (o : O) : World O := mkW demo5 o [] ∅ 0 0.
Abbreviation mplay := (play mutex_take mutex_ready mutex_give true).
Definition lost_script : list move :=
  [Acquire; Go; Preempt; Requeue; Pick;
   Acquire; Go; Go; Preempt; Requeue; Pick;
   Release; Go; Exit; Requeue; Pick;
   Go; Go; Requeue; Pick].
Definition lost : World bool := default (start false) (mplay lost_script (start false)).

(** Nothing runs, nothing is ready, and the mutex is free. *)
Record asleep (p : Pid) (w : World bool) : Prop := {
  as_free : w_obj w = false;
  as_idle : current (w_sched w) = None ∧ previous (w_sched w) = None ∧ concat (levels (run_queue (w_sched w))) = [];
  as_task : ∃ t, tasks (w_sched w) !! p = Some t ∧ state (sched t) = Blocked }.

Lemma pop_first_empty ls : concat ls = [] → pop_first ls = None.
Proof. induction ls as [|[|x l] ls IH]; cbn; [done| |done]. intros H. by rewrite IH. Qed.

Lemma asleep_move p a w w' : asleep p w → do_move mutex_take mutex_ready mutex_give true a w = Some w' → asleep p w'.
Proof.
  intros [Hf (Hc & Hp & Hq) Ht]. destruct a; cbn; rewrite ?Hc; try done.
  - unfold sched_move, on_timer_tick, mbind, ST_bind, get. rewrite Hc. intros [= <-]. by split.
  - unfold sched_move, switch_out, mbind, ST_bind, get. by rewrite Hc.
  - unfold sched_move, switch_out, mbind, ST_bind, get. by rewrite Hc.
  - case_decide; [|done]. unfold sched_move, run_requeue, mbind, ST_bind, get. rewrite Hp. intros [= <-]. by split.
  - case_decide; [|done]. unfold sched_move, run_pick, run_pop, rq_pop, mbind, ST_bind, get. rewrite (pop_first_empty _ Hq).
    intros [= <-]. by split.
Qed.

(** The wake-up is lost for good: the mutex is free, yet whatever the tasks and the
    scheduler do from here, task 2 never leaves [lock]. *)
Theorem mutex_wakeup_lost : mplay lost_script (start false) = Some lost ∧
  ∀ script w, mplay script lost = Some w → w_obj w = false ∧ ∃ t, tasks (w_sched w) !! 2 = Some t ∧ state (sched t) = Blocked.
Proof.
  assert (Hl : asleep 2 lost).
  { split; [vm_compute; reflexivity|split_and!; vm_compute; reflexivity|]. eexists. split; vm_compute; reflexivity. }
  split; [vm_compute; reflexivity|]. intros script. revert Hl. generalize lost. induction script as [|a script IH]; intros w0 Hw w; cbn.
  { intros [= <-]. by destruct Hw. }
  destruct (do_move _ _ _ _ a w0) as [w1|] eqn:E.
  - apply IH. by eapply asleep_move.
  - intros H. exfalso. clear - H. induction script; done.
Qed.

Lemma play_steps {O} take ready give guarded script : ∀ (w w' : World O), play take ready give guarded script w = Some w' →
  rtc (world_step take ready give guarded) w w'.
Proof.
  induction script as [|a script IH]; intros w w'; cbn; [intros [= <-]; apply rtc_refl|].
  destruct (do_move take ready give guarded a w) as [w1|] eqn:E.
  - intros H. eapply rtc_l; [by eapply ws_move|]. by apply IH.
  - intros H. exfalso. clear - H. induction script; done.
Qed.

Definition held : World bool := default (start false) (mplay [Acquire; Go; Preempt; Requeue; Pick; Acquire; Go] (start false)).
Lemma mutex_exclusion_witness : 1 = 1 ∧ w_obj held = true.
Proof.
  apply (mutex_exclusion (start false) held 1 1); [by split_and!|apply (play_steps _ _ _ _ [Acquire; Go; Preempt; Requeue; Pick; Acquire; Go]); vm_compute; reflexivity|reflexivity|reflexivity].
Defined.

Abbreviation splay := (play sem_take sem_ready sem_give false).
Definition sem_script : list move := [Acquire; Go; Acquire; Go; Go; Preempt; Requeue; Pick; Release; Go].
Definition counted : World Z := default (start 1) (splay sem_script (start 1)).
Lemma semaphore_permits_witness : w_obj counted = 1 + given counted - taken counted ∧ 0 ≤ w_obj counted.
Proof.
  apply (semaphore_permits 1 (start 1) counted); [lia|by split_and!|]. apply (play_steps _ _ _ _ sem_script). vm_compute. reflexivity.
Defined.
