(* ===== verification/Abi.v ===== *)
(** * The system call interface, seen from the program (user/src/lib.rs)

    Each wrapper of the user library as the registers its [ecall] leaves, and
    the theorem that the kernel's dispatcher takes it for the call it is. *)
From stdpp Require Import base numbers gmap list.
From coqutil Require Import Byte.
From S2P Require Frame.
From S2P Require Import Prelude Memory Config Addr FrameIface FrameProps PageTable Space Device Trap Task Sched Kernel Process Syscall UartProps KernelDemo.

(** [syscall]: the registers at the [ecall]. *)
Record Call := mkCall { c_a7 : Z; c_a0 : Z; c_a1 : Z; c_a2 : Z }.
Definition syscall (id a0 a1 a2 : Z) : Call := mkCall id a0 a1 a2.

(** Buffers are passed by address and length; [as usize] of a signed value wraps. *)
Definition u_exit (code : Z) : Call := syscall nr.SYS_EXIT (of_isize code) 0 0.
Definition u_write (fd ptr len : Z) : Call := syscall nr.SYS_WRITE fd ptr len.
Definition u_read (fd ptr len : Z) : Call := syscall nr.SYS_READ fd ptr len.
Definition u_sched_yield : Call := syscall nr.SYS_YIELD 0 0 0.
Definition u_getpid : Call := syscall nr.SYS_GETPID 0 0 0.
Definition u_getppid : Call := syscall nr.SYS_GETPPID 0 0 0.
Definition u_fork : Call := syscall nr.SYS_FORK 0 0 0.
Definition u_exec_raw (path argv : Z) : Call := syscall nr.SYS_EXEC path argv 0.
(** [exec]: the two words of its argument array, and the call that passes it. *)
Definition u_exec (path argv : Z) : list Z * Call := ([path; 0], u_exec_raw path argv).
Definition u_waitpid (pid status : Z) : Call := syscall nr.SYS_WAITPID (of_isize pid) status 0.
Definition u_wait (status : Z) : Call := u_waitpid (-1) status.
Definition u_sbrk (delta : Z) : Call := syscall nr.SYS_SBRK (of_isize delta) 0 0.
Definition u_uptime_ms : Call := syscall nr.SYS_UPTIME 0 0 0.
Definition u_ps : Call := syscall nr.SYS_PS 0 0 0.

(** What [syscall] returns: [a0] after the call, read as [isize]. *)
Definition returned (f : TrapFrame) : option Z := as_isize <$> tf_x f !! 10%nat.

(** The trap frame the kernel sees for the call. *)
Definition carries (f : TrapFrame) (c : Call) : Prop :=
  tf_x f !! 17%nat = Some (c_a7 c) ∧ tf_x f !! 10%nat = Some (c_a0 c) ∧ tf_x f !! 11%nat = Some (c_a1 c) ∧ tf_x f !! 12%nat = Some (c_a2 c).

Lemma as_isize_of x : - 2 ^ 63 ≤ x < 2 ^ 63 → as_isize (of_isize x) = x.
Proof.
  intros Hx. unfold as_isize, of_isize.
  pose proof (Z.div_mod x (2 ^ 64)) as Hd. pose proof (Z.mod_pos_bound x (2 ^ 64)) as Hm.
  destruct (Z.ltb_spec (x `mod` 2 ^ 64) (2 ^ 63)); lia.
Qed.

Lemma as_i32_of x : - 2 ^ 31 ≤ x < 2 ^ 31 → as_i32 (of_isize x) = x.
Proof.
  intros Hx. unfold as_i32, of_isize.
  rewrite (Z.mod_mod_divide x (2 ^ 64) (2 ^ 32)) by (by exists (2 ^ 32)).
  pose proof (Z.div_mod x (2 ^ 32)) as Hd. pose proof (Z.mod_pos_bound x (2 ^ 32)) as Hm.
  destruct (Z.ltb_spec (x `mod` 2 ^ 32) (2 ^ 31)); lia.
Qed.

Lemma tf_reg_at f (n : nat) v : tf_x f !! n = Some v → tf_reg f (Z.of_nat n) = Ret v.
Proof.
  intros Hv. unfold tf_reg, arr_get. rewrite (proj2 (Z.ltb_ge _ _)) by lia. by rewrite Nat2Z.id, Hv.
Qed.

Lemma carries_regs f c : carries f c →
  syscall_id f = Ret (c_a7 c) ∧ arg f 0 = Ret (c_a0 c) ∧ arg f 1 = Ret (c_a1 c) ∧ arg f 2 = Ret (c_a2 c).
Proof.
  intros (H17 & H10 & H11 & H12).
  split_and!; [exact (tf_reg_at f 17 _ H17) | exact (tf_reg_at f 10 _ H10)
    | exact (tf_reg_at f 11 _ H11) | exact (tf_reg_at f 12 _ H12)].
Qed.

Section abi.
Context {S D : Type} `{FrameAllocator S} `{Bus D} `{Firmware D}.
Context (programs : list (list byte * list byte)) (task_entry : Z).
Implicit Types (k : Kernel S D).
Abbreviation disp := (dispatch programs task_entry).

Lemma bind_lift_ret {A B} (m : outcome A) (x : A) (g : A → ST (Kernel S D) B) k :
  m = Ret x → (lift m ≫= g) k = g x k.
Proof. by intros ->. Qed.

Ltac dispatched Hc :=
  destruct (carries_regs _ _ Hc) as (? & ? & ? & ?); unfold dispatch;
  do 4 (erewrite bind_lift_ret by eassumption; cbv beta); cbn [c_a7 c_a0 c_a1 c_a2];
  cbv [nr.SYS_EXIT nr.SYS_WRITE nr.SYS_READ nr.SYS_YIELD nr.SYS_GETPID nr.SYS_GETPPID
    nr.SYS_FORK nr.SYS_EXEC nr.SYS_WAITPID nr.SYS_SBRK nr.SYS_UPTIME nr.SYS_PS Z.eqb Pos.eqb].

(** C34: both sides of the system call interface agree.  A trap frame with the
    registers a wrapper's [ecall] leaves is dispatched to the kernel function of
    that name with the arguments the program passed, negative numbers included,
    and a result stored by [set_return] is the one the wrapper returns. *)
Theorem abi_agrees poll wakes f k :
  (∀ code, - 2 ^ 31 ≤ code < 2 ^ 31 → carries f (u_exit code) → disp poll wakes f k = sys_exit code k) ∧
  (∀ fd ptr len, carries f (u_write fd ptr len) → disp poll wakes f k = sys_write poll fd ptr len k) ∧
  (∀ fd ptr len, carries f (u_read fd ptr len) → disp poll wakes f k = sys_read wakes fd ptr len k) ∧
  (carries f u_sched_yield → disp poll wakes f k = away yield_now (Syscall.done 0) k) ∧
  (carries f u_getpid → disp poll wakes f k = sys_getpid k) ∧
  (carries f u_getppid → disp poll wakes f k = sys_getppid k) ∧
  (carries f u_fork → disp poll wakes f k = sys_fork task_entry f k) ∧
  (∀ path argv, carries f (u_exec path argv).2 → disp poll wakes f k = sys_exec programs path argv k) ∧
  (∀ pid status, - 2 ^ 63 ≤ pid < 2 ^ 63 → carries f (u_waitpid pid status) →
     disp poll wakes f k = sys_waitpid wakes pid status k) ∧
  (∀ delta, - 2 ^ 63 ≤ delta < 2 ^ 63 → carries f (u_sbrk delta) → disp poll wakes f k = sys_sbrk delta k) ∧
  (carries f u_uptime_ms → disp poll wakes f k = (n ← uptime_ms; Syscall.done (as_isize n)) k) ∧
  (carries f u_ps → disp poll wakes f k = sys_ps k) ∧
  (∀ v, - 2 ^ 63 ≤ v < 2 ^ 63 → length (tf_x f) = 32%nat →
     ∃ f', set_return f (of_isize v) = Ret f' ∧ returned f' = Some v).
Proof.
  split_and!.
  - intros code Hr Hc. dispatched Hc. cbn. by rewrite as_i32_of.
  - intros * Hc. by dispatched Hc.
  - intros * Hc. by dispatched Hc.
  - intros Hc. by dispatched Hc.
  - intros Hc. by dispatched Hc.
  - intros Hc. by dispatched Hc.
  - intros Hc. by dispatched Hc.
  - intros * Hc. by dispatched Hc.
  - intros * Hr Hc. dispatched Hc. cbn. by rewrite as_isize_of.
  - intros * Hr Hc. dispatched Hc. cbn. by rewrite as_isize_of.
  - intros Hc. by dispatched Hc.
  - intros Hc. by dispatched Hc.
  - intros v Hv Hl. eexists. split.
    + unfold set_return, set_reg, arr_set. rewrite Hl. reflexivity.
    + unfold returned. cbn [tf_x]. rewrite list_lookup_insert_eq by (rewrite Hl; lia). cbn. by rewrite as_isize_of.
Qed.
End abi.

(** [exit(-1)] on the example kernel. *)
Definition exit_frame : TrapFrame := mkTF (<[10%nat := 2 ^ 64 - 1]> (<[17%nat := 0]> (replicate 32 0))) 0 0 0 0 0 0.
Lemma abi_agrees_witness : dispatch [] 0 1 1 exit_frame demo_k = sys_exit (-1) demo_k.
Proof.
  apply (proj1 (abi_agrees [] 0 1 1 exit_frame demo_k) (-1)); [lia|].
  unfold carries. split_and!; reflexivity.
Defined.
