(* ===== verification/Programs.v ===== *)
(** * The user programs (user/src/bin/init.rs, sh.rs, forktest.rs, echo.rs,
    hello.rs)

    Each [main] as an interaction tree over the calls it makes.  The trees are
    run against an abstract operating system that states what the programs rely
    on: which answers a call can get and how it changes the caller's children
    and the console.  A fork continues in the parent or in the child. *)
From Stdlib Require Import String Ascii.
From stdpp Require Import base numbers gmap sets list.
From ITree Require Import Core.ITreeDefinition.
From S2P Require Import Prelude User.

(** ** Calls *)

(** [print!] and [println!] of literal text is [Print]; with values in it it is
    [Printf], whose text is left open.  [Exec] comes with the memory its pointers
    refer to: [mem] at address [base].  [Wait] and [Waitpid] give the result and
    the status word, which starts at 0.  [Beyond] is a read past the end of an
    array: nothing is known from there on. *)
Inductive sysE : Type → Type :=
| Print (text : list Z) : sysE unit
| Printf (fmt : string) (args : list Z) : sysE unit
| Write (bytes : list Z) : sysE Z
| ReadLine (buf : list Z) : sysE (list Z * Z)
| Getpid : sysE Z
| Getppid : sysE Z
| Uptime : sysE Z
| Ps : sysE unit
| Fork : sysE Z
| Exec (base : Z) (mem : list Z) (path : Z) (argv : list Z) : sysE Z
| Waitpid (pid : Z) : sysE (Z * Z)
| Exit (code : Z) : sysE Empty_set
| Beyond : sysE Empty_set.

Abbreviation tree := (itree sysE).
Definition ret {R} (r : R) : tree R := go (RetF r).
Definition call {X} (e : sysE X) : tree X := ITree.trigger e.
Notation "x <- t ;; k" := (ITree.bind t (λ x, k)) (at level 62, t at next level, right associativity).
Notation "t ;;; k" := (ITree.bind t (λ _, k)) (at level 62, right associativity).

Definition str (s : string) : list Z := (λ a, Z.of_nat (nat_of_ascii a)) <$> list_ascii_of_string s.
Definition print (s : string) : tree unit := call (Print (str s)).
Definition println (s : string) : tree unit := call (Print (str s ++ [10])).
Definition printlnf (s : string) (args : list Z) : tree unit := call (Printf s args).
Definition exit {R} (code : Z) : tree R := x <- call (Exit code) ;; match x with end.
Definition beyond {R} : tree R := x <- call Beyond ;; match x with end.

(** A panic in a program prints a message and exits. *)
Definition user_panic {R} : tree R := printlnf "panic" [] ;;; exit 101.
Definition unwrap {A} (o : outcome A) : tree A := match o with Prelude.Ret x => ret x | Panic => user_panic end.

(** [_start]: the result of [main] is the exit code. *)
Definition start (main : tree Z) : tree Empty_set := code <- main ;; exit code.

(** [wait(&mut status)]. *)
Definition wait : tree (Z * Z) := call (Waitpid (-1)).

(** ** init *)

(** [exec(b"sh\0")], with the literal at some address. *)
Definition exec_lit (base : Z) (path : list Z) : tree Z := call (Exec base path base [base; 0]).

Definition reap_round (pid : Z) : tree (unit + unit) :=
  r <- wait ;;
  if r.1 <? 0 then ret (inr tt)
  else if r.1 =? pid then printlnf "init: shell exited with {status}, restarting" [r.2] ;;; ret (inr tt)
  else ret (inl tt).
Definition reap_loop (pid : Z) : tree unit := ITree.iter (λ _, reap_round pid) tt.

Definition init_round (base : Z) : tree (unit + Z) :=
  r <- call Fork ;;
  if r =? 0 then
    exec_lit base [115; 104; 0] ;;;
    println "init: could not exec sh" ;;;
    ret (inr 1)
  else if 0 <? r then reap_loop r ;;; ret (inl tt)
  else printlnf "init: fork failed with {err}" [r] ;;; ret (inr 1).
Definition init_main (base : Z) : tree Z := println "init: starting" ;;; ITree.iter (λ _, init_round base) tt.

(** ** The shell *)

(** The C string at an offset of the line buffer; [None] if the buffer ends
    before it does. *)
Fixpoint cstr (l : list Z) : option (list Z) :=
  match l with
  | [] => None
  | c :: l => if c =? 0 then Some [] else (c ::.) <$> cstr l
  end.
Definition cstr_in (base : Z) (mem : list Z) (p : Z) : option (list Z) :=
  if base <=? p then cstr (drop (Z.to_nat (p - base)) mem) else None.

Definition run_external (base : Z) (line argv : list Z) : tree unit :=
  r <- call Fork ;;
  if r =? 0 then
    err <- call (Exec base line base argv) ;;
    printlnf "sh: command not found (error {err})" [err] ;;;
    exit 127
  else if 0 <? r then
    w <- call (Waitpid r) ;;
    if negb (w.2 =? 0) then printlnf "sh: exited with status {status}" [w.2] else ret tt
  else printlnf "sh: fork failed with {err}" [r].

Definition builtin_help : tree unit :=
  println "builtins:" ;;;
  println "  help          this message" ;;;
  println "  exit          leave the shell" ;;;
  println "  uptime        milliseconds since boot" ;;;
  println "  ps            list tasks" ;;;
  println "" ;;;
  println "anything else is looked up as a program, for example:" ;;;
  println "  hello         print a greeting" ;;;
  println "  forktest      exercise fork and wait" ;;;
  println "  echo a b c    print the arguments back".

(** What is done with one line; [inl] is the buffer for the next one. *)
Definition shell_command (base : Z) (line : list Z) (len : Z) : tree (list Z + Z) :=
  r <- unwrap (split base line len (replicate 17 0)) ;;
  match r with
  | (line, None) => printlnf "sh: too many arguments (limit {ARGS_MAX})" [ARGS_MAX] ;;; ret (inl line)
  | (line, Some (argc, argv)) =>
      if argc =? 0 then ret (inl line)
      else
        p <- unwrap (arr_get argv 0) ;;
        match cstr_in base line p with
        | None => beyond
        | Some name =>
            if decide (name = str "exit") then println "sh: goodbye" ;;; ret (inr 0)
            else if decide (name = str "help") then builtin_help ;;; ret (inl line)
            else if decide (name = str "uptime") then
              ms <- call Uptime ;;
              printlnf "up {}.{:03}s" [ms `div` 1000; ms `mod` 1000] ;;; ret (inl line)
            else if decide (name = str "ps") then call Ps ;;; ret (inl line)
            else run_external base line argv ;;; ret (inl line)
        end
  end.
Definition shell_round (base : Z) (line : list Z) : tree (list Z + Z) :=
  print "$ " ;;;
  l <- call (ReadLine line) ;;
  if l.2 =? 0 then ret (inl l.1) else shell_command base l.1 l.2.
Definition shell_main (base : Z) : tree Z :=
  println "" ;;;
  println "AlexOS shell. Type `help` for the command list." ;;;
  ITree.iter (shell_round base) (replicate 256 0).

(** ** forktest *)
Definition CHILDREN : Z := 3.
Definition SENTINEL : Z := 0xAA.

Definition forktest_fork (i : Z) : tree (Z + option Z) :=
  if i <? CHILDREN then
    r <- call Fork ;;
    if r =? 0 then
      let sentinel := 0xBB + i in
      pid <- call Getpid ;;
      printlnf "  child {} (pid {}) set sentinel {:#x}" [i; pid; sentinel] ;;;
      exit (i + 1)
    else if 0 <? r then printlnf "  forked child {i} as pid {pid}" [i; r] ;;; ret (inl (i + 1))
    else printlnf "forktest: fork failed with {err}" [r] ;;; ret (inr (Some 1))
  else ret (inr None).

Definition forktest_reap (reaped : Z) : tree (Z + option Z) :=
  if reaped <? CHILDREN then
    w <- wait ;;
    if w.1 <? 0 then printlnf "forktest: wait failed with {pid}" [w.1] ;;; ret (inr (Some 1))
    else printlnf "  reaped pid {pid} with status {status}" [w.1; w.2] ;;; ret (inl (reaped + 1))
  else ret (inr None).

(** [Some code] is an early return. *)
Definition or_return (t : tree (option Z)) (k : tree Z) : tree Z :=
  o <- t ;; match o with Some code => ret code | None => k end.

Definition forktest_main : tree Z :=
  let sentinel := SENTINEL in
  pid <- call Getpid ;;
  printlnf "forktest: parent is pid {}, sentinel {:#x}" [pid; sentinel] ;;;
  or_return (ITree.iter forktest_fork 0)
    (or_return (ITree.iter forktest_reap 0)
       (printlnf "forktest: parent sentinel is still {sentinel:#x}" [sentinel] ;;;
        if negb (sentinel =? 0xAA) then println "forktest: FAILED -- a child's write reached the parent" ;;; ret 1
        else println "forktest: ok" ;;; ret 0)).

(** ** hello *)
Fixpoint hello_args (i : Z) (args : list (list Z)) : tree unit :=
  match args with
  | [] => ret tt
  | arg :: args => printlnf "  argv[{i}] = {}" (i :: arg) ;;; hello_args (i + 1) args
  end.
Definition hello_main (args : list (list Z)) : tree Z :=
  println "hello from userspace!" ;;;
  pid <- call Getpid ;;
  ppid <- call Getppid ;;
  printlnf "  pid {}, parent {}" [pid; ppid] ;;;
  printlnf "  argc {}" [Z.of_nat (length args)] ;;;
  hello_args 0 args ;;;
  ret 0.

(** ** echo *)

(** [args] is what the argument iterator yields. *)
Fixpoint echo_loop (i : nat) (args : list (list Z)) : tree unit :=
  match args with
  | [] => ret tt
  | arg :: args => (if decide (i = 0%nat) then ret tt else print " ") ;;; call (Write arg) ;;; echo_loop (S i) args
  end.
Definition echo_main (args : list (list Z)) : tree Z := echo_loop 0 (drop 1 args) ;;; println "" ;;; ret 0.

(** ** The abstract system *)

Record os := mkOs { kids : gset Z; out : list Z }.

Definition says (t : list Z) (s : os) : os := mkOs (kids s) (out s ++ t).
Definition with_kids (c : gset Z) (s : os) : os := mkOs c (out s).

(** [serves s e x s']: in state [s] the call [e] can return [x], leaving [s'].
    [Fork] returns in the parent, in the child, or with an error; [Exec] returns
    only an error; [Waitpid] reaps a child that was asked for, and fails exactly
    when there is none. *)
Definition serves (s : os) {X} (e : sysE X) : X → os → Prop :=
  match e in sysE X return X → os → Prop with
  | Print t => λ _ s', s' = says t s
  | Printf _ _ => λ _ s', ∃ t, s' = says t s
  | Write bs => λ n s', n = Z.of_nat (length bs) ∧ s' = says bs s
  | ReadLine buf => λ r s', length r.1 = length buf ∧ 0 ≤ r.2 ≤ Z.of_nat (length buf) ∧
      Forall (λ c, 32 ≤ c ≤ 126) (take (Z.to_nat r.2) r.1) ∧ ∃ t, s' = says t s
  | Getpid | Getppid => λ _ s', s' = s
  | Uptime => λ n s', 0 ≤ n ∧ s' = s
  | Ps => λ _ s', ∃ t, s' = says t s
  | Fork => λ r s', (0 < r ∧ (r ∉ kids s) ∧ s' = with_kids ({[r]} ∪ kids s) s) ∨ (r = 0 ∧ s' = with_kids ∅ s) ∨ (r < 0 ∧ s' = s)
  | Exec _ _ _ _ => λ r s', r < 0 ∧ s' = s
  | Waitpid want => λ r s',
      (0 < r.1 ∧ r.1 ∈ kids s ∧ (want < 0 ∨ r.1 = want) ∧ s' = with_kids (kids s ∖ {[r.1]}) s) ∨
      (r.1 < 0 ∧ r.2 = 0 ∧ s' = s ∧ (if decide (want < 0) then kids s = ∅ else want ∉ kids s))
  | Exit _ | Beyond => λ _ _, False
  end.

(** Calls that never return. *)
Definition ends {X} (e : sysE X) : bool := match e with Exit _ | Beyond => true | _ => false end.

(** Total correctness: whatever the system answers, every call satisfies [ok],
    and the program returns in [Q] or exits in [X] after finitely many steps. *)
Inductive total {R} (ok : ∀ X, sysE X → os → Prop) (Q : R → os → Prop) (X : Z → os → Prop) : tree R → os → Prop :=
| tot_ret t s r : observe t = RetF r → Q r s → total ok Q X t s
| tot_tau t s t' : observe t = TauF t' → total ok Q X t' s → total ok Q X t s
| tot_exit t s c k : observe t = VisF (Exit c) k → X c s → total ok Q X t s
| tot_vis t s Y (e : sysE Y) k : observe t = VisF e k → ok Y e s → ends e = false →
    (∀ x s', serves s e x s' → total ok Q X (k x) s') → total ok Q X t s.
