(* ===== verification/ProgramProps.v ===== *)
(** * What the user programs do

    A total-correctness calculus for the trees of [Programs], and with it: init
    keeps a shell running, the shell runs the command that was typed, forktest
    ends with all its children reaped, echo prints its arguments. *)
From Stdlib Require Import String Ascii Lia.
From stdpp Require Import base numbers gmap sets list.
From ITree Require Import Core.ITreeDefinition.
From S2P Require Import Prelude User ShellProps Programs.

(** ** The calculus *)
Section total.
Context (ok : ∀ X, sysE X → os → Prop) (X : Z → os → Prop).

Lemma total_observe {R} (Q : R → os → Prop) t t' s : observe t = observe t' → total ok Q X t s → total ok Q X t' s.
Proof.
  intros E H. destruct H as [t s r Ho ?|t s t1 Ho ?|t s c k Ho ?|t s Y e k Ho ? ? ?]; rewrite E in Ho.
  - by eapply tot_ret.
  - by eapply tot_tau.
  - by eapply tot_exit.
  - by eapply tot_vis.
Qed.

Lemma observe_bind {A B} (t : tree A) (k : A → tree B) : observe (ITree.bind t k) =
  match observe t with
  | RetF r => observe (k r)
  | TauF t => TauF (ITree.bind t k)
  | VisF e h => VisF e (λ x, ITree.bind (h x) k)
  end.
Proof. unfold observe. cbn. unfold observe. destruct (_observe t); reflexivity. Qed.

Lemma total_bind {A B} (Q : B → os → Prop) (t : tree A) (k : A → tree B) s :
  total ok (λ r s, total ok Q X (k r) s) X t s → total ok Q X (ITree.bind t k) s.
Proof.
  induction 1 as [t s r Ho Hq|t s t1 Ho _ IH|t s c h Ho Hx|t s Y e h Ho Hok He _ IH]; pose proof (observe_bind t k) as Eb; rewrite Ho in Eb.
  - by eapply total_observe.
  - by eapply tot_tau.
  - by eapply tot_exit.
  - by eapply tot_vis.
Qed.

Lemma total_mono {R} (Q Q' : R → os → Prop) t s : (∀ r s, Q r s → Q' r s) → total ok Q X t s → total ok Q' X t s.
Proof.
  intros HQ. induction 1; [eapply tot_ret|eapply tot_tau|eapply tot_exit|eapply tot_vis]; eauto.
Qed.

Lemma total_ret {R} (Q : R → os → Prop) r s : Q r s → total ok Q X (ret r) s.
Proof. by apply tot_ret. Qed.

Lemma total_iter {I R} (Q : R → os → Prop) (body : I → tree (I + R)) i s :
  total ok (λ r s, match r with inl j => total ok Q X (ITree.iter body j) s | inr r => Q r s end) X (body i) s →
  total ok Q X (ITree.iter body i) s.
Proof.
  intros H. apply (total_observe _ (ITree.bind (body i) (λ r, match r with inl j => go (TauF (ITree.iter body j)) | inr r => ret r end))); [reflexivity|].
  apply total_bind. eapply total_mono; [|exact H]. intros [j|r] s'; [intros; by eapply tot_tau|by apply total_ret].
Qed.

Lemma total_call {Y} (e : sysE Y) (Q : Y → os → Prop) s :
  ok Y e s → ends e = false → (∀ x s', serves s e x s' → Q x s') → total ok Q X (call e) s.
Proof. intros Hok He Hq. eapply (tot_vis _ _ _ _ _ Y e); [reflexivity|done|done|]. intros x s' Hs. by apply total_ret, Hq. Qed.

Lemma total_exit {R} (Q : R → os → Prop) c s : X c s → total ok Q X (exit c) s.
Proof. intros Hx. eapply tot_exit; [exact (observe_bind (call (Exit c)) _)|done]. Qed.
End total.

(** Symbolic execution of a tree. *)
Ltac tot_step :=
  lazymatch goal with
  | |- total _ _ _ (ITree.bind _ _) _ => apply total_bind
  | |- total _ _ _ (ret _) _ => apply total_ret
  | |- total _ _ _ (exit _) _ => apply total_exit
  | |- total _ _ _ (call _) _ => apply total_call; [try done|reflexivity|intros ? ?; cbn [serves]]
  | |- total _ _ _ (println _) _ => unfold println
  | |- total _ _ _ (print _) _ => unfold print
  | |- total _ _ _ (printlnf _ _) _ => unfold printlnf
  end.
Ltac tot_steps := repeat (tot_step; try (intros ->); try (intros [? ->])).

(** ** What a request to [exec] asks for: the strings the kernel reads *)
Fixpoint until_null (l : list Z) : option (list Z) :=
  match l with
  | [] => None
  | p :: l => if p =? 0 then Some [] else (p ::.) <$> until_null l
  end.
Definition requested (base : Z) (mem : list Z) (path : Z) (argv : list Z) : option (list Z * list (list Z)) :=
  p ← cstr_in base mem path; ps ← until_null argv; args ← mapM (cstr_in base mem) ps; Some (p, args).
Definition execs (what : list Z * list (list Z)) X (e : sysE X) (s : os) : Prop :=
  match e with Exec b m p a => requested b m p a = Some what | _ => True end.

(** ** init *)
Lemma reap_loop_total (ok : ∀ X, sysE X → os → Prop) X p s : (∀ want s, ok _ (Waitpid want) s) → (∀ f a s, ok _ (Printf f a) s) → p ∈ kids s →
  total ok (λ _ s', kids s' ⊆ kids s ∖ {[p]}) X (reap_loop p) s.
Proof.
  intros Hok1 Hok2. remember (size (kids s)) as n eqn:Hn. revert s Hn. induction (lt_wf n) as [n _ IH]. intros s -> Hp.
  apply total_iter. unfold reap_round, wait. tot_step. apply total_call; [apply Hok1|reflexivity|].
  intros [r st] s' [(Hr & Hk & _ & ->)|(_ & _ & _ & Hk)]; cbn [fst snd] in *; [|rewrite decide_True in Hk by lia; set_solver].
  rewrite (proj2 (Z.ltb_ge _ _)) by lia. destruct (Z.eqb_spec r p) as [->|Hne].
  - tot_step. apply total_call; [apply Hok2|reflexivity|]. intros ? ? [? ->]. apply total_ret. done.
  - assert (Hlt : (size (kids s ∖ {[r]}) < size (kids s))%nat) by (apply subset_size; set_solver).
    apply total_ret. eapply total_mono; [|apply (IH _ Hlt (with_kids (kids s ∖ {[r]}) s) eq_refl); cbn; set_solver]. cbn. set_solver.
Qed.

(** Init keeps a shell running.  Whatever children it has and whatever the
    system answers, a round of its loop ends.  The parent goes round again only
    after the shell it forked has been reaped, with no new child left over; the
    only program it ever starts is [sh]; it gives up only when [fork] failed, or
    in the child when [exec] did. *)
Theorem init_keeps_a_shell base s : 0 < base →
  total (execs (str "sh", [str "sh"]))
    (λ r s', match r with inl _ => kids s' ⊆ kids s | inr code => code = 1 ∧ (kids s' = kids s ∨ kids s' = ∅) end)
    (λ _ _, False) (init_round base) s.
Proof.
  intros Hb. unfold init_round. tot_step. tot_step. intros [(Hp & Hf & ->)|[(-> & ->)|(Hp & ->)]].
  - rewrite (proj2 (Z.eqb_neq _ _)), (proj2 (Z.ltb_lt _ _)) by lia. tot_step.
    eapply total_mono; [|apply reap_loop_total; [done|done|cbn; set_solver]]. intros [] s' Hs'. apply total_ret. cbn in Hs'. set_solver.
  - cbn [Z.eqb]. tot_step. unfold exec_lit. tot_step.
    + cbn [execs]. unfold requested, cstr_in, until_null. rewrite Z.leb_refl, Z.sub_diag. cbn. rewrite (proj2 (Z.eqb_neq _ _)) by lia.
      cbn. by rewrite Z.leb_refl, Z.sub_diag.
    + intros [_ ->]. tot_steps. cbn. auto.
  - rewrite (proj2 (Z.eqb_neq _ _)), (proj2 (Z.ltb_ge _ _)) by lia. tot_steps. cbn. auto.
Qed.

(** ** The shell *)
Lemma cstr_app w l : Forall (λ c, c ≠ 0) w → cstr (w ++ 0 :: l) = Some w.
Proof. induction 1 as [|c w Hc _ IH]; [done|]. cbn. by rewrite (proj2 (Z.eqb_neq _ _) Hc), IH. Qed.

Lemma cstr_in_at base mem o w : Forall (λ c, c ≠ 0) w → cstring_at mem o w → cstr_in base mem (base + o) = Some w.
Proof.
  intros Hw (l1 & l2 & -> & ->). unfold cstr_in. rewrite (proj2 (Z.leb_le _ _)) by lia.
  replace (Z.to_nat (base + Z.of_nat (length l1) - base)) with (length l1) by lia. by rewrite drop_app_length, cstr_app.
Qed.

Lemma until_null_spec ps : ∀ l, (∀ i p, ps !! i = Some p → l !! i = Some p ∧ p ≠ 0) → l !! length ps = Some 0 → until_null l = Some ps.
Proof.
  induction ps as [|p ps IH]; intros [|x l] Hps Hl; try done; cbn in *; [by injection Hl as ->|].
  destruct (Hps 0%nat p eq_refl) as [[= ->] Hp]. rewrite (proj2 (Z.eqb_neq _ _) Hp). rewrite (IH l); [done| |done].
  intros i q Hi. exact (Hps (S i) q Hi).
Qed.

Lemma mapM_cstrs base mem (ws : list (Z * list Z)) :
  (∀ o w, (o, w) ∈ ws → cstr_in base mem (base + o) = Some w) →
  mapM (cstr_in base mem) ((λ x, base + x.1) <$> ws) = Some ws.*2.
Proof.
  induction ws as [|[o w] ws IH]; intros H; [done|]. cbn. rewrite (H o w) by set_solver. cbn. rewrite IH; [done|].
  intros o' w' Hin. apply H. set_solver.
Qed.

(** The fields of a printable line contain no NUL. *)
Lemma fields_no_nul o l ws o' w : fields o l ws → Forall (λ c, 32 ≤ c ≤ 126) l → (o', w) ∈ ws → Forall (λ c, c ≠ 0) w.
Proof.
  intros Hf Hl Hin. destruct (fields_slice o l ws Hf o' w Hin) as (l1 & l2 & -> & _ & _).
  apply Forall_app in Hl as [_ [Hl _]%Forall_app]. eapply Forall_impl; [exact Hl|]. cbn. lia.
Qed.

Lemma fields_offset o l ws o' w : fields o l ws → (o', w) ∈ ws → o ≤ o'.
Proof. intros Hf Hin. destruct (fields_slice o l ws Hf o' w Hin) as (l1 & l2 & _ & -> & _). lia. Qed.

(** What stands at the start of a line once it is split: the first word, unless
    spaces come before it. *)
Definition path_of (ws : list (Z * list Z)) : list Z :=
  match ws with (o, w) :: _ => if o =? 0 then w else [] | [] => [] end.
Definition first_word (ws : list (Z * list Z)) : list Z := match ws with (_, w) :: _ => w | [] => [] end.

(** What [split] leaves, as the kernel and [cstr_at] read it. *)
Lemma split_requested base buf len ws : length buf = 256%nat → 0 ≤ len < LINE_MAX → 0 < base →
  Forall (λ c, 32 ≤ c ≤ 126) (take (Z.to_nat len) buf) → fields 0 (take (Z.to_nat len) buf) ws →
  ∃ line r, split base buf len (replicate 17 0) = Prelude.Ret (line, r) ∧ length line = 256%nat ∧
    if decide (length ws ≤ 16)%nat then
      ∃ argv, r = Some (Z.of_nat (length ws), argv) ∧ until_null argv = Some ((λ x, base + x.1) <$> ws) ∧
        mapM (cstr_in base line) ((λ x, base + x.1) <$> ws) = Some ws.*2 ∧
        (∀ i o w, ws !! i = Some (o, w) → argv !! i = Some (base + o) ∧ cstr_in base line (base + o) = Some w) ∧
        (ws ≠ [] → cstr_in base line base = Some (path_of ws))
    else r = None.
Proof.
  intros Hb Hl Hbase Hpr Hf. destruct (split_spec base buf len (replicate 17 0) ws Hb Hl eq_refl Hf) as (line & r & Hs & Hlen & Hr).
  exists line, r. split_and!; [done|done|]. case_decide; [|done]. destruct Hr as (argv & -> & Hnull & Hw & Hsp). exists argv.
  assert (Hc : ∀ i o w, ws !! i = Some (o, w) → cstr_in base line (base + o) = Some w).
  { intros i o w Hi. apply cstr_in_at; [|by apply (Hw i)]. eapply fields_no_nul; [exact Hf|done|by eapply list_elem_of_lookup_2]. }
  split_and!; [done| | | |].
  - apply until_null_spec; [|by rewrite length_fmap]. intros i p (x & -> & Hi)%list_lookup_fmap_Some. destruct x as [o w].
    split; [by apply (Hw i o w)|]. pose proof (fields_offset _ _ _ o w Hf ltac:(by eapply list_elem_of_lookup_2)). cbn. lia.
  - apply mapM_cstrs. intros o w [i Hi]%list_elem_of_lookup_1. by eapply Hc.
  - intros i o w Hi. split; [by apply (Hw i o w)|by eapply Hc].
  - destruct ws as [|[o w] ws]; [done|]. intros _. cbn [path_of]. destruct (Z.eqb_spec o 0) as [->|Ho].
    + rewrite <- (Z.add_0_r base) at 2. by apply (Hc 0%nat).
    + rewrite <- (Z.add_0_r base) at 2. apply cstr_in_at; [constructor|by apply (Hsp o w)].
Qed.

(** Running a command: in the parent the child is reaped before the prompt comes
    back, in the child a failed [exec] is exit code 127. *)
Lemma run_external_total (ok : ∀ X, sysE X → os → Prop) (X : Z → os → Prop) base line argv s :
  (∀ s, ok _ Fork s) → (∀ q s, ok _ (Waitpid q) s) → (∀ f a s, ok _ (Printf f a) s) → (∀ s, ok _ (Exec base line base argv) s) →
  (∀ s', kids s' = ∅ → X 127 s') → total ok (λ _ s', kids s' = kids s) X (run_external base line argv) s.
Proof.
  intros Hfk Hwt Hpf He HX. unfold run_external. tot_step. apply total_call; [apply Hfk|reflexivity|].
  intros r s' [(Hp & Hf & ->)|[(-> & ->)|(Hp & ->)]].
  - rewrite (proj2 (Z.eqb_neq _ _)), (proj2 (Z.ltb_lt _ _)) by lia. tot_step. apply total_call; [apply Hwt|reflexivity|].
    intros [q st] s' [(_ & _ & [?|Hq] & ->)|(_ & _ & _ & Hk)]; cbn [fst snd kids with_kids out] in *; [lia| |rewrite decide_False in Hk by lia; set_solver].
    subst q. assert (Hk : ({[r]} ∪ kids s) ∖ {[r]} = kids s) by set_solver. destruct (Z.eqb st 0); cbn [negb].
    + by apply total_ret.
    + apply total_call; [apply Hpf|reflexivity|]. intros ? ? [? ->]. done.
  - cbn [Z.eqb]. tot_step. apply total_call; [apply He|reflexivity|]. intros err s' [_ ->]. tot_step.
    apply total_call; [apply Hpf|reflexivity|]. intros ? ? [? ->]. by apply total_exit, HX.
  - rewrite (proj2 (Z.eqb_neq _ _)), (proj2 (Z.ltb_ge _ _)) by lia.
    apply total_call; [apply Hpf|reflexivity|]. intros ? ? [? ->]. done.
Qed.

Definition builtins : list (list Z) := [str "exit"; str "help"; str "uptime"; str "ps"].

(** The calls made for a line with the words [ws]: text is printed; the clock is
    read and the tasks are listed for the builtins of that name; a child is made
    and waited for, and a program asked for, only for another first word of at
    most 16, and what is asked for is the program at the start of the line with
    the words as its arguments. *)
Definition external (ws : list (Z * list Z)) : Prop := (0 < length ws ≤ 16)%nat ∧ first_word ws ∉ builtins.
Definition line_calls (ws : list (Z * list Z)) X (e : sysE X) (s : os) : Prop :=
  match e with
  | Print _ | Printf _ _ => True
  | Uptime => first_word ws = str "uptime"
  | Ps => first_word ws = str "ps"
  | Fork | Waitpid _ => external ws
  | Exec b m p a => external ws ∧ requested b m p a = Some (path_of ws, ws.*2)
  | _ => False
  end.

Lemma help_total ws Q X s : (∀ s', kids s' = kids s → Q tt s') → total (line_calls ws) Q X builtin_help s.
Proof.
  intros HQ. unfold builtin_help. tot_steps. match goal with |- Q ?u _ => destruct u end. by apply HQ.
Qed.


(** ** forktest *)
Definition anything X (e : sysE X) (s : os) : Prop := True.
Definition child_code (code : Z) (s : os) : Prop := 1 ≤ code ≤ CHILDREN.

Lemma forktest_fork_total n : ∀ i s, i = CHILDREN - Z.of_nat n → 0 ≤ i →
  total anything (λ r s', match r with
    | None => size (kids s') = (size (kids s) + n)%nat
    | Some code => code = 1 ∧ (size (kids s) ≤ size (kids s') < size (kids s) + n)%nat
    end) child_code (ITree.iter forktest_fork i) s.
Proof.
  induction n as [|n IH]; intros i s Hi Hi0; apply total_iter; unfold forktest_fork.
  { rewrite (proj2 (Z.ltb_ge _ _)) by lia. apply total_ret. lia. }
  rewrite (proj2 (Z.ltb_lt _ _)) by lia. do 2 tot_step. intros [(Hp & Hf & ->)|[(-> & ->)|(Hp & ->)]].
  - rewrite (proj2 (Z.eqb_neq _ _)), (proj2 (Z.ltb_lt _ _)) by lia. tot_step. unfold printlnf. tot_step. intros [t ->].
    apply total_ret. assert (Hs : size ({[x]} ∪ kids s) = S (size (kids s))) by (rewrite size_union, size_singleton by set_solver; lia).
    eapply total_mono; [|apply IH; lia]. intros [code|] s'; cbn [kids with_kids says]; rewrite Hs; lia.
  - cbn [Z.eqb]. tot_steps. unfold child_code, CHILDREN in *. lia.
  - rewrite (proj2 (Z.eqb_neq _ _)), (proj2 (Z.ltb_ge _ _)) by lia. tot_step. unfold printlnf. tot_step. intros [t ->].
    apply total_ret. cbn. lia.
Qed.

Lemma forktest_reap_total n : ∀ i s, i = CHILDREN - Z.of_nat n → (n ≤ size (kids s))%nat →
  total anything (λ r s', r = None ∧ (size (kids s') + n = size (kids s))%nat) child_code (ITree.iter forktest_reap i) s.
Proof.
  induction n as [|n IH]; intros i s Hi Hn; apply total_iter; unfold forktest_reap.
  { rewrite (proj2 (Z.ltb_ge _ _)) by lia. apply total_ret. split; [done|lia]. }
  rewrite (proj2 (Z.ltb_lt _ _)) by lia. unfold wait. do 2 tot_step. intros [(Hr & Hk & _ & ->)|(_ & _ & _ & Hk)].
  - rewrite (proj2 (Z.ltb_ge _ _)) by lia. tot_step. unfold printlnf. tot_step. intros [t ->]. apply total_ret.
    assert (Hs : size (kids s ∖ {[x.1]}) = (size (kids s) - 1)%nat) by (rewrite size_difference, size_singleton by set_solver; done).
    eapply total_mono; [|apply IH; [lia|cbn; lia]]. intros r s'. cbn [kids with_kids says]. rewrite Hs. intros [-> ?]. split; [done|lia].
  - rewrite decide_True in Hk by lia. rewrite Hk, size_empty in Hn. lia.
Qed.

(** forktest ends.  Whatever the order in which its children finish, it
    returns 0 with as many children as it had before, all of its own forks having
    been waited for; or 1 if a fork failed, in which case the children forked
    until then are left behind.  Each child exits with a code from 1 to 3. *)
Theorem forktest_completes s :
  total anything (λ code s', (code = 0 ∧ size (kids s') = size (kids s)) ∨
      (code = 1 ∧ (size (kids s) ≤ size (kids s') < size (kids s) + 3)%nat)) child_code forktest_main s.
Proof.
  unfold forktest_main, or_return. tot_steps. eapply total_mono; [|by apply (forktest_fork_total 3)].
  intros [code|] s1 H1; cbn [kids says] in H1; [apply total_ret; right; exact H1|].
  tot_step. eapply total_mono; [|apply (forktest_reap_total 3); [done|lia]]. intros r s2 [-> H2].
  change (SENTINEL =? 0xAA) with true. cbn [negb]. tot_steps. left. split; [done|]. cbn [kids says]. lia.
Qed.

(** ** echo *)
Fixpoint spaced (args : list (list Z)) : list Z :=
  match args with
  | [] => []
  | [a] => a
  | a :: args => a ++ 32 :: spaced args
  end.

Lemma echo_loop_total args : ∀ i s,
  total anything (λ _ s', out s' = out s ++ (if decide (i = 0%nat ∨ args = []) then [] else [32]) ++ spaced args)
    (λ _ _, False) (echo_loop i args) s.
Proof.
  induction args as [|a args IH]; intros i s; cbn [echo_loop].
  { apply total_ret. rewrite decide_True by auto. by rewrite !app_nil_r. }
  assert (Hrest : ∀ s', total anything (λ _ s1, out s1 = out s' ++ spaced (a :: args)) (λ _ _, False)
    (call (Write a) ;;; echo_loop (S i) args) s').
  { intros s'. do 2 tot_step. intros [_ ->]. eapply total_mono; [|apply IH]. intros [] s1 ->. cbn [out says]. rewrite <-app_assoc. f_equal.
    destruct args as [|b args]; [rewrite decide_True by auto; by rewrite !app_nil_r|]. rewrite decide_False by (intros [?|?]; done). done. }
  tot_step. destruct (decide (i = 0%nat)) as [Hi|Hi].
  - apply total_ret. rewrite decide_True by auto. apply Hrest.
  - unfold print. tot_step. intros ->. eapply total_mono; [|apply Hrest]. rewrite decide_False by (intros [?|?]; done). intros [] s1 ->. cbn [out says]. by rewrite <-app_assoc.
Qed.

(** echo writes its arguments after the first, separated by single spaces, and a
    newline. *)
Theorem echo_prints args s :
  total anything (λ code s', code = 0 ∧ out s' = out s ++ spaced (drop 1 args) ++ [10]) (λ _ _, False) (echo_main args) s.
Proof.
  unfold echo_main. tot_step. eapply total_mono; [|apply echo_loop_total]. intros [] s1 H1. rewrite decide_True in H1 by auto.
  tot_steps. split; [done|]. cbn [out says]. by rewrite H1, <-app_assoc.
Qed.

(** ** Lines the shell gets wrong *)

(** [ ls]: the path handed to [exec] is the start of the line, which [split] has
    turned into an empty string. *)
Theorem leading_space_runs_nothing :
  match split 0x20000 ([32; 108; 115] ++ replicate 253 0) 3 (replicate 17 0) with
  | Prelude.Ret (line, Some (argc, argv)) => requested 0x20000 line 0x20000 argv = Some ([], [str "ls"])
  | _ => False
  end.
Proof. vm_compute. reflexivity. Qed.

(** A line that fills the buffer: its last word has no terminator, and the search
    for the end of the command name leaves the array. *)
Theorem full_line_not_terminated :
  match split 0x20000 (replicate 256 97) 256 (replicate 17 0) with
  | Prelude.Ret (line, Some (argc, argv)) => argc = 1 ∧ argv !! 0%nat = Some 0x20000 ∧ cstr_in 0x20000 line 0x20000 = None
  | _ => False
  end.
Proof. vm_compute. auto. Qed.

(** ** Witnesses *)
Definition some_os : os := mkOs {[4; 5]} [].

(** [echo hi] *)
Definition echo_hi : list Z := str "echo hi" ++ replicate 249 120.
