(* ===== verification/Boot.v ===== *)
(** * Firmware calls, console back ends, backtraces and the first process
    (sbi.rs, console.rs, backtrace.rs, test_device.rs, main.rs)

    The firmware is the parameter of [Kernel.Firmware].  Code that never returns
    is modelled up to its last effect.  Proved here: the timer keeps its beat, and
    a backtrace is bounded. *)
From stdpp Require Import base numbers gmap list sorting.
From Stdlib Require Import Lia.
From coqutil Require Import Byte.
From S2P Require Import Prelude Memory Config Addr FrameIface PageTable Space Device Trap Task Sched Kernel Process Syscall.
From S2P Require Import FrameProps UartProps KernelDemo.
From S2P Require Uart Frame.

(** ** Supervisor binary interface *)
Definition EID_IPI : Z := 0x735049.
Definition EID_RFNC : Z := 0x52464E43.
Definition EID_HSM : Z := 0x48534D.
Definition EID_SRST : Z := 0x53525354.
Definition EID_DBCN : Z := 0x4442434E.
Definition EID_LEGACY_PUTCHAR : Z := 0x01.
Definition EID_LEGACY_GETCHAR : Z := 0x02.

Record SbiRet := mkSbi { error : Z; value : Z }.
Definition is_ok (r : SbiRet) : bool := error r =? 0.

Inductive ResetType := Shutdown | ColdReboot | WarmReboot.
Definition reset_code (r : ResetType) : Z := match r with Shutdown => 0 | ColdReboot => 1 | WarmReboot => 2 end.

Section boot.
Context {S D : Type} `{FrameAllocator S} `{Bus D} `{Firmware D}.
Abbreviation K := (ST (Kernel S D)).

Definition sbi_ecall (eid fid a0 a1 a2 : Z) : K SbiRet :=
  k ← get;
  let '((e, v), d) := ecall eid fid a0 a1 a2 (Uart.dev (k_con k)) in
  put (set_con (Uart.set_dev d (k_con k)) k);; mret (mkSbi e v).

Definition send_ipi (hart_mask hart_mask_base : Z) : K SbiRet := sbi_ecall EID_IPI 0 hart_mask hart_mask_base 0.
Definition remote_sfence_vma (hart_mask hart_mask_base : Z) : K SbiRet := sbi_ecall EID_RFNC 1 hart_mask hart_mask_base 0.
Definition hart_start (hartid start_addr opaque : Z) : K SbiRet := sbi_ecall EID_HSM 0 hartid start_addr opaque.
Definition hart_status (hartid : Z) : K SbiRet := sbi_ecall EID_HSM 2 hartid 0 0.

Definition console_putchar (c : Z) : K unit := _ ← sbi_ecall EID_LEGACY_PUTCHAR 0 c 0 0; mret tt.
(** The error register is a signed word; [as u8] keeps its low byte. *)
Definition console_getchar : K (option Z) :=
  r ← sbi_ecall EID_LEGACY_GETCHAR 0 0 0 0;
  mret (if error r =? -1 then None else Some (error r `mod` 256)).

Fixpoint put_all (bytes : list Z) : K unit :=
  match bytes with
  | [] => mret tt
  | b :: bytes => console_putchar b;; put_all bytes
  end.
(** [ptr] is where the bytes are. *)
Definition console_write (ptr : Z) (bytes : list Z) : K unit :=
  phys ← lift (virt_to_phys ptr);
  r ← sbi_ecall EID_DBCN 0 (Z.of_nat (length bytes)) phys 0;
  if is_ok r then mret tt else put_all bytes.

(** [shutdown] up to the final wait loop. *)
Definition shutdown (reason : ResetType) : K unit :=
  _ ← sbi_ecall EID_SRST 0 (reset_code reason) 0 0;
  _ ← sbi_ecall 0x08 0 0 0 0;
  mret tt.

(** ** Console *)

(** [Console::write_str]; [poll] bounds the wait for the transmitter. *)
Definition write_str (poll : nat) (ptr : Z) (bytes : list Z) : K unit :=
  k ← get;
  if Uart.uart_ready (k_con k) then in_con (Uart.write_bytes poll bytes) else console_write ptr bytes.
(** [Raw::write_str], of the panic path. *)
Definition write_str_unlocked (ptr : Z) (bytes : list Z) : K unit := console_write ptr bytes.

(** ** Test finisher *)
Definition FINISH_PASS : Z := 0x5555.
Definition FINISH_FAIL : Z := 0x3333.
Definition finish (v : Z) : K unit :=
  reg ← lift (phys_to_virt TEST_DEVICE_BASE);
  k ← get;
  put (set_con (Uart.set_dev (write_volatile reg v (Uart.dev (k_con k))) (k_con k)) k);;
  shutdown Shutdown.
Definition exit_success : K unit := finish FINISH_PASS.
Definition exit_failure : K unit := finish (Z.lor FINISH_FAIL (Z.shiftl 1 16)).

(** ** The first process *)

(** [start_init]; [init_name] is the string [init]. *)
Definition init_name : list byte := byte.of_Z <$> [105; 110; 105; 116].
Definition start_init (programs : list (list byte * list byte)) (task_entry : Z) : K unit :=
  image ← lift (expect (find_program programs init_name));
  o ← new_user task_entry init_name image [init_name];
  p ← lift (expect o);
  in_sched (admit_task p).
End boot.

(** ** Backtraces *)

Definition MAX_FRAMES : Z := 32.

(** The walk: the printed frames [(ra, fp)], the addresses read, and whether it
    stopped at the limit.  [mem] is kernel memory by word; [None] is a fault, at
    which the trap handler takes over. *)
Fixpoint walk (fuel : nat) (mem : Z → option Z) (fp : Z) : list (Z * Z) * list Z * bool :=
  match fuel with
  | O => ([], [], true)
  | Datatypes.S fuel =>
      if (fp <? VIRT_OFFSET) || negb (Z.land fp 7 =? 0) then ([], [], false)
      else
        match mem (fp - 8) with
        | None => ([], [fp - 8], false)
        | Some ra =>
            match mem (fp - 16) with
            | None => ([], [fp - 8; fp - 16], false)
            | Some prev =>
                if ra =? 0 then ([], [fp - 8; fp - 16], false)
                else if prev <=? fp then ([(ra, fp)], [fp - 8; fp - 16], false)
                else
                  let '(l, rs, t) := walk fuel mem prev in
                  ((ra, fp) :: l, fp - 8 :: fp - 16 :: rs, t)
            end
        end
  end.
Definition backtrace (mem : Z → option Z) (fp : Z) : list (Z * Z) * list Z * bool := walk (Z.to_nat MAX_FRAMES) mem fp.

(** ** A delay ends

    [clock] is where the clock stands: it moves between two readings. *)
Section delay.
Context {S D : Type} `{FrameAllocator S} `{Bus D} `{Firmware D} (clock : D → Z).
Context (Hclock : ∀ d, clock d ≤ (rdtime d).1 ∧ (rdtime d).1 < clock (rdtime d).2).

Lemma spin_until_returns fuel target (k : Kernel S D) : target - clock (Uart.dev (k_con k)) < Z.of_nat fuel →
  0 < Z.of_nat fuel → wp (spin_until fuel target) (λ _ _, True) k.
Proof.
  revert k. induction fuel as [|fuel IH]; intros k Hf Hp; [lia|]. cbn [spin_until]. unfold read_time. wp_steps.
  pose proof (Hclock (Uart.dev (k_con k))) as Hc. destruct (rdtime (Uart.dev (k_con k))) as [now d]. cbn [fst snd] in Hc. wp_steps.
  destruct (Z.ltb_spec now target); [|by apply wp_ret]. apply IH; cbn; lia.
Qed.
(** A busy wait of [ms] milliseconds ends after at most ten thousand readings of
    the clock for each. *)
Theorem spin_delay_returns fuel ms (k : Kernel S D) : 0 ≤ ms → TIMER_FREQ `div` 1000 * ms < Z.of_nat fuel →
  (rdtime (Uart.dev (k_con k))).1 + TIMER_FREQ `div` 1000 * ms < U64 → 0 ≤ (rdtime (Uart.dev (k_con k))).1 →
  wp (spin_delay_ms fuel ms) (λ _ _, True) k.
Proof.
  intros Hm Hf Hu H0'. unfold spin_delay_ms, read_time. wp_steps. pose proof (Hclock (Uart.dev (k_con k))) as Hc.
  destruct (rdtime (Uart.dev (k_con k))) as [now d]. cbn [fst snd] in *. wp_steps. unfold TIMER_FREQ in *. cbn in Hf, Hu.
  change (10000000 `div` 1000) with 10000 in *. eapply wp_lift; [apply u64_mul_ok; lia|]. wp_step. eapply wp_lift; [apply u64_add_ok; lia|].
  apply spin_until_returns; cbn; lia.
Qed.
End delay.

(** ** The timer keeps its beat, and a backtrace is bounded *)

Section timer.
Context {S D : Type} `{FrameAllocator S} `{Bus D} `{Firmware D}.
Implicit Types k : Kernel S D.

(** C39: timer ticks.  A tick never fails before the clock runs out of 64 bits.
    The next deadline is in the future; it is exactly one interval after the
    previous one unless that moment has passed already, so that ticks do not
    drift; it is what the firmware is asked for; and the count goes up by one. *)
Theorem tick_deadline k s now d : on_timer_tick (k_sched k) = Ret (tt, s) → rdtime (Uart.dev (k_con k)) = (now, d) →
  now + interval < U64 → next_deadline (k_timer k) + interval < U64 →
  ∃ k', on_tick k = Ret (tt, k') ∧ k_sched k' = s ∧
    let next := next_deadline (k_timer k') in
    now < next ∧ (now < next_deadline (k_timer k) + interval → next = next_deadline (k_timer k) + interval) ∧
    next ≤ Z.max (next_deadline (k_timer k)) now + interval ∧
    tm_ticks (k_timer k') = wrapping_add (tm_ticks (k_timer k)) 1 ∧
    Uart.dev (k_con k') = (ecall EID_TIME 0 next 0 0 d).2.
Proof.
  intros Hs Ht Hnow Hnext. unfold on_tick, mbind, ST_bind, get, put, in_sched. cbn [k_sched set_timer_state]. rewrite Hs.
  unfold read_time, mbind, ST_bind, get, put. cbn [k_con set_sched set_timer_state]. rewrite Ht. unfold mret, ST_ret. cbn [k_timer set_con set_sched set_timer_state next_deadline tm_ticks].
  rewrite u64_add_ok by lia. cbn [lift].
  assert (Hi : 0 < interval) by (vm_compute; reflexivity).
  assert (Hn : ∃ next, (if next_deadline (k_timer k) + interval <=? now then lift (now +! interval) else λ s, Ret (next_deadline (k_timer k) + interval, s)) =
      (λ s : Kernel S D, Ret (next, s)) ∧ now < next ∧ next ≤ Z.max (next_deadline (k_timer k)) now + interval ∧
      (now < next_deadline (k_timer k) + interval → next = next_deadline (k_timer k) + interval)).
  { destruct (Z.leb_spec (next_deadline (k_timer k) + interval) now); [rewrite u64_add_ok by lia|]; eexists; (split; [reflexivity|lia]). }
  destruct Hn as (next & -> & Hn1 & Hn2 & Hn3). unfold set_deadline, set_timer, mbind, ST_bind, get, put.
  cbn [k_con k_timer set_con set_sched set_timer_state Uart.set_dev Uart.dev].
  destruct (ecall EID_TIME 0 next 0 0 d) as [r d'] eqn:Ee. eexists. split; [reflexivity|].
  cbn [k_sched k_con k_timer set_con set_sched set_timer_state Uart.set_dev Uart.dev next_deadline tm_ticks]. rewrite Ee. done.
Qed.
End timer.

(** ** Backtraces *)
Lemma walk_spec mem fuel : ∀ fp, let '(l, rs, t) := walk fuel mem fp in
  (length l ≤ fuel)%nat ∧ (length rs ≤ 2 * fuel)%nat ∧ (t = true → length l = fuel) ∧
  StronglySorted Z.lt l.*2 ∧ Forall (λ x, fp ≤ x.2 ∧ x.1 ≠ 0 ∧ mem (x.2 - 8) = Some x.1) l ∧
  Forall (λ a, VIRT_OFFSET - 16 ≤ a ∧ a `mod` 8 = 0) rs.
Proof.
  induction fuel as [|fuel IH]; intros fp; cbn [walk]; [split_and!; try done; constructor|].
  assert (Hnone : ∀ rs, (length rs ≤ 2)%nat → Forall (λ a, VIRT_OFFSET - 16 ≤ a ∧ a `mod` 8 = 0) rs →
    (length (@nil (Z * Z)) ≤ Datatypes.S fuel)%nat ∧ (length rs ≤ 2 * Datatypes.S fuel)%nat ∧ (false = true → length (@nil (Z * Z)) = Datatypes.S fuel) ∧
    StronglySorted Z.lt (@nil (Z * Z)).*2 ∧ Forall (λ x, fp ≤ x.2 ∧ x.1 ≠ 0 ∧ mem (x.2 - 8) = Some x.1) [] ∧
    Forall (λ a, VIRT_OFFSET - 16 ≤ a ∧ a `mod` 8 = 0) rs).
  { intros rs Hl Hrs. split_and!; [cbn; lia|lia|done|constructor|constructor|done]. }
  destruct (Z.ltb_spec fp VIRT_OFFSET) as [|Hk]; cbn [orb]; [apply Hnone; [cbn; lia|constructor]|].
  destruct (Z.eqb_spec (Z.land fp 7) 0) as [Ha|]; cbn [negb]; [|apply Hnone; [cbn; lia|constructor]].
  change 7 with (Z.ones 3) in Ha. rewrite Z.land_ones in Ha by lia. change (2 ^ 3) with 8 in Ha.
  assert (H8 : VIRT_OFFSET - 16 ≤ fp - 8 ∧ (fp - 8) `mod` 8 = 0) by (split; [lia|by rewrite Zminus_mod, Ha]).
  assert (H16 : VIRT_OFFSET - 16 ≤ fp - 16 ∧ (fp - 16) `mod` 8 = 0) by (split; [lia|by rewrite Zminus_mod, Ha]).
  destruct (mem (fp - 8)) as [ra|] eqn:Er; [|apply Hnone; [cbn; lia|by auto using Forall_nil_2, Forall_cons_2]].
  destruct (mem (fp - 16)) as [prev|] eqn:Ep; [|apply Hnone; [cbn; lia|by auto using Forall_nil_2, Forall_cons_2]].
  destruct (Z.eqb_spec ra 0) as [|Hra]; [apply Hnone; [cbn; lia|by auto using Forall_nil_2, Forall_cons_2]|].
  destruct (Z.leb_spec prev fp) as [|Hup].
  { split_and!; try done; [cbn; lia|cbn; lia|repeat constructor|apply Forall_cons_2; [cbn; split_and!; [lia|done|done]|apply Forall_nil_2]|by auto using Forall_nil_2, Forall_cons_2]. }
  specialize (IH prev). destruct (walk fuel mem prev) as [[l rs] t]. destruct IH as (I1 & I2 & I3 & I4 & I5 & I6). split_and!.
  - cbn. lia.
  - cbn. lia.
  - intros ->. cbn. by rewrite I3.
  - cbn. constructor; [done|]. apply Forall_fmap. eapply Forall_impl; [exact I5|]. cbn. lia.
  - constructor; [cbn; split_and!; [lia|done|done]|]. eapply Forall_impl; [exact I5|]. cbn. intros x (? & ? & ?). split_and!; [lia|done|done].
  - by auto using Forall_nil_2, Forall_cons_2.
Qed.

(** a backtrace is bounded on any memory, circular or corrupt chains
    included: at most 32 frames and 64 aligned reads, none more than two words
    below the kernel half; frame pointers strictly increase, every printed return
    address is the word below its frame pointer, and the walk reports truncation
    only after 32 frames. *)
Theorem backtrace_bounded mem fp : let '(l, rs, t) := backtrace mem fp in
  (length l ≤ 32)%nat ∧ (length rs ≤ 64)%nat ∧ (t = true → length l = 32%nat) ∧
  StronglySorted Z.lt l.*2 ∧ Forall (λ x, fp ≤ x.2 ∧ x.1 ≠ 0 ∧ mem (x.2 - 8) = Some x.1) l ∧
  Forall (λ a, VIRT_OFFSET - 16 ≤ a ∧ a `mod` 8 = 0) rs.
Proof. exact (walk_spec mem 32 fp). Qed.

(** The example kernel at time 0, with a deadline at 5. *)
Definition ticking : Kernel Frame.PhysMem chip := set_timer_state (mkTimer 0 5) demo_k.
Lemma tick_deadline_witness : ∃ s k', on_timer_tick (k_sched ticking) = Ret (tt, s) ∧ on_tick ticking = Ret (tt, k') ∧
  next_deadline (k_timer k') = 5 + interval.
Proof.
  destruct (on_timer_tick (k_sched ticking)) as [[[] s]|] eqn:Es; [|exfalso; revert Es; vm_compute; discriminate].
  destruct (tick_deadline ticking s 0 (Uart.dev (k_con ticking)) Es) as (k' & Hk & _ & _ & Hn & _);
    [reflexivity|vm_compute; reflexivity|vm_compute; reflexivity|].
  exists s, k'. split_and!; [done|exact Hk|]. apply Hn. vm_compute. reflexivity.
Defined.
