(* ===== verification/KernelBoot.v ===== *)
(** * From power-on to the first process (main.rs, mm/mod.rs, drivers/mod.rs)

    [kmain] brings the layers up in order: the console, the frames, the kernel's
    address space, traps, the interrupt controller, the timer, and [init].  The
    statics start with their initial values; lines printed to the console are
    left out, and so are the heap's test allocations between the frames and the
    address space.  [KERNEL_SPACE] is empty until [mm::init] fills it: what
    [k_space] holds before that is never read. *)
From stdpp Require Import base numbers gmap list.
From coqutil Require Import Byte.
From Stdlib Require Import Lia.
From S2P Require Import Prelude Memory Config Addr FrameIface BuddyInv BuddyAlloc BuddyInit FrameProps PageTable PageTableInv PageTableOps.
From S2P Require Import Space SpaceInv SpaceMap SpaceOps SpaceUser SpaceWrite SpaceProps KernelMap KernelSpace KernelSpaceProps.
From S2P Require Import Loader LoaderProps Device Trap Task Sched SchedProps Kernel Process ArgsProps ImageProps ProcessProps Syscall SyscallProps Boot.
From S2P Require Import UartProps KernelDemo.
From S2P Require Frame Uart.

(** ** Memory (mm/mod.rs, mm/frame.rs [init]) *)

Definition kernel_end_phys (img : Image) : outcome PhysAddr := virt_to_phys (im_end img).
(** The image starts with its code. *)
Definition kernel_image_size (img : Image) : outcome Z := im_end img -! (im_text img).1.

Definition mm_init (img : Image) : ST Frame.PhysMem (AddressSpace * Z) :=
  dram_end ← lift (DRAM_BASE +! DRAM_SIZE);
  start ← lift (kernel_end_phys img);
  Frame.init start dram_end;;
  init_image img.

(** The MMU maps what [kernel_regions] lists, and nothing else. *)
Definition maps_image (img : Image) (m : mem) (satp : Z) : Prop :=
  ∀ va, 0 ≤ va < U64 →
    hw_addr m satp va = (λ f, (va - VIRT_OFFSET, leaf_flags f)) <$> perm_at (kernel_regions img) va.

(** The frames under management stay what [init] made them. *)
Definition managed (s : Frame.PhysMem) : Z := Frame.frames (Frame.pm_buddy s).

Lemma keeps_modify f : (∀ b, Frame.frames (f b) = Frame.frames b) → keeps managed (Frame.modify f).
Proof. intros Hf s [] s' [= <-]. apply Hf. Qed.
Lemma keeps_self : keeps managed Frame.self.
Proof. by intros s b s' [= _ <-]. Qed.
Lemma keeps_load_word p : keeps managed (Frame.load p).
Proof. by intros s b s' [= _ <-]. Qed.
Lemma keeps_store_word p v : keeps managed (Frame.store p v).
Proof. by intros s [] s' [= <-]. Qed.
Lemma keeps_fill p b n : keeps managed (Frame.write_bytes p b n).
Proof. by intros s [] s' [= <-]. Qed.
#[local] Hint Resolve keeps_self keeps_load_word keeps_store_word keeps_fill : keeps.
#[local] Hint Extern 0 (keeps managed (Frame.modify _)) => apply keeps_modify; intros; reflexivity : keeps.
Lemma keeps_push_block order idx : keeps managed (Frame.push order idx).
Proof. unfold Frame.push, Frame.set_head, Frame.set_free, Frame.node. keep. Qed.
Lemma keeps_remove_block order idx : keeps managed (Frame.remove order idx).
Proof. unfold Frame.remove, Frame.set_head, Frame.set_free, Frame.node. keep. Qed.
Lemma keeps_is_free order idx : keeps managed (Frame.is_free order idx).
Proof. unfold Frame.is_free. keep. Qed.
#[local] Hint Resolve keeps_push_block keeps_remove_block keeps_is_free : keeps.
Lemma keeps_alloc_frames order : keeps managed (Frame.alloc_frames order).
Proof.
  assert (Hs : ∀ n order level idx, keeps managed (Frame.split_down n order level idx)).
  { induction n as [|n IH]; intros; cbn [Frame.split_down]; keep. }
  unfold Frame.alloc_frames, Frame.alloc. keep.
Qed.
Lemma keeps_free_frames p order : keeps managed (Frame.free_frames p order).
Proof.
  assert (Hm : ∀ n idx level, keeps managed (Frame.merge_up n idx level)).
  { induction n as [|n IH]; intros; cbn [Frame.merge_up]; keep. }
  unfold Frame.free_frames, Frame.free. keep.
Qed.

Lemma mm_init_spec img s : linked_image img → im_end img + 0x600000 ≤ DRAM_END + VIRT_OFFSET →
  wp (mm_init img) (λ '(sp, satp) s', satp = AS_token sp ∧ fa_inv s' ∧ pt_kernel (table sp) s' ∧
    maps_image img (fa_mem s') satp ∧
    (∀ q, fa_used s' q ↔ q ∈ table_pages (table sp)) ∧ Frame.allocated (Frame.pm_buddy s') ≤ 73 ∧
    let size := DRAM_END + VIRT_OFFSET - im_end img in 2048 * (size - 0x405000 - PAGE_SIZE * managed s') ≤ size) s.
Proof.
  intros Hl Htop. destruct (linked_image_pages img Hl) as (a & Ha & ->).
  assert (Hke : KERNEL_PHYS_BASE + VIRT_OFFSET ≤ im_end (page_image a)).
  { destruct Hl as (<- & _ & Hasc). cbn in Hasc |- *. lia. }
  unfold mm_init, kernel_end_phys. wp_step. eapply wp_lift; [by apply u64_add_ok|]. fold DRAM_END.
  wp_step. eapply wp_lift; [apply u64_sub_ok; unfold KERNEL_PHYS_BASE in *; lia|]. set (ke := im_end (page_image a)) in *.
  assert (Hd : DRAM_END = 0x88000000) by done. unfold KERNEL_PHYS_BASE in Hke.
  wp_step. eapply wp_mono; [|apply (init_spec (ke - VIRT_OFFSET) DRAM_END s); lia].
  cbv beta. intros _ s1 (fl & Hok & Hff & Hal & _ & Hly & _). pose proof Hly as [_ _ _ Htop1 Hlost1].
  assert (Hi1 : fa_inv s1) by (split; [by exists fl|apply Hly]).
  assert (Hav : 400 < fa_avail s1).
  { destruct Hly as [_ _ _ Ht Hlost]. cbn. rewrite Hal. unfold PAGE_SIZE in *. lia. }
  assert (Hnone : ∀ q, ¬ fa_used s1 q).
  { intros q [Hq Hfree]. apply (frame_free_false fl s1 _ (ok_linked _ _ Hok) Hq) in Hfree. by apply Hfree, Hff. }
  eapply wp_mono; [|apply wp_wlp_conj; [apply (init_image_spec a s1 Ha Hi1); by apply (Z.lt_trans _ 400)
    |apply (keeps_init_kernel_space managed); [done|apply keeps_alloc_frames|apply keeps_free_frames]]].
  intros [sp satp] s2 [(-> & Hb & Ht) Hmg]. pose proof Hb as [[role Hk] Hbud].
  split_and!; [done|apply Hk|exists role; apply Hk|intros va Hva; by apply (laid_out_kernel a kernel_paths (fa_avail s1) sp s2 va)| | |].
  - intros q. rewrite (tt_used _ _ _ Ht). pose proof (Hnone q). tauto.
  - pose proof (table_frames_bound 512 role (table sp) s2 kernel_paths (km_ok _ _ _ _ _ Hk) (km_path _ _ _ _ _ Hk)) as Ht73.
    change (length kernel_paths) with 73%nat in Ht73. unfold budget in Hbud. cbn [fa_avail buddy_frames] in Hbud. unfold managed in Hmg. lia.
  - rewrite Hmg. unfold managed, PAGE_SIZE in *. lia.
Qed.

(** ** Creating a process from an image *)
Section create.
Context {S D : Type} `{FrameAllocator S, !FrameAllocatorLaws S} `{Bus D} `{Firmware D}.
Implicit Types (k : Kernel S D).

(** The new task: the image, its arguments and the stack in a space of its own,
    a trap frame that starts it in user mode, and an intact kernel stack. *)
Record created (task_entry : Z) (nm image : list byte) (args : list (list byte)) k (p : Pid) k' : Prop := {
  cr_ok : kernel_ok k';
  cr_pid : p = next_pid (k_sched k);
  cr_frame : k' = set_mem (k_mem k') (set_boxes (k_boxes k') (set_sched (mkS (tasks (k_sched k')) (wrapping_add p 1)
    (run_queue (k_sched k)) (current (k_sched k)) (previous (k_sched k)) (all_tasks (k_sched k))) k));
  cr_task : ∃ sp ks ksp b f lbrk argv, let heap := Z.max lbrk USER_HEAP_BASE in
    tasks (k_sched k') = <[p := user_task task_entry nm ks ksp (mkUser (Some sp) (Some b) heap heap None [])]> (tasks (k_sched k)) ∧
    live (k_boxes k') = <[b := f]> (live (k_boxes k)) ∧ live (k_boxes k) !! b = None ∧
    tf_x f = start_regs argv (Z.of_nat (length args)) argv ∧ Z.land (tf_sstatus f) sstatus_bits.SPP = 0 ∧
    tf_kernel_sp f = ksp ∧ tf_kernel_satp f = AS_token (k_space k) ∧ stack_top ks = Ret ksp ∧
    image_in image args (tf_sepc f) lbrk argv sp (fa_mem (k_mem k')) ∧
    canary_intact (fa_mem (k_mem k')) ks = true ∧ space_ok (kernel_tables (k_space k)) sp (k_mem k') ∧
    (∀ q, fa_used (k_mem k') q ↔ fa_used (k_mem k) q ∨ q ∈ table_pages (table sp) ∨ q ∈ sp_ppns sp ∨ f_ppn ks ≤ q < f_ppn ks + 8);
  cr_pages q : fa_used (k_mem k) q → fa_used (k_mem k') q ∧ agree (page q) (fa_mem (k_mem k)) (fa_mem (k_mem k')) }.

Lemma create_install_spec task_entry nm image args sp loaded argv ks ksp s1 s2 k :
  kernel_ok k → 0 ≤ next_pid (k_sched k) < U64 - 1 → building (kernel_tables (k_space k)) (k_mem k) [] sp s1 →
  image_in image args (li_entry loaded) (li_brk loaded) argv sp (fa_mem s1) → new_stack s1 ks ksp s2 →
  wp (kernel_sp ← lift (stack_top ks);
      f ← image_frame (li_entry loaded) argv kernel_sp (Z.of_nat (length args)) argv;
      b ← box_new f;
      let brk := Z.max (li_brk loaded) USER_HEAP_BASE in
      p ← in_sched alloc_pid;
      in_sched (arc_new p (user_task task_entry nm ks kernel_sp (mkUser (Some sp) (Some b) brk brk None [])));;
      mret (Some p)) (λ r k', ∃ p, r = Some p ∧ created task_entry nm image args k p k') (set_mem s2 k).
Proof.
  intros Hk Hpid Hb Hi Hn. pose proof (building_ok _ _ _ _ Hb) as Hok. destruct Hb as [_ _ _ Hu Hfresh Ha].
  destruct Hn as [Hi2 [Htop _] Hcan Hu2 Hf2 Ha2]. wp_step. eapply wp_lift; [exact Htop|].
  wp_step. apply image_frame_spec. intros f Hx Hpc Hksp Hsat _ Hspp. unfold box_new, alloc_pid, arc_new. wp_steps.
  apply wp_in_sched. wp_steps. apply wp_in_sched. wp_steps. eexists. split; [done|].
  assert (Hs2 : ∀ q, fa_used (k_mem k) q → fa_used s2 q ∧ agree (page q) (fa_mem (k_mem k)) (fa_mem s2)).
  { intros q Hq. assert (fa_used s1 q) by (apply Hu; by left). split; [apply Hu2; by left|]. etransitivity; [by apply Ha|by apply Ha2]. }
  destruct (kernel_ok_mem k s2 Hk Hi2 Hs2) as [_ Hh Hbx Hps]. cbn in *.
  assert (Hnb : live (k_boxes k) !! next_box (k_boxes k) = None) by (apply eq_None_not_Some; intros ?%Hbx; lia).
  split; cbn; [|done|done| |done].
  - split; cbn; [done|done|intros a|intros q; unfold wrapping_add; rewrite Z.mod_small by (unfold U64 in *; lia)].
    + rewrite lookup_insert_is_Some. intros [<-|[_ ?%Hbx]]; lia.
    + rewrite lookup_insert_is_Some. intros [<-|[_ ?%Hps]]; lia.
  - exists sp, ks, ksp, (next_box (k_boxes k)), f, (li_brk loaded), argv. split_and!; try done.
    + rewrite Hpc. eapply image_in_ext; [|done]. intros a. apply umem_agree. intros q Hq. apply Ha2, Hu. by right; right.
    + apply (space_ok_stable _ sp s1 s2 Hok Hi2). intros q Hq. split; [apply Hu2; by left|by apply Ha2].
    + intros q. rewrite Hu2, Hu. tauto.
Qed.

Lemma new_user_spec task_entry nm image args k :
  kernel_ok k → 0 ≤ next_pid (k_sched k) < U64 - 1 → Z.of_nat (length image) < 2 ^ 63 → args_size args ≤ USER_STACK_SIZE →
  wp (new_user task_entry nm image args) (λ r k', match r with
    | Some p => created task_entry nm image args k p k'
    | None => k' = set_mem (k_mem k') k ∧ restored (k_mem k) (k_mem k')
    end) k.
Proof.
  intros Hk Hpid Hlen Hargs. unfold new_user. wp_step.
  eapply wp_mono; [|apply (build_image_spec image args k (ko_mem _ Hk) (ko_half _ Hk) Hlen Hargs)].
  intros [[[sp loaded] [[usp argc] argv]]|e] k1 [Hk1 Hb]; cbv beta iota; [|by apply wp_ret].
  destruct Hb as (-> & -> & Hb & Hi & _). revert Hk1 Hb Hi. generalize (k_mem k1). intros s1 -> Hb Hi.
  wp_step. apply wp_in_mem. cbn [k_mem set_mem]. pose proof (maps_inv _ _ _ _ (so_maps _ _ _ (building_ok _ _ _ _ Hb))) as Hi1.
  eapply wp_mono; [|by apply KernelStack_new_spec]. intros [ks|] s2; cbv beta iota.
  - intros [ksp Hn]. eapply wp_mono; [|by apply (create_install_spec task_entry nm image args sp loaded argv ks ksp s1 s2 k)].
    by intros r k' (p & -> & Hc).
  - intros ->. wp_step. apply wp_in_mem. cbn [k_mem set_mem]. eapply wp_mono; [|exact (building_drop _ _ _ _ _ Hb)].
    intros [] s3 Hr. by apply wp_ret.
Qed.
End create.

(** ** The rest of the machine *)
Section boot.
Context {D : Type} `{Bus D} `{Firmware D}.
Abbreviation Kst := (Kernel Frame.PhysMem D).
Abbreviation K := (ST Kst).

(** A well-formed image becomes a process when an eighth of the frames holds
    what is in use and what the image takes: then a block for the kernel stack
    is left. *)
Lemma keeps_build_image image args : keeps (λ k : Kst, managed (k_mem k)) (build_image image args).
Proof.
  assert (Hmem : ∀ {A} (m : ST Frame.PhysMem A), keeps managed m → keeps (λ k : Kst, managed (k_mem k)) (in_mem m)).
  { intros A m Hm k a k'. unfold in_mem. destruct (m (k_mem k)) as [[b s]|] eqn:E; [|done]. intros [= <- <-]. exact (Hm _ _ _ E). }
  pose proof keeps_alloc_frames as Ha. pose proof keeps_free_frames as Hf. assert (Hset : ∀ m s, managed (fa_set_mem m s) = managed s) by done.
  unfold build_image. keep; apply Hmem; first [by apply keeps_load|by apply keeps_map_user_stack|by apply keeps_space_drop|by apply keeps_push_args].
Qed.
Lemma new_user_completes task_entry nm image args h (k : Kst) : kernel_ok k → Z.of_nat (length image) < 2 ^ 63 → args_size args ≤ USER_STACK_SIZE →
  startable image h → 8 * (Frame.allocated (Frame.pm_buddy (k_mem k)) + image_frames image h + 1) ≤ managed (k_mem k) →
  wlp (new_user task_entry nm image args) (λ r _, r ≠ None) k.
Proof.
  intros Hk Hlen Hargs Hst Hroom. destruct (ko_mem _ Hk) as [[fl Hok] _]. pose proof (ok_alloc _ _ Hok). pose proof (ok_peak _ _ Hok).
  unfold new_user. apply wlp_bind, wp_wlp.
  eapply wp_mono; [|apply (wp_wlp_conj _ _ _ _ (build_image_full image args k (ko_mem _ Hk) (ko_half _ Hk) Hlen Hargs) (keeps_build_image image args k))].
  cbv beta. intros r k1 [(_ & Hb & Hav) Hmg]. specialize (Hav h Hst). cbn [fa_avail buddy_frames] in Hav. unfold managed in *.
  destruct r as [[[sp loaded] [[usp argc] argv]]|e]; [|lia]. destruct Hb as (_ & _ & Hb & _).
  pose proof (maps_inv _ _ _ _ (so_maps _ _ _ (building_ok _ _ _ _ Hb))) as Hi1.
  apply wlp_bind, wlp_in_mem. unfold KernelStack_new, frame_alloc. change (Frame.order_for _) with 3. apply wlp_bind, wlp_bind, wp_wlp.
  eapply wp_mono; [|apply (few_taken (k_mem k1) 3 Hi1)]; [|unfold Frame.MAX_ORDER; lia|change (2 ^ 3) with 8; lia].
  intros [q|] s2 Hq; [|done]. apply wlp_ret. cbn [fmap option_fmap option_map]. apply wlp_bind. intros [] s3 _. apply wlp_ret.
  apply wlp_bind, wlp_lift. intros ksp _. apply wlp_bind. intros f k2 _. apply wlp_bind. intros b k3 _. cbv zeta. apply wlp_bind. intros p k4 _.
  apply wlp_bind. intros [] k5 _. by apply wlp_ret.
Qed.

Definition set_space (sp : AddressSpace) (k : Kst) : Kst :=
  mkK (k_mem k) (k_con k) (k_sched k) (k_readers k) (k_boxes k) (k_hart k) (k_timer k) sp (k_pinned k).

(** [drivers::init_early] and [drivers::init_interrupts] *)
Definition init_early : K unit := in_con Uart.uart_init.
Definition init_interrupts (hart : Z) : K unit := plic_init hart.

(** [trap::init]; the layout it asserts is the one [Trap] and [Asm] share. *)
Definition trap_init : K unit := on_hart (set_vector kernel_trap_entry).
Definition enable_interrupts : K unit :=
  on_hart (set_sie (Z.lor (Z.lor int_bits.STIE int_bits.SEIE) int_bits.SSIE));;
  on_hart intr_enable.

(** [kmain] up to the first process. *)
Definition kmain_init (img : Image) (hart : Z) : K unit :=
  init_early;;
  '(sp, token) ← in_mem (mm_init img);
  activate token;;
  k ← get;
  put (set_space sp k);;
  trap_init;;
  init_interrupts hart;;
  timer_init;;
  enable_interrupts.

Definition kmain (img : Image) (hart : Z) (programs : list (list byte * list byte)) (task_entry : Z) : K unit :=
  kmain_init img hart;;
  start_init programs task_entry.

(** The statics before [kmain], on memory [m], a machine [d] and a hart [h]. *)
Definition power_on (m : mem) (d : D) (h : Hart) : Kst :=
  mkK (Frame.mkPM m Frame.empty)
    {| Uart.dev := d; Uart.rx_queue := Uart.RxRing_new; Uart.initialised := false; Uart.uart_ready := false |}
    boot_sched [] (mkBoxes ∅ 0) h (mkTimer 0 0) (mkAS (mkPT 0 []) []) [].

(** ** What holds once the machine is up *)
Record up (img : Image) (k : Kst) : Prop := {
  up_ok : kernel_ok k;
  up_sched : sched_ok (k_sched k);
  up_map : maps_image img (fa_mem (k_mem k)) (satp (k_hart k));
  up_satp : satp (k_hart k) = AS_token (k_space k);
  up_vector : stvec (k_hart k) = kernel_trap_entry;
  up_sie : Z.land (sie (k_hart k)) (Z.lor (Z.lor int_bits.STIE int_bits.SEIE) int_bits.SSIE) =
             Z.lor (Z.lor int_bits.STIE int_bits.SEIE) int_bits.SSIE;
  up_enabled : intr_enabled (k_hart k) = true;
  up_console : Uart.initialised (k_con k) = true ∧ Uart.uart_ready (k_con k) = true }.

(** The parts of the statics [kmain] leaves alone; it turns interrupts on. *)
Record fresh (h : Hart) (k : Kst) : Prop := {
  fr_readers : k_readers k = [];
  fr_boxes : k_boxes k = mkBoxes ∅ 0;
  fr_ring : Uart.rx_queue (k_con k) = Uart.RxRing_new;
  fr_hart : hart_id (k_hart k) = hart_id h;
  fr_sstatus : sstatus (k_hart k) = Z.lor (sstatus h) sstatus_bits.SIE }.

(** ** What the devices are told

    The serial port: interrupts off, divisor 3 behind the latch, 8-bit words,
    both FIFOs on and emptied, the modem lines up, the receive interrupt on. *)
Definition uart_setup : list (Z * Z) := [(1, 0); (3, 0x80); (0, 3); (1, 0); (3, 3); (2, 7); (4, 3); (1, 1)].
Definition uart_told (d : D) : D := foldl (λ d '(o, v), write_volatile (UART_BASE + o + VIRT_OFFSET) v d) d uart_setup.
(** The interrupt controller, on the supervisor context of the hart: threshold 0,
    priority 1 for the serial port's line, number 10, and its enable bit set. *)
Definition plic_told (hart : Z) (d : D) : D :=
  let reg o := PLIC_BASE + o + VIRT_OFFSET in
  let context := 2 * hart + 1 in
  let d := write_volatile (reg (0x200000 + context * 0x1000)) 0 d in
  let d := write_volatile (reg (4 * 10)) 1 d in
  let '(v, d) := read_volatile (reg (0x2000 + context * 0x80)) d in
  write_volatile (reg (0x2000 + context * 0x80)) (Z.lor v (2 ^ 10)) d.
(** The clock is read and the firmware asked for an interrupt one interval, 10
    ms, later: the deadline, and the machine then. *)
Definition timer_told (d : D) : Z * D :=
  let '(t, d) := rdtime d in
  (t + 100000, (ecall EID_TIME 0 (t + 100000) 0 0 d).2).
Definition devices_told (hart : Z) (d : D) : Z * D := timer_told (plic_told hart (uart_told d)).

(** The kernel with the machine moved on. *)
Definition set_device (d : D) (k : Kst) : Kst := set_con (Uart.set_dev d (k_con k)) k.
Lemma set_device_twice d1 d2 k : set_device d2 (set_device d1 k) = set_device d2 k.
Proof. by destruct k as [? [] ? ? ? ? ? ? ?]. Qed.

Lemma plic_reg_ok o : 0 ≤ o < 2 ^ 32 → plic_reg o = Ret (PLIC_BASE + o + VIRT_OFFSET).
Proof.
  intros Ho. unfold plic_reg. rewrite u64_add_ok by (unfold PLIC_BASE, U64; lia). cbn [mbind outcome_bind].
  by rewrite phys_to_virt_ok by (unfold PLIC_BASE; lia).
Qed.
Lemma wp_plic_write o v (Q : unit → Kst → Prop) k : 0 ≤ o < 2 ^ 32 →
  Q tt (set_device (write_volatile (PLIC_BASE + o + VIRT_OFFSET) v (Uart.dev (k_con k))) k) → wp (plic_write (Ret o) v) Q k.
Proof.
  intros Ho HQ. unfold plic_write. wp_step. eapply wp_lift; [done|]. wp_step. eapply wp_lift; [by apply plic_reg_ok|]. by wp_steps.
Qed.
Lemma wp_plic_read o (Q : Z → Kst → Prop) k : 0 ≤ o < 2 ^ 32 →
  (let '(v, d) := read_volatile (PLIC_BASE + o + VIRT_OFFSET) (Uart.dev (k_con k)) in Q v (set_device d k)) → wp (plic_read (Ret o)) Q k.
Proof.
  intros Ho HQ. unfold plic_read. wp_step. eapply wp_lift; [done|]. wp_step. eapply wp_lift; [by apply plic_reg_ok|]. wp_steps.
  destruct (read_volatile _ _) as [v d]. by wp_steps.
Qed.

Lemma context_reg_ok base hart stride : 0 ≤ hart < MAX_HARTS → 0 ≤ base < 2 ^ 24 → 0 ≤ stride ≤ 2 ^ 12 →
  context_reg base hart stride = Ret (base + (2 * hart + 1) * stride).
Proof.
  unfold MAX_HARTS. intros. unfold context_reg, context. rewrite u64_mul_ok by (unfold U64; lia). cbn [mbind outcome_bind].
  rewrite u64_add_ok by (unfold U64; lia). cbn [mbind outcome_bind]. rewrite u64_mul_ok by (unfold U64; nia).
  cbn [mbind outcome_bind]. by rewrite u64_add_ok by (unfold U64; nia).
Qed.

Lemma plic_init_spec hart (k : Kst) : 0 ≤ hart < MAX_HARTS →
  wp (plic_init hart) (λ _ k', k' = set_device (plic_told hart (Uart.dev (k_con k))) k) k.
Proof.
  intros Hh. unfold plic_init, set_threshold, plic_enable, enable_word, set_priority.
  rewrite !context_reg_ok by (done || lia). unfold MAX_HARTS in Hh. wp_step. apply wp_plic_write; [unfold off.THRESHOLD, off.CONTEXT_STRIDE; lia|].
  wp_step. change (n ← UART_IRQ *! 4; off.PRIORITY +! n) with (Ret 40). apply wp_plic_write; [lia|].
  cbn [mbind outcome_bind]. change (UART_IRQ `div` 32 *! 4) with (Ret 0). cbn [mbind outcome_bind].
  rewrite u64_add_ok by (unfold off.ENABLE, off.ENABLE_STRIDE, U64; lia). wp_step.
  apply wp_plic_read; [unfold off.ENABLE, off.ENABLE_STRIDE; lia|]. rewrite Z.add_0_r, set_device_twice. cbn [k_con set_device Uart.dev Uart.set_dev set_con].
  unfold plic_told. cbv zeta. change (4 * 10) with 40.
  change off.THRESHOLD with 0x200000. change off.CONTEXT_STRIDE with 0x1000. change off.ENABLE with 0x2000. change off.ENABLE_STRIDE with 0x80.
  destruct (read_volatile _ _) as [v d]. apply wp_plic_write; [lia|]. by rewrite !set_device_twice.
Qed.

Lemma uart_init_run (c : Uart.uart D) : ∃ c', Uart.uart_init (D := D) c = Ret (tt, c') ∧ Uart.dev c' = uart_told (Uart.dev c) ∧
  Uart.initialised c' = true ∧ Uart.uart_ready c' = true ∧ Uart.rx_queue c' = Uart.rx_queue c.
Proof. eexists. split; [reflexivity|done]. Qed.

(** The counter starts near zero: it does not reach the top of its range. *)
Context (Hclock : ∀ d : D, 0 ≤ (rdtime d).1 < 2 ^ 63).

Lemma timer_init_spec (k : Kst) : wp timer_init (λ _ k', let '(t, d) := timer_told (Uart.dev (k_con k)) in
  k' = set_timer_state (mkTimer (tm_ticks (k_timer k)) t) (set_device d k)) k.
Proof.
  unfold timer_init, read_time, set_deadline, set_timer, timer_told. wp_steps. pose proof (Hclock (Uart.dev (k_con k))) as Hc.
  destruct (rdtime (Uart.dev (k_con k))) as [t d] eqn:Hr. wp_steps. cbn in Hc. change interval with 100000.
  eapply wp_lift; [apply u64_add_ok; unfold U64; lia|]. wp_steps. cbn [k_con set_con Uart.dev Uart.set_dev set_timer_state].
  destruct (ecall _ _ _ _ _ _) as [r d']. wp_steps. by destruct k as [? [] ? ? ? ? ? ? ?].
Qed.

Lemma land_lor_absorb x m : Z.land (Z.lor x m) m = m.
Proof. apply Z.bits_inj'. intros n Hn. rewrite Z.land_spec, Z.lor_spec. by destruct (Z.testbit x n), (Z.testbit m n). Qed.

Lemma intr_enable_enabled h : intr_enabled (intr_enable h) = true.
Proof. unfold intr_enabled, intr_enable, csr_set. cbn. by rewrite land_lor_absorb. Qed.

Lemma kmain_init_spec img hart m d h :
  linked_image img → im_end img + 0x600000 ≤ DRAM_END + VIRT_OFFSET → 0 ≤ hart < MAX_HARTS →
  wp (kmain_init img hart) (λ _ k, up img k ∧ k_sched k = boot_sched ∧ fresh h k ∧
    (next_deadline (k_timer k), Uart.dev (k_con k)) = devices_told hart d ∧
    Frame.allocated (Frame.pm_buddy (k_mem k)) ≤ 73 ∧
    let size := DRAM_END + VIRT_OFFSET - im_end img in 2048 * (size - 0x405000 - PAGE_SIZE * managed (k_mem k)) ≤ size) (power_on m d h).
Proof.
  intros Hl Htop Hh. unfold kmain_init, init_early. wp_step. apply wp_in_con.
  destruct (uart_init_run (k_con (power_on m d h))) as (c & Hc & Hc0 & Hc1 & Hc2 & Hc3). eapply wp_of_run; [exact Hc|].
  wp_step. apply wp_in_mem. eapply wp_mono; [|by apply mm_init_spec]. intros [sp tok] s (-> & Hi & Hk & Hmap & _ & Hal & Hmg).
  unfold activate, on_hart, trap_init, init_interrupts. wp_steps. unfold on_hart. wp_steps.
  eapply wp_mono; [|by apply plic_init_spec]. intros [] k1 ->. wp_step. cbn [k_con set_con].
  eapply wp_mono; [|apply timer_init_spec]. cbn [k_con set_device set_con Uart.dev Uart.set_dev set_hart set_space set_mem]. rewrite Hc0.
  fold (devices_told hart (Uart.dev (k_con (power_on m d h)))). change (Uart.dev (k_con (power_on m d h))) with d.
  destruct (devices_told hart d) as [tm d2]. intros [] k2 ->.
  unfold enable_interrupts, on_hart. wp_steps. cbn [k_timer k_con k_mem k_sched set_hart set_timer_state set_device set_con set_space set_mem next_deadline].
  split; [|split_and!; [done|by split|done|done|done]].
  assert (Hsat : (activate_token (satp h) (AS_token sp)).1 = AS_token sp).
  { unfold activate_token. by destruct (Z.eqb_spec (satp h) (AS_token sp)). }
  split; cbn; try done.
  - split; cbn; [done|done|intros a; rewrite lookup_empty; by intros []..].
  - apply sched_ok_boot.
  - by rewrite Hsat.
  - unfold csr_set. apply land_lor_absorb.
  - apply intr_enable_enabled.
Qed.

(** The machine with its first process, waiting to be run. *)
Record first_process img (image : list byte) (task_entry : Z) (k : Kst) : Prop := {
  fp_up : up img k;
  fp_queue : levels (run_queue (k_sched k)) = [[1]; []; []] ∧ current (k_sched k) = None ∧ next_pid (k_sched k) = 2;
  fp_task : ∃ sp ks ksp b f lbrk argv, let heap := Z.max lbrk USER_HEAP_BASE in
    tasks (k_sched k) = {[1 := user_task task_entry init_name ks ksp (mkUser (Some sp) (Some b) heap heap None [])]} ∧
    process k 1 (user_task task_entry init_name ks ksp (mkUser (Some sp) (Some b) heap heap None [])) sp ksp ∧
    live (k_boxes k) !! b = Some f ∧ tf_x f = start_regs argv 1 argv ∧ Z.land (tf_sstatus f) sstatus_bits.SPP = 0 ∧
    tf_kernel_satp f = satp (k_hart k) ∧ tf_kernel_sp f = ksp ∧
    image_in image [init_name] (tf_sepc f) lbrk argv sp (fa_mem (k_mem k)) }.

(** A larger set of frames in use leaves the kernel's mapping as it is. *)
Lemma maps_image_stable img pt (s s' : Frame.PhysMem) : pt_kernel pt s →
  (∀ q, fa_used s q → fa_used s' q ∧ agree (page q) (fa_mem s) (fa_mem s')) →
  maps_image img (fa_mem s) (token pt) → maps_image img (fa_mem s') (token pt).
Proof.
  intros [role Hok] Hst Hm va Hva. rewrite <- (Hm va Hva). unfold hw_addr.
  pose proof (proj2 (pt_root _ _ _ _ Hok _) eq_refl) as Hroot. pose proof (proj1 (pt_page _ _ _ _ _ _ Hok Hroot)) as Hr.
  destruct (token_root pt) as [_ ->]; [lia|]. destruct (indices_ok (vpn va)) as [Hix Hl].
  unfold hw_page. rewrite (hw_stable 512 role pt s (fa_mem s')); [done|done| |done|done].
  intros q pa Hq. by eapply Hst, pt_used.
Qed.

(** Admitting the first task to the empty queue. *)
Lemma admit_first t : sched t = SchedInfo_new →
  ∃ s, admit_task 1 (mkS {[1 := t]} 2 RunQueue_new None None []) = Ret (tt, s) ∧ sched_ok s ∧
    levels (run_queue s) = [[1]; []; []] ∧ current s = None ∧ next_pid s = 2 ∧ tasks s = {[1 := t]}.
Proof.
  intros Ht.
  assert (H1 : sched_ok (mkS {[1 := t]} 2 RunQueue_new None None [])).
  { refine (proj1 (wp_ret_inv _ _ boot_sched 1 _ _ (arc_new_ok boot_sched t sched_ok_boot Ht _))); [reflexivity|done]. }
  eexists. split; [reflexivity|]. split; [|done].
  refine (wp_ret_inv _ (λ _, sched_ok) _ tt _ _ (admit_ok _ 1 H1 _ _ _)); [reflexivity|done| |cbn; apply not_elem_of_nil].
  exists t. apply lookup_singleton_eq.
Qed.

Lemma first_process_spec img image task_entry k k1 : up img k → k_sched k = boot_sched →
  created task_entry init_name image [init_name] k 1 k1 →
  wp (in_sched (admit_task 1)) (λ _, first_process img image task_entry) k1.
Proof.
  intros Hup Hs [Hok _ Hf Ht Hpg]. rewrite Hs in *. destruct Ht as (sp & ks & ksp & b & f & lbrk & argv & Ht & Hb & _ & Hx & Hspp & Hksp & Hsat & Htop & Him & _ & Hsp & _).
  set (t := user_task _ _ _ _ _) in *. destruct (admit_first t eq_refl) as (s & Ha & Hso & Hlv & Hcur & Hnp & Hts).
  assert (Hs1 : k_sched k1 = mkS {[1 := t]} 2 RunQueue_new None None []) by (rewrite Hf; cbn; by rewrite Ht).
  apply wp_in_sched. rewrite Hs1. eapply wp_of_run; [exact Ha|]. destruct Hok as [O1 O2 O3 _]. destruct Hup as [U1 U2 U3 U4 U5 U6 U7 U8].
  rewrite Hf. cbn. split; cbn.
  - split; cbn; try done.
    + split; cbn; [done|rewrite Hf in O2; exact O2|rewrite Hf in O3; exact O3|intros q; rewrite Hts, Hnp].
      intros [x [<- _]%lookup_singleton_Some]. lia.
    + rewrite U4 in *. by apply (maps_image_stable img (table (k_space k)) (k_mem k)); [apply (ko_half _ U1)|..].
  - done.
  - exists sp, ks, ksp, b, f, lbrk, argv. split_and!; try done.
    + split; cbn; [rewrite Hts; apply lookup_singleton_eq|done|done| |done]. exists b. split; [done|]. rewrite Hb, lookup_insert_eq. by eexists.
    + rewrite Hb. apply lookup_insert_eq.
    + by rewrite Hsat, U4.
Qed.

Lemma start_init_run programs task_entry (k : Kst) :
  start_init programs task_entry k =
    match find_program programs init_name with
    | None => Panic
    | Some image =>
        match new_user task_entry init_name image [init_name] k with
        | Ret (Some p, k1) => in_sched (admit_task p) k1
        | _ => Panic
        end
    end.
Proof.
  unfold start_init, mbind, ST_bind, lift. destruct (find_program programs init_name) as [image|]; [|done]. cbn [expect].
  by destruct (new_user _ _ _ _ k) as [[[p|] k1]|].
Qed.

End boot.

(** ** A boot of the demonstration image *)
Definition demo_hart : Hart := mkHart 0 0 kernel_trap_entry 0 0 0.
Definition demo_power_on : Kernel Frame.PhysMem chip :=
  power_on (λ _, x00) (Uart.dev (chip_uart [] Uart.RxRing_new)) demo_hart.

(** The demonstration image as an [init]. *)
Lemma demo_startable : ∃ eh, startable demo_image eh ∧ im_end demo_link + 0x700000 + 0x9000 * image_frames demo_image eh ≤ DRAM_END + VIRT_OFFSET.
Proof.
  pose (eh := mkEhdr 0x10000 64 56 1). exists eh.
  assert (Hh : read_header demo_image = Ret (Ok eh)) by (vm_compute; reflexivity).
  destruct (header demo_image eh 0) as [[[seg|]|e]|] eqn:E0; [|vm_compute in E0; discriminate E0..].
  assert (Hlo : seg_hi seg = 0x12000) by (vm_compute in E0; injection E0 as <-; vm_compute; reflexivity).
  assert (Hone : ∀ j, 0 ≤ j < e_phnum eh → j = 0) by (cbn; lia).
  split; [split; [exact Hh|split; [split|]]|].
  - intros j ->%Hone. by eexists.
  - intros i j s s' a Hi Hj. cbn in Hj. lia.
  - exists 0, seg. split; [cbn; lia|exact E0].
  - intros j s ->%Hone Hs. rewrite E0 in Hs. injection Hs as <-. rewrite Hlo. done.
  - vm_compute. discriminate.
Qed.

