(* ===== verification/Format.v ===== *)
(** * Formatted output

    What core::fmt makes of the format strings of the kernel, and the texts built
    with it: the [Debug] and [Display] implementations (mm/addr.rs, mm/frame.rs,
    mm/page_table.rs, mm/space.rs, task/mod.rs, trap/context.rs), the lines of [ps]
    (task/scheduler.rs), of a backtrace (backtrace.rs) and of the banner (main.rs).
    Proved: numbers read back, permission letters are the bits, and a register
    dump determines the registers. *)
From stdpp Require Import base numbers list strings.
From Stdlib Require Import Lia Ascii.
From coqutil Require Import Byte.
From S2P Require Import Prelude Memory Config Addr PageTable Space Trap Task Sched.
From S2P Require Frame.

#[local] Open Scope string_scope.
#[local] Open Scope list_scope.
#[local] Open Scope Z_scope.

(** ** Numbers *)
Definition digit (d : Z) : ascii := ascii_of_nat (Z.to_nat (if d <? 10 then 48 + d else 87 + d)).
Fixpoint digits_go (fuel : nat) (base n : Z) (acc : string) : string :=
  match fuel with
  | O => acc
  | S fuel => if n =? 0 then acc else digits_go fuel base (n `div` base) (String (digit (n `mod` base)) acc)
  end.
(** The digits of a 64-bit word in a base of at least two. *)
Definition digits (base n : Z) : string := if n =? 0 then "0" else digits_go 64 base n "".

Fixpoint fill (n : nat) (c : ascii) (s : string) : string := match n with O => s | S n => String c (fill n c s) end.
(** Width counts characters: bytes that do not continue one. *)
Definition continues (c : ascii) : bool := let n := nat_of_ascii c in (128 <=? n)%nat && (n <? 192)%nat.
Fixpoint char_count (s : string) : nat :=
  match s with EmptyString => O | String c s => if continues c then char_count s else S (char_count s) end.
(** [{:>w}] and [{:<w}] *)
Definition align_right (w : nat) (s : string) : string := fill (w - char_count s) " " s.
Definition align_left (w : nat) (s : string) : string := s +:+ fill (w - char_count s) " " "".
(** [{}], [{:#x}] and [{:#018x}] of an unsigned word *)
Definition dec (n : Z) : string := digits 10 n.
Definition hex (n : Z) : string := "0x" +:+ digits 16 n.
Definition hex18 (n : Z) : string := let s := digits 16 n in "0x" +:+ fill (16 - String.length s) "0" s.

Definition newline : string := String (ascii_of_nat 10) "".
Definition line (s : string) : string := s +:+ newline.
Fixpoint lines (l : list string) : string := match l with [] => "" | s :: l => line s +:+ lines l end.

(** A name is a byte string. *)
Definition chars (l : list byte) : string := foldr (λ b s, String (ascii_of_nat (Z.to_nat (byte.unsigned b))) s) "" l.
Fixpoint bytes (s : string) : list Z := match s with EmptyString => [] | String c s => Z.of_nat (nat_of_ascii c) :: bytes s end.

(** ** Addresses (mm/addr.rs) *)
Definition PhysAddr_debug (a : PhysAddr) : string := "PA(" +:+ hex a +:+ ")".
Definition VirtAddr_debug (a : VirtAddr) : string := "VA(" +:+ hex a +:+ ")".
Definition PhysPageNum_debug (p : PhysPageNum) : string := "PPN(" +:+ hex p +:+ ")".
Definition VirtPageNum_debug (p : VirtPageNum) : string := "VPN(" +:+ hex p +:+ ")".
Definition PhysAddr_display (a : PhysAddr) : string := hex18 a.
Definition VirtAddr_display (a : VirtAddr) : string := hex18 a.

(** ** Memory (mm/frame.rs, mm/page_table.rs, mm/space.rs) *)
Definition BuddyAllocator_debug (b : Frame.BuddyAllocator) : string :=
  "BuddyAllocator { " +:+ dec (Frame.allocated b) +:+ "/" +:+ dec (Frame.frames b) +:+ " frames used, peak " +:+ dec (Frame.peak b) +:+ " }".

Definition flag_letters : list (PteFlags * ascii) :=
  [(Flags.VALID, "V"%char); (Flags.READ, "R"%char); (Flags.WRITE, "W"%char); (Flags.EXEC, "X"%char); (Flags.USER, "U"%char);
   (Flags.GLOBAL, "G"%char); (Flags.ACCESSED, "A"%char); (Flags.DIRTY, "D"%char); (Flags.COW, "C"%char); (Flags.LAZY, "L"%char)].
Definition PteFlags_debug (f : PteFlags) : string :=
  foldr (λ '(bit, ch) s, String (if contains f bit then ch else "-"%char) s) "" flag_letters.
Definition Pte_debug (e : Pte) : string := "Pte(" +:+ PteFlags_debug (Pte_flags e) +:+ " -> " +:+ PhysPageNum_debug (Pte_ppn e) +:+ ")".
Definition PageTable_debug (t : PageTable) : string :=
  "PageTable { root: " +:+ PhysPageNum_debug (root t) +:+ ", " +:+ dec (table_frames t) +:+ " frames }".
Definition AddressSpace_debug (sp : AddressSpace) : string :=
  "AddressSpace { " +:+ dec (Z.of_nat (length (regions sp))) +:+ " regions, " +:+ PageTable_debug (table sp) +:+ " }".

(** ** Traps (trap/mod.rs, trap/context.rs) *)
Definition FaultKind_debug (k : FaultKind) : string := match k with Fetch => "Fetch" | Load => "Load" | Store => "Store" end.
Definition Cause_debug (c : Cause) : string :=
  match c with
  | SoftwareInterrupt => "SoftwareInterrupt"
  | TimerInterrupt => "TimerInterrupt"
  | ExternalInterrupt => "ExternalInterrupt"
  | UserEcall => "UserEcall"
  | PageFault k => "PageFault(" +:+ FaultKind_debug k +:+ ")"
  | IllegalInstruction => "IllegalInstruction"
  | Breakpoint => "Breakpoint"
  | AccessFault k => "AccessFault(" +:+ FaultKind_debug k +:+ ")"
  | Unknown n => "Unknown(" +:+ dec n +:+ ")"
  end.

Definition NAMES : list string :=
  ["zero"; "ra"; "sp"; "gp"; "tp"; "t0"; "t1"; "t2"; "s0"; "s1"; "a0"; "a1"; "a2"; "a3";
   "a4"; "a5"; "a6"; "a7"; "s2"; "s3"; "s4"; "s5"; "s6"; "s7"; "s8"; "s9"; "s10"; "s11";
   "t3"; "t4"; "t5"; "t6"].
(** [slice::chunks] *)
Fixpoint chunks_go {A} (fuel n : nat) (l : list A) : list (list A) :=
  match fuel, l with S fuel, _ :: _ => take n l :: chunks_go fuel n (drop n l) | _, _ => [] end.
Definition chunks {A} (n : nat) (l : list A) : list (list A) := chunks_go (length l) n l.
Definition reg_field (f : TrapFrame) (i : nat) : outcome string :=
  nm ← expect (NAMES !! i);
  v ← arr_get (tf_x f) (Z.of_nat i);
  Ret (" " +:+ align_right 4 nm +:+ " " +:+ hex18 v).
Fixpoint reg_fields (f : TrapFrame) (l : list nat) : outcome string :=
  match l with [] => Ret "" | i :: l => s ← reg_field f i; r ← reg_fields f l; Ret (s +:+ r) end.
Fixpoint reg_rows (f : TrapFrame) (rows : list (list nat)) : outcome string :=
  match rows with [] => Ret "" | row :: rows => s ← reg_fields f row; r ← reg_rows f rows; Ret (line (" " +:+ s) +:+ r) end.
Definition TrapFrame_debug (f : TrapFrame) : outcome string :=
  rows ← reg_rows f (chunks 4 (seq 1 31));
  Ret (line "TrapFrame {" +:+ line ("  sepc    " +:+ hex18 (tf_sepc f)) +:+ line ("  sstatus " +:+ hex18 (tf_sstatus f)) +:+ rows +:+ "}").

Definition note_text (n : note) : string :=
  match n with
  | null_dereference => "null dereference"
  | user_address => "user address touched from the kernel without a checked copy"
  | non_canonical => "non-canonical address: bits 63:39 do not replicate bit 38"
  | kernel_address => "kernel address, but the mapping does not permit this access"
  end.

(** ** Tasks (task/mod.rs, task/scheduler.rs [dump_tasks]) *)
Definition Pid_display (p : Pid) : string := dec p.
Definition TaskState_debug (st : TaskState) : string :=
  match st with Ready => "Ready" | Running => "Running" | Blocked => "Blocked" | Zombie => "Zombie" end.
Definition ps_header : string :=
  line (align_right 5 "PID" +:+ "  " +:+ align_right 5 "PPID" +:+ "  " +:+ align_left 10 "NAME" +:+ "  " +:+ align_left 9 "STATE" +:+ "  " +:+ align_right 3 "LVL" +:+ "  " +:+ "KSTACK").
Definition ps_line (nm : list byte) (row : Pid * Pid * TaskState * Z * Z) : string :=
  let '(pid, ppid, st, level, headroom) := row in
  line (align_right 5 (dec pid) +:+ "  " +:+ align_right 5 (dec ppid) +:+ "  " +:+ align_left 10 (chars nm) +:+ "  " +:+ align_left 9 (TaskState_debug st) +:+ "  " +:+
        align_right 3 (dec level) +:+ "  " +:+ dec headroom +:+ " B free").

(** ** Backtraces (backtrace.rs) and the banner (main.rs) *)
Definition frame_line (i ra fp : Z) : string := line ("  #" +:+ align_left 2 (dec i) +:+ " ra=" +:+ hex18 ra +:+ " fp=" +:+ hex18 fp).

Definition banner (hart_id dtb : Z) : string :=
  lines ["";
         "   _    _           ___  ____";
         "  / \  | | _____  __/ _ \/ ___|";
         " / _ \ | |/ _ \ \/ / | | \___ \";
         "/ ___ \| |  __/>  <| |_| |___) |";
         "\_/  \_\_|\___/_/\_\\___/|____/";
         "";
         "  riscv64 · sv39 · stable rust";
         "  boot hart " +:+ dec hart_id +:+ " · dtb " +:+ hex dtb;
         ""].

(** ** Strings *)
Lemma Ret_eq {A} (x y : A) : Ret x = Ret y → x = y.
Proof. congruence. Qed.
Lemma text_assoc (s t u : string) : (s +:+ t) +:+ u = s +:+ t +:+ u.
Proof. induction s as [|c s IH]; [done|]. exact (f_equal (String c) IH). Qed.
Lemma text_length (s t : string) : String.length (s +:+ t) = (String.length s + String.length t)%nat.
Proof. induction s as [|c s IH]; [done|]. exact (f_equal S IH). Qed.
(** Columns of equal width can be told apart. *)
Lemma text_split (s t s' t' : string) : String.length s = String.length s' → s +:+ t = s' +:+ t' → s = s' ∧ t = t'.
Proof.
  revert s'. induction s as [|c s IH]; intros [|c' s']; cbn; try done. intros [= Hl] [= -> He]. by destruct (IH s' Hl He) as [-> ->].
Qed.
Lemma fill_length n c s : String.length (fill n c s) = (n + String.length s)%nat.
Proof. induction n as [|n IH]; cbn; [done|by rewrite IH]. Qed.

(** ** Reading back *)
Definition digit_value (c : ascii) : Z := let n := Z.of_nat (nat_of_ascii c) in if n <? 58 then n - 48 else n - 87.
Fixpoint value (base acc : Z) (s : string) : Z :=
  match s with EmptyString => acc | String c s => value base (acc * base + digit_value c) s end.

Lemma digit_value_digit d : 0 ≤ d < 16 → digit_value (digit d) = d.
Proof. intros Hd. assert (Hf : Forall (λ d, digit_value (digit d) = d) (seqZ 0 16)) by (repeat constructor). apply (proj1 (Forall_forall _ _) Hf), elem_of_seqZ. lia. Qed.
Lemma value_app base s : ∀ acc t, value base acc (s +:+ t) = value base (value base acc s) t.
Proof. induction s as [|c s IH]; intros acc t; cbn; [done|apply IH]. Qed.

(** With [k] digits to spare the loop produces all of them. *)
Lemma digits_go_value base : 2 ≤ base ≤ 16 → ∀ fuel n acc, 0 ≤ n < 2 ^ Z.of_nat fuel →
  ∃ s, digits_go fuel base n acc = s +:+ acc ∧ ∀ v, value base v s = v * base ^ Z.of_nat (String.length s) + n.
Proof.
  intros Hb. induction fuel as [|fuel IH]; intros n acc Hn; cbn [digits_go].
  { exists "". split; [done|]. intros v. cbn in *. lia. }
  destruct (Z.eqb_spec n 0) as [->|Hne]; [exists ""; split; [done|intros v; cbn; lia]|].
  destruct (IH (n `div` base) (String (digit (n `mod` base)) acc)) as (s & -> & Hs).
  { rewrite Nat2Z.inj_succ, Z.pow_succ_r in Hn by lia. split; [apply Z.div_pos; lia|apply Z.div_lt_upper_bound; nia]. }
  exists (s +:+ String (digit (n `mod` base)) ""). split; [by rewrite text_assoc|]. intros v.
  pose proof (Z.mod_pos_bound n base ltac:(lia)). rewrite value_app, Hs. cbn [value].
  rewrite digit_value_digit by lia. rewrite text_length. cbn. rewrite Nat2Z.inj_add, Z.pow_add_r by lia.
  change (base ^ Z.of_nat 1) with (base ^ 1). rewrite Z.pow_1_r. pose proof (Z.div_mod n base ltac:(lia)).
  rewrite Z.mul_add_distr_r, <- Z.mul_assoc. lia.
Qed.
Lemma digits_value base n : 2 ≤ base ≤ 16 → 0 ≤ n < U64 → value base 0 (digits base n) = n.
Proof.
  intros Hb Hn. unfold digits. destruct (Z.eqb_spec n 0) as [->|]; [done|].
  destruct (digits_go_value base Hb 64 n "") as (s & -> & Hs); [done|]. rewrite value_app, Hs. cbn. lia.
Qed.

(** The digits are no more than the word needs. *)
Lemma digits_go_length base k : 2 ≤ base → ∀ fuel n acc, 0 ≤ n < base ^ Z.of_nat k →
  (String.length (digits_go fuel base n acc) ≤ k + String.length acc)%nat.
Proof.
  intros Hb. induction k as [|k IH]; intros [|fuel] n acc Hn; cbn [digits_go]; try lia.
  - destruct (Z.eqb_spec n 0); [lia|cbn in Hn; lia].
  - destruct (Z.eqb_spec n 0); [lia|]. etransitivity; [apply IH|cbn; lia].
    rewrite Nat2Z.inj_succ, Z.pow_succ_r in Hn by lia. split; [apply Z.div_pos; lia|apply Z.div_lt_upper_bound; lia].
Qed.
Lemma hex18_length n : 0 ≤ n < U64 → String.length (hex18 n) = 18%nat.
Proof.
  intros Hn. unfold hex18. rewrite text_length, fill_length. change (String.length "0x") with 2%nat.
  assert (String.length (digits 16 n) ≤ 16)%nat; [|lia]. unfold digits. destruct (n =? 0); [cbn; lia|]. rewrite <- (Nat.add_0_r 16). exact (digits_go_length 16 16 ltac:(lia) 64 n "" Hn).
Qed.
Lemma value_fill base n s : value base 0 (fill n "0" s) = value base 0 s.
Proof. induction n as [|n IH]; [done|]. cbn. exact IH. Qed.
Lemma hex18_value n : 0 ≤ n < U64 → ∃ s, hex18 n = "0x" +:+ s ∧ value 16 0 s = n.
Proof. intros Hn. eexists. split; [reflexivity|]. rewrite value_fill. by apply digits_value. Qed.
Lemma hex18_inj n m : 0 ≤ n < U64 → 0 ≤ m < U64 → hex18 n = hex18 m → n = m.
Proof.
  intros Hn Hm He. destruct (hex18_value n Hn) as (s & Es & Vs), (hex18_value m Hm) as (t & Et & Vt). rewrite Es, Et in He.
  apply text_split in He as [_ ->]; [congruence|done].
Qed.
Lemma dec_inj n m : 0 ≤ n < U64 → 0 ≤ m < U64 → dec n = dec m → n = m.
Proof. intros Hn Hm He. rewrite <- (digits_value 10 n), <- (digits_value 10 m) by lia. by f_equal. Qed.

(** ** Permissions *)
Lemma contains_testbit f i : 0 ≤ i → contains f (2 ^ i) = Z.testbit f i.
Proof.
  intros Hi. unfold contains. destruct (Z.testbit f i) eqn:E.
  - apply Z.eqb_eq, Z.bits_inj'. intros n Hn. rewrite Z.land_spec, Z.pow2_bits_eqb by done. destruct (Z.eqb_spec i n) as [->|]; [by rewrite E|by rewrite andb_false_r].
  - apply Z.eqb_neq. intros He. apply (f_equal (λ x, Z.testbit x i)) in He. rewrite Z.land_spec, Z.pow2_bits_true, E in He by done. done.
Qed.
Lemma letter_inj (c : ascii) (a b : bool) : c ≠ "-"%char → (if a then c else "-"%char) = (if b then c else "-"%char) → a = b.
Proof. intros Hc. destruct a, b; congruence. Qed.
Lemma flags_debug_bits f g : PteFlags_debug f = PteFlags_debug g ↔ ∀ i, 0 ≤ i < 10 → Z.testbit f i = Z.testbit g i.
Proof.
  unfold PteFlags_debug, flag_letters. cbn [foldr].
  change Flags.VALID with (2 ^ 0); change Flags.READ with (2 ^ 1); change Flags.WRITE with (2 ^ 2); change Flags.EXEC with (2 ^ 3); change Flags.USER with (2 ^ 4);
    change Flags.GLOBAL with (2 ^ 5); change Flags.ACCESSED with (2 ^ 6); change Flags.DIRTY with (2 ^ 7); change Flags.COW with (2 ^ 8); change Flags.LAZY with (2 ^ 9).
  rewrite !contains_testbit by lia. split.
  - intros He i Hi. injection He as H0 H1 H2 H3 H4 H5 H6 H7 H8 H9.
    assert (i = 0 ∨ i = 1 ∨ i = 2 ∨ i = 3 ∨ i = 4 ∨ i = 5 ∨ i = 6 ∨ i = 7 ∨ i = 8 ∨ i = 9) as Hc by lia.
    repeat (destruct Hc as [->|Hc]); [..|subst i]; by eapply letter_inj; [..|eassumption].
  - intros Hb. by rewrite !Hb by lia.
Qed.

(** ** Register dumps *)
Definition frame_words (f : TrapFrame) : Prop := length (tf_x f) = 32%nat ∧ Forall (λ v, 0 ≤ v < U64) (tf_x f) ∧ 0 ≤ tf_sepc f < U64 ∧ 0 ≤ tf_sstatus f < U64.

Definition reg_text (f : TrapFrame) (i : nat) : string := " " +:+ align_right 4 (NAMES !!! i) +:+ " " +:+ hex18 (tf_x f !!! i).
Lemma reg_field_run f i : frame_words f → (i < 32)%nat → reg_field f i = Ret (reg_text f i).
Proof.
  intros (Hl & _) Hi. unfold reg_field, reg_text, arr_get. destruct (Z.ltb_spec (Z.of_nat i) 0); [lia|]. rewrite Nat2Z.id.
  rewrite (list_lookup_lookup_total_lt NAMES i) by (cbn; lia). rewrite (list_lookup_lookup_total_lt (tf_x f) i) by lia. done.
Qed.
Lemma reg_fields_run f l : frame_words f → Forall (λ i, (i < 32)%nat) l → reg_fields f l = Ret (foldr (λ i s, reg_text f i +:+ s) "" l).
Proof. intros Hf. induction 1 as [|i l Hi _ IH]; [done|]. cbn. rewrite (reg_field_run f i Hf Hi). cbn. by rewrite IH. Qed.
Lemma reg_rows_run f rows : frame_words f → Forall (Forall (λ i, (i < 32)%nat)) rows →
  reg_rows f rows = Ret (foldr (λ row s, line (" " +:+ foldr (λ i s, reg_text f i +:+ s) "" row) +:+ s) "" rows).
Proof. intros Hf. induction 1 as [|row rows Hr _ IH]; [done|]. cbn [reg_rows foldr]. rewrite (reg_fields_run f row Hf Hr). cbn [mbind outcome_bind]. by rewrite IH. Qed.

Definition fields_text (f : TrapFrame) (l : list nat) : string := foldr (λ i s, reg_text f i +:+ s) "" l.
Definition rows_text (f : TrapFrame) (rows : list (list nat)) : string := foldr (λ row s, line (" " +:+ fields_text f row) +:+ s) "" rows.

Lemma frame_reg f i : frame_words f → (i < 32)%nat → 0 ≤ tf_x f !!! i < U64.
Proof. intros (Hl & Hf & _) Hi. apply (Forall_lookup_total_1 _ _ _ Hf). lia. Qed.
Section dumps.
Context (f g : TrapFrame) (Hf : frame_words f) (Hg : frame_words g).
Abbreviation same i := (tf_x f !!! i = tf_x g !!! i).

Lemma reg_text_inj i t t' : (i < 32)%nat → reg_text f i +:+ t = reg_text g i +:+ t' → same i ∧ t = t'.
Proof.
  intros Hi. pose proof (frame_reg f i Hf Hi). pose proof (frame_reg g i Hg Hi). unfold reg_text. rewrite !text_assoc.
  intros [_ He]%text_split; [|done]. apply text_split in He as [_ He]; [|done]. apply text_split in He as [_ He]; [|done].
  apply text_split in He as [He ->]; [|by rewrite !hex18_length]. by apply hex18_inj in He.
Qed.
Lemma fields_text_inj l : Forall (λ i, (i < 32)%nat) l → ∀ t t', fields_text f l +:+ t = fields_text g l +:+ t' → Forall (λ i, same i) l ∧ t = t'.
Proof.
  induction 1 as [|i l Hi _ IH]; intros t t'; [done|]. cbn [fields_text foldr]. rewrite !text_assoc. intros [Hs He]%reg_text_inj; [|done].
  apply IH in He as [Hl ->]. split; [by constructor|done].
Qed.
Lemma rows_text_inj rows : Forall (Forall (λ i, (i < 32)%nat)) rows → ∀ t t', rows_text f rows +:+ t = rows_text g rows +:+ t' →
  Forall (Forall (λ i, same i)) rows ∧ t = t'.
Proof.
  induction 1 as [|row rows Hr _ IH]; intros t t'; [done|]. cbn [rows_text foldr]. unfold line. rewrite !text_assoc.
  intros [_ He]%text_split; [|done]. apply fields_text_inj in He as [Hs He]; [|done]. apply text_split in He as [_ He]; [|done].
  apply IH in He as [Hl ->]. split; [by constructor|done].
Qed.
End dumps.

Lemma dump_rows_small : Forall (Forall (λ i, (i < 32)%nat)) (chunks 4 (seq 1 31)).
Proof. cbn. repeat (apply Forall_cons_2 || apply Forall_nil_2 || lia). Qed.
Lemma dump_run f : frame_words f → TrapFrame_debug f =
  Ret (line "TrapFrame {" +:+ line ("  sepc    " +:+ hex18 (tf_sepc f)) +:+ line ("  sstatus " +:+ hex18 (tf_sstatus f)) +:+ rows_text f (chunks 4 (seq 1 31)) +:+ "}").
Proof. intros Hf. unfold TrapFrame_debug. by rewrite (reg_rows_run f _ Hf dump_rows_small). Qed.

(** A register dump says it all.  Printing a trap frame never fails, and the
    text determines the saved program counter, the status word and the registers
    [x1] to [x31]: two frames that print alike hold the same machine state. *)
Theorem dump_determines f g : frame_words f → frame_words g →
  ∃ s, TrapFrame_debug f = Ret s ∧ (TrapFrame_debug g = Ret s →
    tf_sepc g = tf_sepc f ∧ tf_sstatus g = tf_sstatus f ∧ ∀ i, (1 ≤ i < 32)%nat → tf_x g !!! i = tf_x f !!! i).
Proof.
  intros Hf Hg. rewrite (dump_run f Hf), (dump_run g Hg). eexists. split; [reflexivity|]. intros He. apply Ret_eq in He. unfold line in He.
  rewrite !text_assoc in He. pose proof Hf as (_ & _ & S1 & T1). pose proof Hg as (_ & _ & S2 & T2).
  apply text_split in He as [_ He]; [|done]. apply text_split in He as [_ He]; [|done]. apply text_split in He as [_ He]; [|done].
  apply text_split in He as [Hs He]; [|by rewrite !hex18_length]. apply text_split in He as [_ He]; [|done]. apply text_split in He as [_ He]; [|done].
  apply text_split in He as [Ht He]; [|by rewrite !hex18_length]. apply text_split in He as [_ He]; [|done].
  apply (rows_text_inj g f Hg Hf _ dump_rows_small) in He as [Hr _]. split; [exact (hex18_inj _ _ S2 S1 Hs)|]. split; [exact (hex18_inj _ _ T2 T1 Ht)|]. intros i Hi.
  apply Forall_concat in Hr. apply (proj1 (Forall_forall _ _) Hr). change (concat (chunks 4 (seq 1 31))) with (seq 1 31). apply elem_of_seq. lia.
Qed.

(** A frame with distinct registers, and one that differs in a single register. *)
Definition dump_frame (v : Z) : TrapFrame := mkTF (<[31%nat := v]> (seqZ 100 32)) 0x20 0x10004 0 0 0 0.
Lemma dump_frame_words v : 0 ≤ v < U64 → frame_words (dump_frame v).
Proof.
  intros Hv. split; [done|]. split; [|split; cbn; unfold U64; lia]. cbn [tf_x dump_frame]. apply Forall_insert; [|done].
  apply Forall_forall. intros x [? ?]%elem_of_seqZ. unfold U64. lia.
Qed.
Lemma dump_determines_witness : TrapFrame_debug (dump_frame 7) ≠ TrapFrame_debug (dump_frame 8).
Proof.
  intros He. destruct (dump_determines (dump_frame 7) (dump_frame 8)) as (s & Hs & Hi); [apply dump_frame_words; unfold U64; lia..|].
  rewrite He in Hs. destruct (Hi Hs) as (_ & _ & Hx). specialize (Hx 31%nat ltac:(lia)). discriminate Hx.
Defined.
