(* ===== verification/Console.v ===== *)
(** * The console, panics and the test runner (console.rs, lang_items.rs, ktest.rs,
    [fatal] of trap/mod.rs, [print] of backtrace.rs)

    Printing a text, the log macros, what a panic does until the machine stops,
    and the loop that runs the kernel's tests.  [held] says that the code that is
    interrupted by a panic holds the lock of the console (or of its driver); on
    one hart nobody else can, and taking it again spins for ever. *)
From stdpp Require Import base numbers gmap list strings.
From Stdlib Require Import Lia Ascii.
From coqutil Require Import Byte.
From S2P Require Import Prelude Memory Config Addr FrameIface FrameProps PageTable Space Device Trap Task Sched Kernel Process Syscall Boot.
From S2P Require Import UartProps SyscallProps KernelDemo Format.
From S2P Require Uart Frame FrameTypes.

#[local] Open Scope string_scope.
#[local] Open Scope list_scope.
#[local] Open Scope Z_scope.

(** ** Colours (console.rs) *)
Module color.
Definition esc (s : string) : string := String (ascii_of_nat 27) s.
Definition RESET : string := esc "[0m".
Definition RED : string := esc "[31m".
Definition YELLOW : string := esc "[33m".
Definition GREEN : string := esc "[32m".
Definition BLUE : string := esc "[34m".
Definition GRAY : string := esc "[90m".
End color.

Definition levelled (colour tag s : string) : string := line (colour +:+ "[" +:+ tag +:+ "] " +:+ s +:+ color.RESET).
Definition error_text (s : string) : string := levelled color.RED "E" s.
Definition warn_text (s : string) : string := levelled color.YELLOW "W" s.
Definition info_text (s : string) : string := levelled color.GREEN "I" s.
Definition debug_text (s : string) : string := levelled color.BLUE "D" s.
Definition trace_text (trace : bool) (s : string) : string := if trace then levelled color.GRAY "T" s else "".

(** How a computation that does not return ends. *)
Inductive ending := powered_off | halted | spinning.

Section console.
Context {S D : Type} `{FrameAllocator S} `{HU : Uart16550 D} `{HF : Firmware D}.
Abbreviation Kst := (Kernel S D).
Abbreviation K := (ST Kst).
Implicit Types (k : Kst).

(** core::fmt hands a text to [write_str] in pieces, each with its address;
    [poll] bounds the wait for the transmitter. *)
Context (pieces : string → list (Z * list Z)) (poll : nat).

Fixpoint write_pieces (w : Z → list Z → K unit) (l : list (Z * list Z)) : K unit :=
  match l with
  | [] => mret tt
  | (ptr, bytes) :: l => w ptr bytes;; write_pieces w l
  end.
Definition write_fmt (w : Z → list Z → K unit) (s : string) : K unit := write_pieces w (pieces s).

(** [_print]; [false] is a wait that never ends. *)
Definition print (held : bool) (s : string) : K bool :=
  k ← get;
  let restore_intr := intr_enabled (k_hart k) in
  (if restore_intr then on_hart intr_disable else mret tt);;
  if held then mret false
  else
    write_fmt (write_str poll) s;;
    (if restore_intr then on_hart intr_enable else mret tt);;
    mret true.
Definition println (held : bool) (s : string) : K bool := print held (line s).
(** [_print_unlocked] *)
Definition print_unlocked (s : string) : K unit := write_fmt write_str_unlocked s.

(** Several lines, each with the lock taken anew. *)
Fixpoint print_all (held : bool) (l : list string) : K bool :=
  match l with
  | [] => mret true
  | s :: l => ok ← print held s; if ok : bool then print_all held l else mret false
  end.

(** ** Backtraces (backtrace.rs); the stack is mapped *)
Definition backtrace_lines (mem : Z → Z) (fp : Z) : list string :=
  let '(frames, _, truncated) := backtrace (λ a, Some (mem a)) fp in
  line "backtrace:" :: imap (λ i '(ra, fp), frame_line (Z.of_nat i) ra fp) frames ++
    (if truncated then [line ("  ... truncated at " +:+ dec MAX_FRAMES +:+ " frames")] else []).
Definition backtrace_print (held : bool) (mem : Z → Z) (fp : Z) : K bool := print_all held (backtrace_lines mem fp).

(** ** The panic handler (lang_items.rs)

    Its state is the kernel's with [PANIC_DEPTH], an atomic word of its own. *)
Abbreviation P := (ST (Z * Kst)).
Definition on_kernel {A} (m : K A) : P A :=
  λ '(depth, k), match m k with Ret (a, k') => Ret (a, (depth, k')) | Panic => Panic end.
(** [PANIC_DEPTH.fetch_add(1)]: wraps around, gives the old value. *)
Definition fetch_add_depth : P Z := λ '(depth, k), Ret (depth, (wrapping_add depth 1, k)).

Record PanicInfo := mkPanic { location : option (string * Z * Z); message : string }.
Definition panic_header (hart : Z) : string :=
  newline +:+ color.esc "[1;31m" +:+ "[PANIC]" +:+ color.RESET +:+ " hart " +:+ dec hart +:+ " ".
Definition panic_location (info : PanicInfo) : string :=
  match location info with
  | Some (file, l, c) => line ("at " +:+ file +:+ ":" +:+ dec l +:+ ":" +:+ dec c)
  | None => line "at <unknown location>"
  end.
Definition panic_message (info : PanicInfo) : string := line ("        " +:+ message info).
Definition double_panic : string := newline +:+ line "[!] double panic, halting".

Definition panic (exit_on_panic held : bool) (info : PanicInfo) (mem : Z → Z) (fp : Z) : P ending :=
  on_kernel (on_hart intr_disable);;
  depth ← fetch_add_depth;
  if 0 <? depth then on_kernel (print_unlocked double_panic);; mret halted
  else
    k ← on_kernel get;
    on_kernel (print_unlocked (panic_header (hart_id (k_hart k))));;
    on_kernel (print_unlocked (panic_location info));;
    on_kernel (print_unlocked (panic_message info));;
    ok ← on_kernel (backtrace_print held mem fp);
    if ok : bool then
      on_kernel (if exit_on_panic then exit_failure else shutdown Shutdown);;
      mret powered_off
    else mret spinning.

(** [fatal] (trap/mod.rs) *)
Definition fatal_lines (f : TrapFrame) (cause : Cause) (stval : Z) (dump : string) : list string :=
  [error_text ("fatal trap in supervisor mode: " +:+ Cause_debug cause);
   error_text ("  sepc  " +:+ hex18 (tf_sepc f));
   error_text ("  stval " +:+ hex18 stval)] ++
  (match cause with
   | PageFault _ | AccessFault _ =>
       [error_text ("  faulting address " +:+ hex18 stval); error_text ("  -> " +:+ note_text (Trap.describe_address stval))]
   | _ => []
   end) ++ [line dump].
Definition fatal (exit_on_panic held : bool) (f : TrapFrame) (cause : Cause) (stval : Z) (loc : string * Z * Z) (mem : Z → Z) (fp : Z)
    : P ending :=
  dump ← lift (TrapFrame_debug f);
  ok ← on_kernel (print_all held (fatal_lines f cause stval dump));
  if ok : bool then panic exit_on_panic held (mkPanic (Some loc) ("unhandled supervisor trap: " +:+ Cause_debug cause)) mem fp
  else mret spinning.

(** ** The test runner (ktest.rs) *)
Record KTest := mkTest { t_name : string; t_func : K unit }.
(** [tests]: how many descriptors of 24 bytes lie between the two symbols. *)
Definition test_count (ktest_start ktest_end : Z) : outcome Z := n ← ktest_end -! ktest_start; Ret (n `div` 24).

Fixpoint run_tests (l : list KTest) : K unit :=
  match l with
  | [] => mret tt
  | t :: l =>
      _ ← print false ("  " +:+ t_name t +:+ " ... ");
      t_func t;;
      _ ← println false (color.GREEN +:+ "ok" +:+ color.RESET);
      run_tests l
  end.
Definition count_text (l : list KTest) : string := dec (Z.of_nat (length l)).
(** [failures] is the value of the counter, which nothing increments. *)
Definition run_all (failures : Z) (l : list KTest) : K unit :=
  _ ← println false "";
  _ ← print false (info_text ("running " +:+ count_text l +:+ " kernel tests"));
  started ← uptime_ms;
  run_tests l;;
  now ← uptime_ms;
  elapsed ← lift (now -! started);
  _ ← println false "";
  if failures =? 0 then
    _ ← print false (info_text ("all " +:+ count_text l +:+ " tests passed in " +:+ dec elapsed +:+ " ms"));
    exit_success
  else
    _ ← print false (error_text (dec failures +:+ " of " +:+ count_text l +:+ " tests failed"));
    exit_failure.

(** ** Printing *)

(** What core::fmt promises: the pieces are the text, in order, and lie in kernel
    memory. *)
Record pieces_ok : Prop := {
  pc_text s : concat (pieces s).*2 = bytes s;
  pc_addr s p : p ∈ pieces s → VIRT_OFFSET ≤ p.1 < U64 }.
Context (Hpieces : pieces_ok) (Hpoll : (thr_max < poll)%nat).

Lemma intr_restored h : 0 ≤ sstatus h < U64 → intr_enabled h = true → intr_enable (intr_disable h) = h.
Proof.
  intros Hs He. destruct h as [s sip v sa hid sie]. unfold intr_enable, intr_disable, set_sstatus, csr_set, csr_clear. cbn in *. f_equal.
  change (u64_not sstatus_bits.SIE) with (Z.ldiff (Z.ones 64) (2 ^ 1)). change sstatus_bits.SIE with (2 ^ 1). apply Z.bits_inj'. intros n Hn.
  rewrite Z.lor_spec, Z.land_spec, Z.ldiff_spec, (Z.testbit_ones_nonneg 64) by lia. rewrite !Z.pow2_bits_eqb by lia.
  destruct (Z.eqb_spec 1 n) as [<-|]; cbn [negb].
  - rewrite orb_true_r. unfold intr_enabled in He. cbn [sstatus] in He. change sstatus_bits.SIE with (Z.shiftl 1 1) in He. rewrite land_bit in He by lia.
    destruct (Z.testbit s 1); [done|]. done.
  - rewrite orb_false_r, andb_true_r. destruct (Z.ltb_spec n 64); [by rewrite andb_true_r|]. rewrite andb_false_r. symmetry.
    apply Z.testbit_false; [lia|]. rewrite Z.div_small; [done|]. split; [lia|]. apply (Z.lt_le_trans _ (2 ^ 64)); [unfold U64 in Hs; lia|apply Z.pow_le_mono_r; lia].
Qed.

Lemma crlf_app l l' : crlf (l ++ l') = crlf l ++ crlf l'.
Proof. apply bind_app. Qed.
(** The driver's [write_bytes] accesses the device and nothing else. *)
Definition access (d d' : D) : Prop := (∃ a, d' = (read_volatile a d).2) ∨ ∃ a v, d' = write_volatile a v d.
Definition dev_edit {A} (m : ST (Uart.uart D) A) : Prop := ∀ u, wlp m (λ _ u', ∃ d, u' = Uart.set_dev d u ∧ rtc access (Uart.dev u) d) u.
Lemma dev_edit_bind {A B} (m : ST (Uart.uart D) A) (f : A → ST (Uart.uart D) B) : dev_edit m → (∀ a, dev_edit (f a)) → dev_edit (m ≫= f).
Proof.
  intros Hm Hf u. apply wlp_bind. eapply wlp_mono; [|apply Hm]. cbv beta. intros a u1 (d1 & -> & R1). eapply wlp_mono; [|apply Hf]. cbv beta.
  intros c u2 (d2 & -> & R2). exists d2. split; [done|]. by etransitivity.
Qed.
Lemma dev_edit_ret {A} (a : A) : dev_edit (mret a).
Proof. intros u. apply wlp_ret. exists (Uart.dev u). by destruct u. Qed.
Lemma dev_edit_put fuel b : dev_edit (Uart.put_byte fuel b).
Proof.
  induction fuel as [|fuel IH]; cbn [Uart.put_byte]; [intros u; by apply wlp_lift|]. apply dev_edit_bind.
  - intros u. unfold Uart.read. apply wlp_bind, wlp_lift. intros a _. apply wlp_bind, wlp_get. destruct (read_volatile a _) as [v d] eqn:E. wlp_steps.
    exists d. split; [done|]. apply rtc_once. left. exists a. by rewrite E.
  - intros v. destruct (_ =? 0); [done|]. intros u. unfold Uart.write. apply wlp_bind, wlp_lift. intros a _. wlp_steps.
    eexists. split; [done|]. apply rtc_once. right. by eexists _, _.
Qed.
Lemma dev_edit_write fuel l : dev_edit (Uart.write_bytes fuel l).
Proof.
  induction l as [|b l IH]; cbn [Uart.write_bytes]; [apply dev_edit_ret|]. apply dev_edit_bind; [destruct (b =? 10); [apply dev_edit_put|apply dev_edit_ret]|].
  intros _. apply dev_edit_bind; [apply dev_edit_put|]. by intros _.
Qed.

(** Output reaches the line and nothing else changes. *)
Record printed (s : string) k k' : Prop := {
  pr_state : k' = set_con (Uart.set_dev (Uart.dev (k_con k')) (k_con k)) k;
  pr_rx : quiet (k_con k) (k_con k');
  pr_bus : rtc access (Uart.dev (k_con k)) (Uart.dev (k_con k'));
  pr_ready : Uart.uart_ready (k_con k') = Uart.uart_ready (k_con k);
  pr_line : tx_line (Uart.dev (k_con k')) = tx_line (Uart.dev (k_con k)) ++ crlf (bytes s) }.

Lemma write_pieces_printed l k : Uart.uart_ready (k_con k) = true →
  wp (write_pieces (write_str poll) l) (λ _ k', k' = set_con (Uart.set_dev (Uart.dev (k_con k')) (k_con k)) k ∧ quiet (k_con k) (k_con k') ∧
    rtc access (Uart.dev (k_con k)) (Uart.dev (k_con k')) ∧ Uart.uart_ready (k_con k') = true ∧
    tx_line (Uart.dev (k_con k')) = tx_line (Uart.dev (k_con k)) ++ crlf (concat l.*2)) k.
Proof.
  revert k. induction l as [|[ptr b] l IH]; intros k Hk; cbn [write_pieces].
  { apply wp_ret. split_and!; [by destruct k as [? [] ? ? ? ? ? ? ?]|done|done|done|by rewrite app_nil_r]. }
  wp_step. unfold write_str. wp_step. wp_step. rewrite Hk. apply wp_in_con.
  eapply wp_mono; [|apply (wp_wlp_conj _ _ _ _ (write_bytes_spec poll b (k_con k) Hpoll) (dev_edit_write poll b (k_con k)))].
  cbv beta. intros [] u [[Hq Ht] (d & Eu & R)]. eapply wp_mono; [|apply IH; cbn; by rewrite Eu]. cbv beta. cbn [k_con set_con]. intros [] k' (E & Hq' & R' & Hr & Ht').
  split_and!; [rewrite E, Eu at 1; reflexivity|by destruct Hq, Hq'; split; etransitivity|etransitivity; [exact R|]; by rewrite Eu in R'|done|].
  cbn [fmap list_fmap concat snd]. by rewrite Ht', Ht, crlf_app, app_assoc.
Qed.
Lemma print_returns s k : Uart.uart_ready (k_con k) = true → 0 ≤ sstatus (k_hart k) < U64 →
  wp (print false s) (λ ok k', ok = true ∧ printed s k k') k.
Proof.
  intros Hr Hs. unfold print, write_fmt. wp_step. wp_step. destruct (intr_enabled (k_hart k)) eqn:He; unfold on_hart; wp_steps.
  - eapply wp_mono; [|by apply write_pieces_printed]. cbv beta. intros [] k' (E & Hq & R & Hr' & Ht). wp_steps. split; [done|]. cbn in Hq, Ht. split.
    + rewrite E. cbn. rewrite (intr_restored (k_hart k)) by done. by destruct k as [? [] ? ? ? ? ? ? ?].
    + done.
    + done.
    + by rewrite Hr, <- Hr'.
    + cbn. by rewrite Ht, (pc_text Hpieces).
  - eapply wp_mono; [|by apply write_pieces_printed]. cbv beta. intros [] k' (E & Hq & R & Hr' & Ht). wp_steps. split; [done|].
    split; [done|done|done|by rewrite Hr|by rewrite Ht, (pc_text Hpieces)].
Qed.

Lemma bytes_app s t : bytes (s +:+ t) = bytes s ++ bytes t.
Proof. induction s as [|c s IH]; [done|]. exact (f_equal (cons _) IH). Qed.
Lemma printed_refl k : printed "" k k.
Proof. split; [by destruct k as [? [] ? ? ? ? ? ? ?]|done|done|done|by rewrite app_nil_r]. Qed.
Lemma printed_trans s t k1 k2 k3 : printed s k1 k2 → printed t k2 k3 → printed (s +:+ t) k1 k3.
Proof.
  intros [A1 B1 C1 D1 E1] [A2 B2 C2 D2 E2]. split.
  - rewrite A2 at 1. rewrite A1. reflexivity.
  - destruct B1, B2. split; by etransitivity.
  - by etransitivity.
  - by rewrite D2.
  - by rewrite E2, E1, bytes_app, crlf_app, app_assoc.
Qed.
Definition joined (l : list string) : string := foldr String.append "" l.
Lemma print_all_returns l k : Uart.uart_ready (k_con k) = true → 0 ≤ sstatus (k_hart k) < U64 →
  wp (print_all false l) (λ ok k', ok = true ∧ printed (joined l) k k') k.
Proof.
  revert k. induction l as [|s l IH]; intros k Hr Hs; cbn [print_all joined foldr]; [apply wp_ret; split; [done|apply printed_refl]|]. wp_step.
  eapply wp_mono; [|by apply print_returns]. cbv beta. intros ok k1 [-> P1]. cbv beta iota.
  eapply wp_mono; [|apply IH; [by rewrite (pr_ready _ _ _ P1)|by rewrite (pr_state _ _ _ P1)]]. cbv beta. intros ok k2 [-> P2]. split; [done|].
  by eapply printed_trans.
Qed.

(** ** Calls of the firmware

    The history of calls, as a ghost of the machine. *)
Abbreviation call := (Z * Z * Z * Z * Z)%type.
Class Recorder := {
  calls : D → list call;
  calls_ecall e f a b c d : calls (ecall e f a b c d).2 = calls d ++ [(e, f, a, b, c)];
  calls_read a d : calls (read_volatile a d).2 = calls d;
  calls_write a v d : calls (write_volatile a v d) = calls d }.
Context `{!Recorder}.
Abbreviation made k := (calls (Uart.dev (k_con k))).

(** What a piece asks of the firmware: its length and address in one call, and
    its bytes one by one when that call is not supported. *)
Definition asked (p : Z * list Z) (l : list call) : Prop :=
  ∃ rest, l = (EID_DBCN, 0, Z.of_nat (length p.2), p.1 - VIRT_OFFSET, 0) :: rest ∧
    (rest = [] ∨ rest = (λ b, (EID_LEGACY_PUTCHAR, 0, b, 0, 0)) <$> p.2).
Definition told (texts : list string) (l : list call) : Prop := ∃ ll, Forall2 asked (texts ≫= pieces) ll ∧ l = concat ll.
Definition off_calls : list call := [(EID_SRST, 0, 0, 0, 0); (0x08, 0, 0, 0, 0)].

(** A step that changes the device, with the calls it makes. *)
Record makes (l : list call) k k' : Prop := {
  mk_state : k' = set_con (Uart.set_dev (Uart.dev (k_con k')) (k_con k)) k;
  mk_calls : made k' = made k ++ l }.
Lemma makes_refl k : makes [] k k.
Proof. split; [by destruct k as [? [] ? ? ? ? ? ? ?]|by rewrite app_nil_r]. Qed.
Lemma makes_trans l1 l2 k1 k2 k3 : makes l1 k1 k2 → makes l2 k2 k3 → makes (l1 ++ l2) k1 k3.
Proof. intros [A1 B1] [A2 B2]. split; [|by rewrite B2, B1, app_assoc]. rewrite A2 at 1. rewrite A1. reflexivity. Qed.

Lemma sbi_makes e f a b c k : wp (sbi_ecall e f a b c) (λ _ k', makes [(e, f, a, b, c)] k k') k.
Proof.
  unfold sbi_ecall. wp_steps. pose proof (calls_ecall e f a b c (Uart.dev (k_con k))) as Hc. destruct (ecall e f a b c _) as [[x y] d]. wp_steps.
  split; [by destruct k as [? [] ? ? ? ? ? ? ?]|exact Hc].
Qed.
Lemma put_all_makes l k : wp (put_all l) (λ _ k', makes ((λ b, (EID_LEGACY_PUTCHAR, 0, b, 0, 0)) <$> l) k k') k.
Proof.
  revert k. induction l as [|b l IH]; intros k; cbn [put_all]; [apply wp_ret, makes_refl|]. unfold console_putchar. wp_steps.
  eapply wp_mono; [|apply sbi_makes]. cbv beta. intros r k1 M1. wp_steps. eapply wp_mono; [|apply IH]. cbv beta. intros [] k2 M2.
  exact (makes_trans _ _ _ _ _ M1 M2).
Qed.
Lemma piece_asked p k : VIRT_OFFSET ≤ p.1 < U64 → wp (write_str_unlocked p.1 p.2) (λ _ k', ∃ l, asked p l ∧ makes l k k') k.
Proof.
  intros Hp. unfold write_str_unlocked, console_write. wp_step. eapply wp_lift; [apply u64_sub_ok; lia|]. wp_step.
  eapply wp_mono; [|apply sbi_makes]. cbv beta. intros r k1 M1. destruct (is_ok r).
  - apply wp_ret. eexists. split; [|exact M1]. eexists. split; [reflexivity|by left].
  - eapply wp_mono; [|apply put_all_makes]. cbv beta. intros [] k2 M2. eexists. split; [|exact (makes_trans _ _ _ _ _ M1 M2)].
    eexists. split; [reflexivity|by right].
Qed.
Lemma pieces_asked l k : (∀ p, p ∈ l → VIRT_OFFSET ≤ p.1 < U64) →
  wp (write_pieces write_str_unlocked l) (λ _ k', ∃ ll, Forall2 asked l ll ∧ makes (concat ll) k k') k.
Proof.
  revert k. induction l as [|[q b] l IH]; intros k Hl; cbn [write_pieces].
  { apply wp_ret. exists []. split; [constructor|apply makes_refl]. }
  wp_step. eapply wp_mono; [|apply (piece_asked (q, b)); apply Hl; by left]. cbv beta. intros [] k1 (l1 & A1 & M1).
  eapply wp_mono; [|apply IH; intros p Hp; apply Hl; by right]. cbv beta. intros [] k2 (ll & A2 & M2). exists (l1 :: ll).
  split; [by constructor|exact (makes_trans _ _ _ _ _ M1 M2)].
Qed.
Lemma unlocked_told s k : wp (print_unlocked s) (λ _ k', ∃ l, told [s] l ∧ makes l k k') k.
Proof.
  unfold print_unlocked, write_fmt. eapply wp_mono; [|apply pieces_asked; intros p; apply (pc_addr Hpieces)]. cbv beta. intros [] k' (ll & Hl & Hm).
  exists (concat ll). split; [|done]. exists ll. cbn. by rewrite app_nil_r.
Qed.
(** Before the driver is up the console goes through the firmware as well. *)
Lemma ready_makes l k k' : makes l k k' → Uart.uart_ready (k_con k') = Uart.uart_ready (k_con k).
Proof. intros [-> _]. done. Qed.
Lemma hart_makes l k k' : makes l k k' → k_hart k' = k_hart k.
Proof. intros [-> _]. done. Qed.
Lemma early_pieces l k : Uart.uart_ready (k_con k) = false → (∀ p, p ∈ l → VIRT_OFFSET ≤ p.1 < U64) →
  wp (write_pieces (write_str poll) l) (λ _ k', ∃ ll, Forall2 asked l ll ∧ makes (concat ll) k k') k.
Proof.
  revert k. induction l as [|[q b] l IH]; intros k Hr Hl; cbn [write_pieces].
  { apply wp_ret. exists []. split; [constructor|apply makes_refl]. }
  wp_step. unfold write_str at 1. wp_steps. rewrite Hr. eapply wp_mono; [|apply (piece_asked (q, b)); apply Hl; by left].
  cbv beta. intros [] k1 (l1 & A1 & M1). eapply wp_mono; [|apply IH; [by rewrite (ready_makes _ _ _ M1)|intros p Hp; apply Hl; by right]].
  cbv beta. intros [] k2 (ll & A2 & M2). exists (l1 :: ll). split; [by constructor|exact (makes_trans _ _ _ _ _ M1 M2)].
Qed.
Lemma told_app t1 t2 l1 l2 : told t1 l1 → told t2 l2 → told (t1 ++ t2) (l1 ++ l2).
Proof. intros (ll1 & M1 & ->) (ll2 & M2 & ->). exists (ll1 ++ ll2). rewrite bind_app, concat_app. split; [by apply Forall2_app|done]. Qed.
Lemma early_told l k : Uart.uart_ready (k_con k) = false → intr_enabled (k_hart k) = false →
  wp (print_all false l) (λ ok k', ok = true ∧ ∃ c, told l c ∧ makes c k k') k.
Proof.
  revert k. induction l as [|s l IH]; intros k Hr Hi; cbn [print_all].
  { apply wp_ret. split; [done|]. exists []. split; [by exists []|apply makes_refl]. }
  wp_step. unfold print. wp_steps. rewrite Hi. wp_steps. unfold write_fmt.
  eapply wp_mono; [|apply early_pieces; [done|intros p; apply (pc_addr Hpieces)]]. cbv beta. intros [] k1 (ll & Hl & M1). wp_steps.
  eapply wp_mono; [|apply IH; [by rewrite (ready_makes _ _ _ M1)|by rewrite (hart_makes _ _ _ M1)]]. cbv beta. intros ok k2 [-> (c & T & M2)].
  split; [done|]. exists (concat ll ++ c). split; [|exact (makes_trans _ _ _ _ _ M1 M2)]. apply (told_app [s] l); [|done].
  exists ll. cbn. by rewrite app_nil_r.
Qed.
Lemma shutdown_makes k : wp (shutdown Shutdown) (λ _ k', makes off_calls k k') k.
Proof.
  unfold shutdown. wp_step. eapply wp_mono; [|apply sbi_makes]. cbv beta. intros r k1 M1. wp_step. eapply wp_mono; [|apply sbi_makes]. cbv beta. intros r' k2 M2.
  apply wp_ret. exact (makes_trans _ _ _ _ _ M1 M2).
Qed.

Lemma access_calls d d' : rtc access d d' → calls d' = calls d.
Proof. induction 1 as [|d1 d2 d3 [[a ->]|(a & v & ->)] _ IH]; [done|by rewrite IH, calls_read|by rewrite IH, calls_write]. Qed.
Lemma printed_calls s k k' : printed s k k' → made k' = made k.
Proof. intros Hp. by apply access_calls, (pr_bus _ _ _ Hp). Qed.

Lemma failure_makes k : wp exit_failure (λ _ k', made k' = made k ++ off_calls) k.
Proof.
  unfold exit_failure, finish. wp_step. eapply wp_lift; [apply phys_to_virt_ok; done|]. wp_steps. eapply wp_mono; [|apply shutdown_makes].
  cbv beta. intros [] k' [_ E]. rewrite E. cbn [k_con set_con Uart.dev Uart.set_dev]. by rewrite calls_write.
Qed.
Lemma masked h : 0 ≤ sstatus h < U64 → 0 ≤ sstatus (intr_disable h) < U64.
Proof.
  intros Hs. apply (FrameTypes.u64_land (sstatus h)); [apply Hs|done].
Qed.

Lemma masked_off h : intr_enabled (intr_disable h) = false.
Proof. unfold intr_enabled, intr_disable, csr_clear. cbn [sstatus set_sstatus]. rewrite <- Z.land_assoc. change (Z.land (u64_not _) _) with 0. by rewrite Z.land_0_r. Qed.

(** The three messages of a panic, through the firmware. *)
Definition report (hart : Z) (info : PanicInfo) : list string := [panic_header hart; panic_location info; panic_message info].

Lemma wp_on_kernel {A} (m : K A) (Q : A → Z * Kst → Prop) depth k : wp m (λ a k', Q a (depth, k')) k → wp (on_kernel m) Q (depth, k).
Proof. unfold wp, on_kernel. by destruct (m k) as [[a k']|]. Qed.
Lemma wp_fetch_add (Q : Z → Z * Kst → Prop) depth k : Q depth (wrapping_add depth 1, k) → wp fetch_add_depth Q (depth, k).
Proof. done. Qed.

(** The backtrace, with interrupts masked: on the line, or through the firmware
    while the driver is not up. *)
Definition traced (l : list string) k k' : Prop :=
  if Uart.uart_ready (k_con k) then printed (joined l) k k' ∧ made k' = made k else ∃ c, told l c ∧ makes c k k'.
Lemma print_traced l k : intr_enabled (k_hart k) = false → 0 ≤ sstatus (k_hart k) < U64 →
  wp (print_all false l) (λ ok k', ok = true ∧ traced l k k') k.
Proof.
  intros Hi Hs. unfold traced. destruct (Uart.uart_ready (k_con k)) eqn:Hr; [|by apply early_told].
  eapply wp_mono; [|by apply print_all_returns]. cbv beta. intros ok k' [-> Hp]. split; [done|]. split; [done|by apply (printed_calls (joined l))].
Qed.
Lemma off_makes (exit_on_panic : bool) k : wp (if exit_on_panic then exit_failure else shutdown Shutdown) (λ _ k', made k' = made k ++ off_calls) k.
Proof.
  destruct exit_on_panic; [apply failure_makes|]. eapply wp_mono; [|apply shutdown_makes]. by cbv beta; intros [] k' [_ ?].
Qed.

(** C36: a panic is reported.  The handler masks interrupts and counts the panic.
    The first panic hands the header, the place and the message to the firmware,
    piece by piece and in order, past all locks; then the backtrace goes to the
    console, or to the firmware while the driver is not up, and the machine is
    switched off, through the test device under [exit-on-panic] - unless the
    panic came from inside the console's critical section: then the handler waits
    for ever for a lock it holds itself, and the machine is not switched off.  A
    panic after that, as the count then tells, says so and stops the hart. *)
Theorem panic_correct exit_on_panic held info mem fp depth k : 0 ≤ sstatus (k_hart k) < U64 →
  ∃ e k' l k1, panic exit_on_panic held info mem fp (depth, k) = Ret (e, (wrapping_add depth 1, k')) ∧
    makes l (set_hart (intr_disable (k_hart k)) k) k1 ∧
    if 0 <? depth then e = halted ∧ told [double_panic] l ∧ k' = k1
    else told (report (hart_id (k_hart k)) info) l ∧
      if held then e = spinning ∧ k' = k1
      else e = powered_off ∧ ∃ k2, traced (backtrace_lines mem fp) k1 k2 ∧
        (if exit_on_panic then exit_failure else shutdown Shutdown) k2 = Ret (tt, k') ∧ made k' = made k2 ++ off_calls.
Proof.
  intros Hs. set (k0 := set_hart (intr_disable (k_hart k)) k). pose proof (masked _ Hs) as Hs0.
  assert (Hw : wp (panic exit_on_panic held info mem fp) (λ e s', ∃ l k1, s'.1 = wrapping_add depth 1 ∧ makes l k0 k1 ∧
    if 0 <? depth then e = halted ∧ told [double_panic] l ∧ s'.2 = k1
    else told (report (hart_id (k_hart k)) info) l ∧
      if held then e = spinning ∧ s'.2 = k1
      else e = powered_off ∧ ∃ k2, traced (backtrace_lines mem fp) k1 k2 ∧
        (if exit_on_panic then exit_failure else shutdown Shutdown) k2 = Ret (tt, s'.2) ∧ made s'.2 = made k2 ++ off_calls) (depth, k)).
  2: { destruct (wp_run _ _ _ Hw) as (e & [d k'] & E & l & k1 & Hd & P). cbn [fst snd] in *. subst d. by exists e, k', l, k1. }
  unfold panic, on_hart. wp_step. apply wp_on_kernel. wp_steps. fold k0. apply wp_fetch_add. destruct (0 <? depth).
  { wp_step. apply wp_on_kernel. eapply wp_mono; [|apply unlocked_told]. cbv beta. intros [] k1 (l & T & M). apply wp_ret. by exists l, k1. }
  wp_step. apply wp_on_kernel. wp_steps. apply wp_on_kernel. eapply wp_mono; [|apply unlocked_told]. cbv beta. intros [] k1 (l1 & T1 & M1).
  wp_step. apply wp_on_kernel. eapply wp_mono; [|apply unlocked_told]. cbv beta. intros [] k2 (l2 & T2 & M2).
  wp_step. apply wp_on_kernel. eapply wp_mono; [|apply unlocked_told]. cbv beta. intros [] k3 (l3 & T3 & M3).
  pose proof (makes_trans _ _ _ _ _ M1 (makes_trans _ _ _ _ _ M2 M3)) as M. pose proof (told_app _ _ _ _ T1 (told_app _ _ _ _ T2 T3)) as T.
  assert (Hh : k_hart k3 = intr_disable (k_hart k)) by (by rewrite (hart_makes _ _ _ M)).
  assert (Hi : intr_enabled (k_hart k3) = false) by (rewrite Hh; apply masked_off). wp_step. apply wp_on_kernel.
  destruct held.
  - unfold backtrace_print, backtrace_lines. destruct (backtrace _ fp) as [[frames reads] tr]. cbn [print_all]. unfold print, on_hart. wp_steps.
    rewrite Hi. wp_steps. by exists (l1 ++ l2 ++ l3), k3.
  - eapply wp_mono; [|apply print_traced; [done|by rewrite Hh]]. cbv beta. intros ok k4 [-> T4]. cbv beta iota. wp_step. apply wp_on_kernel.
    destruct (wp_run _ _ _ (off_makes exit_on_panic k4)) as ([] & k5 & E5 & O5). eapply wp_of_run; [exact E5|]. apply wp_ret.
    exists (l1 ++ l2 ++ l3), k3. split; [done|]. split; [done|]. split; [done|]. split; [done|by exists k4].
Qed.

(** ** The test runner

    [I t] is what the tests rely on and keep, once the clock has reached [t]. *)
Context (I : Z → Kst → Prop)
  (Hready : ∀ t k, I t k → Uart.uart_ready (k_con k) = true ∧ 0 ≤ sstatus (k_hart k) < U64)
  (Hbus : ∀ t k d, I t k → rtc access (Uart.dev (k_con k)) d → I t (set_con (Uart.set_dev d (k_con k)) k))
  (Hclock : ∀ t k t' d, I t k → rdtime (Uart.dev (k_con k)) = (t', d) → t ≤ t' < 2 ^ 54 ∧ I t' (set_con (Uart.set_dev d (k_con k)) k)).
Definition passes (f : K unit) : Prop := ∀ t k, I t k → wp f (λ _ k', I t k') k.

Lemma test_print t s k : I t k → wp (print false s) (λ _ k', I t k') k.
Proof.
  intros Hk. destruct (Hready t k Hk). eapply wp_mono; [|by apply print_returns]. cbv beta. intros ok k' [_ P].
  rewrite (pr_state _ _ _ P). apply Hbus; [done|apply P].
Qed.
Lemma tests_pass l : Forall (passes ∘ t_func) l → passes (run_tests l).
Proof.
  induction 1 as [|x l Hx _ IH]; intros t k Hk; cbn [run_tests]; [by apply wp_ret|]. wp_step.
  eapply wp_mono; [|by apply test_print]. cbv beta. intros _ k1 I1. wp_step. eapply wp_mono; [|by apply Hx]. cbv beta. intros [] k2 I2. wp_step.
  unfold println. eapply wp_mono; [|by apply test_print]. cbv beta. intros _ k3 I3. by apply IH.
Qed.
Lemma test_uptime t k : 0 ≤ t → I t k → wp uptime_ms (λ n k', ∃ t', t ≤ t' ∧ n = (t' * 1000) `div` TIMER_FREQ ∧ I t' k') k.
Proof.
  intros Ht Hk. unfold uptime_ms, read_time. wp_steps. destruct (rdtime (Uart.dev (k_con k))) as [t' d] eqn:E. destruct (Hclock t k t' d Hk E) as [Hb Hk'].
  wp_steps. eapply wp_lift; [apply u64_mul_ok; unfold U64; lia|]. wp_steps. exists t'. split_and!; [lia|done|exact Hk'].
Qed.
Lemma finish_returns v k : wp (finish v) (λ _ _, True) k.
Proof. unfold finish. wp_step. eapply wp_lift; [by apply phys_to_virt_ok|]. wp_steps. eapply wp_true, shutdown_makes. Qed.

(** If every test passes from every state the tests may leave behind, the run
    ends in [exit_success], whatever their order and number; a test that panics
    ends it on the spot. *)
Theorem run_all_passes t l k : 0 ≤ t → I t k → Forall (passes ∘ t_func) l →
  ∃ t' k1 k', I t' k1 ∧ run_all 0 l k = Ret (tt, k') ∧ exit_success k1 = Ret (tt, k').
Proof.
  intros Ht Hk Hl. assert (Hw : wp (run_all 0 l) (λ _ k', ∃ t' k1, I t' k1 ∧ exit_success k1 = Ret (tt, k')) k).
  2: { destruct (wp_run _ _ _ Hw) as ([] & k' & E & t' & k1 & ? & ?). by exists t', k1, k'. }
  unfold run_all, println. wp_step. eapply wp_mono; [|by apply test_print]. cbv beta. intros _ k1 I1. wp_step. eapply wp_mono; [|by apply test_print].
  cbv beta. intros _ k2 I2. wp_step. eapply wp_mono; [|by apply (test_uptime t)]. cbv beta. intros n k3 (t3 & L3 & -> & I3). wp_step.
  eapply wp_mono; [|by apply (tests_pass l Hl t3)]. cbv beta. intros [] k4 I4. wp_step. eapply wp_mono; [|apply (test_uptime t3); [lia|done]].
  cbv beta. intros n k5 (t5 & L5 & -> & I5). wp_step.
  eapply wp_lift; [apply u64_sub_ok; apply Z.div_le_mono; unfold TIMER_FREQ; lia|]. wp_step. eapply wp_mono; [|by apply test_print].
  cbv beta. intros _ k6 I6. change (0 =? 0) with true. cbv iota. wp_step. eapply wp_mono; [|by apply test_print]. cbv beta. intros _ k7 I7.
  destruct (wp_run _ _ _ (finish_returns FINISH_PASS k7)) as ([] & k' & E & _). eapply wp_of_run; [exact E|]. by exists t5, k7.
Qed.
End console.

(** ** A machine that remembers its calls *)
Record board := mkBoard { b_chip : chip; b_calls : list (Z * Z * Z * Z * Z) }.
#[export] Instance board_bus : Bus board := {
  read_volatile a d := let '(v, c) := read_volatile a (b_chip d) in (v, mkBoard c (b_calls d));
  write_volatile a v d := mkBoard (write_volatile a v (b_chip d)) (b_calls d) }.
#[export] Instance board_firmware : Firmware board := {
  ecall e f a b c d := ((0, 0), mkBoard (b_chip d) (b_calls d ++ [(e, f, a, b, c)]));
  rdtime d := (0, d) }.
#[export, refine] Instance board_16550 : Uart16550 board := {|
  rx_fifo d := rx_fifo (b_chip d); delivered d := delivered (b_chip d); tx_line d := tx_line (b_chip d);
  thr_busy d := thr_busy (b_chip d); thr_max := 1%nat |}.
Proof.
  - intros [[? ? ? []] l]; cbn; lia.
  - intros [c l] v d'. cbn [read_volatile board_bus b_chip]. destruct (read_volatile _ c) as [w c'] eqn:E. intros [= <- <-]. exact (lsr_read c w c' E).
  - intros [c l] v d' b q. cbn [read_volatile board_bus b_chip]. destruct (read_volatile _ c) as [w c'] eqn:E. intros [= <- <-]. exact (rbr_read c w c' b q E).
  - intros [c l] b. exact (thr_write c b).
Defined.
#[export, refine] Instance board_recorder : Recorder (D := board) := {| calls := b_calls |}.
Proof.
  - done.
  - intros a [c l]. unfold read_volatile at 1, board_bus. cbn [b_chip b_calls]. by destruct (read_volatile a c).
  - done.
Defined.

Definition board_k : Kernel Frame.PhysMem board :=
  mkK (k_mem demo_k) {| Uart.dev := mkBoard (Uart.dev (k_con demo_k)) []; Uart.rx_queue := Uart.RxRing_new; Uart.initialised := true; Uart.uart_ready := true |}
    (k_sched demo_k) [] (k_boxes demo_k) (mkHart 2 0 kernel_trap_entry 0 0 0) (mkTimer 0 0) (k_space demo_k) [].
Definition one_piece (s : string) : list (Z * list Z) := [(VIRT_OFFSET, bytes s)].
Lemma one_piece_ok : pieces_ok one_piece.
Proof. split; [intros s; cbn; by rewrite app_nil_r|]. intros s p ->%list_elem_of_singleton. cbn. unfold VIRT_OFFSET, U64. lia. Qed.
Definition demo_panic : PanicInfo := mkPanic (Some ("src/mm/frame.rs", 214, 9)) "frame freed twice".

(** Outside a critical section the machine goes down, inside it hangs, and a
    panic after that stops the hart. *)
Lemma panic_correct_witness :
  (∃ k', panic one_piece 10 false false demo_panic (λ _, 0) 0 (0, board_k) = Ret (powered_off, (1, k'))) ∧
  (∃ k' k2, panic one_piece 10 false true demo_panic (λ _, 0) 0 (0, board_k) = Ret (spinning, (1, k')) ∧
     panic one_piece 10 false true demo_panic (λ _, 0) 0 (1, board_k) = Ret (halted, (2, k2))).
Proof.
  assert (Hs : 0 ≤ sstatus (k_hart board_k) < U64) by (cbn; unfold U64; lia). assert (Hp : (thr_max < 10)%nat) by (cbn; lia). split.
  - destruct (panic_correct one_piece 10 one_piece_ok Hp false false demo_panic (λ _, 0) 0 0 board_k Hs)
      as (e & k' & l & k1 & E & _ & _ & -> & _). exists k'. exact E.
  - destruct (panic_correct one_piece 10 one_piece_ok Hp false true demo_panic (λ _, 0) 0 0 board_k Hs)
      as (e & k' & l & k1 & E & _ & _ & -> & _).
    destruct (panic_correct one_piece 10 one_piece_ok Hp false true demo_panic (λ _, 0) 0 1 board_k Hs)
      as (e' & k2 & l' & k1' & E' & _ & -> & _). exists k', k2. split; [exact E|exact E'].
Defined.
