(* ===== verification/Health.v ===== *)
(** * A healthy kernel

    What the code relies on beyond the holdings of [Holdings]: the scheduler's
    invariant, wait queues whose entries exist, a trap frame for every task,
    and an intact console ring.  Every operation of the kernel keeps it, and
    with it waking sleepers, timer ticks, device interrupts and the release of
    tasks come to an end without a panic. *)
From stdpp Require Import base numbers functions gmap list.
From coqutil Require Import Byte LittleEndianList.
From Stdlib Require Import Lia.
From S2P Require Import Prelude Memory Config Addr FrameIface FrameProps PageTable Space SpaceOps Loader.
From S2P Require Import Device Trap Task Sched SchedProps Kernel Process Syscall ImageProps ProcessProps LifeProps SyscallProps.
From S2P Require Import FrameTypes Holdings Isolation.
From S2P Require Uart UartProps.

(** ** Links between tasks *)
Definition links (t : Task) : list Pid * option Z := (child_exit t, frame (user t)).

(** On the scheduler's store: who waits for whom, who has which frame and who
    has just switched away stay as they are. *)
Record tied (s s' : Sched) : Prop := {
  td_pid : next_pid s' = next_pid s;
  td_previous : previous s' = previous s;
  td_links : links <$> tasks s' = links <$> tasks s }.
Definition linked {A} (m : ST Sched A) : Prop := ∀ s, wlp m (λ _ s', tied s s') s.

Lemma links_alter (m : gmap Z Task) p g : (∀ t, links (g t) = links t) → links <$> alter g p m = links <$> m.
Proof.
  intros Hg. apply map_eq. intros q. rewrite !lookup_fmap. destruct (decide (q = p)) as [->|]; [|by rewrite lookup_alter_ne].
  rewrite lookup_alter_eq. destruct (m !! p); cbn; [by rewrite Hg|done].
Qed.
Lemma tied_trans s1 s2 s3 : tied s1 s2 → tied s2 s3 → tied s1 s3.
Proof. intros [A1 B1 C1] [A2 B2 C2]. split; congruence. Qed.
Lemma linked_bind {A B} (m : ST Sched A) (f : A → ST Sched B) : linked m → (∀ a, linked (f a)) → linked (m ≫= f).
Proof.
  intros Hm Hf s. apply wlp_bind. eapply wlp_mono; [|apply Hm]. cbv beta. intros a s1 T1.
  eapply wlp_mono; [|apply Hf]. cbv beta. intros c s2 T2. by eapply tied_trans.
Qed.
Lemma linked_upd p g : (∀ t, links (g t) = links t) → linked (upd_task p g).
Proof. intros Hg s. unfold upd_task. wlp_steps. split; [done|done|by apply links_alter]. Qed.
Lemma linked_get {A} (f : Sched → ST Sched A) : (∀ s, linked (f s)) → linked (get ≫= f).
Proof. intros Hf s. apply wlp_bind, wlp_get, Hf. Qed.
Lemma linked_get_task p : linked (get_task p).
Proof. intros s. unfold get_task. by wlp_steps. Qed.
Lemma linked_lift {A} (o : outcome A) : linked (lift o).
Proof. intros s. by wlp_steps. Qed.
Lemma linked_ret {A} (a : A) : linked (mret a).
Proof. intros s. by wlp_steps. Qed.
Lemma linked_requeue p l : linked (queue_push p l).
Proof. intros s. unfold queue_push. by wlp_steps. Qed.

Create HintDb linked.
#[export] Hint Resolve linked_get_task linked_lift linked_ret linked_requeue : linked.
#[export] Hint Extern 4 (linked (upd_task _ _)) => apply linked_upd; done : linked.
Ltac linked :=
  repeat (cbv beta; lazymatch goal with
  | |- linked (get ≫= _) => apply linked_get; intros ?
  | |- linked (_ ≫= _) => apply linked_bind; [|intros ?]
  | |- linked (match ?x with _ => _ end) => destruct x
  | |- linked _ => solve [eauto with linked]
  end).

Lemma linked_wake p : linked (wake p).
Proof. unfold wake. linked. Qed.
Lemma linked_tick : linked on_timer_tick.
Proof. unfold on_timer_tick. linked. Qed.
Lemma linked_resched : linked take_resched.
Proof. unfold take_resched. linked. Qed.
Lemma linked_dump : linked dump_tasks.
Proof. intros s. unfold dump_tasks. by wlp_steps. Qed.
Lemma linked_admit p : linked (admit_task p).
Proof. intros s. unfold admit_task. wlp_steps. eapply wlp_mono; [|apply linked_requeue]. cbv beta. intros [] s' T. eapply tied_trans; [|exact T]. done. Qed.

Lemma links_task (m m' : gmap Z Task) q t' : links <$> m' = links <$> m → m' !! q = Some t' → ∃ t, m !! q = Some t ∧ links t' = links t.
Proof.
  intros Hl Ht'. pose proof (f_equal (.!! q) Hl) as He. cbv beta in He. rewrite !lookup_fmap, Ht' in He.
  destruct (m !! q) as [t|]; [|done]. exists t. split; [done|]. cbn in He. congruence.
Qed.
Lemma links_some (m m' : gmap Z Task) q : links <$> m' = links <$> m → is_Some (m !! q) → is_Some (m' !! q).
Proof.
  intros Hl [t Ht]. pose proof (f_equal (.!! q) Hl) as He. cbv beta in He. rewrite !lookup_fmap, Ht in He. destruct (m' !! q); [by eexists|done].
Qed.

(** The scheduler's operations and its invariant, for the runs that return. *)
Definition sober {A} (m : ST Sched A) : Prop := linked m ∧ ∀ s, sched_ok s → previous s = None → wlp m (λ _, sched_ok) s.

Lemma sober_get_task p : sober (get_task p).
Proof. split; [apply linked_get_task|]. intros s Hok _. unfold get_task. by wlp_steps. Qed.
Lemma sober_current : sober current_task.
Proof. split; [unfold current_task; linked|]. intros s Hok _. unfold current_task. by wlp_steps. Qed.
Lemma sober_exit_code p : sober (task_exit_code p).
Proof. split; [unfold task_exit_code; linked|]. intros s Hok _. unfold task_exit_code, get_task. by wlp_steps. Qed.
Lemma sober_wake p : sober (wake p).
Proof.
  split; [apply linked_wake|]. intros s Hok Hpv. destruct (tasks s !! p) as [t|] eqn:Ht.
  - apply wp_wlp, wake_ok; [done|done|by eexists].
  - intros a s' E. unfold wake, get_task, mbind, ST_bind, get, lift in E. by rewrite Ht in E.
Qed.
Lemma sober_tick : sober on_timer_tick.
Proof. split; [apply linked_tick|]. intros s Hok _. by apply wp_wlp, tick_ok. Qed.
Lemma sober_resched : sober take_resched.
Proof. split; [apply linked_resched|]. intros s Hok _. by apply wp_wlp, take_resched_ok. Qed.
Lemma sober_dump : sober dump_tasks.
Proof. split; [apply linked_dump|]. intros s Hok _. by apply wp_wlp, dump_ok. Qed.
Lemma sober_upd p g : same_sched g → (∀ t, links (g t) = links t) → sober (upd_task p g).
Proof. intros Hs Hl. split; [by apply linked_upd|]. intros s Hok _. by apply wp_wlp, edit_ok. Qed.
Create HintDb sober.
#[export] Hint Resolve sober_get_task sober_current sober_exit_code sober_wake sober_tick sober_resched sober_dump : sober.
#[export] Hint Extern 4 (sober (upd_task _ _)) => apply sober_upd; done : sober.

Section health.
Context {S D : Type} `{FrameAllocator S, !FrameAllocatorLaws S} `{HU : UartProps.Uart16550 D} `{Firmware D}.
Abbreviation Kst := (Kernel S D).
Abbreviation K := (ST Kst).
Implicit Types (k : Kst) (O : gmap Pid Z).

(** [O] lists the boxes of trap frames that handlers under way will go back to. *)
Record healthy O k : Prop := {
  hy_sched : sched_ok (k_sched k);
  hy_readers x : x ∈ k_readers k → is_Some (tasks (k_sched k) !! x);
  hy_exits p t x : tasks (k_sched k) !! p = Some t → x ∈ child_exit t → is_Some (tasks (k_sched k) !! x);
  hy_frame p t : tasks (k_sched k) !! p = Some t → is_Some (frame (user t)) ∧ ∀ b, O !! p = Some b → frame (user t) = Some b;
  hy_owners p : is_Some (O !! p) → p < next_pid (k_sched k);
  hy_ring : UartProps.ring_ok (Uart.rx_queue (k_con k));
  hy_hart : 0 ≤ hart_id (k_hart k) < 2 ^ 16 }.

(** And nobody is between switching out and being requeued. *)
Definition sane O k : Prop := healthy O k ∧ previous (k_sched k) = None.
Definition heals {A} (m : K A) : Prop := ∀ O k, sane O k → wlp m (λ _ k', sane O k') k.

Lemma heals_bind {A B} (m : K A) (f : A → K B) : heals m → (∀ a, heals (f a)) → heals (m ≫= f).
Proof. intros Hm Hf O k Hk. apply wlp_bind. eapply wlp_mono; [|by apply Hm]. cbv beta. intros a k1 Hk1. by apply Hf. Qed.
Lemma heals_get {A} (f : Kst → K A) : (∀ k, heals (f k)) → heals (get ≫= f).
Proof. intros Hf O k Hk. apply wlp_bind, wlp_get. by apply Hf. Qed.
Lemma heals_put (g : Kst → Kst) {A} (f : Kst → K A) : (∀ O k, sane O k → sane O (g k)) → (∀ k, heals (f k)) → heals (k ← get; put (g k);; f k).
Proof. intros Hg Hf O k Hk. apply wlp_bind, wlp_get, wlp_bind, wlp_put, Hf. by apply Hg. Qed.
Lemma heals_put1 (g : Kst → Kst) : (∀ O k, sane O k → sane O (g k)) → heals (k ← get; put (g k)).
Proof. intros Hg O k Hk. apply wlp_bind, wlp_get, wlp_put. by apply Hg. Qed.
Lemma heals_ret {A} (a : A) : heals (mret a).
Proof. intros O k Hk. by apply wlp_ret. Qed.
Lemma heals_lift {A} (o : outcome A) : heals (lift o).
Proof. intros O k Hk. by apply wlp_lift. Qed.
Lemma heals_state : heals (A := Kst) get.
Proof. intros O k Hk. by apply wlp_get. Qed.

(** Memory, boxes and address translation are of no concern. *)
Lemma sane_same O k k' : k_sched k' = k_sched k → k_readers k' = k_readers k → Uart.rx_queue (k_con k') = Uart.rx_queue (k_con k) →
  hart_id (k_hart k') = hart_id (k_hart k) → sane O k → sane O k'.
Proof. intros E1 E2 E3 E4 [[H1' H2' H3' H4' H5' H6' H7'] Hp]. split; [split|]; rewrite ?E1, ?E2, ?E3, ?E4; done. Qed.
Lemma heals_mem {A} (m : ST S A) : heals (in_mem m).
Proof.
  intros O k Hk a k'. unfold in_mem. destruct (m (k_mem k)) as [[b s]|]; [|done]. intros [= <- <-]. by apply (sane_same O k).
Qed.
Lemma heals_hart (f : Hart → Hart) : (∀ h, hart_id (f h) = hart_id h) → heals (on_hart f).
Proof. intros Hf. apply heals_put1. intros O k Hk. apply (sane_same O k); [done|done|done|by apply Hf|done]. Qed.

Lemma healthy_links O k s' : healthy O k → sched_ok s' → next_pid s' = next_pid (k_sched k) →
  links <$> tasks s' = links <$> tasks (k_sched k) → healthy O (set_sched s' k).
Proof.
  intros [H1' H2' H3' H4' H5' H6' H7'] Hok Hn Hl. split; cbn; try done.
  - intros x Hx. eapply links_some; [done|by apply H2'].
  - intros p t' x Ht' Hx. destruct (links_task _ _ _ _ Hl Ht') as (t & Ht & [= El _]). rewrite El in Hx. eapply links_some; [done|by eapply H3'].
  - intros p t' Ht'. destruct (links_task _ _ _ _ Hl Ht') as (t & Ht & [= _ Ef]). rewrite Ef. by apply (H4' p).
  - intros p Hb. rewrite Hn. by apply H5'.
Qed.
Lemma sane_tied O k s' : sane O k → sched_ok s' → tied (k_sched k) s' → sane O (set_sched s' k).
Proof. intros [Hh Hp] Hok [T1 T2 T3]. split; [by apply healthy_links|]. cbn. by rewrite T2. Qed.
Lemma heals_sched {A} (m : ST Sched A) : sober m → heals (in_sched m).
Proof.
  intros [Hl Hs] O k Hk a k'. unfold in_sched. destruct (m (k_sched k)) as [[c s]|] eqn:E; [|done]. intros [= <- <-].
  apply sane_tied; [done| |by apply (Hl _ _ _ E)]. by apply (Hs _ (hy_sched _ _ (proj1 Hk)) (proj2 Hk) _ _ E).
Qed.
Lemma heals_con {A} (m : ST (Uart.uart D) A) :
  (∀ u, UartProps.ring_ok (Uart.rx_queue u) → wlp m (λ _ u', UartProps.ring_ok (Uart.rx_queue u')) u) → heals (in_con m).
Proof.
  intros Hm O k [[H1' H2' H3' H4' H5' H6' H7'] Hp] a k'. unfold in_con. destruct (m (k_con k)) as [[c u]|] eqn:E; [|done]. intros [= <- <-].
  split; [split; try done; cbn|done]. by apply (Hm _ H6' _ _ E).
Qed.

(** Queues of sleepers. *)
Lemma waiters_exist O k q x : healthy O k → x ∈ waiters q k → is_Some (tasks (k_sched k) !! x).
Proof.
  intros Hk. destruct q as [|p]; cbn; [apply (hy_readers _ _ Hk)|]. destruct (tasks (k_sched k) !! p) as [t|] eqn:Ht; cbn.
  - by apply (hy_exits _ _ Hk p t).
  - by intros ?%elem_of_nil.
Qed.
Lemma sane_waiters O k q l : sane O k → (∀ x, x ∈ l → is_Some (tasks (k_sched k) !! x)) → sane O (set_waiters q l k).
Proof.
  intros [Hh Hp] Hl. pose proof Hh as [H1' H2' H3' H4' H5' H6' H7']. destruct q as [|p]; [by split; [split|]|].
  pose proof (wp_ret_inv _ _ _ _ _ (eq_refl : upd_task p (with_child_exit l) (k_sched k) = _) (edit_ok _ p (with_child_exit l) H1' ltac:(done))) as Hok.
  assert (Hd : ∀ x, is_Some (alter (with_child_exit l) p (tasks (k_sched k)) !! x) ↔ is_Some (tasks (k_sched k) !! x)) by (intros; apply lookup_alter_is_Some).
  split; [split|]; cbn; try done.
  - intros x Hx. apply Hd. by apply H2'.
  - intros q t x Ht Hx. apply Hd. destruct (decide (q = p)) as [->|]; [|rewrite lookup_alter_ne in Ht by done; by eapply H3'].
    rewrite lookup_alter_eq in Ht. destruct (tasks (k_sched k) !! p); [|done]. injection Ht as <-. by apply Hl.
  - intros q t Ht. destruct (decide (q = p)) as [->|]; [|rewrite lookup_alter_ne in Ht by done; by apply (H4' q)].
    rewrite lookup_alter_eq in Ht. destruct (tasks (k_sched k) !! p) as [t0|] eqn:Ht0; [|done]. injection Ht as <-. exact (H4' p t0 Ht0).
Qed.
End health.

Create HintDb heals.
#[export] Hint Resolve heals_state heals_lift heals_ret heals_mem : heals.
#[export] Hint Extern 2 (heals (on_hart _)) => apply heals_hart; done : heals.
#[export] Hint Extern 3 (heals (in_sched _)) => apply heals_sched; solve [eauto with sober] : heals.
#[export] Hint Extern 2 (sane _ _) => eapply sane_same; [..|eassumption]; reflexivity : heals.
Ltac heal_step :=
  cbv beta; lazymatch goal with
  | |- heals (get ≫= _) => first [apply heals_put; [intros ? ? ?; solve [eauto 2 with heals]|intros ?]
                               | apply heals_put1; intros ? ? ?; solve [eauto 2 with heals] | apply heals_get; intros ?]
  | |- heals (_ ≫= _) => apply heals_bind; [|intros ?]
  | |- heals (let _ := _ in _) => cbv zeta
  | |- heals (match ?x with _ => _ end) => destruct x
  | |- heals _ => solve [eauto 3 with heals]
  end.
Ltac heal := repeat heal_step.

Section operations.
Context {S D : Type} `{FrameAllocator S, !FrameAllocatorLaws S} `{HU : UartProps.Uart16550 D} `{Firmware D}.
Abbreviation Kst := (Kernel S D).
Abbreviation K := (ST Kst).
Implicit Types (k : Kst) (O : gmap Pid Z).

(** ** Wait queues *)
Lemma heals_wait_enter q : heals (wait_enter (S := S) (D := D) q).
Proof.
  intros O k Hk. unfold wait_enter. apply wlp_bind. intros p k1 E. unfold in_sched, current_task, mbind, ST_bind, get, lift in E.
  destruct (current (k_sched k)) as [c|] eqn:Hc; [|done]. cbn in E. injection E as <- <-.
  assert (set_sched (k_sched k) k = k) as -> by by destruct k. apply wlp_bind, wlp_get, wlp_bind, wlp_put, wlp_ret.
  apply sane_waiters; [done|]. intros x [Hx|Hx%list_elem_of_singleton]%elem_of_app; [by apply (waiters_exist O k q x (proj1 Hk))|].
  subst x. apply (so_placed _ (hy_sched _ _ (proj1 Hk)) c). right. by left.
Qed.
Lemma remove_first_in p l x : x ∈ remove_first p l → x ∈ l.
Proof.
  induction l as [|y l IH]; cbn; [done|]. destruct (y =? p); rewrite !elem_of_cons; [by right|]. intros [->|Hx]; [by left|right; by apply IH].
Qed.
Lemma heals_wait_leave q p : heals (wait_leave (S := S) (D := D) q p).
Proof.
  apply heals_put1. intros O k Hk. apply sane_waiters; [done|]. intros x Hx%remove_first_in. by apply (waiters_exist O k q x (proj1 Hk)).
Qed.
Lemma heals_wake_list l : heals (wake_list (S := S) (D := D) l).
Proof. induction l; cbn [wake_list]; heal. Qed.
Lemma heals_wake_all q : heals (wake_all (S := S) (D := D) q).
Proof. unfold wake_all. apply heals_put; [|intros; apply heals_wake_list]. intros O k Hk. apply sane_waiters; [done|]. by intros x ?%elem_of_nil. Qed.
Lemma heals_switch_back w : heals (switch_back (S := S) (D := D) w).
Proof. unfold switch_back. heal. Qed.

(** ** Devices *)
Lemma heals_read_time : heals (read_time (S := S) (D := D)).
Proof. intros O k Hk. unfold read_time. apply wlp_bind, wlp_get. destruct (rdtime _). wlp_steps. by apply (sane_same O k). Qed.
Lemma heals_set_timer v : heals (set_timer (S := S) (D := D) v).
Proof. intros O k Hk. unfold set_timer. apply wlp_bind, wlp_get. destruct (ecall _ _ _ _ _ _). wlp_steps. by apply (sane_same O k). Qed.
Lemma heals_plic_read o : heals (plic_read (S := S) (D := D) o).
Proof.
  unfold plic_read. do 2 (apply heals_bind; [heal|intros ?]). intros O k Hk. apply wlp_bind, wlp_get. destruct (read_volatile _ _). wlp_steps.
  by apply (sane_same O k).
Qed.
Lemma heals_plic_write o v : heals (plic_write (S := S) (D := D) o v).
Proof. unfold plic_write. heal. Qed.
#[local] Hint Resolve heals_wake_all heals_read_time heals_set_timer heals_plic_read heals_plic_write : heals.
Lemma heals_tick : heals (on_tick (S := S) (D := D)).
Proof. unfold on_tick, set_deadline. heal. Qed.
Lemma heals_uptime : heals (uptime_ms (S := S) (D := D)).
Proof. unfold uptime_ms. heal. Qed.
Lemma heals_handle_interrupt : heals (in_con (S := S) (D := D) Uart.handle_interrupt).
Proof.
  apply heals_con. intros u Hu. apply wp_wlp. pose proof (UartProps.ring_len_bound (Uart.rx_queue u)).
  eapply wp_mono; [|apply UartProps.drain_spec; [done|..]]; [by intros n u' (? & _ & _ & ? & _)|..]; unfold UartProps.ROOM, Uart.CAP, U64 in *; lia.
Qed.
Lemma heals_external irqs : heals (handle_external_interrupt (S := S) (D := D) irqs).
Proof.
  unfold handle_external_interrupt. apply heals_get. intros k. generalize (hart_id (k_hart k)). intros hart.
  pose proof heals_handle_interrupt.
  induction irqs as [|irqs IH]; cbn [claim_loop]; unfold claim, complete, service, notify_readers; heal.
Qed.
Lemma heals_write_bytes poll l : (UartProps.thr_max < poll)%nat → heals (in_con (S := S) (D := D) (Uart.write_bytes poll l)).
Proof. intros Hp. apply heals_con. intros u Hu. apply wp_wlp. eapply wp_mono; [|by apply UartProps.write_bytes_spec]. by intros [] u' [[-> _] _]. Qed.
Lemma heals_read_byte : heals (in_con (S := S) (D := D) Uart.read_byte).
Proof.
  apply heals_con. intros u Hu. unfold Uart.read_byte. pose proof (UartProps.ring_pop_spec _ Hu) as Hp. apply wlp_bind, wlp_get, wlp_bind, wlp_lift.
  intros [o r] E. destruct (UartProps.ring_list (Uart.rx_queue u)).
  - rewrite Hp in E. injection E as <- <-. by wlp_steps.
  - destruct Hp as (r' & Hr' & Hok & _). rewrite Hr' in E. injection E as <- <-. by wlp_steps.
Qed.
Lemma heals_take_input n : ∀ buf, heals (take_input (S := S) (D := D) n buf).
Proof. pose proof heals_read_byte. induction n; intros; cbn [take_input]; heal. Qed.

(** ** Dropping tasks *)
Lemma referenced_not k p : referenced k p = false →
  ¬ placed (k_sched k) p ∧ (p ∉ k_readers k) ∧ ∀ q t, tasks (k_sched k) !! q = Some t → p ∉ child_exit t.
Proof.
  unfold referenced. rewrite !orb_false_iff, !bool_decide_eq_false. intros (((((H1' & H2') & H3') & H4') & _) & H6'). split_and!; [|done|].
  - intros [?|[?|?]]; done.
  - intros q t Ht Hp. apply not_true_iff_false in H6'. apply H6', existsb_exists. exists (q, t). split; [by apply list_elem_of_In, elem_of_map_to_list|].
    by rewrite (bool_decide_eq_true_2 (p ∈ child_exit t)), orb_true_r.
Qed.
Lemma sane_free O k p : sane O k → referenced k p = false → sane O (set_sched (set_tasks (delete p (tasks (k_sched k))) (k_sched k)) k).
Proof.
  intros [[H1' H2' H3' H4' H5' H6' H7'] Hp] (Hnp & Hr & Hc)%referenced_not. split; [split|]; cbn; try done.
  - by apply (free_ok (k_sched k) p).
  - intros x Hx. apply lookup_delete_is_Some. split; [by intros ->|by apply H2'].
  - intros q t x [_ Ht]%lookup_delete_Some Hx. apply lookup_delete_is_Some. split; [intros ->; by apply (Hc q t Ht)|by eapply H3'].
  - intros q t [_ Ht]%lookup_delete_Some. by apply (H4' q).
Qed.
Lemma heals_foldr (g : Pid → K unit) l : (∀ q, heals (g q)) → heals (foldr (λ q m, g q;; m) (mret tt) l).
Proof. intros Hg. induction l as [|q l IH]; cbn; heal. Qed.
Lemma heals_drop_space o : heals (drop_space (S := S) (D := D) o).
Proof. unfold drop_space. heal. Qed.
Lemma heals_box_free o : heals (box_free (S := S) (D := D) o).
Proof. unfold box_free. heal. Qed.
#[local] Hint Resolve heals_drop_space heals_box_free : heals.
Lemma heals_drop_arc fuel : ∀ q, heals (drop_arc (S := S) (D := D) fuel q).
Proof.
  induction fuel as [|fuel IH]; intros q; cbn [drop_arc]; [heal|]. intros O k Hk. apply wlp_bind, wlp_get.
  destruct (tasks (k_sched k) !! q) as [t|] eqn:Ht; [|by apply wlp_ret]. destruct (referenced k q) eqn:Hr; [by apply wlp_ret|].
  apply wlp_bind, wlp_put. pose proof (λ l, heals_foldr _ l IH).
  assert (Hrest : heals (S := S) (D := D)
    (foldr (λ q m, drop_arc fuel q;; m) (mret tt) (child_exit t);; in_mem (frame_drop (kstack t));; drop_space (space (user t));;
     box_free (frame (user t));; foldr (λ q m, drop_arc fuel q;; m) (mret tt) (children (user t)))) by heal.
  apply Hrest. by apply sane_free.
Qed.

(** ** Calls *)
Lemma heals_current_space : heals (current_space (S := S) (D := D)).
Proof. unfold current_space. heal. Qed.
Lemma heals_scan p want : heals (scan_children (S := S) (D := D) p want).
Proof. unfold scan_children. heal. Qed.
Lemma heals_on_exit p : heals (on_exit (S := S) (D := D) p).
Proof. unfold on_exit. heal. Qed.
Lemma heals_brk p d : heals (adjust_brk (S := S) (D := D) p d).
Proof. unfold adjust_brk, grow_heap. heal. Qed.
Lemma heals_build image args : heals (build_image (S := S) (D := D) image args).
Proof. unfold build_image. heal. Qed.
Lemma heals_image_frame e usp ksp argc argv : heals (image_frame (S := S) (D := D) e usp ksp argc argv).
Proof. unfold image_frame, kernel_token. heal. Qed.
Lemma heals_box_new f : heals (box_new (S := S) (D := D) f).
Proof. unfold box_new. heal. Qed.
Lemma heals_activate tok : heals (activate (S := S) (D := D) tok).
Proof. unfold activate. heal. Qed.
End operations.
#[export] Hint Resolve heals_wait_enter heals_wait_leave heals_wake_all heals_switch_back heals_read_time heals_tick heals_uptime heals_external heals_take_input heals_drop_arc : heals.
#[export] Hint Resolve heals_drop_space heals_box_free heals_current_space heals_scan heals_on_exit heals_brk heals_build heals_image_frame heals_box_new heals_activate : heals.

(** ** Operations that return *)
(** The claim register of a hart's supervisor context. *)
Definition claim_reg (hart : Z) : Z := PLIC_BASE + (off.CLAIM + (2 * hart + 1) * off.CONTEXT_STRIDE) + VIRT_OFFSET.

(** What the kernel relies on: the interrupts that devices raise while they are
    serviced come to an end ([due] counts those that will still be claimed), and
    the clock has not run for fifty years. *)
Class Environment (D : Type) `{Bus D} `{Firmware D} := {
  due : D → nat;
  due_read a d : (due (read_volatile a d).2 ≤ due d)%nat;
  due_write a v d : (due (write_volatile a v d) ≤ due d)%nat;
  due_claim h d : 0 ≤ h < 2 ^ 16 → (read_volatile (claim_reg h) d).1 ≠ 0 → (due (read_volatile (claim_reg h) d).2 < due d)%nat;
  clock_bound d : 0 ≤ (rdtime d).1 < 2 ^ 54 }.

Section returns.
Context {S D : Type} `{FrameAllocator S, !FrameAllocatorLaws S} `{HU : UartProps.Uart16550 D} `{HF : Firmware D} `{!Environment D}.
Abbreviation Kst := (Kernel S D).
Abbreviation K := (ST Kst).
Implicit Types (k : Kst) (O : gmap Pid Z).

Lemma wp_in_sched_ret {A} (m : ST Sched A) k a s : m (k_sched k) = Ret (a, s) → wp (in_sched m) (λ a' k', a' = a ∧ k' = set_sched s k) k.
Proof. intros E. unfold wp, in_sched. by rewrite E. Qed.

(** ** Waking *)
Lemma wake_all_returns q O k : sane O k → wp (wake_all q) (λ _ k', sane O k' ∧ k_con k' = k_con k) k.
Proof.
  intros Hk. assert (Hw : wp (wake_all q) (λ _ k', k_con k' = k_con k) k).
  { unfold wake_all. wp_steps. assert (Hk1 : sane O (set_waiters q [] k)) by (apply sane_waiters; [done|by intros x ?%elem_of_nil]).
    eapply wp_mono; [|apply (wake_list_spec _ (set_waiters q [] k)); [apply Hk1|apply Hk1|]].
    - intros [] k' (_ & rq & ->). by destruct q.
    - apply Forall_forall. intros x Hx. pose proof (waiters_exist O k q x (proj1 Hk) Hx) as [t Ht].
      destruct q as [|c]; [by eexists|]. cbn. apply lookup_alter_is_Some. by eexists. }
  eapply wp_mono; [|apply (wp_wlp_conj _ _ _ _ Hw (heals_wake_all q O k Hk))]. intros [] k' []. done.
Qed.

(** ** Timer *)
Lemma tick_returns O k : sane O k → 0 ≤ next_deadline (k_timer k) < 2 ^ 63 → wp on_tick (λ _ _, True) k.
Proof.
  intros [Hk Hp] Hd. unfold on_tick. wp_steps. apply wp_in_sched. eapply wp_mono; [|apply tick_ok, (hy_sched _ _ Hk)]. intros [] s _.
  unfold read_time, set_deadline, set_timer. wp_steps. cbn [k_con set_sched set_timer_state].
  pose proof (clock_bound (Uart.dev (k_con k))) as Hc. destruct (rdtime (Uart.dev (k_con k))) as [now d]. cbn [fst] in Hc. wp_steps.
  cbn [k_timer set_con set_sched set_timer_state next_deadline].
  assert (Hi : 0 ≤ interval < 2 ^ 54) by done. eapply wp_lift; [apply u64_add_ok; unfold U64; lia|].
  wp_step. destruct (_ <=? _); [eapply wp_lift; [apply u64_add_ok; unfold U64; lia|]|wp_step]; wp_steps; destruct (ecall _ _ _ _ _ _); by wp_steps.
Qed.
Lemma uptime_returns k : wp (uptime_ms (S := S) (D := D)) (λ _ _, True) k.
Proof.
  unfold uptime_ms, read_time. wp_steps. pose proof (clock_bound (Uart.dev (k_con k))) as Hc. destruct (rdtime (Uart.dev (k_con k))) as [now d].
  cbn [fst] in Hc. wp_steps. eapply wp_lift; [apply u64_mul_ok; unfold U64; lia|]. by wp_steps.
Qed.

(** ** Device interrupts *)
Lemma due_get o u : 0 ≤ o < 8 → wlp (Uart.read (D := D) o) (λ _ u', (due (Uart.dev u') ≤ due (Uart.dev u))%nat) u.
Proof. intros Ho. apply wp_wlp, UartProps.wp_read; [done|]. intros v d E. cbn. pose proof (due_read (UartProps.uart_reg o) (Uart.dev u)) as Hd. by rewrite E in Hd. Qed.
Lemma due_drain fuel : ∀ n u, wlp (Uart.drain (D := D) fuel n) (λ _ u', (due (Uart.dev u') ≤ due (Uart.dev u))%nat) u.
Proof.
  assert (Hget : ∀ u, wlp (Uart.get_byte (D := D)) (λ _ u', (due (Uart.dev u') ≤ due (Uart.dev u))%nat) u).
  { intros u. unfold Uart.get_byte. apply wlp_bind. eapply wlp_mono; [|by apply due_get]. cbv beta. intros v u1 H1'. destruct (negb _); [|by apply wlp_ret].
    apply wlp_bind. eapply wlp_mono; [|by apply due_get]. cbv beta. intros w u2 H2'. apply wlp_ret. lia. }
  induction fuel as [|fuel IH]; intros n u; cbn [Uart.drain]; [by apply wlp_lift|]. apply wlp_bind. eapply wlp_mono; [|apply Hget].
  cbv beta. intros [byte|] u1 H1'; [|by apply wlp_ret]. do 3 wlp_step. apply wlp_lift. intros [ok r] _. wlp_step. wlp_step. destruct ok; [|apply wlp_ret; cbn; lia].
  apply wlp_bind, wlp_lift. intros m _. eapply wlp_mono; [|apply IH]. cbv beta. cbn. intros; lia.
Qed.

Lemma claim_offset_ok hart : 0 ≤ hart < 2 ^ 16 → context_reg off.CLAIM hart off.CONTEXT_STRIDE = Ret (off.CLAIM + (2 * hart + 1) * off.CONTEXT_STRIDE).
Proof.
  intros Hh. unfold context_reg, context, off.CLAIM, off.CONTEXT_STRIDE. rewrite u64_mul_ok by (unfold U64; lia). cbn.
  rewrite u64_add_ok by (unfold U64; lia). cbn. rewrite u64_mul_ok by (unfold U64; lia). cbn. by rewrite u64_add_ok by (unfold U64; lia).
Qed.
Lemma claim_addr_ok hart : 0 ≤ hart < 2 ^ 16 → plic_reg (off.CLAIM + (2 * hart + 1) * off.CONTEXT_STRIDE) = Ret (claim_reg hart).
Proof.
  intros Hh. unfold plic_reg, off.CLAIM, off.CONTEXT_STRIDE, PLIC_BASE. rewrite u64_add_ok by (unfold U64; lia). cbn. by rewrite phys_to_virt_ok by lia.
Qed.
Lemma claim_returns hart k : 0 ≤ hart < 2 ^ 16 → wp (claim hart) (λ o k', (due (Uart.dev (k_con k')) ≤ due (Uart.dev (k_con k)))%nat ∧
  (o ≠ None → (due (Uart.dev (k_con k')) < due (Uart.dev (k_con k)))%nat)) k.
Proof.
  intros Hh. unfold claim, plic_read. wp_steps. eapply wp_lift; [by apply claim_offset_ok|]. wp_steps. eapply wp_lift; [by apply claim_addr_ok|]. wp_steps.
  pose proof (due_read (claim_reg hart) (Uart.dev (k_con k))) as Hr. pose proof (due_claim hart (Uart.dev (k_con k)) Hh) as Hc.
  destruct (read_volatile (claim_reg hart) (Uart.dev (k_con k))) as [v d]. wp_steps. cbn in *. split; [done|].
  destruct (Z.eqb_spec v 0); [done|]. intros _. by apply Hc.
Qed.
Lemma complete_returns hart irq k : 0 ≤ hart < 2 ^ 16 → wp (complete hart irq) (λ _ k', (due (Uart.dev (k_con k')) ≤ due (Uart.dev (k_con k)))%nat) k.
Proof.
  intros Hh. unfold complete, plic_write. wp_steps. eapply wp_lift; [by apply claim_offset_ok|]. wp_steps. eapply wp_lift; [by apply claim_addr_ok|]. wp_steps.
  cbn. apply due_write.
Qed.
Lemma service_returns irq O k : sane O k → wp (service irq) (λ _ k', (due (Uart.dev (k_con k')) ≤ due (Uart.dev (k_con k)))%nat) k.
Proof.
  intros Hk. unfold service. destruct (irq =? UART_IRQ); [|by wp_step]. wp_step.
  assert (Hi : wp (in_con (S := S) (D := D) Uart.handle_interrupt) (λ _ k', (due (Uart.dev (k_con k')) ≤ due (Uart.dev (k_con k)))%nat) k).
  { apply wp_in_con. pose proof (hy_ring _ _ (proj1 Hk)) as Hr. pose proof (UartProps.ring_len_bound (Uart.rx_queue (k_con k))).
    eapply wp_mono; [|apply wp_wlp_conj; [apply UartProps.drain_spec; [done|..]|apply due_drain]]; [by intros n u [_ ?]|..];
      unfold UartProps.ROOM, Uart.CAP, U64 in *; lia. }
  eapply wp_mono; [|apply (wp_wlp_conj _ _ _ _ Hi (heals_handle_interrupt O k Hk))]. intros n k1 [Hd Hk1]. destruct (0 <? n); [|by wp_step].
  unfold notify_readers. eapply wp_mono; [|by apply (wake_all_returns READERS O)]. cbv beta. intros [] k2 [_ ->]. lia.
Qed.
Lemma external_returns irqs O k : sane O k → (due (Uart.dev (k_con k)) < irqs)%nat → wp (handle_external_interrupt irqs) (λ _ _, True) k.
Proof.
  intros Hk Hd. unfold handle_external_interrupt. wp_steps. pose proof (hy_hart _ _ (proj1 Hk)) as Hh. revert Hh. generalize (hart_id (k_hart k)). intros hart Hh.
  revert k Hk Hd. induction irqs as [|irqs IH]; intros k Hk Hd; [lia|]. cbn [claim_loop]. wp_step.
  assert (Hc : heals (claim (S := S) (D := D) hart)) by (unfold claim; pose proof (heals_plic_read (S := S) (D := D)); heal).
  assert (Hs : ∀ irq, heals (service (S := S) (D := D) irq)) by (intros; unfold service, notify_readers; pose proof (heals_handle_interrupt (S := S) (D := D)); heal).
  assert (Hf : ∀ irq, heals (complete (S := S) (D := D) hart irq)) by (intros; unfold complete; apply heals_plic_write).
  eapply wp_mono; [|apply (wp_wlp_conj _ _ _ _ (claim_returns hart k Hh) (Hc O k Hk))]. intros [irq|] k1 [[_ D1] Hk1]; [|by wp_step].
  specialize (D1 ltac:(done)). wp_step. eapply wp_mono; [|apply (wp_wlp_conj _ _ _ _ (service_returns irq O k1 Hk1) (Hs irq O k1 Hk1))].
  intros [] k2 [D2 Hk2]. wp_step. eapply wp_mono; [|apply (wp_wlp_conj _ _ _ _ (complete_returns hart irq k2 Hh) (Hf irq O k2 Hk2))].
  intros [] k3 [D3 Hk3]. apply IH; [done|lia].
Qed.

(** ** Releasing tasks

    A chain of releases is no longer than the number of tasks. *)
Abbreviation count k := (size (tasks (k_sched k))).
Lemma drop_opt_total X o k : wf (opt ISpace o ++ X) k →
  wp (drop_space (S := S) (D := D) o) (λ _ k', wf X k' ∧ k_sched k' = k_sched k) k.
Proof.
  destruct o as [sp|]; cbn; intros Hw; [|by apply wp_ret]. eapply wp_mono; [|by apply drop_space_total]. intros [] k' (? & _ & _ & E). split; [done|by rewrite E].
Qed.
Lemma box_opt_total X o k : wf (opt IBox o ++ X) k → wp (box_free (S := S) (D := D) o) (λ _ k', wf X k' ∧ k_sched k' = k_sched k) k.
Proof.
  intros Hw. assert (Hr : wp (box_free (S := S) (D := D) o) (λ _ k', k_sched k' = k_sched k) k) by (unfold box_free; destruct o; by wp_steps).
  eapply wp_mono; [|apply (wp_wlp_conj _ _ _ _ Hr (moves_box_opt X o k Hw))]. by intros [] k' [? [? _]].
Qed.
Lemma drop_arc_total fuel : ∀ q X k, wf X k → (count k < fuel)%nat → wp (drop_arc (S := S) (D := D) fuel q) (λ _ k', wf X k' ∧ (count k' ≤ count k)%nat) k.
Proof.
  induction fuel as [|fuel IH]; intros q X k Hw Hn; [lia|].
  assert (Hl : ∀ l X k, wf X k → (count k < fuel)%nat → wp (foldr (λ q m, drop_arc (S := S) (D := D) fuel q;; m) (mret tt) l) (λ _ k', wf X k' ∧ (count k' ≤ count k)%nat) k).
  { induction l as [|x l IHl]; intros X' k' Hw' Hn'; cbn; [by apply wp_ret|]. wp_step. eapply wp_mono; [|by apply IH]. intros [] k1 [Hw1 H1'].
    eapply wp_mono; [|apply IHl; [exact Hw1|lia]]. intros [] k2 [? ?]. split; [done|lia]. }
  cbn [drop_arc]. wp_steps. destruct (tasks (k_sched k) !! q) as [t|] eqn:Ht; [|by apply wp_ret]. destruct (referenced k q); [by apply wp_ret|]. wp_steps.
  destruct (wf_delete X k q t Hw Ht) as [Hw1 _]. set (k1 := set_sched _ k) in *.
  assert (H1' : Datatypes.S (count k1) = count k).
  { cbn. rewrite map_size_delete_Some by by eexists. assert (size (tasks (k_sched k)) ≠ 0%nat); [|lia].
    intros E%map_size_empty_inv. by rewrite E in Ht. }
  eapply wp_mono; [|apply (Hl (child_exit t) _ k1 Hw1); lia]. intros [] k2 [Hw2 H2']. wp_step. cbn [items app] in Hw2.
  eapply wp_mono; [|by apply drop_stack_total]. intros [] k3 (Hw3 & _ & _ & E3). wp_step. rewrite <- app_assoc in Hw3.
  eapply wp_mono; [|by apply drop_opt_total]. intros [] k4 [Hw4 E4]. wp_step. eapply wp_mono; [|by apply box_opt_total]. intros [] k5 [Hw5 E5].
  assert (H5' : count k5 = count k2) by (rewrite E5, E4, E3; done).
  eapply wp_mono; [|apply Hl; [exact Hw5|lia]]. intros [] k6 [? ?]. split; [done|lia].
Qed.
End returns.
