(* ===== verification/Survive.v ===== *)
(** * Calls come back

    A system call made in a healthy kernel does not panic: it returns, exits,
    or goes to sleep, and leaves the kernel healthy; a sleeper resumed in any
    healthy state does the same again. *)
From stdpp Require Import base numbers functions gmap list.
From coqutil Require Import Byte LittleEndianList.
From Stdlib Require Import Lia.
From S2P Require Import Prelude Memory Config Addr FrameIface FrameProps PageTable PageTableInv PageTableOps.
From S2P Require Import Space SpaceInv SpaceMap SpaceOps SpaceUser SpaceWrite SpaceProps Loader LoaderProps.
From S2P Require Import Device Trap Task Sched SchedProps Kernel Process Syscall ArgsProps ImageProps ProcessProps LifeProps SyscallProps.
From S2P Require Import FrameTypes Holdings Isolation CallIsolation TrapIsolation Health.
From S2P Require Uart UartProps.

#[local] Hint Resolve keeps_enable keeps_disable keeps_vector keeps_sip keeps_activate keeps_switch_back keeps_switch keeps_resched_if : typed.
#[local] Hint Resolve keeps_wait_enter keeps_wait_leave keeps_wake_all keeps_drop_arc keeps_tick keeps_uptime keeps_external : typed.
#[local] Hint Resolve keeps_exec keeps_fork keeps_brk keeps_exit keeps_space keeps_take_input keeps_read_argv : typed.

Section survive.
Context {S D : Type} `{FrameAllocator S, !FrameAllocatorLaws S} `{HU : UartProps.Uart16550 D} `{HF : Firmware D} `{!Environment D}.
Abbreviation Kst := (Kernel S D).
Abbreviation K := (ST Kst).
Implicit Types (k : Kst) (O : gmap Pid Z).
Context (p : Pid) (b : Z).

(** [p] runs, in a healthy kernel, with its trap frame in box [b]. *)
Record fit O k : Prop := {
  fi_alive : alive p b k;
  fi_healthy : healthy O k;
  fi_typed : kernel_typed k;
  fi_box : O !! p = Some b }.

Lemma fit_sane O k : fit O k → sane O k.
Proof. intros [Ha Hh _ _]. split; [done|]. apply (so_switch _ (hy_sched _ _ Hh)). rewrite (al_current _ _ _ Ha). by eexists. Qed.
Lemma fit_task O k : fit O k → ∃ t, tasks (k_sched k) !! p = Some t ∧ frame (user t) = Some b ∧ is_Some (live (k_boxes k) !! b).
Proof.
  intros [Ha Hh _ Hb]. destruct (al_runs _ _ _ Ha) as (t & Ht & _). exists t. split; [done|]. destruct (hy_frame _ _ Hh p t Ht) as [_ Hf].
  split; [by apply Hf|]. apply (wf_items _ _ (al_wf _ _ _ Ha) (IBox b)). eapply world_task; [exact Ht|apply frame_item]. by apply Hf.
Qed.

Definition sure {A} (m : K A) (P : A → Kst → Prop) : Prop := ∀ O k, fit O k → wp m (λ a k', fit O k' ∧ P a k') k.
Abbreviation keeps m := (gives m (λ _, True)).

Lemma fit_next {A} (m : K A) P O k : wlp m (λ _ k', alive p b k') k → wlp m (λ _ k', sane O k') k → keeps m → fit O k → wp m P k →
  wp m (λ a k', fit O k' ∧ P a k') k.
Proof.
  intros Ha Hh Ht Hk Hw. eapply wp_mono; [|apply wp_wlp_conj; [apply wp_wlp_conj; [apply wp_wlp_conj; [exact Hw|exact Ha]|]|]].
  2: exact Hh. 2: exact (Ht k (fi_typed _ _ Hk)).
  cbv beta. intros a k' [[[HP Ha'] [Hh' _]] [Ht' _]]. split; [|done]. split; [done|done|done|apply Hk].
Qed.
Lemma fit_via {A} (m : K A) P O k : wlp m (λ _ k', alive p b k') k → keeps m → fit O k → wp m (λ a k', sane O k' ∧ P a k') k →
  wp m (λ a k', fit O k' ∧ P a k') k.
Proof.
  intros Ha Ht Hk Hw. apply fit_next; [done| |done|done|eapply wp_mono; [|exact Hw]; by cbv beta; intros ? ? [_ ?]].
  eapply wlp_mono; [|apply wp_wlp, Hw]. by cbv beta; intros ? ? [? _].
Qed.
Lemma sure_intro {A} (m : K A) Q P : does p b m Q → heals m → keeps m → (∀ O k, fit O k → wp m P k) → sure m P.
Proof.
  intros Ha Hh Ht Hw O k Hk. apply fit_next; [|by apply Hh, fit_sane|done|done|by eapply Hw]. eapply wlp_mono; [|apply Ha, Hk]. by cbv beta; intros a k' [? _].
Qed.
Lemma sure_still {A} (m : K A) P : still m → heals m → keeps m → (∀ O k, fit O k → wp m P k) → sure m P.
Proof. intros Hs. by apply (sure_intro m (λ _, True)), does_still. Qed.
Lemma sure_weaken {A} (m : K A) (P Q : A → Kst → Prop) : (∀ a k, P a k → Q a k) → sure m P → sure m Q.
Proof. intros HP Hm O k Hk. eapply wp_mono; [|by apply Hm]. cbv beta. intros a k' []. split; [done|by apply HP]. Qed.

(** Edits of a task that change nothing it holds. *)
Lemma upd_fit q g O k : (∀ t, res (g t) = res t) → same_sched g → (∀ t, links (g t) = links t) → fit O k →
  wp (in_sched (upd_task q g)) (λ _ k', fit O k' ∧ k' = put_task q g k) k.
Proof.
  intros Hr Hs Hl Hk. apply fit_next; [|by apply heals_sched, fit_sane; [apply sober_upd|]|ty|done|by eapply wp_of_run; [apply upd_task_run|]].
  eapply wlp_mono; [|apply (does_still p b _ (still_sched _ (mild_upd q g Hr)) k), Hk]. by cbv beta; intros ? ? [? _].
Qed.

(** ** Handlers *)

(** Where a handler ends: it returned with [p] still running, or gave up the
    processor. *)
Record landed {A} O (pr : prog S D A) k : Prop := {
  ld_wf : wf [] k;
  ld_healthy : healthy O k;
  ld_typed : kernel_typed k;
  ld_current : match pr with Done _ => alive p b k | _ => current (k_sched k) = None end }.

(** A sleeper that can be resumed [n] times, each time from any healthy state. *)
Fixpoint survives {A} (n : nat) (pr : prog S D A) : Prop :=
  match pr, n with
  | Away r, Datatypes.S n => ∀ O k, fit O k → wp r (λ pr' k', landed O pr' k' ∧ survives n pr') k
  | _, _ => True
  end.
Definition lasts {A} (n : nat) (m : K (prog S D A)) : Prop := ∀ O k, fit O k → wp m (λ pr k', landed O pr k' ∧ survives n pr) k.

Lemma survives_le {A} n : ∀ n' (pr : prog S D A), (n' ≤ n)%nat → survives n pr → survives n' pr.
Proof.
  induction n as [|n IH]; intros [|n'] pr Hn; [done|lia|by destruct pr|]. destruct pr as [|r|]; [done| |done]. cbn. intros Hr O k Hk.
  eapply wp_mono; [|by apply (Hr O)]. cbv beta. intros pr' k' []. split; [done|]. apply IH; [lia|done].
Qed.
Lemma lasts_done {A} n (a : A) : lasts n (done (S := S) (D := D) a).
Proof. intros O k Hk. apply wp_ret. split; [|by destruct n]. split; [apply Hk|apply Hk|apply Hk|apply Hk]. Qed.
Lemma lasts_bind {A B} n (m : K A) (f : A → K (prog S D B)) P : sure m P →
  (∀ a O k, fit O k → P a k → wp (f a) (λ pr k', landed O pr k' ∧ survives n pr) k) → lasts n (m ≫= f).
Proof. intros Hm Hf O k Hk. apply wp_bind. eapply wp_mono; [|by apply Hm]. cbv beta. intros a k' [Hk' HP]. by apply Hf. Qed.
Lemma lasts_then {A B} n (m : K A) (f : A → K (prog S D B)) P : sure m P → (∀ a, lasts n (f a)) → lasts n (m ≫= f).
Proof. intros Hm Hf. eapply lasts_bind; [exact Hm|]. intros a O k Hk _. by apply Hf. Qed.

(** Looking at the state. *)
Lemma wp_same {A B} (m : K A) (f : A → K B) P Q k : reads k m P → wp m (λ _ _, True) k → (∀ a, P a → wp (f a) Q k) → wp (m ≫= f) Q k.
Proof.
  intros Hr Hw Hf. apply wp_bind. eapply wp_mono; [|apply (wp_wlp_conj _ _ _ _ Hw Hr)]. cbv beta. intros a k' [_ [-> Ha]]. by apply Hf.
Qed.
Lemma wp_current O k : fit O k → wp (in_sched current_task) (λ a k', a = p ∧ k' = k) k.
Proof.
  intros Hk. apply wp_in_sched. unfold current_task. wp_steps. rewrite (al_current _ _ _ (fi_alive _ _ Hk)). eapply wp_lift; [done|].
  by destruct k.
Qed.
Lemma wp_current_bind {B} (f : Pid → K B) Q O k : fit O k → wp (f p) Q k → wp (in_sched current_task ≫= f) Q k.
Proof. intros Hk Hf. apply wp_bind. eapply wp_mono; [|by apply (wp_current O)]. cbv beta. by intros a k' [-> ->]. Qed.
Lemma wp_task_bind {B} (f : Task → K B) Q q k : is_Some (tasks (k_sched k) !! q) → (∀ t, tasks (k_sched k) !! q = Some t → wp (f t) Q k) →
  wp (in_sched (get_task q) ≫= f) Q k.
Proof. intros [t Ht] Hf. wp_step. apply (wp_get_task_k q t); [done|]. by apply Hf. Qed.
Lemma wp_space_bind {B} (f : option AddressSpace → K B) Q O k : fit O k →
  (∀ o, (∀ sp, o = Some sp → holds_space p sp k) → wp (f o) Q k) → wp (current_space ≫= f) Q k.
Proof.
  intros Hk Hf. unfold current_space. wp_step. apply (wp_current_bind _ _ O); [done|]. destruct (fit_task O k Hk) as (t & Ht & _).
  apply wp_task_bind; [by eexists|]. intros t' Ht'. apply wp_ret, Hf. intros sp Hsp. by exists t'.
Qed.

(** ** Giving up the processor *)
Lemma switch_links intact st s : wlp (switch_out intact st) (λ _ s', next_pid s' = next_pid s ∧ links <$> tasks s' = links <$> tasks s) s.
Proof. unfold switch_out, get_task, upd_task. wlp_steps. destruct (intact _); wlp_steps; [|done]. split; [done|]. by apply links_alter. Qed.
Lemma switch_lands st O k : fit O k → st ≠ Running →
  wp (switch_to_idle st) (λ _ k', wf [] k' ∧ healthy O k' ∧ kernel_typed k' ∧ current (k_sched k') = None) k.
Proof.
  intros Hk Hst. pose proof Hk as [Ha Hh Ht Hb].
  assert (Hw : wp (switch_to_idle (S := S) (D := D) st) (λ _ k', healthy O k') k).
  { unfold switch_to_idle, on_hart. wp_steps. apply wp_in_sched. cbn [k_sched set_hart].
    eapply wp_mono; [|apply wp_wlp_conj; [apply (switch_out_ok (k_sched k) (hy_sched _ _ Hh) _ st p (al_current _ _ _ Ha) Hst)|apply switch_links]].
    - intros [] s [[Hok _] [Hn Hl]]. wp_step. apply (healthy_links O (set_hart (intr_disable (k_hart k)) k)); [by destruct Hh|done|done|done].
    - intros t Htt. destruct (wf_items _ _ (al_wf _ _ _ Ha) (IStack (kstack t))) as [(_ & _ & Hc) _]; [|done].
      eapply world_task; [exact Htt|left]. }
  eapply wp_mono; [|apply wp_wlp_conj; [apply (wp_wlp_conj _ _ _ _ Hw (ends_quits p b _ (quits_switch st) k Ha))|apply (keeps_switch st k Ht)]].
  cbv beta. by intros w k' [[? (? & _ & ?)] [? _]].
Qed.

Lemma sure_switch_back w : sure (switch_back w) (λ _ _, True).
Proof. apply sure_still; [still|heal|ty|]. intros O k _. unfold switch_back, on_hart. destruct w; by wp_steps. Qed.
Lemma survives_away {A} n w (m : K (prog S D A)) : (∀ n', n = Datatypes.S n' → lasts n' m) → survives n (Away (λ k, (switch_back w;; m) k)).
Proof.
  intros Hm. destruct n as [|n]; [done|]. cbn. intros O k Hk. assert (Hl : lasts n (switch_back w;; m)); [|by apply Hl].
  eapply lasts_then; [apply sure_switch_back|]. intros _. by apply Hm.
Qed.
Lemma lasts_switch {A} n st (m : K (prog S D A)) : st ≠ Running → (∀ n', n = Datatypes.S n' → lasts n' m) → lasts n (away (switch_to_idle st) m).
Proof.
  intros Hst Hm O k Hk. unfold away. wp_step. eapply wp_mono; [|by apply (switch_lands st O)]. cbv beta. intros w k' (? & ? & ? & ?).
  apply wp_ret. split; [done|by apply survives_away].
Qed.
Lemma lasts_wait {A} n q (m : K (prog S D A)) : (∀ n', n = Datatypes.S n' → lasts n' m) → lasts n (wait q m).
Proof.
  intros Hm. unfold wait. eapply lasts_then; [apply (sure_still _ (λ _ _, True)); [still|heal|ty|]|].
  - intros O k Hk. unfold wait_enter. apply (wp_current_bind _ _ O); [done|]. by wp_steps.
  - intros q'. apply lasts_switch; [done|]. intros n' ->. eapply lasts_then; [|intros _; by apply Hm].
    apply (sure_still _ (λ _ _, True)); [still|heal|ty|]. intros O k Hk. unfold wait_leave. by wp_steps.
Qed.
Lemma lasts_wait_until {A} fuel q c (m : K (prog S D A)) : (∀ n, lasts n m) → ∀ n, (n < fuel)%nat → lasts n (wait_until fuel q c m).
Proof.
  intros Hm. induction fuel as [|fuel IH]; intros n Hn; [lia|]. cbn [wait_until]. intros O k Hk. wp_steps.
  destruct (c k); [by apply Hm|]. apply lasts_wait; [|done]. intros n' ->. apply IH. lia.
Qed.
Lemma landed_fit {A} O (a : A) k : landed O (Done a) k → O !! p = Some b → fit O k.
Proof. intros [_ ? ? ?] ?. by split. Qed.
Lemma survives_pbind {A B} (f : A → K (prog S D B)) : (∀ n a, lasts n (f a)) → ∀ n pr O k, landed O pr k → O !! p = Some b → survives n pr →
  wp (pbind pr f) (λ pr' k', landed O pr' k' ∧ survives n pr') k.
Proof.
  intros Hf. induction n as [|n IH]; intros pr O k Hl Hb Hs; (destruct pr as [a|r|]; cbn [pbind]; [apply Hf; by eapply landed_fit| |]);
    apply wp_ret; destruct Hl as [L1 L2 L3 L4]; (split; [by split|]); [done|done| |done].
  intros O' k' Hk'. specialize (Hs O' k' Hk'). unfold wp in *. destruct (r k') as [[pr' k1]|]; [|done]. destruct Hs as [Hl1 Hs1].
  apply (IH pr' O' k1 Hl1 (fi_box _ _ Hk') Hs1).
Qed.
Lemma lasts_pbind_at {A B} n (m : K (prog S D A)) (f : A → K (prog S D B)) O k : wp m (λ pr k', landed O pr k' ∧ survives n pr) k →
  (∀ n a, lasts n (f a)) → O !! p = Some b → wp (r ← m; pbind r f) (λ pr k', landed O pr k' ∧ survives n pr) k.
Proof. intros Hm Hf Hb. wp_step. eapply wp_mono; [|exact Hm]. cbv beta. intros pr k' [? ?]. by apply survives_pbind. Qed.

(** ** Console *)
Lemma lasts_write n poll fd ptr len : (UartProps.thr_max < poll)%nat → 0 ≤ ptr → lasts n (sys_write poll fd ptr len).
Proof.
  intros Hpoll Hptr. unfold sys_write. destruct (_ && _); [apply lasts_done|]. intros O k Hk. unfold read_user_buf.
  destruct (_ || _); [wp_steps; by apply lasts_done|]. wp_step. apply (wp_space_bind _ _ O); [done|]. intros [sp|] Hsp; [|wp_steps; by apply lasts_done].
  wp_step. apply wp_in_mem. pose proof (space_held p sp k (al_wf _ _ _ (fi_alive _ _ Hk)) (Hsp _ eq_refl)) as Hok.
  destruct (copy_from_user_loaded _ sp ptr (replicate (Z.to_nat len) x00) (k_mem k) Hok Hptr) as (r & buf & Hrun & _).
  eapply wp_of_run; [exact Hrun|]. assert (set_mem (k_mem k) k = k) as -> by by destruct k. cbv beta iota. wp_step.
  destruct r as [[]|]; [|by apply lasts_done].
  assert (Hl : lasts n (in_con (Uart.write_bytes poll (byte_z <$> buf));; done (as_isize len))); [|by apply Hl].
  eapply lasts_then; [|intros _; apply lasts_done]. apply (sure_still _ (λ _ _, True)); [still|by apply heals_write_bytes|ty|].
  intros O' k' Hk'. apply wp_in_con. eapply wp_true, UartProps.write_bytes_spec. done.
Qed.

(** Storing in the caller's memory. *)
Lemma copy_out_fit O k sp ptr l : fit O k → holds_space p sp k → 0 ≤ ptr → wp (in_mem (copy_to_user sp ptr l)) (λ _ k', fit O k') k.
Proof.
  intros Hk Hs Hptr. pose proof (copy_out_spec p b sp ptr l k (fi_alive _ _ Hk) Hs Hptr) as Hw.
  eapply wp_mono; [|apply (fit_next _ (λ _ _, True) O k); [|by apply heals_mem, fit_sane|ty|done|by eapply wp_true]]; [by intros ? ? [? _]|].
  eapply wlp_mono; [|apply wp_wlp, Hw]. by cbv beta; intros ? ? [? _].
Qed.
Lemma lasts_read n wakes fd ptr len : (n < wakes)%nat → 0 ≤ ptr → lasts n (sys_read wakes fd ptr len).
Proof.
  intros Hn Hptr. unfold sys_read. destruct (negb _); [apply lasts_done|]. destruct (len =? 0); [apply lasts_done|].
  destruct (_ || _); [apply lasts_done|]. apply lasts_wait_until; [|done]. clear n Hn. intros n.
  eapply lasts_then; [apply (sure_still _ (λ _ _, True)); [apply still_take_input|heal|ty|]|].
  { intros O k Hk. eapply wp_true, take_input_spec. apply (hy_ring _ _ (fi_healthy _ _ Hk)). }
  intros buf O k Hk. apply (wp_space_bind _ _ O); [done|]. intros [sp|] Hsp; [|by apply lasts_done]. wp_step.
  eapply wp_mono; [|apply (copy_out_fit O k sp ptr); [done|by apply Hsp|done]]. cbv beta. intros [[]|] k' Hk'; by apply lasts_done.
Qed.
Lemma lasts_getpid n : lasts n (sys_getpid (S := S) (D := D)).
Proof. intros O k Hk. apply (wp_current_bind _ _ O); [done|]. by apply lasts_done. Qed.
Lemma lasts_getppid n : lasts n (sys_getppid (S := S) (D := D)).
Proof.
  intros O k Hk. apply (wp_current_bind _ _ O); [done|]. destruct (fit_task O k Hk) as (t & Ht & _).
  apply wp_task_bind; [by eexists|]. intros t' _. wp_steps. by apply lasts_done.
Qed.

(** ** The process the caller is *)
Lemma stack_top_ok f k : wf [] k → IStack f ∈ world [] k → stack_top f = Ret (page_base (f_ppn f + 8)).
Proof.
  intros Hw Hi. destruct (wf_items _ _ Hw _ Hi) as [(Ho & _ & _) Hu]. destruct (Hu (f_ppn f)) as [Hf _]; [lia|].
  destruct (Hu (f_ppn f + 7)) as [Hf7 _]; [lia|]. pose proof (fa_used_top _ _ (ko_mem _ (wf_ok _ _ Hw)) Hf7).
  pose proof (fa_used_top _ _ (ko_mem _ (wf_ok _ _ Hw)) Hf). destruct f as [q o]. cbn [f_ppn f_order] in *. subst o.
  unfold stack_top, stack_bottom. cbn [f_ppn f_order]. rewrite as_ptr_eq by (cbn [f_ppn]; lia). change (1 <<! 3) with (Ret 8). cbn [mbind outcome_bind].
  rewrite u64_mul_ok by done. cbn [mbind outcome_bind]. rewrite u64_add_ok; [f_equal; unfold page_base, PAGE_SIZE; cbn [f_ppn]; lia|].
  unfold page_base, PAGE_SIZE, VIRT_OFFSET, U64. cbn [f_ppn]. lia.
Qed.
Lemma fit_process O k t sp : fit O k → tasks (k_sched k) !! p = Some t → space (user t) = Some sp → ∃ ksp, process k p t sp ksp.
Proof.
  intros Hk Ht Hsp. destruct (fit_task O k Hk) as (t' & Ht' & Hf & Hl). rewrite Ht in Ht'. injection Ht' as <-.
  pose proof (al_wf _ _ _ (fi_alive _ _ Hk)) as Hw. eexists. split; [done|done| |by exists b|].
  - apply (space_held p sp k Hw). by exists t.
  - eapply stack_top_ok; [exact Hw|]. eapply world_task; [exact Ht|left].
Qed.
End survive.

(** ** System calls that are handled *)
Section calls.
Context {S D : Type} `{FrameAllocator S, !FrameAllocatorLaws S} `{HU : UartProps.Uart16550 D} `{HF : Firmware D} `{!Environment D}.
Abbreviation Kst := (Kernel S D).
Abbreviation K := (ST Kst).
Implicit Types (k : Kst) (O : gmap Pid Z).

(** Pids and the count of spawned tasks have not run out. *)
Definition room k : Prop := 0 ≤ next_pid (k_sched k) < U64 - 1 ∧ spawned (run_queue (k_sched k)) + 1 < U64.

(** ** New tasks *)
Lemma sane_new O k t : sane O k → 0 ≤ next_pid (k_sched k) < U64 - 1 → sched t = SchedInfo_new → child_exit t = [] → is_Some (frame (user t)) →
  let s := k_sched k in
  let s' := mkS (<[next_pid s := t]> (tasks s)) (wrapping_add (next_pid s) 1) (run_queue s) (current s) (previous s) (all_tasks s) in
  sane O (set_sched s' k).
Proof.
  intros [[H1' H2' H3' H4' H5' H6' H7'] Hp] Hn Ht He Hf s s'.
  pose proof (wp_ret_inv _ _ _ _ _ (eq_refl : (p ← alloc_pid; arc_new p t;; mret p) s = Ret (next_pid s, s'))
    (arc_new_ok s t H1' Ht ltac:(unfold s; lia))) as [Hok _].
  assert (Hnext : wrapping_add (next_pid s) 1 = next_pid s + 1) by (unfold wrapping_add; apply Z.mod_small; unfold s; lia).
  assert (HO : O !! next_pid s = None) by (apply eq_None_not_Some; intros ?%H5'; unfold s in *; lia).
  split; [split|]; cbn; try done.
  - intros x Hx. apply lookup_insert_is_Some'. right. by apply H2'.
  - intros q u x [[<- <-]|[_ Hu]]%lookup_insert_Some Hx; [by rewrite He in Hx; apply elem_of_nil in Hx|].
    apply lookup_insert_is_Some'. right. by eapply H3'.
  - intros q u [[<- <-]|[_ Hu]]%lookup_insert_Some; [split; [done|]; fold s; by rewrite HO|by apply (H4' q)].
  - intros q Hq. rewrite Hnext. pose proof (H5' q Hq). unfold s. lia.
Qed.
Lemma sane_fork O entry q t sp ksp f c k k' : sane O k → 0 ≤ next_pid (k_sched k) < U64 - 1 → forked entry k q t sp ksp f c k' → sane O k'.
Proof.
  intros Hk Hn Hf. destruct (fk_child _ _ _ _ _ _ _ _ _ Hf) as (csp & cks & cksp & cb & fc & Et & _). rewrite (fk_frame _ _ _ _ _ _ _ _ _ Hf).
  rewrite (fk_pid _ _ _ _ _ _ _ _ _ Hf) in *. eapply sane_same; [| | | |eapply (sane_new O k _ Hk Hn)]; cbn; [by rewrite Et|done..|by eexists].
Qed.

Section own.
Context (p : Pid) (b : Z).
Abbreviation ok n O := (λ pr k', landed p b O pr k' ∧ survives p b n pr).

Lemma fork_fit entry f O k : fit p b O k → frame_typed f → room k →
  wp (fork_from entry p f) (λ o k', fit p b O k' ∧ ∀ c, o = Some c → is_Some (tasks (k_sched k') !! c) ∧
    (c ∉ all_tasks (k_sched k')) ∧ spawned (run_queue (k_sched k')) + 1 < U64) k.
Proof.
  intros Hk Hf [Hn Hsp]. destruct (fit_task p b O k Hk) as (t & Ht & Hfr & _). pose proof (fit_sane p b O k Hk) as Hsane.
  assert (Hw : wp (fork_from entry p f) (λ o k', sane O k' ∧ ∀ c, o = Some c → is_Some (tasks (k_sched k') !! c) ∧
    (c ∉ all_tasks (k_sched k')) ∧ spawned (run_queue (k_sched k')) + 1 < U64) k).
  { destruct (space (user t)) as [sp|] eqn:Es.
    2: { unfold fork_from. apply wp_task_bind; [by eexists|]. intros t' Ht'. rewrite Ht in Ht'. injection Ht' as <-. rewrite Es. by apply wp_ret. }
    destruct (fit_process p b O k t sp Hk Ht Es) as [ksp Hp].
    eapply wp_mono; [|apply (fork_from_spec entry p t sp ksp f k); [apply wf_ok with [], Hk|done|apply Hf|lia]].
    intros [c|] k'.
    - intros Hfk. split; [by eapply sane_fork|]. intros c' [= <-]. pose proof (fk_pid _ _ _ _ _ _ _ _ _ Hfk) as ->.
      destruct (fk_child _ _ _ _ _ _ _ _ _ Hfk) as (csp & cks & cksp & cb & fc & Et & _). rewrite (fk_frame _ _ _ _ _ _ _ _ _ Hfk). cbn. rewrite Et.
      split_and!; [rewrite lookup_insert_eq; by eexists| |done]. intros Ha. pose proof (so_pids _ (hy_sched _ _ (proj1 Hsane)) _ (or_introl Ha)). lia.
    - intros [-> _]. split; [by apply (sane_same O k)|done]. }
  apply fit_via; [|by apply keeps_fork|done|exact Hw].
  eapply wlp_mono; [|apply (fork_spec p b entry f k (fi_alive _ _ _ _ Hk)); lia]. by cbv beta; intros ? ? [? _].
Qed.
Lemma admit_fit c O k : fit p b O k → is_Some (tasks (k_sched k) !! c) → c ∉ all_tasks (k_sched k) → spawned (run_queue (k_sched k)) + 1 < U64 →
  wp (in_sched (admit_task c)) (λ _ k', fit p b O k') k.
Proof.
  intros Hk Hc Ha Hs. pose proof (fit_sane p b O k Hk) as Hsane.
  eapply wp_mono; [|apply (fit_via p b _ (λ _ _, True)); [|ty|done|]]; [by intros ? ? [? _]|..].
  - eapply wlp_mono; [|apply (does_still p b _ (still_sched _ (mild_admit c)) k), Hk]. by cbv beta; intros ? ? [? _].
  - apply wp_in_sched. eapply wp_mono; [|apply wp_wlp_conj; [by apply (admit_ok (k_sched k) c); [apply Hsane|..]|apply linked_admit]].
    intros [] s' [? ?]. split; [by apply sane_tied|done].
Qed.
Lemma survive_fork n entry f O k : fit p b O k → frame_typed f → room k → wp (sys_fork entry f) (ok n O) k.
Proof.
  intros Hk Hf Hr. unfold sys_fork. apply (wp_current_bind p b _ _ O); [done|]. wp_step. eapply wp_mono; [|by apply fork_fit].
  cbv beta. intros [c|] k1 [Hk1 Hc]; [|by apply lasts_done]. destruct (Hc c eq_refl) as (C1 & C2 & C3). wp_step.
  eapply wp_mono; [|apply (upd_fit p b p (with_user (add_child c)) O k1); done]. intros [] k2 [Hk2 E2]. wp_step.
  eapply wp_mono; [|apply (admit_fit c O k2 Hk2); rewrite E2; [by apply lookup_alter_is_Some|done|done]]. intros [] k3 Hk3. by apply lasts_done.
Qed.

(** ** [waitpid] *)
Lemma find_zombie_some s want l c : find_zombie s want l = Some c → is_Some (tasks s !! c).
Proof.
  induction l as [|x l IH]; cbn; [done|]. destruct (matches want x && _) eqn:E; [|done]. intros [= <-].
  apply andb_true_iff in E as [_ E%bool_decide_eq_true]. destruct (tasks s !! x); [by eexists|done].
Qed.
Lemma scan_fit want O k : fit p b O k → wp (scan_children p want) (λ '(o, _) k', fit p b O k' ∧ ∀ c, o = Some c → is_Some (tasks (k_sched k') !! c)) k.
Proof.
  intros Hk. destruct (fit_task p b O k Hk) as (t & Ht & _). unfold scan_children. apply wp_task_bind; [by eexists|]. intros t' _. wp_steps.
  destruct (find_zombie _ _ _) as [c|] eqn:Hz; [|by apply wp_ret]. wp_step.
  eapply wp_mono; [|apply (upd_fit p b p (with_user (set_children (remove_first c (children (user t'))))) O k); done]. intros [] k1 [Hk1 ->]. apply wp_ret.
  split; [done|]. intros c' [= <-]. cbn. apply lookup_alter_is_Some. by eapply find_zombie_some.
Qed.
Lemma drop_fit c O k : fit p b O k → wp (drop_arc (Datatypes.S (size (tasks (k_sched k)))) c) (λ _ k', fit p b O k') k.
Proof.
  intros Hk. eapply wp_mono; [|apply (fit_next p b _ (λ _ _, True)); [|by apply heals_drop_arc, fit_sane with p b|ty|done|]]; [by intros ? ? [? _]|..].
  - eapply wlp_mono; [|apply (does_moves p b _ (moves_drop_arc _ c []) k), Hk]. by cbv beta; intros ? ? [? _].
  - eapply wp_true, (drop_arc_total _ c []); [apply Hk|lia].
Qed.
Lemma survive_reap n c ptr O k : 0 ≤ ptr → fit p b O k → is_Some (tasks (k_sched k) !! c) → wp (reap p c ptr) (ok n O) k.
Proof.
  intros Hptr Hk [t Ht]. unfold reap. wp_step. apply wp_in_sched. unfold task_exit_code. wp_step. apply (wp_get_task c t); [done|]. wp_step.
  assert (set_sched (k_sched k) k = k) as -> by by destruct k. wp_step.
  apply (wp_mono _ (λ _ k', fit p b O k')); [intros [] k1 Hk1; wp_steps; eapply wp_mono; [|by apply drop_fit]; intros [] k2 Hk2; by apply lasts_done|].
  destruct (ptr =? 0); [by apply wp_ret|]. apply (wp_space_bind p b _ _ O); [done|]. intros [sp|] Hsp; [|by apply wp_ret]. wp_step.
  eapply wp_mono; [|apply (copy_out_fit p b O k sp ptr); [done|by apply Hsp|done]]. intros r k1 Hk1. by apply wp_ret.
Qed.
Lemma lasts_waitpid want ptr wakes : 0 ≤ ptr → ∀ n, (n < wakes)%nat → lasts p b n (sys_waitpid (S := S) (D := D) wakes want ptr).
Proof.
  intros Hptr. induction wakes as [|wakes IH]; intros n Hn; [lia|]. cbn [sys_waitpid]. intros O k Hk. apply (wp_current_bind p b _ _ O); [done|]. wp_step.
  eapply wp_mono; [|by apply scan_fit]. intros [[c|] any] k1 [Hk1 Hc]; [apply survive_reap; [done|done|by apply Hc]|].
  destruct (negb any); [by apply lasts_done|]. apply (lasts_wait p b); [|done]. intros n' ->. apply IH. lia.
Qed.

(** ** [sbrk] *)
Lemma brk_returns delta O k : fit p b O k → wp (adjust_brk p delta) (λ _ _, True) k.
Proof.
  intros Hk. destruct (fit_task p b O k Hk) as (t & Ht & _). pose proof (al_wf _ _ _ (fi_alive _ _ _ _ Hk)) as Hw. unfold adjust_brk.
  apply wp_task_bind; [by eexists|]. intros t' Ht'. rewrite Ht in Ht'. injection Ht' as <-. destruct (delta =? 0); [by apply wp_ret|].
  destruct (checked_add_signed (brk (user t)) delta) as [new|]; [|by apply wp_ret].
  destruct (negb _) eqn:Hrange; [by apply wp_ret|]. apply negb_false_iff, andb_true_iff in Hrange as [Hlo%Z.leb_le Hhi%Z.ltb_lt].
  destruct (Z.ltb_spec (heap_top (user t)) new) as [Hlt|Hge]; [|wp_step; apply wp_in_sched; unfold upd_task; by wp_steps].
  wp_step. apply (wp_mono _ (λ _ _, True)).
  { intros [to|] k1 _; [wp_step; apply wp_in_sched; unfold upd_task; by wp_steps|by apply wp_ret]. }
  unfold grow_heap. destruct (space (user t)) as [sp|] eqn:Hsp.
  2: { wp_step. destruct (next_multiple_of_spec new PAGE_SIZE) as (to & Hto & _); [done|unfold U64, PAGE_SIZE, USER_MAX_ADDR, USER_HEAP_BASE in *; lia|].
       eapply wp_lift; [exact Hto|]. by apply wp_ret. }
  pose proof (wf_user _ _ Hw p t sp Ht Hsp) as Hu. pose proof (uo_heap _ _ _ Hu) as [T1 [T2 _] _].
  destruct (heap_region USER_MAX_ADDR (heap_top (user t)) new) as (to & r & R1 & R2 & R3 & R4 & R5 & R6 & R7 & R8 & R9);
    [by exists 67108864|done|done|lia|lia|]. wp_step. eapply wp_lift; [exact R1|]. wp_step. eapply wp_lift; [exact R5|]. wp_step. apply wp_in_mem.
  eapply wp_mono; [|apply (push_ok (kernel_tables (k_space k)) sp r (k_mem k)); [|done|done]].
  - intros [res sp'] s' _. wp_step. apply wp_in_sched. unfold upd_task. wp_steps. by destruct res; apply wp_ret.
  - apply (space_held p sp k Hw). by exists t.
Qed.
Lemma survive_sbrk n delta O k : fit p b O k → sbrk_clean p delta k → wp (sys_sbrk delta) (ok n O) k.
Proof.
  intros Hk Hcl. unfold sys_sbrk. apply (wp_current_bind p b _ _ O); [done|]. wp_step.
  eapply wp_mono; [|apply (fit_next p b _ (λ _ _, True) O k); [|by apply heals_brk, fit_sane with p b|ty|done|by eapply brk_returns]].
  - intros o k1 [Hk1 _]. by apply lasts_done.
  - intros o k1 E. destruct o as [old|]; [by apply (sbrk_done p b delta k (fi_alive _ _ _ _ Hk) _ _ E)|]. rewrite (Hcl _ E). apply Hk.
Qed.

(** ** [exit] *)
Lemma on_exit_sure : sure p b (on_exit (S := S) (D := D) p) (λ _ _, True).
Proof.
  apply sure_still; [apply still_on_exit|heal|unfold on_exit; ty|]. intros O k Hk. destruct (fit_task p b O k Hk) as (t & Ht & _).
  pose proof (fit_sane p b O k Hk) as [Hh Hp]. eapply wp_true, (on_exit_spec p t k); [apply Hh|done|done|].
  apply Forall_forall. intros x. unfold parent_waiters. destruct (parent (user t)); [by apply waiters_exist with O|by intros ?%elem_of_nil].
Qed.
Lemma detach_fit t O k : fit p b O k → tasks (k_sched k) !! p = Some t →
  wp (in_sched (upd_task p (with_user (set_space None)));;
      (match space (user t) with
       | None => mret tt
       | Some sp => token ← kernel_token; activate token;; in_mem (AddressSpace_drop sp)
       end);;
      on_exit p) (λ _ k', fit p b O k') k.
Proof.
  intros Hk Ht. wp_step. eapply wp_of_run; [apply upd_task_run|]. set (k1 := put_task p _ k).
  assert (Hs1 : sane O k1).
  { refine (heals_sched (S := S) (D := D) (upd_task p (with_user (set_space None))) _ O k (fit_sane p b O k Hk) tt k1 eq_refl). by apply sober_upd. }
  assert (Ht1 : kernel_typed k1) by (apply (typed_same k); try done; apply Hk).
  set (m := match space (user t) with None => _ | Some sp => _ end). wp_step.
  assert (Hm : heals m) by (subst m; unfold kernel_token; heal). assert (Hty : gives m (λ _, True)) by (subst m; unfold kernel_token; ty).
  eapply wp_mono; [|apply wp_wlp_conj; [apply wp_wlp_conj; [apply (detach_spec p b t k (fi_alive _ _ _ _ Hk) Ht)|apply (Hm O k1 Hs1)]|apply (Hty k1 Ht1)]].
  cbv beta. intros [] k2 [[[Ha _] [Hh _]] [Hty2 _]]. eapply wp_mono; [|apply (on_exit_sure O k2)]; [by intros [] k3 []|].
  split; [done|done|done|apply Hk].
Qed.
Lemma exit_returns code O k : fit p b O k → wp (exit_current code) (λ _ k', wf [] k' ∧ healthy O k' ∧ kernel_typed k' ∧ current (k_sched k') = None) k.
Proof.
  intros Hk. unfold exit_current. wp_steps. rewrite (al_current _ _ _ (fi_alive _ _ _ _ Hk)). wp_step.
  eapply wp_mono; [|apply (upd_fit p b p (with_sched (set_exit_code code)) O k); done]. intros [] k1 [Hk1 _]. clear k Hk.
  destruct (fit_task p b O k1 Hk1) as (t & Ht & _). apply wp_task_bind; [by eexists|]. intros t' Ht'. rewrite Ht in Ht'. injection Ht' as <-.
  eapply wp_mono; [|by apply detach_fit]. intros [] k2 Hk2. wp_step. eapply wp_mono; [|by apply (switch_lands p b Zombie O)].
  intros w k3 Hk3. by apply wp_ret.
Qed.
Lemma lasts_exit n code : lasts p b n (sys_exit (S := S) (D := D) code).
Proof.
  intros O k Hk. unfold sys_exit. wp_step. eapply wp_mono; [|by apply (exit_returns code O)]. intros [] k1 (? & ? & ? & ?). apply wp_ret.
  split; [done|by destruct n].
Qed.
Lemma lasts_kill n : lasts p b n (kill_current (S := S) (D := D)).
Proof.
  intros O k Hk. unfold kill_current. apply (wp_current_bind p b _ _ O); [done|]. wp_steps. set (k1 := set_pinned _ k).
  assert (Hk1 : fit p b O k1).
  { destruct Hk as [Ha Hh Ht Hb]. split; [|by destruct Hh|by destruct Ht|done]. destruct (wf_quiet [] k k1 (al_wf _ _ _ Ha)) as [Hw1 A1]; [done|]. by eapply alive_steady. }
  eapply wp_mono; [|by apply (exit_returns (-11) O)]. intros [] k2 (? & ? & ? & ?). apply wp_ret. split; [done|by destruct n].
Qed.

(** ** [exec], which frees the caller's box *)
Lemma healthy_sub O O' k : O' ⊆ O → healthy O k → healthy O' k.
Proof.
  intros Hs [H1' H2' H3' H4' H5' H6' H7']. split; try done.
  - intros q t Ht. destruct (H4' q t Ht) as [Hf Hb]. split; [done|]. intros c Hc. apply Hb. by eapply lookup_weaken.
  - intros q [c Hc]. apply H5'. exists c. by eapply lookup_weaken.
Qed.
Lemma healthy_own O k t : healthy O k → tasks (k_sched k) !! p = Some t → frame (user t) = Some b → p < next_pid (k_sched k) → healthy (<[p := b]> O) k.
Proof.
  intros [H1' H2' H3' H4' H5' H6' H7'] Ht Hf Hp. split; try done.
  - intros q u Hu. destruct (H4' q u Hu) as [Hf' Hb]. split; [done|]. intros c [[<- <-]|[_ Hc]]%lookup_insert_Some; [congruence|by apply Hb].
  - intros q [->|Hq]%lookup_insert_is_Some'; [done|by apply H5'].
Qed.
Lemma exec_sane O k t old nm image args k' : sane O k → O !! p = None → tasks (k_sched k) !! p = Some t →
  execed k p t old nm image args k' → sane O k'.
Proof.
  intros [[H1' H2' H3' H4' H5' H6' H7'] Hpv] HO Ht [_ Ek Hoth (sp & c & f & lbrk & av & Hp & _) _ _].
  set (g := λ t, with_user (λ u, mkUser (Some sp) (Some c) (Z.max lbrk USER_HEAP_BASE) (Z.max lbrk USER_HEAP_BASE) (parent u) (children u)) (with_name nm t)).
  assert (Et : tasks (k_sched k') = alter g p (tasks (k_sched k))).
  { apply map_eq. intros q. destruct (decide (q = p)) as [->|]; [by rewrite lookup_alter_eq, Ht, Hp|by rewrite lookup_alter_ne, Hoth]. }
  pose proof (wp_ret_inv _ _ _ _ _ (eq_refl : upd_task p g (k_sched k) = _) (edit_ok _ p g H1' ltac:(done))) as Hok.
  rewrite Et in Ek. rewrite Ek. clear Ek Et Hp Hoth.
  assert (Hd : ∀ x, is_Some (alter g p (tasks (k_sched k)) !! x) ↔ is_Some (tasks (k_sched k) !! x)) by (intros; apply lookup_alter_is_Some).
  split; [split|]; cbn; try done.
  - intros x Hx. apply Hd. by apply H2'.
  - intros q u x Hu Hx. apply Hd. destruct (decide (q = p)) as [->|]; [|rewrite lookup_alter_ne in Hu by done; by eapply H3'].
    rewrite lookup_alter_eq, Ht in Hu. injection Hu as <-. by eapply H3'.
  - intros q u Hu. destruct (decide (q = p)) as [->|]; [|rewrite lookup_alter_ne in Hu by done; by apply (H4' q)].
    rewrite lookup_alter_eq, Ht in Hu. injection Hu as <-. split; [by eexists|]. by rewrite HO.
Qed.

Section exec.
Context (programs : list (list byte * list byte)) (Hfit : Forall (fits ∘ snd) programs).

Lemma argv_returns n k sp argv : wf [] k → holds_space p sp k → 0 ≤ argv → ∀ i args, 0 ≤ i → argv + i * 8 < U64 →
  wp (read_argv n sp argv i args) (λ _ _, True) k.
Proof.
  intros Hw Hs Ha. pose proof (space_held p sp k Hw Hs) as Hok. assert (Ek : set_mem (k_mem k) k = k) by by destruct k.
  induction n as [|n IH]; intros i args Hi Hlt; cbn [read_argv]; [by apply wp_ret|].
  wp_step. eapply wp_lift; [apply u64_mul_ok; lia|]. wp_step. eapply wp_lift; [apply u64_add_ok; lia|]. wp_step. apply wp_in_mem.
  destruct (copy_from_user_loaded _ sp (argv + i * 8) (replicate 8 x00) (k_mem k) Hok ltac:(lia)) as (r & slot & Hrun & c & _ & _ & _ & Hrd & Hr).
  eapply wp_of_run; [exact Hrun|]. rewrite Ek. cbv beta iota. destruct r as [u|]; [|by apply wp_ret]. subst c.
  destruct (_ =? 0); [by apply wp_ret|]. wp_step. apply wp_in_mem. unfold read_cstr.
  eapply wp_of_run; [apply (read_cstr_run _ sp _ _ 0 [] (k_mem k) Hok); [apply le_combine_bound|done]|]. rewrite Ek. case_match; [|by apply wp_ret].
  apply IH; [lia|]. specialize (Hrd 7 ltac:(cbn; lia)). apply andb_true_iff in Hrd as [?%Z.ltb_lt _]. unfold USER_MAX_ADDR, U64 in *. lia.
Qed.

Lemma exec_fit nm image args O k : fit p b (<[p := b]> O) k → healthy O k → O !! p = None → fits image → args_size args ≤ USER_STACK_SIZE →
  is_Some (t ← tasks (k_sched k) !! p; space (user t)) →
  wp (exec_current p nm image args) (λ r k', alive p b k' ∧ healthy O k' ∧ kernel_typed k') k.
Proof.
  intros Hk Hh HO Hi Ha Hs. destruct (fit_task p b _ k Hk) as (t & Ht & _). rewrite Ht in Hs. destruct Hs as [sp Hsp]. cbn in Hsp.
  destruct (fit_process p b _ k t sp Hk Ht Hsp) as [ksp Hp]. pose proof (fit_sane p b _ k Hk) as [_ Hpv].
  eapply wp_mono; [|apply wp_wlp_conj; [apply wp_wlp_conj|]].
  2: { apply (exec_current_spec nm image args p t sp ksp k); [apply wf_ok with [], Hk|done|apply Hi|done]. }
  2: { apply (exec_spec p b nm image args k (fi_alive _ _ _ _ Hk) Hi Ha). }
  2: { apply (keeps_exec p nm image args k (fi_typed _ _ _ _ Hk)). }
  cbv beta. intros r k' [[Hr [Hal _]] [Hty _]]. destruct r as [[]|e].
  - split_and!; [done| |done]. by destruct (exec_sane O k t sp nm image args k').
  - destruct Hr as [E _]. assert (Hsame : ∀ O, sane O k → sane O k') by (intros O' HO'; rewrite E; by apply (sane_same O' k)).
    split_and!; [done|by apply Hsame|done].
Qed.

Lemma survive_exec path argv O k : fit p b (<[p := b]> O) k → healthy O k → O !! p = None → 0 ≤ path → 0 ≤ argv < U64 →
  wp (sys_exec programs path argv) (λ pr k', ∃ v, pr = Done v ∧ alive p b k' ∧ healthy O k' ∧ kernel_typed k') k.
Proof.
  intros Hk Hh HO Hpath Hargv. pose proof (al_wf _ _ _ (fi_alive _ _ _ _ Hk)) as Hw. unfold sys_exec.
  assert (Hd : ∀ v : Z, wp (done v) (λ pr k', ∃ v, pr = Done v ∧ alive p b k' ∧ healthy O k' ∧ kernel_typed k') k).
  { intros v. apply wp_ret. exists v. split_and!; [done|apply Hk|done|apply Hk]. }
  apply (wp_current_bind p b _ _ (<[p := b]> O)); [done|]. apply (wp_space_bind p b _ _ (<[p := b]> O)); [done|]. intros [sp|] Hsp; [|apply Hd].
  specialize (Hsp sp eq_refl). pose proof (space_held p sp k Hw Hsp) as Hok.
  eapply (wp_same _ _ _ _ _ (reads_cstr p k sp path Hw Hsp Hpath)).
  { apply wp_in_mem. unfold read_cstr. eapply wp_of_run; [by apply (read_cstr_run _ sp _ _ 0 [] (k_mem k) Hok)|done]. }
  intros [nm|] _; [|apply Hd].
  eapply (wp_same _ _ (λ o, ∀ l, o = Some l → (length l ≤ 32)%nat ∧ Forall (λ a, (length a ≤ 256)%nat) l)).
  { destruct (argv =? 0); [apply reads_ret; intros l [= <-]; split; [cbn; lia|done]|].
    eapply wlp_mono; [|apply (reads_argv p (Z.to_nat MAX_ARGS) k sp argv Hw); [done|lia|done|done]].
    cbv beta. intros o k' [-> Ho]. split; [done|]. intros l Hl. by destruct (Ho l Hl). }
  { destruct (argv =? 0); [by apply wp_ret|apply argv_returns; [done|done|lia|done|lia]]. }
  intros [args|] Hargs; [|apply Hd]. destruct (find_program programs nm) as [image|] eqn:Hf; [|apply Hd].
  destruct (Hargs args eq_refl) as [Hn Hl]. apply find_program_in in Hf as [n Hin]. pose proof (strings_size_le args Hl). wp_step.
  eapply wp_mono; [|apply (exec_fit nm image args O k); [done|done|done| | |]].
  - cbv beta. intros [|[]] k' (? & ? & ?); apply wp_ret; by eexists.
  - by apply (proj1 (Forall_forall _ _) Hfit _ Hin).
  - unfold args_size, USER_STACK_SIZE in *. cbn. lia.
  - destruct Hsp as (t & Ht & Hsp). rewrite Ht. by exists sp.
Qed.
End exec.
End own.
End calls.
