(* ===== verification/SurviveTraps.v ===== *)
(** * Traps come back

    The dispatcher, the handlers of user and kernel traps and the idle loop in
    a healthy kernel: each returns and leaves the kernel healthy. *)
From stdpp Require Import base numbers functions gmap list.
From coqutil Require Import Byte LittleEndianList.
From Stdlib Require Import Lia.
From S2P Require Import Prelude Memory Config Addr FrameIface FrameProps PageTable PageTableInv PageTableOps.
From S2P Require Import Space SpaceInv SpaceMap SpaceOps SpaceUser SpaceWrite SpaceProps Loader LoaderProps.
From S2P Require Import Device Trap Task Sched SchedProps Kernel Process Syscall ArgsProps ImageProps ProcessProps LifeProps SyscallProps.
From S2P Require Import FrameTypes Holdings Isolation CallIsolation TrapIsolation Health Survive.
From S2P Require Uart UartProps.

#[local] Hint Resolve keeps_enable keeps_disable keeps_vector keeps_sip keeps_activate keeps_switch_back keeps_switch keeps_resched_if : typed.
#[local] Hint Resolve keeps_wait_enter keeps_wait_leave keeps_wake_all keeps_drop_arc keeps_tick keeps_uptime keeps_external : typed.

Lemma typed_reg f i : frame_typed f → 0 ≤ i < 32 → ∃ v, tf_reg f i = Ret v ∧ u64 v.
Proof.
  intros [Hl Hw] Hi. unfold tf_reg, arr_get. destruct (Z.ltb_spec i 0); [lia|].
  destruct (lookup_lt_is_Some_2 (tf_x f) (Z.to_nat i)) as [v Hv]; [lia|]. exists v. rewrite Hv. split; [done|].
  apply (proj1 (Forall_forall _ _) Hw). unfold tf_words. apply elem_of_app. left. by eapply list_elem_of_lookup_2.
Qed.
Lemma typed_arg f i : frame_typed f → 0 ≤ i < 8 → ∃ v, arg f i = Ret v ∧ u64 v.
Proof. intros Hf Hi. unfold arg. rewrite u64_add_ok by (unfold U64; lia). apply typed_reg; [done|lia]. Qed.

Section traps.
Context {S D : Type} `{FrameAllocator S, !FrameAllocatorLaws S} `{HU : UartProps.Uart16550 D} `{HF : Firmware D} `{!Environment D}.
Abbreviation Kst := (Kernel S D).
Abbreviation K := (ST Kst).
Implicit Types (k : Kst) (O : gmap Pid Z).

Section own.
Context (p : Pid) (b : Z).
Abbreviation ok n O := (λ pr k', landed p b O pr k' ∧ survives p b n pr).

(** ** The dispatcher *)
Lemma sure_sched {A} (m : ST Sched A) : mild m → sober m → (∀ s, sched_ok s → wp m (λ _ _, True) s) → sure p b (in_sched (S := S) (D := D) m) (λ _ _, True).
Proof.
  intros Hm Hs Hw. apply sure_still; [by apply still_sched|by apply heals_sched|ty|]. intros O k Hk. apply wp_in_sched. apply Hw, Hk.
Qed.
Lemma lasts_uptime n : lasts p b n (v ← uptime_ms (S := S) (D := D); done (as_isize v)).
Proof.
  eapply lasts_then; [apply (sure_still p b _ (λ _ _, True)); [still|apply heals_uptime|ty|intros; apply uptime_returns]|intros; apply lasts_done].
Qed.
Lemma lasts_ps n : lasts p b n (sys_ps (S := S) (D := D)).
Proof.
  eapply lasts_then; [apply sure_sched; [mild|apply sober_dump|]|intros; apply lasts_done]. intros s Hs. by eapply wp_true, dump_ok.
Qed.

Context (programs : list (list byte * list byte)) (entry : Z).
Lemma survive_dispatch n poll wakes f O k : fit p b O k → frame_typed f → room k → (UartProps.thr_max < poll)%nat → (n < wakes)%nat →
  syscall_id f ≠ Ret nr.SYS_EXEC →
  (syscall_id f = Ret nr.SYS_SBRK → ∀ d, arg f 0 = Ret d → sbrk_clean p (as_isize d) k) →
  wp (dispatch programs entry poll wakes f) (ok n O) k.
Proof.
  intros Hk Hf Hr Hpoll Hn Hexec Hsbrk. unfold dispatch. destruct (typed_reg f 17 Hf ltac:(lia)) as (id & Hid & _).
  destruct (typed_arg f 0 Hf ltac:(lia)) as (a0 & H0' & [R0 _]). destruct (typed_arg f 1 Hf ltac:(lia)) as (a1 & H1' & [R1 _]).
  destruct (typed_arg f 2 Hf ltac:(lia)) as (a2 & H2' & _). unfold syscall_id in *. rewrite Hid in *.
  wp_step. eapply wp_lift; [done|]. wp_step. eapply wp_lift; [done|]. wp_step. eapply wp_lift; [done|]. wp_step. eapply wp_lift; [done|].
  destruct (id =? nr.SYS_EXIT); [by apply lasts_exit|]. destruct (id =? nr.SYS_WRITE); [by apply lasts_write|].
  destruct (id =? nr.SYS_READ); [by apply lasts_read|].
  destruct (id =? nr.SYS_YIELD); [apply lasts_switch; [done|intros; apply lasts_done|done]|].
  destruct (id =? nr.SYS_GETPID); [by apply lasts_getpid|]. destruct (id =? nr.SYS_GETPPID); [by apply lasts_getppid|].
  destruct (id =? nr.SYS_FORK); [by apply survive_fork|]. destruct (Z.eqb_spec id nr.SYS_EXEC) as [->|]; [done|].
  destruct (id =? nr.SYS_WAITPID); [by apply lasts_waitpid|].
  destruct (Z.eqb_spec id nr.SYS_SBRK) as [->|]; [apply survive_sbrk; [done|by apply Hsbrk]|].
  destruct (id =? nr.SYS_UPTIME); [by apply lasts_uptime|]. destruct (id =? nr.SYS_PS); [by apply lasts_ps|].
  apply (wp_current_bind p b _ _ O); [done|]. by apply lasts_done.
Qed.

(** ** The way back to user mode *)
Lemma box_get_fit {B} (g : TrapFrame → K B) Q O k : fit p b O k →
  (∀ f, live (k_boxes k) !! b = Some f → frame_typed f → wp (g f) Q k) → wp (box_get b ≫= g) Q k.
Proof.
  intros Hk Hg. destruct (fit_task p b O k Hk) as (t & _ & _ & [f Hf]). unfold box_get. wp_steps. rewrite Hf. eapply wp_lift; [done|].
  apply Hg; [done|]. by apply (kty_frames _ (fi_typed _ _ _ _ Hk) b).
Qed.
Lemma box_set_fit f O k : fit p b O k → frame_typed f → wp (box_set b f) (λ _ k', fit p b O k' ∧ k' = set_box b f k) k.
Proof.
  intros Hk Hf. apply fit_via; [|by apply keeps_box_set|done|].
  - eapply wlp_mono; [|apply (box_set_spec p b f k), Hk]. by cbv beta; intros [] k' (_ & ? & _).
  - unfold box_set. apply (box_get_fit _ _ O); [done|]. intros g _ _. wp_steps. split; [|done]. apply (sane_same O k); try done. by apply fit_sane with p b.
Qed.
Lemma lasts_resched {A} n (m : K (prog S D A)) : (∀ n, lasts p b n m) → lasts p b n (resched m).
Proof.
  intros Hm. unfold resched, resched_if_needed. intros O k Hk. wp_step. wp_step.
  eapply wp_mono; [|apply (sure_sched take_resched ltac:(mild) sober_resched (λ s Hs, wp_true _ _ _ (take_resched_ok s Hs)) O k Hk)].
  intros c k1 [Hk1 _]. destruct c; [|wp_step; by apply Hm]. wp_step. eapply wp_mono; [|by apply (switch_lands p b Ready O)].
  intros w k2 (? & ? & ? & ?). wp_step. wp_step. split; [done|]. apply survives_away. intros; apply Hm.
Qed.
Lemma sure_hart (f : Hart → Hart) : still (on_hart (S := S) (D := D) f) → (∀ h, hart_id (f h) = hart_id h) → gives (on_hart (S := S) (D := D) f) (λ _, True) →
  sure p b (on_hart (S := S) (D := D) f) (λ _ _, True).
Proof. intros Hs Hh Ht. apply sure_still; [done|by apply heals_hart|done|]. intros O k Hk. unfold on_hart. by wp_steps. Qed.
Lemma lasts_return n : lasts p b n (return_to_user (S := S) (D := D)).
Proof.
  apply lasts_resched. clear n. intros n. eapply lasts_then; [apply sure_hart; [still|done|ty]|]. intros _ O k Hk.
  apply (wp_current_bind p b _ _ O); [done|]. destruct (fit_task p b O k Hk) as (t & Ht & Hf & _). unfold frame_ptr. wp_step.
  apply wp_task_bind; [by eexists|]. intros t' Ht'. rewrite Ht in Ht'. injection Ht' as <-. rewrite Hf. eapply wp_lift; [done|]. by apply lasts_done.
Qed.
Lemma lasts_ecall_done n v : lasts p b n (ecall_done (S := S) (D := D) b v).
Proof.
  unfold ecall_done. eapply lasts_then; [apply sure_hart; [still|done|ty]|]. intros _ O k Hk. unfold store_return. wp_step. wp_step. wp_step.
  destruct (fit_task p b O k Hk) as (t & _ & _ & [f Hb]). rewrite Hb. pose proof (kty_frames _ (fi_typed _ _ _ _ Hk) b f Hb) as Hf.
  wp_step. unfold set_return. eapply wp_lift; [apply set_reg_ok; [apply Hf|lia]|].
  eapply wp_mono; [|apply (box_set_fit _ O); [done|]]; [intros [] k1 [Hk1 _]; by apply lasts_return|].
  eapply set_reg_typed; [exact Hf| |apply set_reg_ok; [apply Hf|lia]]. by apply Z.mod_pos_bound.
Qed.

(** ** Traps from user mode *)

(** What a trap is taken with: enough fuel; for a system call, pids are left, a
    program counter in user space and an [sbrk] that does not run out of memory
    part way; for an interrupt, a cause. *)
Record caused (irqs : nat) (scause : Z) k : Prop := {
  ca_timer : decode scause = TimerInterrupt → 0 ≤ next_deadline (k_timer k) ≤ (rdtime (Uart.dev (k_con k))).1;
  ca_external : decode scause = ExternalInterrupt → (due (Uart.dev (k_con k)) < irqs)%nat }.
Record callable k f : Prop := {
  cl_room : room k;
  cl_pc : tf_sepc f < USER_MAX_ADDR;
  cl_sbrk : syscall_id f = Ret nr.SYS_SBRK → ∀ d, arg f 0 = Ret d → sbrk_clean p (as_isize d) k }.

(** A call starts past the [ecall], with interrupts on. *)
Lemma ecall_enter {B} (g : TrapFrame → K B) Q O k : fit p b O k → (∀ f, live (k_boxes k) !! b = Some f → tf_sepc f < USER_MAX_ADDR) →
  (∀ f k2, live (k_boxes k) !! b = Some f → let f' := with_sepc (tf_sepc f + 4) f in frame_typed f' → fit p b O k2 →
     k2 = set_hart (intr_enable (k_hart k)) (set_box b f' k) → wp (g f') Q k2) →
  wp (f ← box_get b; pc ← lift (tf_sepc f +! 4); box_set b (with_sepc pc f);; on_hart intr_enable;; f ← box_get b; g f) Q k.
Proof.
  intros Hk Hpc Hg. apply (box_get_fit _ _ O); [done|]. intros f Hf Hty. specialize (Hpc f Hf). wp_step.
  assert (Hw : u64 (tf_sepc f)).
  { pose proof (ft_words _ Hty) as Hw. apply Forall_app in Hw as [_ Hw]. rewrite !Forall_cons in Hw. tauto. }
  unfold USER_MAX_ADDR, u64 in *. eapply wp_lift; [apply u64_add_ok; unfold U64; lia|]. wp_step.
  assert (Hty' : frame_typed (with_sepc (tf_sepc f + 4) f)) by (apply with_sepc_typed; [done|unfold u64, U64 in *; lia]).
  eapply wp_mono; [|by apply (box_set_fit _ O)]. intros [] k1 [Hk1 E1]. wp_step.
  eapply wp_mono; [|apply (fit_next p b _ (λ _ k2, k2 = set_hart (intr_enable (k_hart k1)) k1) O k1)];
    [|eapply wlp_mono; [|apply (does_still p b (on_hart intr_enable) ltac:(still) k1), Hk1]; by cbv beta; intros ? ? [? _]
     |by apply heals_hart, fit_sane with p b|ty|done|unfold on_hart; by wp_steps].
  intros [] k2 [Hk2 E2]. rewrite E1 in E2. apply (box_get_fit _ _ O); [done|]. intros f' Hf' _.
  rewrite E2 in Hf'. cbn in Hf'. rewrite lookup_insert_eq in Hf'. injection Hf' as <-. by apply (Hg f).
Qed.

Lemma lasts_interrupt n (m : K unit) (rest : K (prog S D Z)) O k : still m → heals m → gives m (λ _, True) → wp m (λ _ _, True) k →
  (∀ n, lasts p b n rest) → fit p b O k → wp (m;; rest) (ok n O) k.
Proof.
  intros Hs Hh Ht Hw Hr Hk. wp_step. eapply wp_mono; [|apply (fit_next p b m (λ _ _, True) O k); [|by apply Hh, fit_sane with p b|done|done|done]].
  - intros [] k' [Hk' _]. by apply Hr.
  - eapply wlp_mono; [|apply (does_still p b m Hs k), Hk]. by cbv beta; intros ? ? [? _].
Qed.
Lemma tick_caused irqs scause O k : sane O k → caused irqs scause k → decode scause = TimerInterrupt → wp on_tick (λ _ _, True) k.
Proof.
  intros Hk Hc Hd. apply (tick_returns O); [done|]. pose proof (ca_timer _ _ _ Hc Hd). pose proof (clock_bound (Uart.dev (k_con k))). lia.
Qed.
End own.

(** ** Between handlers *)

(** Nothing is amiss, with or without a task on the processor. *)
Record hale O k : Prop := {
  ha_settled : settled k;
  ha_healthy : healthy O k;
  ha_typed : kernel_typed k }.

Lemma hale_fit O k p t b : hale O k → current (k_sched k) = Some p → tasks (k_sched k) !! p = Some t → frame (user t) = Some b →
  fit p b (<[p := b]> O) k.
Proof.
  intros [Hs Hh Ht] Hc Htk Hf. pose proof (settled_pid k p Hs Hc) as Hp. pose proof (st_wf _ Hs) as Hw.
  split; [|by apply (healthy_own p b O k t)|done|apply lookup_insert_eq]. split; [done|done|by apply (st_runs _ Hs)|done|].
  split; [|intros u Hu; rewrite Htk in Hu; injection Hu as <-; by left]. apply (ko_boxes _ (wf_ok _ _ Hw)).
  apply (wf_items _ _ Hw (IBox b)). eapply world_task; [exact Htk|by apply frame_item].
Qed.
Lemma hale_task O k p : hale O k → current (k_sched k) = Some p → ∃ t b, tasks (k_sched k) !! p = Some t ∧ frame (user t) = Some b.
Proof.
  intros [Hs Hh Ht] Hc. destruct (st_runs _ Hs p Hc) as (t & Htk & _). destruct (hy_frame _ _ Hh p t Htk) as [[b Hb] _]. by exists t, b.
Qed.
Lemma landed_hale {A} p b O (pr : prog S D A) k : landed p b O pr k → hale O k.
Proof.
  intros [L1 L2 L3 L4]. split; [split; [done|]|done|done]. intros q Hq. destruct pr.
  - pose proof (al_current _ _ _ L4) as Hc. rewrite Hq in Hc. injection Hc as ->. apply (al_runs _ _ _ L4).
  - congruence.
  - congruence.
Qed.
Lemma hale_next {A} (m : K A) O k (P : A → Prop) : hale O k → wlp m (λ a k', settled k' ∧ advance None k k' ∧ P a) k → gives m (λ _, True) →
  wp m (λ _ k', healthy O k') k → wp m (λ _ k', hale O k') k.
Proof.
  intros Hk Hs Ht Hh. eapply wp_mono; [|apply wp_wlp_conj; [apply (wp_wlp_conj _ _ _ _ Hh Hs)|apply (Ht k (ha_typed _ _ Hk))]].
  cbv beta. intros a k' [[? (? & _)] [? _]]. by split.
Qed.

(** Whatever frame the task has now is the one it goes back to. *)
Lemma alive_fit O k p b : alive p b k → healthy O k → kernel_typed k → ∃ b', fit p b' (<[p := b']> O) k.
Proof.
  intros Ha Hh Ht. assert (Hk : hale O k).
  { split; [split; [apply Ha|]|done|done]. intros q Hq. pose proof (al_current _ _ _ Ha) as Hc. rewrite Hq in Hc. injection Hc as ->. apply Ha. }
  destruct (hale_task O k p Hk (al_current _ _ _ Ha)) as (t & b' & Htk & Hf). exists b'. eapply hale_fit; [done|apply Ha|done|done].
Qed.
(** A successful [exec] has given the task another frame and freed the one the
    trap came with: the result is stored nowhere, and the handler goes back to
    the new frame. *)
Lemma exec_done p b n O k v : alive p b k → healthy O k → kernel_typed k →
  wp (ecall_done b v) (λ pr k', ∃ b', landed p b' (<[p := b']> O) pr k' ∧ survives p b' n pr) k.
Proof.
  intros Ha Hh Ht. destruct (alive_fit O k p b Ha Hh Ht) as [b' Hk]. destruct (fit_task p b' _ k Hk) as (t & Htk & Hf & _).
  destruct (al_box _ _ _ Ha) as [_ Hbox]. destruct (Hbox t Htk) as [Hb|Hb].
  - rewrite Hf in Hb. injection Hb as ->. eapply wp_mono; [|apply (lasts_ecall_done p b n v _ _ Hk)]. cbv beta. intros pr k' ?. by exists b.
  - assert (Hl : lasts p b' n (on_hart (S := S) (D := D) intr_disable;; return_to_user)).
    { eapply lasts_then; [apply sure_hart; [still|done|ty]|intros; apply lasts_return]. }
    specialize (Hl _ _ Hk). unfold ecall_done, store_return, on_hart in *. wp_steps. cbn [k_boxes set_hart]. rewrite Hb. wp_steps.
    assert (Hl' : wp return_to_user (λ pr k', landed p b' (<[p := b']> O) pr k' ∧ survives p b' n pr) (set_hart (intr_disable (k_hart k)) k)) by exact Hl.
    eapply wp_mono; [|exact Hl']. cbv beta. intros pr k' ?. by exists b'.
Qed.

Section user.
Context (p : Pid) (b : Z) (programs : list (list byte * list byte)) (entry : Z) (Hfit : Forall (fits ∘ snd) programs).
Context (O : gmap Pid Z) (HO : O !! p = None).
Abbreviation comes_back n := (λ pr k', ∃ b', landed p b' (<[p := b']> O) pr k' ∧ survives p b' n pr).

Lemma survive_exec_call n poll wakes f k : fit p b (<[p := b]> O) k → frame_typed f → syscall_id f = Ret nr.SYS_EXEC →
  wp (r ← dispatch programs entry poll wakes f; pbind r (ecall_done b)) (comes_back n) k.
Proof.
  intros Hk Hty Hid. destruct (typed_arg f 0 Hty ltac:(lia)) as (path & Hpath & [R0 _]). destruct (typed_arg f 1 Hty ltac:(lia)) as (argv & Hargv & R1).
  destruct (typed_arg f 2 Hty ltac:(lia)) as (a2 & Ha2 & _).
  assert (Hh : healthy O k) by (eapply healthy_sub; [|apply Hk]; by apply insert_subseteq).
  unfold dispatch. wp_step. wp_step. eapply wp_lift; [done|]. wp_step. eapply wp_lift; [done|]. wp_step. eapply wp_lift; [done|]. wp_step. eapply wp_lift; [done|].
  cbn [Z.eqb nr.SYS_EXEC].
  eapply wp_mono; [|by apply (survive_exec p b programs Hfit path argv O k)]. cbv beta. intros pr k2 (v & -> & Ha & Hh2 & Ht2).
  by apply exec_done.
Qed.
Lemma survive_ecall n poll wakes k : fit p b (<[p := b]> O) k → (UartProps.thr_max < poll)%nat → (n < wakes)%nat →
  (∀ f, live (k_boxes k) !! b = Some f → callable p k f) → wp (ecall_from_user programs entry poll wakes b) (comes_back n) k.
Proof.
  intros Hk Hp Hn Hc. apply (ecall_enter p b _ _ (<[p := b]> O)); [done|intros f Hf; apply (Hc f Hf)|]. intros f k2 Hf f' Hty Hk2 E2.
  destruct (typed_reg f' 17 Hty ltac:(lia)) as (id & Hid & _).
  destruct (decide (id = nr.SYS_EXEC)) as [->|He]; [by apply survive_exec_call|].
  eapply wp_mono; [|apply (lasts_pbind_at p b); [|intros; apply lasts_ecall_done|apply Hk2]]; [cbv beta; intros pr k' ?; by exists b|].
  destruct (Hc f Hf) as [C1 _ C4]. apply survive_dispatch; [done|done| |done|done|unfold syscall_id; rewrite Hid; congruence|].
  - rewrite E2. exact C1.
  - rewrite E2. intros Hsb d Hd. apply sbrk_clean_local. by apply C4.
Qed.
Lemma survive_user_trap n poll wakes irqs scause k : fit p b (<[p := b]> O) k → (UartProps.thr_max < poll)%nat → (n < wakes)%nat →
  caused irqs scause k → (∀ f, decode scause = UserEcall → live (k_boxes k) !! b = Some f → callable p k f) →
  wp (user_trap_handler programs entry poll wakes irqs scause b) (comes_back n) k.
Proof.
  intros Hk Hp Hn Hca Hcl. unfold user_trap_handler. wp_step.
  eapply wp_mono; [|apply (fit_next p b _ (λ _ k2, k2 = set_hart (set_vector kernel_trap_entry (k_hart k)) k) (<[p := b]> O) k)];
    [|eapply wlp_mono; [|apply (does_still p b (on_hart (set_vector kernel_trap_entry)) ltac:(still) k), Hk]; by cbv beta; intros ? ? [? _]
     |by apply heals_hart, fit_sane with p b|ty|done|unfold on_hart; by wp_steps].
  intros [] k1 [Hk1 E1]. assert (Hca1 : caused irqs scause k1) by (rewrite E1; by destruct Hca).
  pose proof (fit_sane p b _ k1 Hk1) as Hs1.
  assert (Hsame : ∀ m : K (prog S D Z), wp m (λ pr k', landed p b (<[p := b]> O) pr k' ∧ survives p b n pr) k1 → wp m (comes_back n) k1).
  { intros m Hm. eapply wp_mono; [|exact Hm]. cbv beta. intros pr k' ?. by exists b. }
  destruct (decode scause) eqn:Hd; try by apply Hsame, lasts_kill.
  - apply Hsame, lasts_interrupt; [still|by apply heals_hart|ty|unfold on_hart; by wp_steps|intros; apply lasts_return|done].
  - apply Hsame, lasts_interrupt; [still|apply heals_tick|ty|by eapply tick_caused|intros; apply lasts_return|done].
  - apply Hsame, lasts_interrupt; [still|apply heals_external|ty|by eapply (external_returns irqs), Hca1|intros; apply lasts_return|done].
  - apply survive_ecall; [done|done|done|]. intros f Hf. rewrite E1 in Hf. destruct (Hcl f eq_refl Hf) as [C1 C2 C4]. rewrite E1.
    split; [done|done|]. intros Hid d Hdd. assert (Ek : k = set_boxes (k_boxes k) k) by by destruct k. rewrite Ek at 2.
    apply sbrk_clean_local. by apply C4.
Qed.
End user.

(** First entry into user mode. *)
Lemma entry_returns O k p : hale O k → current (k_sched k) = Some p → wp user_entry (λ _ k', hale O k') k.
Proof.
  intros Hk Hc. destruct (hale_task O k p Hk Hc) as (t & b & Ht & Hf). pose proof (ha_healthy _ _ Hk) as Hh.
  eapply hale_next; [done|apply user_entry_spec, Hk|apply keeps_user_entry|]. unfold user_entry, frame_ptr, on_hart. wp_steps. apply wp_in_sched.
  unfold current_task. wp_steps. cbn [k_sched set_hart]. rewrite Hc. eapply wp_lift; [done|]. wp_step. apply (wp_get_task_k p t); [done|]. rewrite Hf.
  eapply wp_lift; [done|]. destruct Hh as [H1' H2' H3' H4' H5' H6' H7']. split; [exact H1'|exact H2'|exact H3'|exact H4'|exact H5'|exact H6'|exact H7'].
Qed.

(** An interrupt of the idle loop, which waits with nobody running and nobody
    to be requeued. *)
Lemma idle_sane O k : hale O k → previous (k_sched k) = None → sane O k.
Proof. intros Hk Hp. split; [apply Hk|done]. Qed.
Lemma idle_trap irqs scause O k : hale O k → current (k_sched k) = None → previous (k_sched k) = None → caused irqs scause k →
  decode scause = TimerInterrupt ∨ decode scause = ExternalInterrupt ∨ decode scause = SoftwareInterrupt →
  wp (kernel_trap_handler irqs scause) (λ pr k', pr = Done tt ∧ hale O k') k.
Proof.
  intros Hk Hc Hp Hca Hd. pose proof (idle_sane O k Hk Hp) as Hsane.
  assert (Hw : wp (kernel_trap_handler irqs scause) (λ pr k', pr = Done tt ∧ healthy O k') k).
  { assert (Hm : ∀ m : K unit, still m → heals m → wp m (λ _ _, True) k → wp (m;; resched (done tt)) (λ pr k', pr = Done tt ∧ healthy O k') k).
    { intros m Hs Hh Hm. wp_step. eapply wp_mono; [|apply wp_wlp_conj; [apply (wp_wlp_conj _ _ _ _ Hm (Hh O k Hsane))|apply Hs]].
      cbv beta. intros [] k1 [[_ [Hh1 _]] Hcm]. unfold resched, resched_if_needed. wp_step. wp_step. apply wp_in_sched. unfold take_resched. wp_steps.
      rewrite (cm_current _ _ Hcm), Hc. wp_steps. by assert (set_sched (k_sched k1) k1 = k1) as -> by by destruct k1. }
    unfold kernel_trap_handler. destruct (decode scause) eqn:E; try (by destruct Hd as [|[|]]); apply Hm.
    - still.
    - by apply heals_hart.
    - unfold on_hart. by wp_steps.
    - still.
    - apply heals_tick.
    - by eapply tick_caused.
    - still.
    - apply heals_external.
    - by apply (external_returns irqs O), Hca. }
  eapply wp_mono; [|apply wp_wlp_conj; [apply (wp_wlp_conj _ _ _ _ Hw (kernel_trap_spec irqs scause k (ha_settled _ _ Hk)))
    |apply (safe_kernel_trap irqs scause k (ha_typed _ _ Hk))]].
  cbv beta. intros pr k' [[[? ?] (? & _)] [? _]]. split; [assumption|split; assumption].
Qed.

(** One round of the idle loop. *)
Abbreviation unlinked s s' := (next_pid s' = next_pid s ∧ links <$> tasks s' = links <$> tasks s).
Lemma requeue_links s : wlp run_requeue (λ _ s', unlinked s s') s.
Proof.
  unfold run_requeue. apply wlp_bind, wlp_get. destruct (previous s) as [q|]; [|by wlp_steps]. apply wlp_bind, wlp_put, wlp_bind.
  unfold get_task. apply wlp_bind, wlp_get, wlp_lift. intros t _. destruct (state (sched t)); [|by wlp_steps..]. apply wlp_bind.
  eapply wlp_mono; [|apply linked_requeue]. cbv beta. intros [] s' [T1 T2 T3]. by apply wlp_ret.
Qed.
Lemma start_links p s : wlp (run_start p) (λ _ s', unlinked s s') s.
Proof. unfold run_start, get_task, upd_task. wlp_steps. split; [done|]. cbn. by apply links_alter. Qed.
Lemma healthy_hart O k h : healthy O k → hart_id h = hart_id (k_hart k) → healthy O (set_hart h k).
Proof. intros [H1' H2' H3' H4' H5' H6' H7'] E. split; [done..|]. cbn. by rewrite E. Qed.
Lemma start_returns O k p s s' : healthy O k → unlinked (k_sched k) s → run_start p s = Ret (tt, s') → sched_ok s' →
  wp (token ← space_token p; activate token;; in_sched (run_start p);; mret (Some p)) (λ _ k', healthy O k') (set_sched s k).
Proof.
  intros Hh [U1 U2] E Hok. assert (Ht : is_Some (tasks s !! p)).
  { unfold run_start, get_task, mbind, ST_bind, get, lift in E. destruct (tasks s !! p); [by eexists|done]. }
  unfold space_token, activate, on_hart. wp_step. apply wp_task_bind; [done|]. intros t _. wp_steps. apply wp_in_sched.
  cbn [k_sched set_hart set_sched]. eapply wp_of_run; [exact E|]. wp_step. destruct (start_links p _ _ _ E) as [El1 El2].
  match goal with |- healthy _ (set_sched _ (set_hart ?h _)) => apply (healthy_links O (set_hart h k) s') end;
    [by apply healthy_hart|done|by rewrite El1|by rewrite El2].
Qed.
Lemma pick_returns O k : healthy O k → current (k_sched k) = None → previous (k_sched k) = None →
  wp (next ← in_sched run_pop;
      match next with
      | None => on_hart intr_enable;; on_hart intr_disable;; mret None
      | Some p => token ← space_token p; activate token;; in_sched (run_start p);; mret (Some p)
      end) (λ _ k', healthy O k') k.
Proof.
  intros Hh Hc Hp. pose proof (pick_ok (k_sched k) (hy_sched _ _ Hh) Hc Hp) as Hpick.
  unfold run_pick, run_pop, wp, mbind, ST_bind, get, put in Hpick.
  wp_step. apply wp_in_sched. unfold run_pop. wp_step. wp_step. destruct (rq_pop (run_queue (k_sched k))) as [[p|] q] eqn:Eq; wp_step; wp_step; wp_step; cbn in Hpick.
  - destruct (run_start p (set_rq q (k_sched k))) as [[[] s']|] eqn:E; [|done]. eapply start_returns; [done|done|exact E|apply Hpick].
  - unfold on_hart. wp_steps. match goal with |- healthy _ (set_hart _ (set_hart _ ?k1)) => assert (Hh1 : healthy O k1) end.
    { apply healthy_links; [done|apply Hpick|done|done]. }
    apply healthy_hart; [by apply healthy_hart|done].
Qed.
Lemma run_iter_returns O k : hale O k → current (k_sched k) = None → wp run_iter (λ _ k', hale O k') k.
Proof.
  intros Hk Hc. eapply hale_next; [done|apply run_iter_spec, Hk|apply keeps_run_iter|]. pose proof (ha_healthy _ _ Hk) as Hh.
  assert (Hr : wp (in_sched run_requeue) (λ _ k', sane O k' ∧ current (k_sched k') = None) k).
  { apply wp_in_sched. eapply wp_mono; [|apply (wp_wlp_conj _ _ _ _ (requeue_ok _ (hy_sched _ _ Hh) Hc) (requeue_links _))].
    cbv beta. intros o s' [(Hok & Hc' & Hp') [U1 U2]]. split; [split; [by apply healthy_links|done]|done]. }
  unfold run_iter. wp_step.
  eapply wp_mono; [|apply (wp_wlp_conj _ _ _ _ Hr (still_sched (S := S) (D := D) run_requeue mild_requeue k))].
  cbv beta. intros o k1 [[Hk1 Hc1] Hcm1]. destruct (settled_calm _ _ (ha_settled _ _ Hk) Hcm1) as [Hs1 _]. wp_step.
  assert (Hd : wp (match o with Some p => k ← get; drop_arc (Datatypes.S (size (tasks (k_sched k)))) p | None => mret tt end)
    (λ _ k2, sane O k2 ∧ current (k_sched k2) = None) k1).
  { destruct o as [q|]; [|by apply wp_ret]. wp_steps.
    eapply wp_mono; [|apply wp_wlp_conj; [apply wp_wlp_conj; [eapply wp_true, (drop_arc_total _ q []); [apply Hs1|lia]|by apply heals_drop_arc]|
      apply (moves_drop_arc _ q [] k1), Hs1]]. cbv beta. intros [] k2 [[_ ?] (_ & _ & C2)]. split; [done|].
    by rewrite (kp_current _ _ (sd_kept _ _ C2)). }
  eapply wp_mono; [|exact Hd]. intros [] k2 [[Hh2 Hp2] Hc2]. by apply pick_returns.
Qed.
End traps.
