(* ===== verification/KernelSurvives.v ===== *)
(** * Programs do not bring the kernel down

    The kernel together with what user programs, the clock and the devices may
    do to it, as a machine that takes one event after another.  Once the first
    process has been started, every event that [possible] allows is handled to
    its end: no sequence of such system calls, faults, interrupts and switches
    leads to a panic. *)
From stdpp Require Import base numbers functions gmap list.
From coqutil Require Import Byte LittleEndianList.
From Stdlib Require Import Lia.
From S2P Require Import Prelude Memory Config Addr FrameIface FrameProps PageTable PageTableInv PageTableOps KernelMap.
From S2P Require Import Space SpaceInv SpaceMap SpaceOps SpaceUser SpaceWrite SpaceProps Loader LoaderProps.
From S2P Require Import Device Trap Task Sched SchedProps Kernel Process Syscall ArgsProps ImageProps ProcessProps LifeProps SyscallProps.
From S2P Require Import KernelDemo FrameTypes Holdings Isolation CallIsolation TrapIsolation ProcessIsolation.
From S2P Require Import Health Survive SurviveTraps UartProps Boot KernelBoot.
From S2P Require Import KernelSpace KernelSpaceProps PageTableProps.
From S2P Require Uart Frame.

Section machine.
Context {S D : Type} `{FrameAllocator S, !FrameAllocatorLaws S} `{HU : UartProps.Uart16550 D} `{HF : Firmware D} `{!Environment D}.
Abbreviation Kst := (Kernel S D).
Abbreviation K := (ST Kst).
Implicit Types (k : Kst) (O : gmap Pid Z).
Context (programs : list (list byte * list byte)) (entry : Z).

(** ** The machine

    The kernel's state, and the handlers that gave up the processor: for each,
    how often it may still be woken and how it goes on. *)
Record computer := mkComputer {
  cp_kernel : Kst;
  cp_sleepers : gmap Pid (nat * (Kst → outcome (prog S D Z * Kst))) }.
Implicit Types (c : computer).

(** What can happen next.  A program stores a byte, or traps with the registers
    of [f], the status word [st] and the pending bits [pending]; a task whose
    handler had given up the processor goes on; a task enters user mode for the
    first time; the idle loop makes a round; an interrupt ends its wait. *)
Inductive event :=
| EvStore (va : Z) (v : byte)
| EvTrap (f : TrapFrame) (st pending : Z) (poll wakes irqs : nat) (scause : Z)
| EvResume
| EvEnter
| EvIdle
| EvInterrupt (irqs : nat) (scause : Z).

Definition running c : option Pid := current (k_sched (cp_kernel c)).
Definition running_frame c : option Z := p ← running c; t ← tasks (k_sched (cp_kernel c)) !! p; frame (user t).

(** Where a handler of [p] ended; [n] is how often it may be woken from now on. *)
Definition settle (p : Pid) (n : nat) c (pr : prog S D Z) k : computer :=
  mkComputer k (match pr with Away r => <[p := (n, r)]> (cp_sleepers c) | _ => delete p (cp_sleepers c) end).

Definition run (e : event) c : outcome computer :=
  let k := cp_kernel c in
  match e with
  | EvStore va v =>
      Ret (match hw_addr (fa_mem (k_mem k)) (satp (k_hart k)) va with
           | Some (pa, g) => if contains g (Z.lor Flags.WRITE Flags.USER) then mkComputer (stored_at pa v k) (cp_sleepers c) else c
           | None => c
           end)
  | EvTrap f st pending poll wakes irqs scause =>
      p ← expect (running c);
      b ← expect (running_frame c);
      '(pr, k') ← user_trap_handler programs entry poll wakes irqs scause b (saved b f (hardware st pending k));
      Ret (settle p (pred wakes) c pr k')
  | EvResume =>
      p ← expect (running c);
      '(n, r) ← expect (cp_sleepers c !! p);
      '(pr, k') ← r k;
      Ret (settle p (pred n) c pr k')
  | EvEnter => '(_, k') ← user_entry k; Ret (mkComputer k' (cp_sleepers c))
  | EvIdle => '(_, k') ← run_iter k; Ret (mkComputer k' (cp_sleepers c))
  | EvInterrupt irqs scause =>
      '(pr, k') ← kernel_trap_handler irqs scause k;
      match pr with Done _ => Ret (mkComputer k' (cp_sleepers c)) | _ => Panic end
  end.

(** ** When an event can happen *)

(** The process on the processor is in user mode. *)
Definition in_user c (p : Pid) : Prop := running c = Some p ∧ cp_sleepers c !! p = None.

(** A system call comes from user space while pids are left, and an [sbrk] does
    not run out of memory part way. *)
Record call_possible (p : Pid) k (f : TrapFrame) : Prop := {
  cp_room : room k;
  cp_pc : tf_sepc f < USER_MAX_ADDR;
  cp_sbrk : syscall_id f = Ret nr.SYS_SBRK → ∀ d, arg f 0 = Ret d → sbrk_clean p (as_isize d) k }.

Definition possible c (e : event) : Prop :=
  let k := cp_kernel c in
  match e with
  | EvStore va v => 0 ≤ va < USER_MAX_ADDR ∧ ∃ p t, in_user c p ∧ tasks (k_sched k) !! p = Some t ∧ is_Some (space (user t))
  | EvTrap f st pending poll wakes irqs scause => ∃ p, in_user c p ∧ frame_typed f ∧ u64 st ∧
      (UartProps.thr_max < poll)%nat ∧ (0 < wakes)%nat ∧ caused irqs scause k ∧ (decode scause = UserEcall → call_possible p k f)
  | EvResume => ∃ p n r, running c = Some p ∧ cp_sleepers c !! p = Some (n, r) ∧ (0 < n)%nat
  | EvEnter => ∃ p, in_user c p
  | EvIdle => running c = None
  | EvInterrupt irqs scause => running c = None ∧ previous (k_sched k) = None ∧ caused irqs scause k ∧
      (decode scause = TimerInterrupt ∨ decode scause = ExternalInterrupt ∨ decode scause = SoftwareInterrupt)
  end.
Definition happens c c' : Prop := ∃ e, possible c e ∧ run e c = Ret c'.

(** ** The invariant *)
Record stable c O : Prop := {
  sb_hale : hale O (cp_kernel c);
  sb_dom p : is_Some (O !! p) → is_Some (cp_sleepers c !! p);
  sb_sleepers p n r : cp_sleepers c !! p = Some (n, r) → ∃ b, O !! p = Some b ∧ survives p b n (Away r) }.

Lemma stable_same c O k : stable c O → hale O k → stable (mkComputer k (cp_sleepers c)) O.
Proof. intros [_ B C] Hk. by split. Qed.

(** A handler that has ended, asleep or not. *)
Lemma settle_stable p b n c O pr k : stable c O → landed p b (<[p := b]> O) pr k → survives p b n pr → ∃ O', stable (settle p n c pr k) O'.
Proof.
  intros [A B C] Hl Hs. pose proof (landed_hale _ _ _ _ _ Hl) as [L1 L2 L3].
  assert (Hgone : (∀ r, pr ≠ Away r) → stable (mkComputer k (delete p (cp_sleepers c))) (delete p O)).
  { intros _. split; cbn.
    - split; [done| |done]. eapply healthy_sub; [|exact L2]. etransitivity; [|apply insert_mono, delete_subseteq].
      apply insert_subseteq, lookup_delete_eq.
    - intros q [? ?]%lookup_delete_is_Some. apply lookup_delete_is_Some. auto.
    - intros q n' r [Hq Hr]%lookup_delete_Some. destruct (C q n' r Hr) as (b' & Hb' & ?). exists b'. by rewrite lookup_delete_ne. }
  destruct pr as [v|r|]; [exists (delete p O); by apply Hgone| |exists (delete p O); by apply Hgone].
  exists (<[p := b]> O). split; [by split|..]; cbn.
  - intros q Hq. destruct (decide (q = p)) as [->|]; [rewrite lookup_insert_eq; by eexists|]. rewrite lookup_insert_ne in Hq by done.
    rewrite lookup_insert_ne by done. by apply B.
  - intros q n' r' [[<- [= <- <-]]|[Hq Hr]]%lookup_insert_Some; [exists b; by rewrite lookup_insert_eq|].
    destruct (C q n' r' Hr) as (b' & Hb' & ?). exists b'. by rewrite lookup_insert_ne.
Qed.

Lemma trap_hale O k p t b f st pending : hale O k → frame_typed f → u64 st → current (k_sched k) = Some p → tasks (k_sched k) !! p = Some t →
  frame (user t) = Some b → let k0 := saved b f (hardware st pending k) in
  hale O k0 ∧ fit p b (<[p := b]> O) k0.
Proof.
  intros [Hs Hh Hty] Hf Hst Hc Ht Hb k0. destruct (trap_alive p t b f st pending k Hs Hc Ht Hb) as (Ha & _ & _).
  assert (Hk0 : hale O k0); [|split; [done|by apply (hale_fit O k0 p t b)]]. split.
  - split; [apply Ha|]. intros q Hq. assert (q = p) as -> by (cbn in Hq; congruence). apply Ha.
  - apply (healthy_hart O (set_boxes (k_boxes k0) k)); [|done]. destruct Hh as [H1' H2' H3' H4' H5' H6' H7']. by split.
  - by apply saved_typed.
Qed.

Context (Hfit : Forall (fits ∘ snd) programs).

Lemma callable_saved p k f b st pending : call_possible p k f → callable p (saved b f (hardware st pending k)) f.
Proof.
  intros [C1 C2 C4]. split; [done|done|]. intros Hid d Hd.
  apply (sbrk_clean_local p (as_isize d) (k_hart (hardware st pending k))). by apply C4.
Qed.
Lemma trap_stable f st pending poll wakes irqs scause c O : stable c O → possible c (EvTrap f st pending poll wakes irqs scause) →
  ∃ c' O', run (EvTrap f st pending poll wakes irqs scause) c = Ret c' ∧ stable c' O'.
Proof.
  intros Hc (p & [Hr Hp] & Hf & Hst & Hpoll & Hw & Hca & Hcall). pose proof (sb_hale _ _ Hc) as Hk.
  destruct (hale_task O _ p Hk Hr) as (t & b & Ht & Hb). destruct (trap_hale O _ p t b f st pending Hk Hf Hst Hr Ht Hb) as [Hk0 Hfit0].
  assert (Hn : O !! p = None) by (apply eq_None_not_Some; intros [? ?]%(sb_dom _ _ Hc); congruence).
  assert (Ew : wp (user_trap_handler programs entry poll wakes irqs scause b) (λ pr k', ∃ b', landed p b' (<[p := b']> O) pr k' ∧ survives p b' (pred wakes) pr)
    (saved b f (hardware st pending (cp_kernel c)))).
  { set (k0 := saved b f (hardware st pending (cp_kernel c))) in *.
    assert (Hlive : ∀ g, live (k_boxes k0) !! b = Some g → g = f) by (intros g; cbn; rewrite lookup_insert_eq; congruence).
    apply survive_user_trap; [done|done|done|done|lia|by destruct Hca|]. intros g Hd ->%Hlive. by apply callable_saved, Hcall. }
  destruct (wp_run _ _ _ Ew) as (pr & k' & E & b' & Hl & Hsv). destruct (settle_stable p b' (pred wakes) c O pr k' Hc Hl Hsv) as [O' HO'].
  exists (settle p (pred wakes) c pr k'), O'. split; [|done]. unfold run, running_frame. rewrite Hr. cbn. rewrite Ht. cbn. rewrite Hb. cbn.
  by rewrite E.
Qed.
Lemma resume_stable c O : stable c O → possible c EvResume → ∃ c' O', run EvResume c = Ret c' ∧ stable c' O'.
Proof.
  intros Hc (p & n & r & Hr & Hp & Hn). pose proof (sb_hale _ _ Hc) as Hk. destruct (sb_sleepers _ _ Hc p n r Hp) as (b & HO & Hsv).
  destruct (hale_task O _ p Hk Hr) as (t & b' & Ht & Hb). assert (b' = b) as ->.
  { destruct (hy_frame _ _ (ha_healthy _ _ Hk) p t Ht) as [_ Hf]. specialize (Hf b HO). congruence. }
  pose proof (hale_fit O _ p t b Hk Hr Ht Hb) as Hf. destruct n as [|n]; [lia|]. cbn in Hsv.
  destruct (wp_run _ _ _ (Hsv _ _ Hf)) as (pr & k' & E & Hl & Hsv'). destruct (settle_stable p b n c O pr k' Hc Hl Hsv') as [O' HO'].
  exists (settle p n c pr k'), O'. split; [|done]. unfold run. rewrite Hr. cbn. rewrite Hp. cbn. by rewrite E.
Qed.
Lemma store_hale O k p t sp va v pa g : hale O k → current (k_sched k) = Some p → tasks (k_sched k) !! p = Some t → space (user t) = Some sp →
  0 ≤ va < USER_MAX_ADDR → hw_addr (fa_mem (k_mem k)) (satp (k_hart k)) va = Some (pa, g) → hale O (stored_at pa v k).
Proof.
  intros [Hs [H1' H2' H3' H4' H5' H6' H7'] [T1 T2 T3 T4]] Hc Ht Hsp Hva Hh.
  destruct (store_spec p t sp va pa g v k Hs Hc Ht Hsp Hva Hh) as [Hs' _]. split; [done|by split|by split].
Qed.

(** Every event is handled. *)
Lemma event_stable c O e : stable c O → possible c e → ∃ c' O', run e c = Ret c' ∧ stable c' O'.
Proof.
  intros Hc He. pose proof (sb_hale _ _ Hc) as Hk. destruct e as [va v|f st pending poll wakes irqs scause| | | |irqs scause].
  - destruct He as (Hva & p & t & [Hr _] & Ht & sp & Hsp). unfold run. eexists _, O. split; [reflexivity|].
    destruct (hw_addr _ _ va) as [[pa g]|] eqn:Hh; [|done]. destruct (contains g _); [|done]. apply stable_same; [done|].
    by apply (store_hale O _ p t sp va v pa g).
  - by apply (trap_stable f st pending poll wakes irqs scause c O).
  - by apply (resume_stable c O).
  - destruct He as (p & Hr & _). destruct (wp_run _ _ _ (entry_returns O _ p Hk Hr)) as (b & k' & E & Hk').
    exists (mkComputer k' (cp_sleepers c)), O. unfold run. rewrite E. split; [done|by apply stable_same].
  - destruct (wp_run _ _ _ (run_iter_returns O _ Hk He)) as (o & k' & E & Hk').
    exists (mkComputer k' (cp_sleepers c)), O. unfold run. rewrite E. split; [done|by apply stable_same].
  - destruct He as (Hr & Hp & Hca & Hd). destruct (wp_run _ _ _ (idle_trap irqs scause O _ Hk Hr Hp Hca Hd)) as (pr & k' & E & -> & Hk').
    exists (mkComputer k' (cp_sleepers c)), O. unfold run. rewrite E. split; [done|by apply stable_same].
Qed.
Lemma happens_stable c c' : rtc happens c c' → (∃ O, stable c O) → ∃ O, stable c' O.
Proof.
  induction 1 as [|c1 c2 c3 (e & He & E) _ IH]; [done|]. intros [O HO]. apply IH. destruct (event_stable c1 O e HO He) as (c' & O' & E' & HO').
  rewrite E in E'. injection E' as ->. by exists O'.
Qed.

(** ** The beginning *)

(** The kernel before the first process: nobody waits, no trap frame is in use,
    the console's ring is in order and the machine words are words. *)
Record ready k : Prop := {
  re_ok : kernel_ok k;
  re_sched : k_sched k = boot_sched;
  re_readers : k_readers k = [];
  re_ring : UartProps.ring_ok (Uart.rx_queue (k_con k));
  re_hart : 0 ≤ hart_id (k_hart k) < 2 ^ 16;
  re_typed : kernel_typed k }.

Lemma ready_sane k : ready k → sane ∅ k ∧ settled k.
Proof.
  intros [R1 R2 R3 R4 R5 R6]. split.
  - split; [|by rewrite R2]. split; rewrite ?R2, ?R3; try done.
    + apply sched_ok_boot.
    + by intros x ?%elem_of_nil.
    + intros p [b Hb]. done.
  - apply (boot_sound k R1); by rewrite R2.
Qed.
Lemma created_sane nm image args O k p k' : sane O k → 0 ≤ next_pid (k_sched k) < U64 - 1 → created entry nm image args k p k' →
  sane O k' ∧ is_Some (tasks (k_sched k') !! p) ∧ all_tasks (k_sched k') = all_tasks (k_sched k) ∧ run_queue (k_sched k') = run_queue (k_sched k).
Proof.
  intros Hk Hn Hc. destruct (cr_task _ _ _ _ _ _ _ Hc) as (sp & ks & ksp & b & f & lbrk & argv & Et & _). pose proof (cr_pid _ _ _ _ _ _ _ Hc) as ->.
  pose proof (cr_frame _ _ _ _ _ _ _ Hc) as Ef. split_and!.
  - rewrite Ef. eapply sane_same; [| | | |eapply (sane_new O k _ Hk Hn)]; cbn; [by rewrite Et|done..|by eexists].
  - rewrite Et, lookup_insert_eq. by eexists.
  - by rewrite Ef.
  - by rewrite Ef.
Qed.
Lemma init_hale k k0 : ready k → start_init programs entry k = Ret (tt, k0) → hale ∅ k0.
Proof.
  intros Hr E. destruct (ready_sane k Hr) as [Hk Hs]. pose proof (re_sched _ Hr) as Hb. unfold start_init, mbind, ST_bind, lift in E.
  destruct (find_program programs init_name) as [image|] eqn:Hf; [|done]. cbn [expect] in E. apply find_program_in in Hf as [nm Hin].
  pose proof (proj1 (Forall_forall _ _) Hfit _ Hin) as Hi. cbn in Hi.
  assert (Hn : 0 ≤ next_pid (k_sched k) < U64 - 1) by by rewrite Hb.
  assert (Hargs : args_size [init_name] ≤ USER_STACK_SIZE) by done.
  destruct (new_user entry init_name image [init_name] k) as [[[p|] k1]|] eqn:E1; [|done|done]. cbn [expect] in E.
  pose proof (wp_ret_inv _ _ _ _ _ E1 (new_user_spec entry init_name image [init_name] k (re_ok _ Hr) Hn (ft_len _ Hi) Hargs)) as Hc. cbv beta iota in Hc.
  destruct (created_sane _ _ _ ∅ k p k1 Hk Hn Hc) as (Hk1 & Hp & Ha & Hq).
  destruct (create_spec entry init_name image [init_name] k Hs Hi Hargs Hn _ _ E1) as [Hs1 _].
  destruct (keeps_new_user entry init_name image [init_name] k (re_typed _ Hr) _ _ E1) as [Ht1 _].
  destruct (admit_spec p k1 Hs1 _ _ E) as [Hs0 _]. destruct (keeps_sched (admit_task p) k1 Ht1 _ _ E) as [Ht0 _].
  split; [done| |done]. assert (Hw : wp (in_sched (admit_task p)) (λ _ k', sane ∅ k') k1); [|by destruct (wp_ret_inv _ _ _ _ _ E Hw)].
  apply wp_in_sched. eapply wp_mono; [|apply wp_wlp_conj; [apply (admit_ok (k_sched k1) p)|apply linked_admit]].
  - intros [] s' [? ?]. by apply sane_tied.
  - apply Hk1.
  - by rewrite Hq, Hb.
  - done.
  - rewrite Ha, Hb. apply not_elem_of_nil.
Qed.

(** C2: programs do not bring the kernel down.  Start the first process on a
    kernel that has booted, and let the events of [possible] happen in any
    order: processes store to their memory and trap for any cause with any
    registers, fork, exec, read, write, wait, grow their heap, exit or are
    killed; their handlers sleep and are resumed in states others have changed;
    timer and devices interrupt user programs and the idle loop; the idle loop
    switches and frees tasks.  Then each event possible next is handled to its
    end: no assertion fails, no arithmetic overflows, no index is out of range,
    no canary is found dead, no dropped task is used, and every loop ends.

    Assumed, in [possible], [Environment] and the model: pids are left; no [sbrk]
    runs out of memory part way; the embedded programs end below the stack; a
    timer interrupt comes after its deadline, the transmitter becomes ready, and
    interrupts stop arriving in time; the kernel heap does not run out; a handler
    runs without interruption up to the point where it gives up the hart; and
    output of the kernel's log is not part of the state. *)
Theorem kernel_survives k k0 c e : ready k → start_init programs entry k = Ret (tt, k0) → rtc happens (mkComputer k0 ∅) c → possible c e →
  ∃ c', run e c = Ret c'.
Proof.
  intros Hr E Hc He. pose proof (init_hale k k0 Hr E) as Hk. destruct (happens_stable _ _ Hc) as [O HO].
  - exists ∅. split; [done|by intros p [? ?]|done].
  - destruct (event_stable c O e HO He) as (c' & _ & E' & _). by exists c'.
Qed.
End machine.

(** ** The state [kmain] leaves *)
Lemma kmain_ready {D} `{HU : UartProps.Uart16550 D} `{HF : Firmware D} `{!Environment D} img hart m (d : D) h k :
  linked_image img → im_end img + 0x600000 ≤ DRAM_END + VIRT_OFFSET → 0 ≤ hart < MAX_HARTS → 0 ≤ hart_id h < 2 ^ 16 → u64 (sstatus h) →
  kmain_init img hart (power_on m d h) = Ret (tt, k) → ready k.
Proof.
  intros Hl Htop Hh Hid Hst E.
  assert (Hclock : ∀ d : D, 0 ≤ (rdtime d).1 < 2 ^ 63) by (intros d0; pose proof (clock_bound d0); lia).
  destruct (wp_ret_inv _ _ _ _ _ E (kmain_init_spec Hclock img hart m d h Hl Htop Hh)) as (Hup & Hs & [F1 F2 F3 F4 F5] & _).
  pose proof (up_ok _ _ Hup) as Hok. split; [done|done|done|rewrite F3; apply ring_new_ok|by rewrite F4|]. split.
  - intros a f. by rewrite F2.
  - rewrite F5. by apply u64_lor.
  - rewrite F4. unfold u64, U64. lia.
  - destruct (ko_half _ Hok) as [role Hpt]. pose proof (proj2 (pt_root _ _ _ _ Hpt _) eq_refl) as Hroot.
    destruct (pt_page _ _ _ _ _ _ Hpt Hroot) as [Hr _]. unfold AS_token, token. apply u64_lor; [done|]. unfold u64, U64. lia.
Qed.

(** ** A program that asks for its pid *)
#[export, refine] Instance chip_environment : Environment chip := {| due _ := 0%nat |}.
Proof.
  - done.
  - done.
  - intros h d Hh. cbn. unfold claim_reg, PLIC_BASE, off.CLAIM, off.CONTEXT_STRIDE, VIRT_OFFSET, uart_reg, UART_BASE, Uart.reg.LSR, Uart.reg.RBR_THR_DLL.
    rewrite !(proj2 (Z.eqb_neq _ _)) by (unfold VIRT_OFFSET; lia). done.
  - intros d. cbn. lia.
Defined.

Definition dawn_k : Kernel Frame.PhysMem chip :=
  mkK demo_mem (chip_uart [] Uart.RxRing_new) boot_sched [] (mkBoxes ∅ 1) (mkHart 0 0 kernel_trap_entry 0 0 0) (mkTimer 0 0) demo_kernel_sp [].
Lemma dawn_ready : ready dawn_k.
Proof.
  destruct demo_kernel_ok as [K1 K2 _ _]. split; [|done|done|apply ring_new_ok|done|].
  - split; [exact K1|exact K2|intros a [? ?]; done|intros a [? ?]; done].
  - split; [done|done|done|split; [apply Z.leb_le|apply Z.ltb_lt]; vm_compute; reflexivity].
Qed.
Definition dawn_programs : list (list byte * list byte) := [(init_name, demo_image)].
Lemma dawn_fits : Forall (fits ∘ snd) dawn_programs.
Proof. constructor; [|constructor]. apply fits_check_fits. vm_compute. reflexivity. Qed.

(** The first process waits; then it runs. *)
Definition waiting_k : Kernel Frame.PhysMem chip := (run_or (start_init dawn_programs 0x80200000 dawn_k) tt dawn_k).2.
Lemma waiting_run : start_init dawn_programs 0x80200000 dawn_k = Ret (tt, waiting_k).
Proof.
  assert (Hs : match start_init dawn_programs 0x80200000 dawn_k with Ret (tt, _) => true | _ => false end = true) by (vm_compute; reflexivity).
  unfold waiting_k, run_or. destruct (start_init dawn_programs 0x80200000 dawn_k) as [[[] k]|]; [reflexivity|discriminate Hs].
Qed.
#[global] Opaque waiting_k.
Definition entered_k : Kernel Frame.PhysMem chip := (run_or (run_iter waiting_k) None waiting_k).2.
Lemma entered_run : run_iter waiting_k = Ret (Some 1, entered_k).
Proof.
  assert (Hs : match run_iter waiting_k with Ret (Some 1, _) => true | _ => false end = true) by (vm_compute; reflexivity).
  unfold entered_k, run_or. destruct (run_iter waiting_k) as [[[[|[]|]|] k]|]; try discriminate Hs. reflexivity.
Qed.
#[global] Opaque entered_k.

(** A system call: fork, by the process 1, with [a7] equal to 6. *)
Definition forking : TrapFrame := mkTF (replicate 32 6) 0 0x10004 0 0 0 0.

Lemma forking_possible k : next_pid (k_sched k) = 2 → spawned (run_queue (k_sched k)) = 1 → call_possible (S := Frame.PhysMem) (D := chip) 1 k forking.
Proof.
  intros Hn Hs. split.
  - unfold room. rewrite Hn, Hs. done.
  - done.
  - intros [=].
Qed.

Lemma kernel_survives_witness :
  ∃ c', run dawn_programs 0x80200000 (EvTrap forking 0 0 10 10 10 8) (mkComputer entered_k ∅) = Ret c'.
Proof.
  assert (Hc : current (k_sched entered_k) = Some 1) by (vm_compute; reflexivity).
  assert (Hn : next_pid (k_sched entered_k) = 2) by (vm_compute; reflexivity).
  assert (Hs : spawned (run_queue (k_sched entered_k)) = 1) by (vm_compute; reflexivity).
  apply (kernel_survives dawn_programs 0x80200000 dawn_fits dawn_k waiting_k _ _ dawn_ready waiting_run).
  - apply rtc_once. exists EvIdle. split; [vm_compute; reflexivity|]. unfold run. cbn [cp_kernel]. rewrite entered_run. reflexivity.
  - exists 1. split; [split; [exact Hc|reflexivity]|]. split.
    { split; [done|]. repeat (apply Forall_cons_2; [split; done|]). apply Forall_nil_2. }
    split; [split; done|]. split; [cbn; lia|]. split; [lia|]. split; [split; intros [=]|].
    intros _. exact (forking_possible _ Hn Hs).
Defined.
